(* ===== verification/_CoqProject ===== *)
-Q . S2P
Prelude.v
Utils.v
TimeFormat.v
Json.v
RingBuffer.v
Double.v
DoubleText.v
Sha1.v
NetUtils.v
Types.v
Config.v
Regex.v
LogParser.v
RuntimeStats.v
SyslogServer.v
Listeners.v
SyslogThreads.v
SyslogStop.v
StateStore.v
StoreCleanup.v
StoreInvariant.v
StoreUpdates.v
StoreQueries.v
App.v
AppTheorems.v
CleanupLoop.v
Prometheus.v
Sqlite.v
SqliteEngine.v
SqliteLoad.v
SqliteRetention.v
SqliteTheorems.v
SqliteAggregates.v
AppStorage.v
AppThreads.v
AppInterleavings.v
WebJson.v
WebServer.v
WebRequests.v
WebResponses.v
WebAccess.v
WebClients.v
WebThreads.v
Lifecycle.v
LifecycleTheorems.v
LifecycleStop.v
Main.v
