(* ===== verification/Prelude.v ===== *)
(** * OpenWRT Netmon Lite: a verification development

    The program is a C++20 service that receives syslog datagrams and TCP streams from
    OpenWRT routers, parses them into telemetry, keeps the state of the local network in
    memory (devices, traffic rates, interfaces, events, attacks), publishes it to a web
    dashboard and a Prometheus endpoint and optionally stores it in SQLite.

    ** The parts of the program and their interaction

    [src/src/syslog_server.cpp] receives bytes, filters peers ([net_utils.cpp]) and hands
    lines to [App::handleLog] ([app.cpp]), which parses them ([log_parser.cpp], on the string
    functions of [utils.cpp]), counts them ([runtime_stats.cpp]), updates the state store
    ([state_store.cpp], whose histories are ring buffers, [ring_buffer.hpp]), persists
    ([sqlite_store.cpp]) and broadcasts ([web_server.cpp]).  A cleanup thread ages the state
    once a minute.  The configuration ([config.cpp]) is read once at the start.

    ** The files

    - [Prelude] (this file): byte strings, machine integers and time points, the list and
      string functions of the standard library the program uses, [HashOrder] (an unordered map
      is visited in an unspecified order, once per entry), assignment of a struct member
      ([r <| f := v |>]), shared tactics.
    - [Utils]: utils.cpp.  Trimming, splitting, numbers, JSON escaping, key-value fields, each
      with its characterisation or round trip.
    - [TimeFormat]: [formatIso8601] of utils.cpp, with the Gregorian calendar.
    - [Json]: the specification of JSON texts: values, their text, a strict reader, and that
      the reader inverts the text.
    - [RingBuffer]: ring_buffer.hpp, refined against the unbounded history.
    - [Double]: the binary64 arithmetic of the rates (SpecFloat, round to nearest even), and
      that the rate of a counter difference over a positive time is finite and not negative.
    - [DoubleText]: the default printing of a [double] into a stream, exactly.
    - [Sha1]: SHA-1, Base64 and the WebSocket accept key of web_server.cpp.
    - [NetUtils]: net_utils.cpp.  Listen addresses and trusted peers.
    - [Types]: types.hpp, one record per struct.
    - [Config]: config.hpp and config.cpp.  The file loader line by line and the environment.
      The file system and the environment are the parameters [read_file] and [getenv].
    - [Regex]: a backtracking matcher for the three regular expressions of the log parser
      (std::regex with the ECMAScript grammar: captures, leftmost, alternatives in order,
      greedy repetition), with soundness and completeness against a declarative semantics.
    - [LogParser]: log_parser.cpp.  Every recogniser, and the dispatcher as a decision list.
    - [RuntimeStats]: runtime_stats.cpp, with the two increments of a message as two steps.
    - [SyslogServer]: syslog_server.cpp from the bytes on.
    - [Listeners]: what the two servers share: open descriptors, [closeIfOpen] in its three steps,
      the way from an address to a listening socket.
    - [SyslogThreads]: [start], [stop], [runUdp], [runTcp] and [handleTcpClient] of
      syslog_server.cpp as threads, a step relation.
    - [SyslogStop]: the theorems on them: what the handler gets, whose the descriptors are, and
      that [stop] returns when the calls of the handler do.
    - [StateStore]: state_store.cpp.  The record of members and one function per member
      function, in the order of the source.
    - [StoreCleanup]: what [cleanup] does to every table.
    - [StoreInvariant]: the operations as a step relation [store_step], the reachable states,
      and the invariant [store_ok] that every operation preserves.
    - [StoreUpdates]: the theorems on the operations that change the store.
    - [StoreQueries]: the theorems on [statusFor], [devices] and [summary].
    - [App]: app.cpp.  [handleLog], one handler per message type, the sanitising of stored
      values, [start], one round of [runCleanupLoop].
    - [AppTheorems]: the theorems on the application.
    - [CleanupLoop]: when [runCleanupLoop] sleeps, runs a round and ends.
    - [Prometheus]: prometheus_exporter.cpp, the whole text of the metrics.
    - [Sqlite]: sqlite_store.cpp.  Rows, conversions, what the SQL texts mean on tables, and every
      operation as its calls into libsqlite3, which is the interface [SqliteApi]; [SqliteSpec]
      is the promise that the library does what the SQL says.
    - [SqliteEngine]: a library that keeps [SqliteSpec]; what single calls do to the tables.
    - [SqliteLoad]: loading libsqlite3, opening the database, the schema, and the destructor, with
      every failure; it refines the constructor of [Sqlite].
    - [SqliteRetention], [SqliteTheorems], [SqliteAggregates]: the theorems on retention and the
      size limit, on writing and reading back, on history and totals.
    - [AppStorage]: the application and its database together: the recorded effects carried out
      ([perform]), and the state loaded at the start.
    - [AppThreads]: the handlers of app.cpp as programs of atomic calls, and a pool of threads
      that runs them.
    - [AppInterleavings]: the theorems on handlers that run at the same time.
    - [WebJson]: the JSON texts of web_server.cpp and the values they stand for.
    - [WebServer]: web_server.cpp from the received chunks to the response text: [read_request],
      [parseRequest], [authorized], [routeHttp], [sendResponse], [handleWebSocket], [handleClient].
    - [WebRequests], [WebResponses], [WebAccess]: the theorems on reading requests, on what
      clients make of responses, and on what requests can reach.
    - [WebClients]: the WebSocket clients and their descriptors as a step relation.
    - [WebThreads]: [start], [stop] and [run] of web_server.cpp as a step relation.
    - [Lifecycle]: the process: what [main] does with [App::start], [App::stop] and [~App], the
      threads of both servers, the cleanup thread, [App::wait] and signals as a step relation.
    - [LifecycleTheorems], [LifecycleStop]: its invariant and exit code; that the process comes to
      its end, is silent after [stop], and what a client that does not read does to it.
    - [Main]: main.cpp, the command line.

    ** How state and operations correspond to the code

    A [std::string] is a list of bytes ([bytes]); an unordered map is a [gmap]; an ordered
    traversal of one takes its order from [HashOrder], so theorems hold for every order.  A
    [size_t] or [uint64_t] is an integer reduced by [u64] where it can wrap; an [int] is kept
    in its range by the loader.  A time point is a count of nanoseconds ([i64] where differences
    or conversions can overflow).  The mutexes of the store and of the statistics make each
    member function atomic: a call is a function from state to state, and a concurrent run is a
    sequence of calls; where a function is made of several atomic actions (the statistics,
    numbering an event and adding it later) the actions are separate steps.  A handler makes
    several calls without a lock around them: [App] has it as a function, which is what it does
    when it runs alone ([handlers_alone]), and [AppThreads] as a program whose calls interleave
    with those of other threads.  A reading of
    [nowSystem] is an argument: operations with several readings take a clock from call sites to
    times, on which nothing is assumed.  The threads of the servers are step relations: any
    thread may take the next step, and a system call may end in each of its ways (the outcome is
    an argument of the step); a step is one access to [running_], to a descriptor field or to
    the set of clients, or one system call.  Calls of the application into the database and the web
    server are recorded in order as a trace of [Effect]s, which [AppStorage] carries out on a
    database.  A request of the web server reads the store at several [Moment]s, between which
    other threads may change it; a database is read at most once per request.

    ** What the theorems show

    - The store: [store_invariant_reachable], the effect and frame of device and traffic
      updates, exactly which records a sweep erases and which events it reports, that a second
      sweep does nothing, unique event numbers under interleaving, the log time, the queries.
    - Parsing: priority of the recognisers, telemetry round trips, MAC addresses, and the
      round trips of the utilities underneath.
    - The application: every line becomes one event and is counted once, a device line reaches
      the record it names, the store invariant survives any run, stored events are bounded and
      lose no allowed field, memory mode stores nothing.
    - Handlers at the same time: whatever the order of their calls, event numbers are unique when
      the store started empty, and every line is counted once and leaves one event, interface
      telemetry apart, which leaves none ([concurrent_lines_counted]).
    - The process: the exit code tells whether it started; once [stop] has begun it comes to its
      end in a bounded number of steps of its threads ([process_comes_to_its_end], as long as no
      WebSocket client stalls), and after [stop] no line is handled any more.
    - The receiver: framing does not depend on the segmentation of the stream; only trusted
      peers and bounded lines reach the handler, in every interleaving of its threads.  It closes
      no descriptor but its own and leaves none open, in the courses in which [stop] and a
      thread whose [bind] or [listen] failed do not overlap in [closeIfOpen]; when they do, a
      descriptor of another owner can be closed ([stop_closes_descriptors] has both).  [stop]
      has a bounded number of steps, and returns when the calls of the handler return
      ([stop_returns]); which calls return is a parameter of the receiver, and [Lifecycle]
      instantiates it: a call that broadcasts returns when no WebSocket client stalls.
    - The configuration: every loaded configuration is within its machine ranges; this gives
      the hypothesis [sizes_ok] of the theorems on the store ([config_sizes_ok]).
    - The database: an event or device written is read back, retention and the size limit delete
      exactly the oldest rows, the totals and the history are the sums of their samples, a
      restart restores the newest rows, and a handled line reaches its table; opening fails with a
      text that names the reason.  These assume
      [SqliteSpec] of the library and hold for every library that keeps it ([memory_spec] does).
    - The web server: requests are answered alike however they are cut into chunks, parsed into
      what the client wrote, and answered with a response the client can split, whose body is
      the JSON value of the data; without the token nothing can be learned; only fixed files are
      read; frames, the accept key and the numbers read back; and one theorem from the bytes of
      a request to the events its client reads ([events_request_end_to_end]).
    - The metrics: every line is one comment or sample, whatever the names hold.
    - Behaviours that differ from what the code is meant to do are stated as theorems too:
      [address_takeover_merges_records], [wifi_disconnect_shows_online],
      [reloaded_event_id_collision], [reloaded_event_loses_fields],
      [cleanStorageValue_pads_with_nul], [overlong_line_tail_is_delivered],
      [timestamp_overflow], [huge_retention_deletes_everything], [limit_zero_lifts_the_cap],
      [handlers_close_their_own_until_a_send_fails], [stop_closes_descriptors], [listeners_select_on_their_own_socket],
      [first_stop_can_leave_a_socket], [web_stop_does_not_wait_for_connections],
      [stalled_client_blocks_stop], [wait_can_sleep_through_stop], [database_can_fall_behind],
      [throwing_constructor_leaks].

    ** Fuel

    Four loops recurse on fuel: [split_loop], [kv_loop], [stream_tokens] and [tcp_lines].  Each
    starts with one more than the length of its input and every iteration consumes at least one
    byte, so the fuel never runs out ([split_loop_join], [kv_loop_fuel], [stream_tokens_fuel],
    [tcp_lines_split]);
    [dec_aux] has one unit per bit.  The reader of JSON recurses on fuel too: the length of the
    text is enough ([json_size_length]).  [size_loop] has the twelve rounds of the source and
    [sha_chunks] one unit per chunk; [runCleanupLoop] one for each full minute and one more
    ([cleanup_loop_paces]).  All other recursion is structural.

    ** Not modelled

    What the kernel does in a system call beyond its result and the table of descriptors, signals
    and the clock (inputs of the model): in particular a [recvfrom] or [accept] that blocks
    although [select] reported its descriptor; a descriptor of one part of the program closed by
    another (each server has a table of its own, that of the receiver with the descriptors of
    the rest of the process as foreign ones); what
    libsqlite3 does with the SQL texts beyond [SqliteSpec]; the file system, the environment,
    the dynamic loader, [inet_pton] and [inet_ntop] (parameters); the failure to create a thread
    or to allocate memory; in [Lifecycle] a call of the handler is one step together with the
    step of the receiver that makes it ([AppThreads] has the calls inside), and a broadcast blocks
    before it or not at all;
    the shell collectors, the browser code and the deployment files. *)

From stdpp Require Export gmap strings list sorting.
From Stdlib Require Export Ascii ZArith Lia.
From Stdlib Require Strings.String.

#[export] Set Default Proof Using "Type".
#[export] Set Warnings "-clear-no-such-hyp,-level-tolerance".

(** ** Byte strings

    A [std::string] or [std::string_view] is a sequence of bytes: a list of
    8-bit characters.  String literals coerce to it. *)

Abbreviation bytes := (list ascii).

#[warnings="-uniform-inheritance"]
Coercion String.list_ascii_of_string : String.string >-> list.

Declare Scope netmon_scope.
Delimit Scope netmon_scope with netmon.

Open Scope string_scope.
Open Scope list_scope.
Open Scope Z_scope.

Create HintDb netmon.
Create Rewrite HintDb netmon.

(** The characters the program tests for. *)
Definition c_nul : ascii := "000".
Definition c_tab : ascii := "009".
Definition c_nl : ascii := "010".
Definition c_cr : ascii := "013".
Definition c_space : ascii := "032".
Definition c_dquote : ascii := "034".
Definition c_squote : ascii := "039".
Definition c_backslash : ascii := "092".

Definition code (c : ascii) : Z := Z.of_N (N_of_ascii c).
Definition chr (z : Z) : ascii := ascii_of_N (Z.to_N z).

Lemma code_range c : 0 <= code c < 256.
Proof. unfold code. pose proof (N_ascii_bounded c). lia. Qed.

Lemma chr_code c : chr (code c) = c.
Proof. unfold chr, code. rewrite N2Z.id. apply ascii_N_embedding. Qed.

Lemma code_chr z : 0 <= z < 256 -> code (chr z) = z.
Proof.
  intros Hz. unfold chr, code. rewrite N_ascii_embedding by lia.
  apply Z2N.id. lia.
Qed.

Lemma code_inj a b : code a = code b -> a = b.
Proof. intros H. by rewrite <- (chr_code a), <- (chr_code b), H. Qed.

(** ** Machine integers

    [std::uint64_t] and [std::size_t] are integers modulo [2^64];
    [std::int64_t] is the two's complement range.  Times
    ([std::chrono::system_clock::time_point] of libstdc++) are [int64]
    nanosecond counts since the epoch. *)

Definition two64 : Z := 18446744073709551616.
Definition two63 : Z := 9223372036854775808.
Definition two32 : Z := 4294967296.

Definition u64 (z : Z) : Z := z mod two64.
Definition i64 (z : Z) : Z := (z + two63) mod two64 - two63.
Definition u32 (z : Z) : Z := z mod two32.
Definition i32 (z : Z) : Z := (z + two32 / 2) mod two32 - two32 / 2.

Lemma u64_range z : 0 <= u64 z < two64.
Proof. apply Z.mod_pos_bound. reflexivity. Qed.

Lemma u64_small z : 0 <= z < two64 -> u64 z = z.
Proof. apply Z.mod_small. Qed.

Lemma i64_range z : - two63 <= i64 z < two63.
Proof.
  unfold i64. pose proof (Z.mod_pos_bound (z + two63) two64 eq_refl).
  unfold two63, two64 in *. lia.
Qed.

Lemma i64_small z : - two63 <= z < two63 -> i64 z = z.
Proof.
  intros Hz. unfold i64. rewrite Z.mod_small; [lia|].
  unfold two63, two64 in *. lia.
Qed.

#[export] Hint Rewrite u64_small i64_small using (unfold two63, two64 in *; lia) : netmon.

(** Time points and durations, in nanoseconds. *)
Abbreviation time := Z (only parsing).

Definition ns_per_s : Z := 1000000000.
Definition epoch : time := 0.

(** [tp1 - tp2] of two time points, at its width. *)
Definition tsub (a b : time) : Z := i64 (a - b).

Lemma tsub_upper a b : tsub a b < two64.
Proof. unfold tsub. pose proof (i64_range (a - b)). unfold two63, two64 in *. lia. Qed.

(** A plausible wall-clock reading: positive, and before the year 2116, so that
    differences of two of them do not overflow. *)
Definition sane_time (t : time) : Prop := 0 < t < two63 / 2.

Lemma tsub_sane a b : sane_time a -> sane_time b -> tsub a b = a - b.
Proof.
  unfold sane_time, tsub. intros Ha Hb. apply i64_small.
  unfold two63 in *. change (9223372036854775808 / 2) with 4611686018427387904 in *.
  lia.
Qed.

(** ** List functions of the string operations *)

Section Lists.
Context {A : Type}.
Implicit Types (p : A -> bool) (l : list A).

(** [while (it != end && p(deref it)) ++it], as the prefix passed and what is left. *)
Fixpoint take_while p l : list A :=
  match l with
  | [] => []
  | x :: t => if p x then x :: take_while p t else []
  end.

Fixpoint drop_while p l : list A :=
  match l with
  | [] => []
  | x :: t => if p x then drop_while p t else l
  end.

(** [while (begin != end && p(deref (end-1))) --end]. *)
Definition rdrop_while p l : list A := reverse (drop_while p (reverse l)).

(** The last [n] elements. *)
Definition lastn (n : nat) l : list A := drop (length l - n) l.

Lemma take_drop_while p l : take_while p l ++ drop_while p l = l.
Proof. induction l as [|x t IH]; simpl; [done|]. destruct (p x); simpl; congruence. Qed.

Lemma take_while_forall p l : Forall (fun x => p x = true) (take_while p l).
Proof. induction l as [|x t IH]; simpl; [done|]. destruct (p x) eqn:E; auto. Qed.

Lemma drop_while_head p l x t : drop_while p l = x :: t -> p x = false.
Proof.
  induction l as [|y l IH]; simpl; [done|].
  destruct (p y) eqn:E; [done|]. by intros [= -> ->].
Qed.

Lemma drop_while_length p l : (length (drop_while p l) <= length l)%nat.
Proof. induction l as [|x t IH]; simpl; [lia|]. destruct (p x); simpl; lia. Qed.

Lemma drop_while_all p l : Forall (fun x => p x = true) l -> drop_while p l = [].
Proof. induction 1 as [|x l Hx _ IH]; simpl; [done|]. by rewrite Hx. Qed.

Lemma drop_while_none p x t : p x = false -> drop_while p (x :: t) = x :: t.
Proof. intros H. simpl. by rewrite H. Qed.

Lemma take_while_app_stop p l r :
  Forall (fun x => p x = true) l ->
  match r with [] => True | x :: _ => p x = false end ->
  take_while p (l ++ r) = l.
Proof.
  intros Hl Hr. induction Hl as [|x l Hx _ IH]; simpl.
  - destruct r; simpl; [done|]. by rewrite Hr.
  - by rewrite Hx, IH.
Qed.

Lemma drop_while_app_stop p l r :
  Forall (fun x => p x = true) l ->
  match r with [] => True | x :: _ => p x = false end ->
  drop_while p (l ++ r) = r.
Proof.
  intros Hl Hr. induction Hl as [|x l Hx _ IH]; simpl.
  - destruct r; simpl; [done|]. by rewrite Hr.
  - by rewrite Hx, IH.
Qed.

Lemma drop_while_idemp p l : drop_while p (drop_while p l) = drop_while p l.
Proof.
  destruct (drop_while p l) as [|x t] eqn:E; [done|].
  apply drop_while_none. by eapply drop_while_head.
Qed.

Lemma drop_while_Forall (P : A -> Prop) p l : Forall P l -> Forall P (drop_while p l).
Proof. induction 1 as [|x l Hx Hl IH]; simpl; [done|]. destruct (p x); auto. Qed.

Lemma rdrop_while_split p l :
  exists r, l = rdrop_while p l ++ r /\ Forall (fun x => p x = true) r.
Proof.
  exists (reverse (take_while p (reverse l))). split.
  - unfold rdrop_while. rewrite <- reverse_app, take_drop_while. by rewrite reverse_involutive.
  - apply Forall_reverse. apply take_while_forall.
Qed.

Lemma rdrop_while_last p l x : last (rdrop_while p l) = Some x -> p x = false.
Proof.
  unfold rdrop_while. rewrite last_reverse.
  destruct (drop_while p (reverse l)) as [|y t] eqn:E; simpl; [done|].
  intros [= ->]. by eapply drop_while_head.
Qed.

Lemma rdrop_while_snoc_drop p l x : p x = true -> rdrop_while p (l ++ [x]) = rdrop_while p l.
Proof. intros H. unfold rdrop_while. rewrite reverse_app. simpl. by rewrite H. Qed.

Lemma rdrop_while_snoc_keep p l x : p x = false -> rdrop_while p (l ++ [x]) = l ++ [x].
Proof.
  intros H. unfold rdrop_while. rewrite reverse_app. simpl. rewrite H.
  by rewrite reverse_cons, reverse_involutive.
Qed.

Lemma rdrop_while_length p l : (length (rdrop_while p l) <= length l)%nat.
Proof.
  unfold rdrop_while. rewrite length_reverse.
  pose proof (drop_while_length p (reverse l)) as H. by rewrite length_reverse in H.
Qed.

Lemma rdrop_while_Forall (P : A -> Prop) p l : Forall P l -> Forall P (rdrop_while p l).
Proof. intros H. by apply Forall_reverse, drop_while_Forall, Forall_reverse. Qed.

Lemma drop_app_S_length l x r : drop (S (length l)) (l ++ x :: r) = r.
Proof. induction l as [|y l IH]; simpl; [apply drop_0|done]. Qed.

Lemma lastn_all n l : (length l <= n)%nat -> lastn n l = l.
Proof. intros H. unfold lastn. by replace (length l - n)%nat with 0%nat by lia. Qed.

Lemma lastn_length n l : length (lastn n l) = Nat.min n (length l).
Proof. unfold lastn. rewrite length_drop. lia. Qed.

Lemma lastn_0 l : lastn 0 l = [].
Proof. unfold lastn. apply drop_ge. lia. Qed.

Lemma lastn_lastn n m l : lastn n (lastn m l) = lastn (Nat.min n m) l.
Proof.
  unfold lastn. rewrite drop_drop, length_drop. f_equal. lia.
Qed.

Lemma lastn_snoc n l x : lastn (S n) (l ++ [x]) = lastn n l ++ [x].
Proof.
  unfold lastn. rewrite length_app. simpl.
  replace (length l + 1 - S n)%nat with (length l - n)%nat by lia.
  apply drop_app_le. lia.
Qed.

Lemma lastn_app_ge n l1 l2 : (n <= length l2)%nat -> lastn n (l1 ++ l2) = lastn n l2.
Proof.
  intros H. unfold lastn. rewrite length_app.
  replace (length l1 + length l2 - n)%nat with (length l1 + (length l2 - n))%nat by lia.
  by rewrite drop_app_add.
Qed.

End Lists.

#[export] Hint Resolve take_while_forall drop_while_length rdrop_while_length : netmon.

(** One element of a list changes: what the others contribute stays. *)
Lemma bind_insert {A B} (f : A -> list B) (l : list A) i x x' :
  l !! i = Some x -> exists l1 l2, l ≫= f = l1 ++ f x ++ l2 /\ <[i := x']> l ≫= f = l1 ++ f x' ++ l2.
Proof.
  intros Hi. exists (take i l ≫= f), (drop (S i) l ≫= f). split.
  - rewrite <- (take_drop_middle l i x Hi) at 1. by rewrite bind_app, bind_cons.
  - rewrite insert_take_drop by (by eapply lookup_lt_Some). by rewrite bind_app, bind_cons.
Qed.

(** ** [std::string::find] and friends *)

(** [s.rfind(p, 0) == 0], and the test at one position of [find]. *)
Fixpoint starts_with (p s : bytes) : bool :=
  match p, s with
  | [], _ => true
  | a :: p', b :: s' => if decide (a = b) then starts_with p' s' else false
  | _ :: _, [] => false
  end.

(** [s.ends_with(p)]. *)
Definition ends_with (p s : bytes) : bool := starts_with (reverse p) (reverse s).

(** [s.find(p)]: the least index where [p] occurs; [None] is [npos]. *)
Fixpoint find (p s : bytes) : option nat :=
  if starts_with p s then Some 0%nat
  else match s with
       | [] => None
       | _ :: t => S <$> find p t
       end.

(** [s.find(p) != npos]. *)
Definition contains (p s : bytes) : bool := bool_decide (is_Some (find p s)).

(** [s.find(c)] and [s.rfind(c)] for a character. *)
Definition find_char (c : ascii) (s : bytes) : option nat := find [c] s.

Fixpoint rfind_char (c : ascii) (s : bytes) : option nat :=
  match s with
  | [] => None
  | x :: t =>
      match rfind_char c t with
      | Some i => Some (S i)
      | None => if decide (x = c) then Some 0%nat else None
      end
  end.

Lemma starts_with_spec p s : starts_with p s = true <-> exists t, s = p ++ t.
Proof.
  revert s. induction p as [|a p IH]; intros s; simpl.
  - split; [by exists s|done].
  - destruct s as [|b s].
    + split; [done|]. intros [t Ht]. done.
    + case_decide as Hab.
      * subst b. rewrite IH. split; intros [t Ht]; exists t; simpl in *; congruence.
      * split; [done|]. intros [t Ht]. simplify_eq/=.
Qed.

Lemma starts_with_app p t : starts_with p (p ++ t) = true.
Proof. apply starts_with_spec. by exists t. Qed.

(** [find] returns the first occurrence. *)
Lemma find_Some p s i :
  find p s = Some i ->
  (exists t, drop i s = p ++ t) /\ forall j, (j < i)%nat -> starts_with p (drop j s) = false.
Proof.
  revert i. induction s as [|c s IH]; intros i; cbn [find].
  - destruct (starts_with p []) eqn:E; [|done]. intros [= <-].
    split; [|intros j Hj; lia]. by apply starts_with_spec in E.
  - destruct (starts_with p (c :: s)) eqn:E.
    + intros [= <-]. split; [|intros j Hj; lia]. by apply starts_with_spec in E.
    + intros Hf. apply fmap_Some in Hf as (k & Hk & ->).
      destruct (IH _ Hk) as [Ht Hmin]. split; [done|].
      intros [|j] Hj; [done|]. simpl. apply Hmin. lia.
Qed.

Lemma find_None p s : find p s = None <-> forall i, starts_with p (drop i s) = false.
Proof.
  induction s as [|c s IH]; cbn [find].
  - split.
    + destruct (starts_with p []) eqn:E; [done|]. intros _ i. by rewrite drop_nil.
    + intros H. specialize (H 0%nat). simpl in H. by rewrite H.
  - split.
    + destruct (starts_with p (c :: s)) eqn:E; [done|].
      intros Hf [|i]; simpl; [done|]. apply IH.
      by apply fmap_None in Hf.
    + intros H. pose proof (H 0%nat) as H0. simpl in H0.
      change (drop 0 (c :: s)) with (c :: s) in H0. rewrite H0.
      replace (find p s) with (@None nat); [done|]. symmetry. apply IH.
      intros i. apply (H (S i)).
Qed.

Lemma find_app_first p s t :
  (forall j, (j < length s)%nat -> starts_with p (drop j (s ++ p ++ t)) = false) ->
  find p (s ++ p ++ t) = Some (length s).
Proof.
  induction s as [|c s IH]; intros H.
  - cbn [app length]. destruct (p ++ t) as [|y l] eqn:E.
    + destruct p; [done|]. done.
    + cbn [find]. by rewrite <- E, starts_with_app.
  - cbn [app find length]. pose proof (H 0%nat ltac:(simpl; lia)) as H0.
    cbn [drop app] in H0. rewrite H0, IH; [done|]. intros j Hj. apply (H (S j)). simpl. lia.
Qed.

Lemma contains_app l p r : contains p (l ++ p ++ r) = true.
Proof.
  unfold contains. apply bool_decide_eq_true.
  destruct (find p (l ++ p ++ r)) as [i|] eqn:E; [by eauto|].
  pose proof (proj1 (find_None _ _) E (length l)) as H.
  rewrite drop_app_length, starts_with_app in H. done.
Qed.

Lemma contains_spec p s : contains p s = true <-> exists l r, s = l ++ p ++ r.
Proof.
  split.
  - unfold contains. intros H. apply bool_decide_eq_true in H as [i Hi].
    destruct (find_Some _ _ _ Hi) as [[t Ht] _].
    exists (take i s), t. by rewrite <- Ht, take_drop.
  - intros (l & r & ->). apply contains_app.
Qed.

Lemma find_char_cons c x s :
  find_char c (x :: s) = (if decide (c = x) then Some 0%nat else S <$> find_char c s).
Proof. unfold find_char. cbn [find starts_with]. by case_decide. Qed.

Lemma find_char_Some c s i :
  find_char c s = Some i ->
  s = take i s ++ c :: drop (S i) s /\ c ∉ take i s /\ (i < length s)%nat.
Proof.
  revert i. induction s as [|x s IH]; intros i; [done|].
  rewrite find_char_cons. case_decide as Hc.
  - intros [= <-]. subst x. simpl. split; [done|]. split; [set_solver|lia].
  - intros (k & Hk & ->)%fmap_Some. destruct (IH _ Hk) as (H1 & H2 & H3).
    simpl. split; [congruence|]. split; [set_solver|lia].
Qed.

Lemma find_char_None c s : find_char c s = None <-> c ∉ s.
Proof.
  induction s as [|x s IH]; [split; set_solver|].
  rewrite find_char_cons. case_decide as Hc.
  - subst x. split; [done|set_solver].
  - rewrite fmap_None, IH. set_solver.
Qed.

Lemma find_char_app c s t : c ∉ s -> find_char c (s ++ c :: t) = Some (length s).
Proof.
  induction s as [|x s IH]; intros Hs; simpl.
  - rewrite find_char_cons. by case_decide.
  - rewrite find_char_cons. case_decide; [set_solver|]. rewrite IH; [done|set_solver].
Qed.

Lemma rfind_char_app c s t : c ∉ t -> rfind_char c (s ++ c :: t) = Some (length s).
Proof.
  intros Ht. induction s as [|x s IH]; simpl.
  - replace (rfind_char c t) with (@None nat); [by case_decide|].
    induction t as [|y t IHt]; simpl; [done|].
    rewrite <- IHt by set_solver. case_decide; [set_solver|done].
  - by rewrite IH.
Qed.

Lemma rfind_char_Some c s i :
  rfind_char c s = Some i -> s = take i s ++ c :: drop (S i) s /\ c ∉ drop (S i) s.
Proof.
  revert i. induction s as [|x s IH]; intros i; simpl; [done|].
  destruct (rfind_char c s) as [k|] eqn:E.
  - intros [= <-]. destruct (IH _ eq_refl) as [H1 H2]. simpl. split; [congruence|done].
  - case_decide as Hc; [|done]. intros [= <-]. subst x. simpl. split; [done|].
    clear IH. induction s as [|y s IHs]; [set_solver|]. simpl in E.
    destruct (rfind_char c s); [done|]. case_decide; [done|]. set_solver.
Qed.

#[export] Hint Rewrite starts_with_app : netmon.

(** ** Iteration over [std::unordered_map]

    The C++ standard leaves the iteration order of an [std::unordered_map]
    unspecified.  A model of a loop over such a map takes the order from this
    interface, which promises only that every entry is visited exactly once;
    the theorems hold for every order. *)

Class HashOrder := {
  iter_order : forall {V : Type}, gmap bytes V -> list (bytes * V);
  iter_order_perm : forall {V : Type} (m : gmap bytes V), iter_order m ≡ₚ map_to_list m
}.

(** One admissible order, for running the model. *)
Definition canonical_order : HashOrder :=
  {| iter_order := fun V m => map_to_list m;
     iter_order_perm := fun V m => Permutation_refl _ |}.

Section HashOrderFacts.
Context `{HO : HashOrder}.

Lemma elem_of_iter_order {V} (m : gmap bytes V) k v :
  (k, v) ∈ iter_order m <-> m !! k = Some v.
Proof. rewrite iter_order_perm. apply elem_of_map_to_list. Qed.

Lemma NoDup_iter_order_keys {V} (m : gmap bytes V) : NoDup (iter_order m).*1.
Proof. rewrite iter_order_perm. apply NoDup_fst_map_to_list. Qed.

Lemma length_iter_order {V} (m : gmap bytes V) : length (iter_order m) = size m.
Proof. rewrite iter_order_perm. by rewrite length_map_to_list. Qed.

End HashOrderFacts.

(** ** The order of [std::map] and [std::sort] on strings: sequences of unsigned characters *)

Fixpoint bytes_leb (a b : bytes) : bool :=
  match a, b with
  | [], _ => true
  | _ :: _, [] => false
  | x :: a', y :: b' =>
      if code x <? code y then true else if code y <? code x then false else bytes_leb a' b'
  end.

Definition bytes_le (a b : bytes) : Prop := bytes_leb a b = true.

#[export] Instance bytes_le_dec : RelDecision bytes_le.
Proof. intros a b. unfold bytes_le. apply _. Defined.

Lemma bytes_le_refl a : bytes_le a a.
Proof. unfold bytes_le. induction a as [|x a IH]; simpl; [done|]. by rewrite Z.ltb_irrefl. Qed.

Lemma bytes_le_cons x y a b :
  bytes_le (x :: a) (y :: b) <-> code x < code y \/ (x = y /\ bytes_le a b).
Proof.
  unfold bytes_le. cbn [bytes_leb]. destruct (code x <? code y) eqn:E1; [split; [|done]; left; by apply Z.ltb_lt|].
  destruct (code y <? code x) eqn:E2.
  - split; [done|]. apply Z.ltb_lt in E2. intros [?|[-> _]]; lia.
  - apply Z.ltb_ge in E1, E2. assert (x = y) as -> by (apply code_inj; lia).
    split; [by right|]. intros [?|[_ ?]]; [lia|done].
Qed.

Lemma bytes_le_antisym a b : bytes_le a b -> bytes_le b a -> a = b.
Proof.
  revert b. induction a as [|x a IH]; intros [|y b]; try done.
  rewrite !bytes_le_cons. intros [?|[-> ?]] [?|[? ?]]; subst; try lia. f_equal. auto.
Qed.

#[export] Instance bytes_le_trans : Transitive bytes_le.
Proof.
  intros a. induction a as [|x a IH]; intros [|y b] [|z c]; try done.
  rewrite !bytes_le_cons. intros [?|[-> ?]] [?|[-> ?]]; [left; lia|left; lia|left; lia|].
  right. eauto.
Qed.

#[export] Instance bytes_le_total : Total bytes_le.
Proof.
  intros a. induction a as [|x a IH]; intros b; [by left|]. destruct b as [|y b]; [by right|].
  rewrite !bytes_le_cons. destruct (Z.lt_total (code x) (code y)) as [?|[E|?]]; [tauto| |tauto].
  apply code_inj in E as ->. destruct (IH b); tauto.
Qed.

(** The entries of a [std::map], or of a hash map whose keys have been sorted. *)
Definition key_before {V} (a b : bytes * V) : Prop := bytes_le a.1 b.1.

#[export] Instance key_before_dec {V} : RelDecision (@key_before V).
Proof. intros a b. unfold key_before. apply _. Defined.

#[export] Instance key_before_trans {V} : Transitive (@key_before V).
Proof. intros a b c. unfold key_before. apply bytes_le_trans. Qed.

#[export] Instance key_before_total {V} : Total (@key_before V).
Proof. intros a b. unfold key_before. apply bytes_le_total. Qed.

Definition map_in_order {V} (m : gmap bytes V) : list (bytes * V) := merge_sort key_before (map_to_list m).

Lemma map_in_order_perm {V} (m : gmap bytes V) : map_in_order m ≡ₚ map_to_list m.
Proof. apply merge_sort_Permutation. Qed.

Lemma map_in_order_sorted {V} (m : gmap bytes V) : StronglySorted key_before (map_in_order m).
Proof. apply StronglySorted_merge_sort; apply _. Qed.

(** ** Assigning one member of a struct

    [r <| f := v |>] is the struct [r] after [r.f = v;].  A record type gives its
    eta expansion once ([Eta]); the updater of a member is found from it. *)

Class Eta (R : Type) := eta_of : R -> R.

Class Update {R T : Type} (proj : R -> T) := update : (T -> T) -> R -> R.
Arguments update {R T} proj {_} _ _ /.

Ltac solve_update :=
  match goal with
  | |- @Update ?R ?T ?proj =>
      let inst := constr:(_ : Eta R) in
      let expansion := eval hnf in inst in
      match eval pattern proj in expansion with
      | ?body _ => exact (fun (f : T -> T) (r : R) => body (fun r' => f (proj r')) r)
      end
  end.

#[export] Hint Extern 0 (Update _) => solve_update : typeclass_instances.

Notation "r <| f := v |>" := (update f (fun _ => v) r)
  (at level 1, left associativity, f at level 99, v at level 200) : netmon_scope.
Open Scope netmon_scope.

(** ** Tactics *)

(** Case analysis on the innermost [if decide] or [match] of the goal. *)
Ltac step_if := first [ case_decide | case_bool_decide | case_match ]; simplify_eq/=.

(** Turns the boolean comparisons of the hypotheses into propositions. *)
Ltac b2p :=
  repeat match goal with
  | H : (_ <? _)%Z = true |- _ => apply Z.ltb_lt in H
  | H : (_ <? _)%Z = false |- _ => apply Z.ltb_ge in H
  | H : (_ <=? _)%Z = true |- _ => apply Z.leb_le in H
  | H : (_ <=? _)%Z = false |- _ => apply Z.leb_gt in H
  | H : (_ =? _)%Z = true |- _ => apply Z.eqb_eq in H
  | H : (_ =? _)%Z = false |- _ => apply Z.eqb_neq in H
  | H : (_ && _) = true |- _ => apply andb_prop in H as [? ?]
  | H : (_ || _) = false |- _ => apply orb_false_elim in H as [? ?]
  | H : negb _ = true |- _ => apply negb_true_iff in H
  | H : negb _ = false |- _ => apply negb_false_iff in H
  | H : bool_decide _ = true |- _ => apply bool_decide_eq_true in H
  | H : bool_decide _ = false |- _ => apply bool_decide_eq_false in H
  end.

Ltac blia := b2p; lia.

(** Solves goals by the arithmetic of machine words. *)
Ltac words := unfold two63, two64, two32, ns_per_s, epoch in *; lia.
