(* ===== verification/Utils.v ===== *)
(** * src/src/utils.cpp: the string and number helpers

    Every function of the file, over byte strings; the C library functions it
    calls ([isspace], [tolower], [std::from_chars], ...) are modelled as they
    behave in the C locale, which the program never changes.  The loops that
    move a position [pos] along the input are modelled on the remaining input
    [value.substr(pos)]; fuel is the input's length, and the theorems show that
    it is enough.  The theorems: [trim] and [split] against their
    specifications, the number parsers on every input, the JSON escaper as an
    encoding with a decoder, and the key/value parser as the inverse of the
    collector's line format. *)

From S2P Require Import Prelude.

(** ** Character classes of the C locale *)

Definition isspace (c : ascii) : bool :=
  (code c =? 32) || ((9 <=? code c) && (code c <=? 13)).

Definition isdigit (c : ascii) : bool := (48 <=? code c) && (code c <=? 57).

Definition tolower (c : ascii) : ascii :=
  if (65 <=? code c) && (code c <=? 90) then chr (code c + 32) else c.

Definition toupper (c : ascii) : ascii :=
  if (97 <=? code c) && (code c <=? 122) then chr (code c - 32) else c.

Definition not_space (c : ascii) : bool := negb (isspace c).

(** ** Trimming, case and quoting *)

Definition trim (value : bytes) : bytes :=
  rdrop_while isspace (drop_while isspace value).

Definition lower (value : bytes) : bytes := tolower <$> value.

Definition upper (value : bytes) : bytes := toupper <$> value.

(** The loop of [stripInlineComment]: the index of the first ['#'] outside
    quotes. *)
Fixpoint comment_index (in_single in_double : bool) (value : bytes) : option nat :=
  match value with
  | [] => None
  | ch :: rest =>
      if bool_decide (ch = c_squote) && negb in_double
      then S <$> comment_index (negb in_single) in_double rest
      else if bool_decide (ch = c_dquote) && negb in_single
      then S <$> comment_index in_single (negb in_double) rest
      else if bool_decide (ch = "#"%char) && negb in_single && negb in_double
      then Some 0%nat
      else S <$> comment_index in_single in_double rest
  end.

Definition stripInlineComment (value : bytes) : bytes :=
  match comment_index false false value with
  | Some i => trim (take i value)
  | None => trim value
  end.

Definition stripQuotes (value : bytes) : bytes :=
  let out := trim value in
  if (2 <=? length out)%nat then
    match head out, last out with
    | Some first, Some last =>
        if (bool_decide (first = c_dquote) && bool_decide (last = c_dquote))
           || (bool_decide (first = c_squote) && bool_decide (last = c_squote))
        then take (length out - 2) (drop 1 out)
        else out
    | _, _ => out
    end
  else out.

(** ** Booleans and numbers *)

Definition parseBool (value : bytes) (fallback : bool) : bool :=
  let normalized := lower (trim value) in
  if bool_decide (normalized = "true") || bool_decide (normalized = "yes")
     || bool_decide (normalized = "on") || bool_decide (normalized = "1") then true
  else if bool_decide (normalized = "false") || bool_decide (normalized = "no")
     || bool_decide (normalized = "off") || bool_decide (normalized = "0") then false
  else fallback.

(** [std::from_chars] in base 10: the error code, the unread input and the
    value.  It reads no white space and no plus sign. *)
Inductive errc : Type :=
| errc_ok
| invalid_argument
| result_out_of_range.

#[export] Instance errc_eq_dec : EqDecision errc.
Proof. solve_decision. Defined.

Definition digit_value (c : ascii) : Z := code c - 48.

Definition digits_value (ds : bytes) : Z :=
  fold_left (fun acc c => acc * 10 + digit_value c) ds 0.

Definition from_chars_uint64 (text : bytes) : errc * bytes * Z :=
  let ds := take_while isdigit text in
  let rest := drop_while isdigit text in
  if decide (ds = []) then (invalid_argument, text, 0)
  else if digits_value ds <? two64 then (errc_ok, rest, digits_value ds)
  else (result_out_of_range, rest, 0).

Definition from_chars_int (text : bytes) : errc * bytes * Z :=
  let negative := bool_decide (head text = Some "-"%char) in
  let body := if negative then tail text else text in
  let ds := take_while isdigit body in
  let rest := drop_while isdigit body in
  if decide (ds = []) then (invalid_argument, text, 0)
  else
    let v := if negative then - digits_value ds else digits_value ds in
    if (-2147483648 <=? v) && (v <=? 2147483647) then (errc_ok, rest, v)
    else (result_out_of_range, rest, 0).

Definition parseUint64 (value : bytes) (fallback : Z) : Z :=
  let '(ec, ptr, parsed) := from_chars_uint64 (trim value) in
  if bool_decide (ec = errc_ok) && bool_decide (ptr = []) then parsed else fallback.

Definition parseInt (value : bytes) (fallback : Z) : Z :=
  let '(ec, ptr, parsed) := from_chars_int (trim value) in
  if bool_decide (ec = errc_ok) && bool_decide (ptr = []) then parsed else fallback.

(** Decimal output of [std::to_string] and [operator<<] for unsigned values. *)
Fixpoint dec_aux (fuel : nat) (n : Z) (acc : bytes) : bytes :=
  match fuel with
  | O => acc
  | S fuel' =>
      let acc' := chr (48 + n mod 10) :: acc in
      if n / 10 =? 0 then acc' else dec_aux fuel' (n / 10) acc'
  end.

Definition to_string (n : Z) : bytes := dec_aux (S (Z.to_nat (Z.log2 n))) n [].

(** ** Lines and fields *)

Definition boundedLine (line : bytes) (max_length : Z) : option bytes :=
  if max_length <? Z.of_nat (length line) then None
  else Some (rdrop_while
               (fun c => bool_decide (c = c_nl) || bool_decide (c = c_cr)
                         || bool_decide (c = c_nul)) line).

(** The loop of [split]: [rest] is [value.substr(start)]. *)
Fixpoint split_loop (fuel : nat) (rest : bytes) (delimiter : ascii) : list bytes :=
  match fuel with
  | O => []
  | S fuel' =>
      match find_char delimiter rest with
      | None => [rest]
      | Some pos => take pos rest :: split_loop fuel' (drop (S pos) rest) delimiter
      end
  end.

Definition split (value : bytes) (delimiter : ascii) : list bytes :=
  split_loop (S (length value)) value delimiter.

Definition fromUnixSeconds (seconds : Z) : time := i64 (seconds * ns_per_s).

Definition hexdigit (n : Z) : ascii := if n <? 10 then chr (48 + n) else chr (87 + n).

Definition json_escape_char (ch : ascii) : bytes :=
  if bool_decide (ch = c_dquote) then [c_backslash; c_dquote]
  else if bool_decide (ch = c_backslash) then [c_backslash; c_backslash]
  else if code ch =? 8 then [c_backslash; "b"%char]
  else if code ch =? 12 then [c_backslash; "f"%char]
  else if code ch =? 10 then [c_backslash; "n"%char]
  else if code ch =? 13 then [c_backslash; "r"%char]
  else if code ch =? 9 then [c_backslash; "t"%char]
  else if code ch <? 32 then
    [c_backslash; "u"%char; "0"%char; "0"%char; hexdigit (code ch / 16); hexdigit (code ch mod 16)]
  else [ch].

Definition jsonEscape (value : bytes) : bytes := value ≫= json_escape_char.

Definition jsonQuote (value : bytes) : bytes := c_dquote :: jsonEscape value ++ [c_dquote].

(** ** [parseKeyValueFields] *)

Definition is_quote (c : ascii) : bool := bool_decide (c = c_dquote) || bool_decide (c = c_squote).

Definition key_char (c : ascii) : bool := negb (bool_decide (c = "="%char)) && not_space c.

(** The value after ['='], quoted or up to the next white space, and the input
    after it. *)
Definition kv_value (after : bytes) : bytes * bytes :=
  match after with
  | quote :: t =>
      if is_quote quote then
        let unquoted c := negb (bool_decide (c = quote)) in
        (take_while unquoted t,
         match drop_while unquoted t with _ :: r => r | [] => [] end)
      else (take_while not_space after, drop_while not_space after)
  | [] => ([], [])
  end.

(** One iteration of the main loop per unit of fuel; [rest] is
    [value.substr(pos)]. *)
Fixpoint kv_loop (fuel : nat) (rest : bytes) (fields : gmap bytes bytes) : gmap bytes bytes :=
  match fuel with
  | O => fields
  | S fuel' =>
      match drop_while isspace rest with
      | [] => fields
      | rest1 =>
          let key := take_while key_char rest1 in
          match drop_while key_char rest1 with
          | [] => kv_loop fuel' [] fields
          | c :: after =>
              if decide (c = "="%char) then
                if decide (key = "csv") then <[key := trim after]> fields
                else
                  let '(parsed_value, rest2) := kv_value after in
                  kv_loop fuel' rest2 (<[key := parsed_value]> fields)
              else kv_loop fuel' (drop_while not_space (c :: after)) fields
          end
      end
  end.

Definition parseKeyValueFields (value : bytes) : gmap bytes bytes :=
  kv_loop (S (length value)) value ∅.

(** ** [trim] *)

Definition all_space (s : bytes) : Prop := Forall (fun c => isspace c = true) s.

(** No white space at either end. *)
Definition trimmed (s : bytes) : Prop :=
  (forall c, head s = Some c -> isspace c = false) /\
  (forall c, last s = Some c -> isspace c = false).

Lemma not_space_true c : not_space c = true <-> isspace c = false.
Proof. unfold not_space. by destruct (isspace c). Qed.

Lemma not_space_false c : not_space c = false <-> isspace c = true.
Proof. unfold not_space. by destruct (isspace c). Qed.

Lemma rdrop_while_head {A} (p : A -> bool) (l : list A) x :
  head (rdrop_while p l) = Some x -> head l = Some x.
Proof.
  destruct (rdrop_while_split p l) as (r & Hl & _).
  rewrite Hl at 2. by destruct (rdrop_while p l).
Qed.

Lemma trim_trimmed s : trimmed (trim s).
Proof.
  split; intros c Hc.
  - apply rdrop_while_head in Hc.
    destruct (drop_while isspace s) as [|x t] eqn:E; [done|].
    injection Hc as ->. by eapply drop_while_head.
  - by eapply rdrop_while_last.
Qed.

Lemma trim_decompose s :
  exists l r, s = l ++ trim s ++ r /\ all_space l /\ all_space r.
Proof.
  destruct (rdrop_while_split isspace (drop_while isspace s)) as (r & Hr & Hs).
  exists (take_while isspace s), r. unfold trim. rewrite <- Hr, take_drop_while.
  repeat split; [apply take_while_forall|done].
Qed.

Lemma rdrop_while_app_all {A} (p : A -> bool) (m r : list A) :
  Forall (fun x => p x = true) r -> rdrop_while p (m ++ r) = rdrop_while p m.
Proof.
  revert m. induction r as [|x r IH] using rev_ind; intros m Hr.
  - by rewrite app_nil_r.
  - apply Forall_app in Hr as [Hr Hx]. rewrite Forall_singleton in Hx.
    rewrite app_assoc, rdrop_while_snoc_drop by done. by apply IH.
Qed.

Lemma rdrop_while_id {A} (p : A -> bool) (m : list A) :
  (forall x, last m = Some x -> p x = false) -> rdrop_while p m = m.
Proof.
  destruct m as [|x m _] using rev_ind; [done|]. intros H.
  apply rdrop_while_snoc_keep. apply H. by rewrite last_snoc.
Qed.

Lemma trim_app l m r : all_space l -> all_space r -> trimmed m -> trim (l ++ m ++ r) = m.
Proof.
  intros Hl Hr [Hh Ht]. unfold trim. destruct m as [|c m].
  - rewrite drop_while_all; [done|]. apply Forall_app. by split.
  - rewrite drop_while_app_stop; [|done|by apply Hh].
    rewrite rdrop_while_app_all by done. by apply rdrop_while_id.
Qed.

Lemma trim_id s : trimmed s -> trim s = s.
Proof.
  intros H. pose proof (trim_app [] s [] (Forall_nil_2 _) (Forall_nil_2 _) H) as E.
  simpl in E. by rewrite app_nil_r in E.
Qed.

Lemma trim_idemp s : trim (trim s) = trim s.
Proof. apply trim_id, trim_trimmed. Qed.

Lemma trim_length s : (length (trim s) <= length s)%nat.
Proof.
  unfold trim. etrans; [apply rdrop_while_length|apply drop_while_length].
Qed.

Lemma trim_Forall (P : ascii -> Prop) s : Forall P s -> Forall P (trim s).
Proof. intros H. by apply rdrop_while_Forall, drop_while_Forall. Qed.

Lemma trimmed_no_space s : Forall (fun c => isspace c = false) s -> trimmed s.
Proof.
  intros H. split; intros c Hc.
  - rewrite head_Some in Hc. destruct Hc as [l ->]. by inversion H.
  - rewrite last_Some in Hc. destruct Hc as [l ->].
    apply Forall_app in H as [_ H]. by inversion H.
Qed.

Lemma trim_no_space s : Forall (fun c => isspace c = false) s -> trim s = s.
Proof. intros H. by apply trim_id, trimmed_no_space. Qed.

#[export] Hint Resolve trim_trimmed trim_length : netmon.
#[export] Hint Rewrite trim_idemp : netmon.

(** [trim] removes exactly the white space at the two ends: its result is
    the one string [m] without white space at either end such that the input is
    [m] between two runs of white space. *)
Theorem trim_characterised s m :
  trim s = m <->
  trimmed m /\ exists l r, s = l ++ m ++ r /\ all_space l /\ all_space r.
Proof.
  split.
  - intros <-. split; [apply trim_trimmed|apply trim_decompose].
  - intros (Hm & l & r & -> & Hl & Hr). by apply trim_app.
Qed.

(** ** Case *)

Lemma tolower_idemp c : tolower (tolower c) = tolower c.
Proof. destruct c as [[] [] [] [] [] [] [] []]; reflexivity. Qed.

Lemma lower_idemp s : lower (lower s) = lower s.
Proof. unfold lower. rewrite <- list_fmap_compose. apply list_fmap_ext. intros i c _. apply tolower_idemp. Qed.

Lemma lower_nil s : lower s = [] <-> s = [].
Proof. unfold lower. by destruct s. Qed.

Lemma lower_length s : length (lower s) = length s.
Proof. apply length_fmap. Qed.

#[export] Hint Rewrite lower_idemp lower_length : netmon.

(** ** [split] *)

(** The inverse of [split]: the pieces with the delimiter between them. *)
Fixpoint join (d : ascii) (ls : list bytes) : bytes :=
  match ls with
  | [] => []
  | [s] => s
  | s :: ls' => s ++ d :: join d ls'
  end.

Lemma join_cons d s ls : ls <> [] -> join d (s :: ls) = s ++ d :: join d ls.
Proof. by destruct ls. Qed.

Lemma split_loop_nonempty fuel rest d : (length rest < fuel)%nat -> split_loop fuel rest d <> [].
Proof. destruct fuel; simpl; [lia|]. by destruct (find_char d rest). Qed.

Lemma split_loop_join fuel rest d :
  (length rest < fuel)%nat -> join d (split_loop fuel rest d) = rest.
Proof.
  revert rest. induction fuel as [|fuel IH]; intros rest Hlen; [lia|]. simpl.
  destruct (find_char d rest) as [pos|] eqn:E; [|done].
  apply find_char_Some in E as (Heq & _ & Hlt).
  assert (length (drop (S pos) rest) < fuel)%nat by (rewrite length_drop; lia).
  rewrite join_cons by by apply split_loop_nonempty.
  by rewrite IH.
Qed.

Lemma split_loop_pieces fuel rest d :
  Forall (fun s => d ∉ s) (split_loop fuel rest d).
Proof.
  revert rest. induction fuel as [|fuel IH]; intros rest; simpl; [done|].
  destruct (find_char d rest) as [pos|] eqn:E.
  - constructor; [|done]. by apply find_char_Some in E as (_ & ? & _).
  - constructor; [|done]. by apply find_char_None.
Qed.

Lemma split_loop_of_join fuel d ls :
  ls <> [] -> Forall (fun s => d ∉ s) ls -> (length (join d ls) < fuel)%nat ->
  split_loop fuel (join d ls) d = ls.
Proof.
  revert ls. induction fuel as [|fuel IH]; intros ls Hne Hls Hlen; [lia|].
  destruct ls as [|s ls]; [done|]. apply Forall_cons in Hls as [Hs Hls].
  cbn [split_loop].
  destruct (decide (ls = [])) as [->|Hne'].
  - simpl. by rewrite (proj2 (find_char_None d s) Hs).
  - rewrite join_cons in * by done. rewrite find_char_app by done.
    rewrite take_app_length, drop_app_S_length.
    rewrite length_app in Hlen. cbn [length] in Hlen.
    rewrite IH; [done|done|done|lia].
Qed.

Lemma split_join s d : join d (split s d) = s.
Proof. apply split_loop_join. lia. Qed.

Lemma split_pieces s d : Forall (fun p => d ∉ p) (split s d).
Proof. apply split_loop_pieces. Qed.

Lemma split_nonempty s d : split s d <> [].
Proof. apply split_loop_nonempty. lia. Qed.

Lemma split_of_join d ls : ls <> [] -> Forall (fun s => d ∉ s) ls -> split (join d ls) d = ls.
Proof. intros. apply split_loop_of_join; [done|done|lia]. Qed.

Lemma join_two d l1 l2 : l1 <> [] -> l2 <> [] -> join d (l1 ++ l2) = join d l1 ++ d :: join d l2.
Proof.
  intros H1 H2. induction l1 as [|s l1 IH]; [done|]. destruct l1 as [|t l1].
  - simpl. destruct l2; [done|]. done.
  - cbn [app]. rewrite join_cons by done. cbn [app] in IH. rewrite IH by done.
    rewrite (join_cons d s (t :: l1)) by done. by rewrite <- app_assoc.
Qed.

Lemma split_app a d b : split (a ++ d :: b) d = split a d ++ split b d.
Proof.
  rewrite <- (split_join a d) at 1. rewrite <- (split_join b d) at 1.
  rewrite <- join_two by apply split_nonempty. apply split_of_join.
  - by destruct (split a d) eqn:E; [destruct (split_nonempty a d)|].
  - apply Forall_app_2; apply split_pieces.
Qed.

(** [split] cuts a string at every delimiter and nowhere else: its result is
    the one non-empty list of delimiter-free pieces that, joined with the
    delimiter, give the string back (so its loop also reaches the end). *)
Theorem split_characterised s d ls :
  split s d = ls <-> ls <> [] /\ Forall (fun p => d ∉ p) ls /\ join d ls = s.
Proof.
  split.
  - intros <-. split; [apply split_nonempty|]. split; [apply split_pieces|apply split_join].
  - intros (Hne & Hls & <-). by apply split_of_join.
Qed.

(** ** Numbers *)

Definition all_digits (s : bytes) : Prop := Forall (fun c => isdigit c = true) s.

Lemma isdigit_range c : isdigit c = true <-> 48 <= code c <= 57.
Proof. unfold isdigit. lia. Qed.

Lemma isdigit_not_space c : isdigit c = true -> isspace c = false.
Proof. rewrite isdigit_range. unfold isspace. lia. Qed.

Lemma isdigit_chr n : 0 <= n < 10 -> isdigit (chr (48 + n)) = true /\ digit_value (chr (48 + n)) = n.
Proof.
  intros Hn. rewrite isdigit_range. unfold digit_value. rewrite code_chr by lia. lia.
Qed.

Lemma all_digits_trim s : all_digits s -> trim s = s.
Proof.
  intros H. apply trim_no_space. eapply Forall_impl; [done|].
  intros c Hc. by apply isdigit_not_space.
Qed.

Lemma digits_value_snoc ds c : digits_value (ds ++ [c]) = digits_value ds * 10 + digit_value c.
Proof. unfold digits_value. by rewrite fold_left_app. Qed.

Lemma digits_value_nonneg ds : all_digits ds -> 0 <= digits_value ds.
Proof.
  induction ds as [|c ds IH] using rev_ind; intros H; [done|].
  apply Forall_app in H as [H Hc]. rewrite Forall_singleton, isdigit_range in Hc.
  rewrite digits_value_snoc. unfold digit_value. specialize (IH H). lia.
Qed.

Lemma take_while_whole {A} (p : A -> bool) l :
  Forall (fun x => p x = true) l -> take_while p l = l.
Proof. intros H. pose proof (take_while_app_stop p l [] H I) as E. by rewrite app_nil_r in E. Qed.

Lemma drop_while_nil {A} (p : A -> bool) l :
  drop_while p l = [] -> Forall (fun x => p x = true) l.
Proof.
  intros H. rewrite <- (take_drop_while p l), H, app_nil_r. apply take_while_forall.
Qed.

Lemma take_while_nil_cons {A} (p : A -> bool) l : take_while p l = [] -> drop_while p l = l.
Proof. intros H. rewrite <- (take_drop_while p l) at 2. by rewrite H. Qed.

(** What a decimal parser should do with a trimmed text: its value, when it is a
    non-empty run of digits in range. *)
Definition decimal_value (text : bytes) (bound : Z) : option Z :=
  if decide (text <> [] /\ all_digits text /\ digits_value text < bound)
  then Some (digits_value text) else None.

Lemma parseUint64_spec value fallback :
  parseUint64 value fallback = default fallback (decimal_value (trim value) two64).
Proof.
  unfold parseUint64, from_chars_uint64, decimal_value.
  set (text := trim value).
  assert (Hds : all_digits (take_while isdigit text)) by apply take_while_forall.
  case_decide as Hnil.
  - rewrite bool_decide_false by done. simpl.
    case_decide as Hall; [|done]. destruct Hall as (Hne & Hd & _).
    by rewrite take_while_whole in Hnil.
  - destruct (digits_value (take_while isdigit text) <? two64) eqn:Elt.
    + destruct (decide (drop_while isdigit text = [])) as [Hr|Hr].
      * pose proof (drop_while_nil _ _ Hr) as Hd.
        rewrite (take_while_whole _ _ Hd) in *. rewrite Hr.
        rewrite !bool_decide_true by done. simpl.
        rewrite decide_True; [done|]. split; [done|]. split; [done|lia].
      * rewrite (bool_decide_false _ Hr), andb_false_r.
        rewrite decide_False; [done|]. intros (_ & Hd & _). by apply Hr, drop_while_all.
    + rewrite bool_decide_false by done. simpl.
      rewrite decide_False; [done|]. intros (_ & Hd & Hlt).
      rewrite take_while_whole in Elt by done. lia.
Qed.

Lemma parseUint64_range value fallback :
  0 <= fallback < two64 -> 0 <= parseUint64 value fallback < two64.
Proof.
  intros Hf. rewrite parseUint64_spec. unfold decimal_value. case_decide as H; [|done].
  destruct H as (_ & Hd & Hlt). pose proof (digits_value_nonneg _ Hd). simpl. lia.
Qed.

(** [dec_aux] puts the decimal digits of [n] in front of [acc]. *)
Lemma dec_aux_spec fuel n acc :
  0 <= n < 2 ^ Z.of_nat fuel ->
  (0 < fuel)%nat ->
  exists ds, dec_aux fuel n acc = ds ++ acc /\ ds <> [] /\ all_digits ds /\ digits_value ds = n.
Proof.
  revert n acc. induction fuel as [|fuel IH]; intros n acc Hn Hf; [lia|].
  cbn [dec_aux]. pose proof (Z.mod_pos_bound n 10 eq_refl) as Hm.
  destruct (isdigit_chr _ Hm) as [Hd Hv].
  destruct (n / 10 =? 0) eqn:E.
  - exists [chr (48 + n mod 10)]. split; [done|]. split; [done|].
    split; [by repeat constructor|]. unfold digits_value. cbn. rewrite Hv.
    apply Z.eqb_eq in E. pose proof (Z.div_mod n 10). lia.
  - apply Z.eqb_neq in E. pose proof (Z.div_mod n 10 ltac:(lia)) as Hdm.
    assert (0 <= n / 10) by (apply Z.div_pos; lia).
    assert (n / 10 < 2 ^ Z.of_nat fuel) as Hlt.
    { rewrite Nat2Z.inj_succ, Z.pow_succ_r in Hn by lia. lia. }
    destruct fuel as [|fuel']; [simpl in Hlt; lia|].
    destruct (IH (n / 10) (chr (48 + n mod 10) :: acc) ltac:(lia) ltac:(lia))
      as (ds & Hds & Hne & Hall & Hval).
    exists (ds ++ [chr (48 + n mod 10)]). rewrite Hds, <- app_assoc.
    split; [done|]. split; [by destruct ds|]. split.
    + apply Forall_app. split; [done|by repeat constructor].
    + rewrite digits_value_snoc, Hval, Hv. lia.
Qed.

Lemma to_string_spec n :
  0 <= n -> to_string n <> [] /\ all_digits (to_string n) /\ digits_value (to_string n) = n.
Proof.
  intros Hn. unfold to_string.
  assert (n < 2 ^ Z.of_nat (S (Z.to_nat (Z.log2 n)))) as Hlt.
  { rewrite Nat2Z.inj_succ, Z2Nat.id by apply Z.log2_nonneg.
    destruct (decide (n = 0)) as [->|]; [done|]. apply Z.log2_spec. lia. }
  destruct (dec_aux_spec _ n [] (conj Hn Hlt) ltac:(lia)) as (ds & -> & Hne & Hd & Hv).
  by rewrite app_nil_r.
Qed.

(** A positive number has as many digits as its size asks for. *)
Lemma dec_aux_length fuel n acc :
  0 < n < 2 ^ Z.of_nat fuel ->
  exists k, length (dec_aux fuel n acc) = (S k + length acc)%nat /\
    10 ^ Z.of_nat k <= n < 10 ^ Z.of_nat (S k).
Proof.
  revert n acc. induction fuel as [|fuel IH]; intros n acc Hn; [simpl in Hn; lia|].
  cbn [dec_aux]. pose proof (Z.div_mod n 10 ltac:(lia)) as Hdm. pose proof (Z.mod_pos_bound n 10 eq_refl).
  destruct (n / 10 =? 0) eqn:E; [exists 0%nat; apply Z.eqb_eq in E; simpl; lia|].
  apply Z.eqb_neq in E. rewrite Nat2Z.inj_succ, Z.pow_succ_r in Hn by lia.
  destruct (IH (n / 10) (chr (48 + n mod 10) :: acc)) as (k & Hk & Hb); [lia|].
  exists (S k). split; [rewrite Hk; simpl; lia|]. rewrite !Nat2Z.inj_succ, !Z.pow_succ_r in * by lia. lia.
Qed.

Lemma to_string_size n :
  0 < n -> exists k, length (to_string n) = S k /\ 10 ^ Z.of_nat k <= n < 10 ^ Z.of_nat (S k).
Proof.
  intros Hn. unfold to_string.
  destruct (dec_aux_length (S (Z.to_nat (Z.log2 n))) n []) as (k & Hk & Hb).
  { split; [done|]. rewrite Nat2Z.inj_succ, Z2Nat.id by apply Z.log2_nonneg. by apply Z.log2_spec. }
  exists k. split; [rewrite Hk; simpl; lia|done].
Qed.

Lemma to_string_inj n m : 0 <= n -> 0 <= m -> to_string n = to_string m -> n = m.
Proof.
  intros Hn Hm E. destruct (to_string_spec n Hn) as (_ & _ & <-).
  destruct (to_string_spec m Hm) as (_ & _ & <-). by rewrite E.
Qed.

(** [parseUint64] reads back every decimal rendering of a 64-bit value, and
    on any text it answers with the value of the trimmed text when that is a
    non-empty run of digits below [2^64], and with the fallback otherwise: no
    sign, no prefix of the text and no value modulo [2^64] is ever accepted. *)
Theorem parseUint64_roundtrip_and_total :
  (forall n fallback, 0 <= n < two64 -> parseUint64 (to_string n) fallback = n) /\
  (forall value fallback,
     parseUint64 value fallback = default fallback (decimal_value (trim value) two64)).
Proof.
  split; [|exact parseUint64_spec].
  intros n fallback Hn. rewrite parseUint64_spec.
  destruct (to_string_spec n ltac:(lia)) as (Hne & Hd & Hv).
  rewrite all_digits_trim by done. unfold decimal_value.
  rewrite decide_True; [by rewrite Hv|]. rewrite Hv. split; [done|]. split; [done|lia].
Qed.

(** The largest counter the collectors can send. *)
Lemma parseUint64_roundtrip_and_total_witness :
  parseUint64 (to_string 18446744073709551615) 7 = 18446744073709551615 /\
  parseUint64 "18446744073709551616" 7 = 7.
Proof.
  split; [apply (proj1 parseUint64_roundtrip_and_total 18446744073709551615 7); by vm_compute|].
  rewrite (proj2 parseUint64_roundtrip_and_total). vm_compute. reflexivity.
Defined.

Lemma parseInt_range value fallback :
  -2147483648 <= fallback <= 2147483647 -> -2147483648 <= parseInt value fallback <= 2147483647.
Proof.
  intros Hf. unfold parseInt, from_chars_int. simpl.
  repeat case_decide; repeat case_match; simplify_eq/=; lia.
Qed.

(** ** JSON strings *)

(** A decoder for the characters between the quotes of a JSON string (RFC 8259):
    a bare quote, a bare control character or a malformed escape is an error;
    [\u00XY] is the byte [XY] when that is an ASCII character. *)
Definition hex_value (c : ascii) : option Z :=
  if (48 <=? code c) && (code c <=? 57) then Some (code c - 48)
  else if (97 <=? code c) && (code c <=? 102) then Some (code c - 87)
  else if (65 <=? code c) && (code c <=? 70) then Some (code c - 55)
  else None.

Definition simple_escape (e : ascii) : option ascii :=
  if bool_decide (e = c_dquote) then Some c_dquote
  else if bool_decide (e = c_backslash) then Some c_backslash
  else if bool_decide (e = "/"%char) then Some "/"%char
  else if bool_decide (e = "b"%char) then Some (chr 8)
  else if bool_decide (e = "f"%char) then Some (chr 12)
  else if bool_decide (e = "n"%char) then Some (chr 10)
  else if bool_decide (e = "r"%char) then Some (chr 13)
  else if bool_decide (e = "t"%char) then Some (chr 9)
  else None.

Fixpoint json_unescape (s : bytes) : option bytes :=
  match s with
  | [] => Some []
  | c :: t =>
      if bool_decide (c = c_backslash) then
        match t with
        | [] => None
        | e :: t1 =>
            if bool_decide (e = "u"%char) then
              match t1 with
              | a :: b :: x :: y :: t2 =>
                  match hex_value a, hex_value b, hex_value x, hex_value y with
                  | Some 0, Some 0, Some hi, Some lo =>
                      if hi <? 8 then cons (chr (hi * 16 + lo)) <$> json_unescape t2 else None
                  | _, _, _, _ => None
                  end
              | _ => None
              end
            else match simple_escape e with
                 | Some ch => cons ch <$> json_unescape t1
                 | None => None
                 end
        end
      else if bool_decide (c = c_dquote) || (code c <? 32) then None
      else cons c <$> json_unescape t
  end.

(** One escaped character decodes to itself; checked on all 256 characters. *)
Lemma json_unescape_char c t :
  json_unescape (json_escape_char c ++ t) = cons c <$> json_unescape t.
Proof. destruct c as [[] [] [] [] [] [] [] []]; reflexivity. Qed.

(** [jsonEscape] loses nothing and always yields the inside of a valid JSON
    string: the decoder, which refuses bare quotes, bare control characters and
    malformed escapes, gives the input back. *)
Theorem jsonEscape_roundtrip s : json_unescape (jsonEscape s) = Some s.
Proof.
  induction s as [|c s IH]; [done|].
  unfold jsonEscape in *. rewrite bind_cons, json_unescape_char, IH. done.
Qed.

(** ** [parseKeyValueFields] inverts the collector's line format *)

(** Every iteration of the loop consumes input, so any fuel above the length of
    the input gives the same result. *)
Lemma kv_value_shorter after v rest :
  kv_value after = (v, rest) -> (length rest <= length after)%nat.
Proof.
  unfold kv_value. destruct after as [|q t]; [by intros [= <- <-]|].
  destruct (is_quote q); intros [= <- <-].
  - pose proof (drop_while_length (fun c => negb (bool_decide (c = q))) t) as H.
    destruct (drop_while _ t); simpl in *; lia.
  - exact (drop_while_length not_space (q :: t)).
Qed.

Lemma kv_loop_fuel fuel1 fuel2 rest fields :
  (length rest < fuel1)%nat -> (length rest < fuel2)%nat ->
  kv_loop fuel1 rest fields = kv_loop fuel2 rest fields.
Proof.
  revert fuel2 rest fields. induction fuel1 as [|fuel1 IH]; intros fuel2 rest fields H1 H2; [lia|].
  destruct fuel2 as [|fuel2]; [lia|]. cbn [kv_loop].
  pose proof (drop_while_length isspace rest) as Hlen.
  destruct (drop_while isspace rest) as [|c0 t0] eqn:E; [done|].
  pose proof (drop_while_head _ _ _ _ E) as Hsp.
  destruct (drop_while key_char (c0 :: t0)) as [|c after] eqn:E2.
  { apply IH; simpl in *; lia. }
  pose proof (drop_while_length key_char (c0 :: t0)) as Hlen2. rewrite E2 in Hlen2.
  cbn [length] in *.
  case_decide as Hc.
  - case_decide; [done|]. destruct (kv_value after) as [v rest2] eqn:Ev.
    pose proof (kv_value_shorter _ _ _ Ev). apply IH; lia.
  - (* the key ended at white space: the first character was a key character *)
    assert (isspace c = true) as Hs.
    { pose proof (drop_while_head _ _ _ _ E2) as Hk. unfold key_char, not_space in Hk.
      rewrite bool_decide_false in Hk by done. by destruct (isspace c). }
    rewrite drop_while_none by (by apply not_space_false).
    assert (key_char c0 = true) as Hk0.
    { destruct (key_char c0) eqn:Ek; [done|]. simpl in E2. rewrite Ek in E2.
      injection E2 as -> ->. congruence. }
    simpl in E2. rewrite Hk0 in E2.
    pose proof (drop_while_length key_char t0) as Hl. rewrite E2 in Hl. cbn [length] in Hl.
    apply IH; cbn [length]; lia.
Qed.

(** How a list of fields is written on one line: [key=value] pairs separated by
    a blank, a value in double quotes when it holds white space or starts with a
    quote. *)
Definition plain_value (v : bytes) : bool :=
  forallb not_space v && match v with [] => true | c :: _ => negb (is_quote c) end.

Definition render_value (v : bytes) : bytes :=
  if plain_value v then v else c_dquote :: v ++ [c_dquote].

Definition render_pair (kv : bytes * bytes) : bytes := kv.1 ++ "="%char :: render_value kv.2.

Definition render_fields (l : list (bytes * bytes)) : bytes := join c_space (render_pair <$> l).

Definition field_ok (kv : bytes * bytes) : Prop :=
  Forall (fun c => key_char c = true) kv.1 /\ kv.1 <> "csv" /\ c_dquote ∉ kv.2.

Definition insert_fields (m : gmap bytes bytes) (l : list (bytes * bytes)) : gmap bytes bytes :=
  fold_left (fun m kv => <[kv.1 := kv.2]> m) l m.

Definition at_boundary (rest : bytes) : Prop :=
  match rest with [] => True | c :: _ => isspace c = true end.

Lemma kv_value_render v rest :
  c_dquote ∉ v -> at_boundary rest -> kv_value (render_value v ++ rest) = (v, rest).
Proof.
  intros Hq Hb. unfold render_value. destruct (plain_value v) eqn:Ep.
  - unfold plain_value in Ep. apply andb_prop in Ep as [Ef Eh].
    assert (Hv : Forall (fun c => not_space c = true) v).
    { apply Forall_forall. intros c Hc. rewrite forallb_forall in Ef.
      by apply Ef, list_elem_of_In. }
    assert (Hb' : match rest with [] => True | c :: _ => not_space c = false end).
    { destruct rest; [done|]. by apply not_space_false. }
    destruct v as [|c v].
    + destruct rest as [|c rest]; [done|]. simpl.
      assert (is_quote c = false) as ->.
      { simpl in Hb. unfold is_quote. rewrite !bool_decide_false; [done|..];
          intros ->; vm_compute in Hb; done. }
      simpl in Hb'. by rewrite Hb'.
    + unfold kv_value. cbn [app]. rewrite (proj1 (negb_true_iff _) Eh).
      change (c :: v ++ rest) with ((c :: v) ++ rest).
      by rewrite take_while_app_stop, drop_while_app_stop.
  - cbn [app kv_value]. change (is_quote c_dquote) with true. cbn iota.
    assert (Hv : Forall (fun c => negb (bool_decide (c = c_dquote)) = true) v).
    { apply Forall_forall. intros c Hc. rewrite bool_decide_false; [done|]. by intros ->. }
    rewrite <- app_assoc.
    rewrite take_while_app_stop, drop_while_app_stop; [done|done|done|done|done].
Qed.

Lemma kv_loop_render_pair fuel kv rest fields :
  field_ok kv -> at_boundary rest ->
  kv_loop (S fuel) (render_pair kv ++ rest) fields = kv_loop fuel rest (<[kv.1 := kv.2]> fields).
Proof.
  destruct kv as [k v]. intros (Hk & Hcsv & Hq) Hb. unfold render_pair. cbn [fst snd] in *.
  rewrite <- app_assoc. cbn [app].
  set (line := k ++ "="%char :: render_value v ++ rest).
  assert (Hsp : drop_while isspace line = line).
  { unfold line. destruct k as [|c k]; [done|]. apply drop_while_none.
    inversion Hk as [|? ? Hc _]; subst. unfold key_char, not_space in Hc.
    destruct (isspace c); [|done]. by rewrite andb_false_r in Hc. }
  assert (Ht : take_while key_char line = k) by (by apply take_while_app_stop).
  assert (Hd : drop_while key_char line = "="%char :: render_value v ++ rest)
    by (by apply drop_while_app_stop).
  assert (Hne : line <> []) by (unfold line; by destruct k).
  clearbody line. destruct line as [|c0 t0]; [done|].
  cbn [kv_loop]. rewrite Hsp, Ht, Hd.
  rewrite decide_True by done. rewrite decide_False by done.
  by rewrite kv_value_render.
Qed.

Lemma kv_loop_skip_space fuel c rest fields :
  isspace c = true -> kv_loop (S fuel) (c :: rest) fields = kv_loop (S fuel) rest fields.
Proof. intros H. cbn [kv_loop drop_while]. by rewrite H. Qed.

Lemma kv_loop_render fuel l fields :
  Forall field_ok l -> (length l < fuel)%nat ->
  kv_loop fuel (render_fields l) fields = insert_fields fields l.
Proof.
  unfold render_fields. revert fuel fields. induction l as [|kv l IH]; intros fuel fields Hl Hf.
  - by destruct fuel.
  - apply Forall_cons in Hl as [Hkv Hl]. destruct fuel as [|fuel]; [simpl in Hf; lia|].
    cbn [length] in Hf. rewrite fmap_cons.
    destruct (decide (l = [])) as [->|Hne].
    + cbn [join fmap list_fmap]. rewrite <- (app_nil_r (render_pair kv)).
      rewrite kv_loop_render_pair by done. by destruct fuel.
    + rewrite join_cons by (by destruct l).
      rewrite kv_loop_render_pair; [|done|done].
      destruct fuel as [|fuel]; [lia|]. rewrite kv_loop_skip_space by done.
      rewrite IH by (done || lia). done.
Qed.

Lemma render_fields_length l : (length l <= length (render_fields l))%nat.
Proof.
  unfold render_fields. induction l as [|kv l IH]; [done|]. rewrite fmap_cons.
  destruct (decide (l = [])) as [->|Hne].
  - cbn [join fmap list_fmap length]. unfold render_pair. rewrite length_app. simpl. lia.
  - rewrite join_cons by (by destruct l). rewrite length_app. cbn [length].
    unfold render_pair at 1. rewrite length_app. cbn [length]. lia.
Qed.

(** A rendered line has no white space at its ends. *)
Lemma render_pair_trimmed kv : field_ok kv -> trimmed (render_pair kv).
Proof.
  destruct kv as [k v]. intros (Hk & _ & _). unfold render_pair. cbn [fst snd] in *. split; intros c.
  - destruct k as [|x k]; cbn; [by intros [= <-]|]. intros [= <-].
    inversion Hk as [|? ? Hx _]; subst. unfold key_char, not_space in Hx.
    destruct (isspace x); [|done]. by rewrite andb_false_r in Hx.
  - rewrite last_app_cons. unfold render_value. destruct (plain_value v) eqn:E.
    + unfold plain_value in E. apply andb_prop in E as [E _].
      destruct v as [|x v _] using rev_ind; [by intros [= <-]|].
      rewrite app_comm_cons, last_snoc. intros [= <-]. rewrite forallb_app in E.
      apply andb_prop in E as [_ E]. cbn in E. unfold not_space in E.
      by destruct (isspace x).
    + rewrite !app_comm_cons, last_snoc. by intros [= <-].
Qed.

Lemma trimmed_join_space ls d :
  Forall (fun s => trimmed s /\ s <> []) ls -> trimmed (join d ls).
Proof.
  induction 1 as [|s ls [Hs Hne] Hls IH]; [done|].
  destruct (decide (ls = [])) as [->|Hls']; [done|]. rewrite join_cons by done.
  destruct IH as [_ IHl]. split; intros c.
  - destruct s; [done|]. apply (proj1 Hs).
  - rewrite last_app_cons. rewrite last_cons.
    assert (join d ls <> []) as Hj.
    { destruct ls as [|s' ls]; [done|]. apply Forall_cons in Hls as [[_ Hs'] _].
      by destruct ls, s'. }
    destruct (last (join d ls)) as [y|] eqn:E; [|by apply last_None in E].
    intros [= <-]. by apply IHl.
Qed.

Lemma render_fields_trimmed l : Forall field_ok l -> trimmed (render_fields l).
Proof.
  intros H. apply trimmed_join_space. apply Forall_fmap. eapply Forall_impl; [exact H|].
  intros kv Hkv. split; [by apply render_pair_trimmed|]. unfold compose, render_pair.
  by destruct kv.1.
Qed.

Lemma insert_fields_lookup_None m l k :
  k ∉ l.*1 -> insert_fields m l !! k = m !! k.
Proof.
  unfold insert_fields. revert m. induction l as [|kv l IH]; intros m Hk; [done|].
  cbn [fold_left]. rewrite IH by set_solver. apply lookup_insert_ne. set_solver.
Qed.

Lemma parseKeyValueFields_render l :
  Forall field_ok l -> parseKeyValueFields (render_fields l) = insert_fields ∅ l.
Proof.
  intros H. apply kv_loop_render; [done|]. pose proof (render_fields_length l). lia.
Qed.

(** [parseKeyValueFields] reads back what the collector writes: for any list
    of fields whose keys hold no white space and no ['='] and are not [csv], and
    whose values hold no double quote, parsing the rendered line gives exactly
    those fields (of two with the same key, the later one). *)
Theorem parseKeyValueFields_roundtrip l :
  Forall field_ok l -> parseKeyValueFields (render_fields l) = insert_fields ∅ l.
Proof. apply parseKeyValueFields_render. Qed.

#[export] Instance field_ok_dec kv : Decision (field_ok kv).
Proof. unfold field_ok. apply _. Defined.

(** The line of the repository's own test, with the values it checks. *)
Lemma parseKeyValueFields_roundtrip_witness :
  parseKeyValueFields "ts=1767000000 mac=AA:BB:CC:DD:EE:FF host=desk neigh=REACHABLE" =
  insert_fields ∅ [("ts" : bytes, "1767000000" : bytes);
                   ("mac" : bytes, "AA:BB:CC:DD:EE:FF" : bytes);
                   ("host" : bytes, "desk" : bytes); ("neigh" : bytes, "REACHABLE" : bytes)].
Proof.
  apply (parseKeyValueFields_roundtrip
           [("ts" : bytes, "1767000000" : bytes); ("mac" : bytes, "AA:BB:CC:DD:EE:FF" : bytes);
            ("host" : bytes, "desk" : bytes); ("neigh" : bytes, "REACHABLE" : bytes)]).
  apply (bool_decide_unpack _). vm_compute. exact I.
Defined.
