(* ===== verification/TimeFormat.v ===== *)
(** * [formatIso8601] of src/src/utils.cpp

    The text of a time point as the web server prints it: [to_time_t], [gmtime_r] and
    [put_time] of the C library, by the Gregorian calendar.  The theorem reads the text back. *)

From S2P Require Import Prelude Utils.

(** ** The calendar *)

(** [gmtime_r]: year, month and day of a day number since 1970-01-01.  A year is counted from
    March, so that the leap day is its last; [doe] is the day of a 400-year era. *)
Definition year_of_era (doe : Z) : Z := (doe - doe / 1460 + doe / 36524 - doe / 146096) / 365.
Definition day_of_year (doe : Z) : Z :=
  let yoe := year_of_era doe in doe - (365 * yoe + yoe / 4 - yoe / 100).
Definition month_index (doy : Z) : Z := (5 * doy + 2) / 153.

Definition civil_of_days (days : Z) : Z * Z * Z :=
  let z := days + 719468 in
  let era := z / 146097 in
  let doe := z mod 146097 in
  let doy := day_of_year doe in
  let mp := month_index doy in
  let d := doy - (153 * mp + 2) / 5 + 1 in
  let m := if mp <? 10 then mp + 3 else mp - 9 in
  let y := era * 400 + year_of_era doe + (if m <=? 2 then 1 else 0) in
  (y, m, d).

(** ** The text *)

Definition pad2 (n : Z) : bytes := [chr (48 + n / 10 mod 10); chr (48 + n mod 10)].

(** [std::put_time(&tm, "%Y-%m-%dT%H:%M:%SZ")] *)
Definition put_time (y m d seconds : Z) : bytes :=
  to_string y ++ "-"%char :: pad2 m ++ "-"%char :: pad2 d ++ "T"%char ::
  pad2 (seconds / 3600) ++ ":"%char :: pad2 (seconds / 60 mod 60) ++ ":"%char :: pad2 (seconds mod 60) ++ ["Z"%char].

Definition to_time_t (tp : time) : Z := Z.quot tp ns_per_s.

Definition formatIso8601 (tp : time) : bytes :=
  if tp =? 0 then []
  else
    let raw := to_time_t tp in
    let '(y, m, d) := civil_of_days (raw / 86400) in
    put_time y m d (raw mod 86400).

Example iso_2023 : formatIso8601 (1700000000 * ns_per_s) = "2023-11-14T22:13:20Z".
Proof. by vm_compute. Qed.
Example iso_leap : formatIso8601 (1709164800 * ns_per_s) = "2024-02-29T00:00:00Z".
Proof. by vm_compute. Qed.
Example iso_before : formatIso8601 (-1 * ns_per_s) = "1969-12-31T23:59:59Z".
Proof. by vm_compute. Qed.

(** ** Reading the text *)

(** The number of the day [y]-[m]-[d] from 1970-01-01: the days of the whole years before
    March of the year, of the months since, and of the month. *)
Definition days_of_civil (y m d : Z) : Z :=
  let y := if m <=? 2 then y - 1 else y in
  let mp := if 2 <? m then m - 3 else m + 9 in
  365 * y + y / 4 - y / 100 + y / 400 + (153 * mp + 2) / 5 + d - 1 - 719468.

Definition leap (y : Z) : bool := (y mod 4 =? 0) && (negb (y mod 100 =? 0) || (y mod 400 =? 0)).

Definition days_in_month (y m : Z) : Z :=
  if m =? 2 then (if leap y then 29 else 28)
  else if (m =? 4) || (m =? 6) || (m =? 9) || (m =? 11) then 30 else 31.

(** The seconds of a date and time of the calendar. *)
Definition seconds_of (y m d h mi s : Z) : Z := days_of_civil y m d * 86400 + h * 3600 + mi * 60 + s.

Definition valid_date (y m d : Z) : Prop := 1 <= m <= 12 /\ 1 <= d <= days_in_month y m.

(** *** The days of an era *)

(** The first and the last day of a year of the era. *)
Definition year_start (yoe : Z) : Z := 365 * yoe + yoe / 4 - yoe / 100.
Definition year_end (yoe : Z) : Z := year_start yoe + (if leap (yoe + 1) then 365 else 364).

(** Linear arithmetic with division by constants. *)
Ltac dlia := Z.to_euclidean_division_equations; lia.

Lemma year_of_era_range x : 0 <= x < 146097 -> 0 <= year_of_era x < 400.
Proof.
  intros Hx. unfold year_of_era.
  assert (0 <= x - x / 1460 + x / 36524 - x / 146096 < 146000).
  { assert (x / 146096 <= 1) by dlia. assert (x / 36524 <= 4) by dlia.
    destruct (Z.le_gt_cases 146096 x); [assert (x = 146096) as -> by dlia; by vm_compute|].
    assert (x / 36524 <= 3) by dlia. assert (0 <= x / 146096) by dlia. dlia. }
  split; [apply Z.div_pos; lia|apply Z.div_lt_upper_bound; lia].
Qed.

Lemma year_of_era_mono x y : 0 <= x <= y -> y < 146097 -> year_of_era x <= year_of_era y.
Proof.
  intros Hx Hy. unfold year_of_era. apply Z.div_le_mono; [done|].
  assert (x - x / 1460 <= y - y / 1460) by dlia.
  assert (x / 36524 - x / 146096 <= y / 36524 - y / 146096); [|lia].
  assert (x / 36524 <= y / 36524) by (apply Z.div_le_mono; lia).
  destruct (Z.le_gt_cases 146096 y).
  - assert (y = 146096) as -> by dlia. change (146096 / 36524 - 146096 / 146096) with 3.
    destruct (Z.le_gt_cases 146096 x); [assert (x = 146096) as -> by dlia; by vm_compute|dlia].
  - rewrite (Z.div_small y 146096), (Z.div_small x 146096) by dlia. lia.
Qed.

Lemma forallb_seq (P : Z -> bool) n x :
  forallb P (seqZ 0 (Z.of_nat n)) = true -> 0 <= x < Z.of_nat n -> P x = true.
Proof.
  intros H Hx. rewrite forallb_forall in H. apply H. apply list_elem_of_In, elem_of_seqZ. lia.
Qed.

(** The 400 years of an era, one by one. *)
Definition year_ok (y : Z) : bool :=
  (0 <=? year_start y) && (year_end y <? 146097) && (year_of_era (year_start y) =? y)
  && (year_of_era (year_end y) =? y) && ((y =? 399) || (year_start (y + 1) =? year_end y + 1)).

Lemma year_good y : 0 <= y < 400 -> year_ok y = true.
Proof. intros Hy. apply (forallb_seq year_ok 400); [by vm_compute|lia]. Qed.

(** The 366 days of a year. *)
Definition day_ok (doy : Z) : bool :=
  let mp := month_index doy in
  let d := doy - (153 * mp + 2) / 5 + 1 in
  let m := if mp <? 10 then mp + 3 else mp - 9 in
  (0 <=? mp) && (mp <? 12) && (1 <=? d) && (d <=? days_in_month (if doy =? 365 then 4 else 1) m).

Lemma day_good doy : 0 <= doy < 366 -> day_ok doy = true.
Proof. intros Hd. apply (forallb_seq day_ok 366); [by vm_compute|lia]. Qed.

Lemma day_of_year_range x :
  0 <= x < 146097 -> 0 <= day_of_year x <= (if leap (year_of_era x + 1) then 365 else 364).
Proof.
  intros Hx. pose proof (year_of_era_range x Hx) as Hy. pose proof (year_good _ Hy) as Hok.
  change (day_of_year x) with (x - year_start (year_of_era x)).
  cut (year_start (year_of_era x) <= x <= year_end (year_of_era x)); [unfold year_end; lia|].
  remember (year_of_era x) as y eqn:E. unfold year_ok in Hok. b2p. split.
  - destruct (Z.le_gt_cases (year_start y) x) as [|Hlt]; [done|]. exfalso.
    destruct (decide (y = 0)) as [->|Hy0]; [change (year_start 0) with 0 in Hlt; lia|].
    pose proof (year_good (y - 1) ltac:(lia)) as Hok'. unfold year_ok in Hok'. b2p.
    rewrite (proj2 (Z.eqb_neq (y - 1) 399)) in * by lia. simpl in *.
    replace (y - 1 + 1) with y in * by lia. b2p.
    pose proof (year_of_era_mono x (year_end (y - 1))). lia.
  - destruct (Z.le_gt_cases x (year_end y)) as [|Hlt]; [done|]. exfalso.
    destruct (decide (y = 399)) as [->|Hy0].
    { change (year_end 399) with 146096 in Hlt. lia. }
    rewrite (proj2 (Z.eqb_neq y 399)) in * by lia. simpl in *. b2p.
    pose proof (year_good (y + 1) ltac:(lia)) as Hok'. unfold year_ok in Hok'. b2p.
    pose proof (year_of_era_mono (year_start (y + 1)) x). lia.
Qed.

Lemma leap_era y era : leap (era * 400 + y) = leap y.
Proof.
  unfold leap. replace (era * 400 + y) with (y + era * 400) by lia.
  rewrite Z.mod_add by done.
  replace (y + era * 400) with (y + (era * 100) * 4) at 1 by lia. rewrite Z.mod_add by done.
  replace (y + era * 400) with (y + (era * 4) * 100) by lia. by rewrite Z.mod_add.
Qed.

Lemma days_in_month_leap y y' m : leap y = leap y' -> days_in_month y m = days_in_month y' m.
Proof. unfold days_in_month. by intros ->. Qed.

Lemma days_in_month_common y m : days_in_month 1 m <= days_in_month y m.
Proof. unfold days_in_month. destruct (m =? 2); [destruct (leap y); by vm_compute|lia]. Qed.

Lemma civil_of_days_spec days :
  let '(y, m, d) := civil_of_days days in valid_date y m d /\ days_of_civil y m d = days.
Proof.
  unfold civil_of_days. set (z := days + 719468). set (era := z / 146097). set (doe := z mod 146097).
  assert (Hdoe : 0 <= doe < 146097) by (apply Z.mod_pos_bound; lia).
  assert (Hz : z = era * 146097 + doe) by (unfold era, doe; pose proof (Z.div_mod z 146097); lia).
  pose proof (year_of_era_range doe Hdoe) as Hyoe. pose proof (day_of_year_range doe Hdoe) as Hdoy.
  assert (Hd : day_of_year doe = doe - year_start (year_of_era doe)) by done.
  pose proof (day_good (day_of_year doe) ltac:(destruct (leap _); lia)) as Hok. unfold day_ok in Hok.
  remember (year_of_era doe) as yoe eqn:Eyoe. clear Eyoe.
  remember (day_of_year doe) as doy eqn:Edoy. clear Edoy.
  remember (month_index doy) as mp eqn:Emp. clear Emp. cbv zeta in Hok |- *.
  remember (if mp <? 10 then mp + 3 else mp - 9) as m eqn:Em.
  apply andb_prop in Hok as [Hok Hdm]. b2p.
  assert (Hm : 1 <= m <= 12 /\ (if 2 <? m then m - 3 else m + 9) = mp /\ (m <= 2 <-> 10 <= mp)).
  { rewrite Em. destruct (mp <? 10) eqn:E; b2p; [rewrite (proj2 (Z.ltb_lt _ _)) by lia|rewrite (proj2 (Z.ltb_ge _ _)) by lia]; lia. }
  clearbody era doe. clear Em. destruct Hm as (Hm & Hmp & Hfeb). split.
  - split; [done|]. split; [done|]. etrans; [exact Hdm|].
    destruct (doy =? 365) eqn:E; [|apply days_in_month_common]. b2p.
    assert (Hleap : leap (yoe + 1) = true) by (destruct (leap (yoe + 1)); [done|lia]).
    destruct (m <=? 2) eqn:E2.
    + rewrite (days_in_month_leap 4 (era * 400 + yoe + 1)); [done|]. rewrite <- Z.add_assoc, leap_era. by rewrite Hleap.
    + b2p. unfold days_in_month. rewrite !(proj2 (Z.eqb_neq m 2)) by lia. done.
  - unfold days_of_civil. rewrite Hmp.
    replace (if m <=? 2 then era * 400 + yoe + (if m <=? 2 then 1 else 0) - 1
             else era * 400 + yoe + (if m <=? 2 then 1 else 0)) with (era * 400 + yoe) by (destruct (m <=? 2); lia).
    clear Hdm Hdoy Hmp Hfeb. unfold year_start in Hd.
    replace ((era * 400 + yoe) / 4) with (era * 100 + yoe / 4) by dlia.
    replace ((era * 400 + yoe) / 100) with (era * 4 + yoe / 100) by dlia.
    replace ((era * 400 + yoe) / 400) with era by dlia. lia.
Qed.

(** *** Reading the text back *)

(** [n] decimal digits at position [i]. *)
Definition number_at (s : bytes) (i n : nat) : option Z :=
  let f := take n (drop i s) in
  if forallb isdigit f && (length f =? n)%nat then Some (digits_value f) else None.

Definition char_at (s : bytes) (i : nat) (c : ascii) : option () :=
  if bool_decide (s !! i = Some c) then Some () else None.

(** Reads [YYYY-MM-DDThh:mm:ssZ] as seconds since the epoch; only dates of the calendar. *)
Definition iso_seconds (s : bytes) : option Z :=
  y ← number_at s 0 4; _ ← char_at s 4 "-"; m ← number_at s 5 2; _ ← char_at s 7 "-";
  d ← number_at s 8 2; _ ← char_at s 10 "T"; h ← number_at s 11 2; _ ← char_at s 13 ":";
  mi ← number_at s 14 2; _ ← char_at s 16 ":"; sec ← number_at s 17 2; _ ← char_at s 19 "Z";
  if (length s =? 20)%nat && (1 <=? m) && (m <=? 12) && (1 <=? d) && (d <=? days_in_month y m)
     && (h <? 24) && (mi <? 60) && (sec <? 60)
  then Some (seconds_of y m d h mi sec) else None.

Lemma pad2_spec n :
  0 <= n < 100 -> length (pad2 n) = 2%nat /\ forallb isdigit (pad2 n) = true /\ digits_value (pad2 n) = n.
Proof.
  intros Hn. unfold pad2.
  destruct (isdigit_chr (n / 10 mod 10)) as [H1 V1]; [dlia|].
  destruct (isdigit_chr (n mod 10)) as [H2 V2]; [dlia|].
  split_and!; [done|by cbn [forallb]; rewrite H1, H2|].
  unfold digits_value. cbn [fold_left]. rewrite V1, V2. dlia.
Qed.

Definition year_text_ok (y : Z) : bool :=
  (length (to_string y) =? 4)%nat && forallb isdigit (to_string y) && (digits_value (to_string y) =? y).

Lemma year_text y :
  1600 <= y < 2300 -> length (to_string y) = 4%nat /\ forallb isdigit (to_string y) = true /\ digits_value (to_string y) = y.
Proof.
  intros Hy. assert (H : forallb year_text_ok (seqZ 1600 700) = true) by (by vm_compute).
  rewrite forallb_forall in H. specialize (H y). unfold year_text_ok in H.
  assert (Hin : In y (seqZ 1600 700)) by (apply list_elem_of_In, elem_of_seqZ; lia).
  specialize (H Hin). b2p. apply Nat.eqb_eq in H. done.
Qed.

(** A text of fixed-width fields and separators is read field by field. *)
Lemma number_at_app a f r n :
  length f = n -> forallb isdigit f = true -> number_at (a ++ f ++ r) (length a) n = Some (digits_value f).
Proof.
  intros Hn Hf. unfold number_at. rewrite drop_app_length, <- Hn, take_app_length, Hf.
  by rewrite Nat.eqb_refl.
Qed.

Lemma char_at_app a c r : char_at (a ++ c :: r) (length a) c = Some ().
Proof.
  unfold char_at. rewrite bool_decide_true; [done|]. by rewrite list_lookup_middle.
Qed.

Lemma iso_seconds_put_time y m d sec :
  1600 <= y < 2300 -> valid_date y m d -> 0 <= sec < 86400 ->
  iso_seconds (put_time y m d sec) = Some (days_of_civil y m d * 86400 + sec) /\ length (put_time y m d sec) = 20%nat.
Proof.
  intros Hy [Hm Hd] Hs. destruct (year_text y Hy) as (Ly & Dy & Vy).
  assert (Hd31 : 1 <= d < 100).
  { split; [lia|]. assert (days_in_month y m <= 31); [|lia].
    unfold days_in_month. destruct (m =? 2); [by destruct (leap y)|]. destruct (_ || _); lia. }
  destruct (pad2_spec m ltac:(lia)) as (Lm & Dm & Vm). destruct (pad2_spec d ltac:(lia)) as (Ld & Dd & Vd).
  destruct (pad2_spec (sec / 3600) ltac:(dlia)) as (Lh & Dh & Vh).
  destruct (pad2_spec (sec / 60 mod 60) ltac:(dlia)) as (Li & Di & Vi).
  destruct (pad2_spec (sec mod 60) ltac:(dlia)) as (Ls & Ds & Vs).
  unfold put_time. 
  set (ty := to_string y) in *. set (tm := pad2 m) in *. set (td := pad2 d) in *.
  set (th := pad2 (sec / 3600)) in *. set (ti := pad2 (sec / 60 mod 60)) in *. set (tsec := pad2 (sec mod 60)) in *.
  clearbody ty tm td th ti tsec.
  destruct ty as [|y1 [|y2 [|y3 [|y4 [|]]]]]; try done. destruct tm as [|m1 [|m2 [|]]]; try done.
  destruct td as [|d1 [|d2 [|]]]; try done. destruct th as [|h1 [|h2 [|]]]; try done.
  destruct ti as [|i1 [|i2 [|]]]; try done. destruct tsec as [|s1 [|s2 [|]]]; try done.
  split; [|done]. unfold iso_seconds, number_at, char_at. cbn [app drop take length Nat.eqb lookup list_lookup].
  rewrite Dy, Dm, Dd, Dh, Di, Ds. cbn -[digits_value seconds_of days_in_month Z.leb Z.ltb]. rewrite Vy, Vm, Vd, Vh, Vi, Vs.
  pose proof (Z.mod_pos_bound sec 60 ltac:(lia)). pose proof (Z.mod_pos_bound (sec / 60) 60 ltac:(lia)).
  assert (Hh : sec / 3600 < 24) by dlia.
  rewrite !(proj2 (Z.leb_le _ _)) by lia. rewrite !(proj2 (Z.ltb_lt _ _)) by lia.
  rewrite !bool_decide_true by done. cbn -[seconds_of]. f_equal. unfold seconds_of. pose proof (Z.div_mod sec 60). pose proof (Z.div_mod (sec / 60) 60).
  replace (sec / 3600) with (sec / 60 / 60) by (by rewrite Z.div_div). lia.
Qed.

(** C38: a time point other than the epoch is printed in exactly twenty characters as a valid
    date and time of the Gregorian calendar that reads back as its second (towards the epoch);
    the epoch, which stands for no time, is printed as the empty text. *)
Theorem formatIso8601_reads_back tp :
  - two63 <= tp < two63 ->
  (tp = 0 /\ formatIso8601 tp = []) \/
  (tp <> 0 /\ length (formatIso8601 tp) = 20%nat /\ iso_seconds (formatIso8601 tp) = Some (Z.quot tp ns_per_s)).
Proof.
  intros Ht. unfold formatIso8601. destruct (tp =? 0) eqn:E; b2p; [by left|right]. split; [done|].
  unfold to_time_t. set (raw := Z.quot tp ns_per_s).
  assert (Hraw : -9223372037 < raw < 9223372037).
  { unfold raw, two63, ns_per_s in *. dlia. }
  pose proof (civil_of_days_spec (raw / 86400)) as H. destruct (civil_of_days (raw / 86400)) as [[y m] d].
  destruct H as [Hv Hd].
  assert (Hy : 1600 <= y < 2300).
  { destruct Hv as [Hm Hdm]. assert (days_in_month y m <= 31).
    { unfold days_in_month. destruct (m =? 2); [by destruct (leap y)|]. destruct (_ || _); lia. }
    assert (-106752 <= raw / 86400 <= 106752) by dlia. unfold days_of_civil in Hd.
    destruct (m <=? 2); destruct (2 <? m); b2p; dlia. }
  destruct (iso_seconds_put_time y m d (raw mod 86400) Hy Hv ltac:(apply Z.mod_pos_bound; lia)) as [-> ->].
  split; [done|]. f_equal. rewrite Hd. pose proof (Z.div_mod raw 86400). lia.
Qed.

Lemma formatIso8601_reads_back_witness :
  iso_seconds (formatIso8601 (1700000000 * ns_per_s + 999999999)) = Some 1700000000.
Proof.
  destruct (formatIso8601_reads_back (1700000000 * ns_per_s + 999999999)) as [[H _]|(_ & _ & ->)];
    [split; by vm_compute|by vm_compute in H|by vm_compute].
Defined.
