(* ===== verification/Json.v ===== *)
(** * JSON values: the specification of what the web server sends

    The program builds JSON by writing text into a stream.  Here are the values that such a
    text stands for, the text of a value, and a strict reader (RFC 8259 without insignificant
    white space), with the theorem that the reader inverts the text. *)

From S2P Require Import Prelude Utils.

#[local] Set Warnings "-register-all".

Inductive json : Type :=
  | JBool (b : bool)
  | JNum (token : bytes)
  | JStr (s : bytes)
  | JArr (items : list json)
  | JObj (members : list (bytes * json)).

(** ** The text of a value *)

Definition braces (members : list bytes) : bytes := "{"%char :: join ","%char members ++ ["}"%char].
Definition brackets (items : list bytes) : bytes := "["%char :: join ","%char items ++ ["]"%char].

(** ["name":value] *)
Definition member (name value : bytes) : bytes := jsonQuote name ++ ":"%char :: value.

Definition bool_text (b : bool) : bytes := if b then "true" else "false".

Fixpoint render (j : json) : bytes :=
  match j with
  | JBool b => bool_text b
  | JNum token => token
  | JStr s => jsonQuote s
  | JArr items => brackets (map render items)
  | JObj members => braces (map (fun m => member m.1 (render m.2)) members)
  end.

(** ** Numbers *)

Definition json_exponent (s : bytes) : bool :=
  match s with
  | [] => true
  | c :: t =>
      let t := match t with
               | sign :: u => if decide (sign = "+"%char \/ sign = "-"%char) then u else t
               | [] => t
               end in
      bool_decide (c = "e"%char \/ c = "E"%char) && bool_decide (t <> []) && forallb isdigit t
  end.

Definition json_fraction (s : bytes) : bool :=
  match s with
  | c :: t =>
      if decide (c = "."%char) then
        bool_decide (take_while isdigit t <> []) && json_exponent (drop_while isdigit t)
      else json_exponent s
  | [] => true
  end.

(** [-? (0 | [1-9][0-9]*\ ) (. [0-9]+)? ([eE] [+-]? [0-9]+)?] *)
Definition json_number (s : bytes) : bool :=
  let s := match s with
           | c :: t => if decide (c = "-"%char) then t else s
           | [] => s
           end in
  match s with
  | [] => false
  | c :: t => isdigit c && json_fraction (if decide (c = "0"%char) then t else drop_while isdigit t)
  end.

Definition number_char (c : ascii) : bool :=
  isdigit c || bool_decide (c = "+"%char) || bool_decide (c = "-"%char) || bool_decide (c = "."%char)
  || bool_decide (c = "e"%char) || bool_decide (c = "E"%char).

Fixpoint json_ok (j : json) : bool :=
  match j with
  | JBool _ | JStr _ => true
  | JNum token => json_number token
  | JArr items => forallb json_ok items
  | JObj members => forallb (fun m => json_ok m.2) members
  end.

(** ** The reader *)

(** The text up to the first quote that no backslash protects. *)
Fixpoint string_body (s : bytes) : option (bytes * bytes) :=
  match s with
  | [] => None
  | c :: t =>
      if decide (c = c_dquote) then Some ([], t)
      else if decide (c = c_backslash) then
        match t with
        | [] => None
        | e :: u => (fun r => (c :: e :: r.1, r.2)) <$> string_body u
        end
      else (fun r => (c :: r.1, r.2)) <$> string_body t
  end.

Definition parse_string (s : bytes) : option (bytes * bytes) :=
  '(body, rest) ← string_body s; v ← json_unescape body; Some (v, rest).

Definition expect (c : ascii) (s : bytes) : option bytes :=
  match s with x :: t => if decide (x = c) then Some t else None | [] => None end.

Definition parse_number (s : bytes) : option (json * bytes) :=
  let token := take_while number_char s in
  if json_number token then Some (JNum token, drop_while number_char s) else None.

Definition parse_word (s : bytes) : option (json * bytes) :=
  if starts_with "true" s then Some (JBool true, drop 4 s)
  else if starts_with "false" s then Some (JBool false, drop 5 s)
  else parse_number s.

Fixpoint parse_value (fuel : nat) (s : bytes) : option (json * bytes) :=
  match fuel with
  | O => None
  | S fuel =>
      match s with
      | [] => None
      | c :: t =>
          if decide (c = "{"%char) then
            match expect "}" t with
            | Some rest => Some (JObj [], rest)
            | None => '(members, rest) ← parse_members fuel t; Some (JObj members, rest)
            end
          else if decide (c = "["%char) then
            match expect "]" t with
            | Some rest => Some (JArr [], rest)
            | None => '(items, rest) ← parse_items fuel t; Some (JArr items, rest)
            end
          else if decide (c = c_dquote) then '(v, rest) ← parse_string t; Some (JStr v, rest)
          else parse_word s
      end
  end
with parse_items (fuel : nat) (s : bytes) : option (list json * bytes) :=
  match fuel with
  | O => None
  | S fuel =>
      '(item, rest) ← parse_value fuel s;
      match expect "," rest with
      | Some rest => '(items, rest) ← parse_items fuel rest; Some (item :: items, rest)
      | None => rest ← expect "]" rest; Some ([item], rest)
      end
  end
with parse_members (fuel : nat) (s : bytes) : option (list (bytes * json) * bytes) :=
  match fuel with
  | O => None
  | S fuel =>
      rest ← expect c_dquote s; '(name, rest) ← parse_string rest; rest ← expect ":" rest;
      '(item, rest) ← parse_value fuel rest;
      match expect "," rest with
      | Some rest => '(members, rest) ← parse_members fuel rest; Some ((name, item) :: members, rest)
      | None => rest ← expect "}" rest; Some ([(name, item)], rest)
      end
  end.

(** The whole text is one value. *)
Definition parse_json (s : bytes) : option json :=
  '(j, rest) ← parse_value (S (length s)) s; if decide (rest = []) then Some j else None.

(** ** The reader inverts the text *)

Lemma string_body_char c t :
  string_body (json_escape_char c ++ t) = (fun r => (json_escape_char c ++ r.1, r.2)) <$> string_body t.
Proof.
  destruct c as [[] [] [] [] [] [] [] []];
    match goal with |- context [json_escape_char ?c] =>
      let v := eval vm_compute in (json_escape_char c) in change (json_escape_char c) with v end;
    cbn; destruct (string_body t) as [[? ?]|]; reflexivity.
Qed.

Lemma string_body_escape s rest : string_body (jsonEscape s ++ c_dquote :: rest) = Some (jsonEscape s, rest).
Proof.
  induction s as [|c s IH]; [done|]. unfold jsonEscape in *. rewrite bind_cons, <- app_assoc, string_body_char, IH.
  done.
Qed.

Lemma json_unescape_escape s : json_unescape (jsonEscape s) = Some s.
Proof.
  induction s as [|c s IH]; [done|]. unfold jsonEscape in *. by rewrite bind_cons, json_unescape_char, IH.
Qed.

Lemma parse_string_escape s rest : parse_string (jsonEscape s ++ c_dquote :: rest) = Some (s, rest).
Proof. unfold parse_string. rewrite string_body_escape. simpl. by rewrite json_unescape_escape. Qed.

Lemma isdigit_number_char c : isdigit c = true -> number_char c = true.
Proof. unfold number_char. by intros ->. Qed.

Lemma forallb_number_char s : forallb isdigit s = true -> Forall (fun c => number_char c = true) s.
Proof. rewrite forallb_forall, Forall_forall. intros H c Hc. apply isdigit_number_char, H. by apply list_elem_of_In. Qed.

Lemma json_exponent_chars s : json_exponent s = true -> Forall (fun c => number_char c = true) s.
Proof.
  unfold json_exponent. destruct s as [|c t]; [done|]. intros H. b2p.
  constructor; [destruct H as [->| ->]; done|]. destruct t as [|sign u]; [done|].
  case_decide as Hs; [|by apply forallb_number_char].
  constructor; [destruct Hs as [->| ->]; done|by apply forallb_number_char].
Qed.

Lemma json_fraction_chars s : json_fraction s = true -> Forall (fun c => number_char c = true) s.
Proof.
  unfold json_fraction. destruct s as [|c t]; [done|]. case_decide as Hc; [|apply json_exponent_chars].
  intros H. b2p. subst. constructor; [done|]. rewrite <- (take_drop_while isdigit t).
  apply Forall_app. split; [|by apply json_exponent_chars].
  eapply Forall_impl; [apply take_while_forall|]. intros x. apply isdigit_number_char.
Qed.

Lemma json_number_chars s : json_number s = true -> Forall (fun c => number_char c = true) s.
Proof.
  assert (H : forall c t, isdigit c && json_fraction (if decide (c = "0"%char) then t else drop_while isdigit t) = true ->
    Forall (fun c => number_char c = true) (c :: t)).
  { intros c t H. b2p. constructor; [by apply isdigit_number_char|]. case_decide; [by apply json_fraction_chars|].
    rewrite <- (take_drop_while isdigit t). apply Forall_app. split; [|by apply json_fraction_chars].
    eapply Forall_impl; [apply take_while_forall|]. intros x. apply isdigit_number_char. }
  unfold json_number. destruct s as [|c t]; [done|]. case_decide as Hc; [|apply H].
  subst. destruct t as [|d u]; [done|]. intros Hn. constructor; [done|]. by apply H.
Qed.

(** What may come after a value inside a text. *)
Definition ends_value (rest : bytes) : Prop :=
  match rest with [] => True | c :: _ => number_char c = false end.

Lemma parse_number_token token rest :
  json_number token = true -> ends_value rest -> parse_number (token ++ rest) = Some (JNum token, rest).
Proof.
  intros Hn Hr. pose proof (json_number_chars _ Hn) as Hc. unfold parse_number.
  rewrite take_while_app_stop, drop_while_app_stop by (try done; destruct rest; done). by rewrite Hn.
Qed.

(** A number starts with a digit or a minus sign. *)
Lemma json_number_head token :
  json_number token = true -> exists c t, token = c :: t /\ (isdigit c = true \/ c = "-"%char).
Proof.
  unfold json_number. destruct token as [|c t]; [done|]. intros H. exists c, t. split; [done|].
  case_decide; [by right|]. b2p. by left.
Qed.

Lemma parse_word_number token rest :
  json_number token = true -> ends_value rest ->
  forall fuel, parse_value (S fuel) (token ++ rest) = Some (JNum token, rest).
Proof.
  intros Hn Hr fuel. destruct (json_number_head _ Hn) as (c & t & -> & Hc). cbn [parse_value app].
  assert (Hne : c <> "{"%char /\ c <> "["%char /\ c <> c_dquote /\ c <> "t"%char /\ c <> "f"%char).
  { split_and!; intros ->; destruct Hc; done. }
  destruct Hne as (? & ? & ? & Ht & Hf). rewrite !decide_False by done.
  unfold parse_word. cbn [starts_with String.list_ascii_of_string]. rewrite (decide_False _ _ (P := "t"%char = c)) by congruence.
  rewrite (decide_False _ _ (P := "f"%char = c)) by congruence.
  by apply (parse_number_token (c :: t)).
Qed.

(** The depth of recursion the reader needs. *)
Fixpoint json_size (j : json) : nat :=
  match j with
  | JBool _ | JNum _ | JStr _ => 1
  | JArr items => S (list_sum (map (fun x => S (json_size x)) items))
  | JObj members => S (list_sum (map (fun m => S (json_size m.2)) members))
  end.

Definition value_reads (j : json) : Prop :=
  forall fuel rest, (json_size j <= fuel)%nat -> ends_value rest ->
    parse_value fuel (render j ++ rest) = Some (j, rest).

Lemma list_sum_cons n l : list_sum (n :: l) = (n + list_sum l)%nat.
Proof. done. Qed.

Lemma expect_head c t : expect c (c :: t) = Some t.
Proof. unfold expect. by rewrite decide_True. Qed.

Lemma expect_other c x t : x <> c -> expect c (x :: t) = None.
Proof. intros H. unfold expect. by rewrite decide_False. Qed.

(** No value starts with a closing bracket. *)
Lemma render_head j : json_ok j = true -> exists c t, render j = c :: t /\ c <> "]"%char /\ c <> "}"%char.
Proof.
  destruct j as [[]|token|s|items|members]; intros H; simpl in *; try (eexists _, _; split; [reflexivity|done]).
  destruct (json_number_head _ H) as (c & t & -> & Hc). eexists _, _. split; [done|].
  split; intros ->; destruct Hc; done.
Qed.

Lemma parse_items_render items rest :
  items <> [] -> Forall value_reads items ->
  forall fuel, (list_sum (map (fun x => S (json_size x)) items) <= fuel)%nat ->
    parse_items fuel (join ","%char (map render items) ++ "]"%char :: rest) = Some (items, rest).
Proof.
  intros Hne Hall. induction Hall as [|x l Hx Hl IH]; [done|]. clear Hne. intros fuel Hfuel.
  cbn [map] in Hfuel. rewrite list_sum_cons in Hfuel. destruct fuel as [|fuel]; [lia|]. cbn [parse_items map].
  destruct l as [|y l].
  - cbn [map join]. rewrite Hx by (try done; lia). cbn [mbind option_bind].
    rewrite expect_other by done. by rewrite expect_head.
  - cbn [map]. rewrite join_cons by done. rewrite <- app_assoc. cbn [app].
    rewrite Hx by (try done; lia). cbn [mbind option_bind]. rewrite expect_head.
    cbn [map] in IH, Hfuel. rewrite IH by (try done; lia). done.
Qed.

Lemma parse_members_render members rest :
  members <> [] -> Forall (fun m => value_reads m.2) members ->
  forall fuel, (list_sum (map (fun m => S (json_size m.2)) members) <= fuel)%nat ->
    parse_members fuel (join ","%char (map (fun m => member m.1 (render m.2)) members) ++ "}"%char :: rest)
      = Some (members, rest).
Proof.
  intros Hne Hall. induction Hall as [|[k x] l Hx Hl IH]; [done|]. clear Hne. intros fuel Hfuel.
  cbn [map fst snd] in Hfuel, Hx. rewrite list_sum_cons in Hfuel. destruct fuel as [|fuel]; [lia|].
  assert (Hm : forall r, (forall fuel', (json_size x <= fuel')%nat -> parse_value fuel' (render x ++ r) = Some (x, r)) ->
    parse_members (S fuel) (member k (render x) ++ r) =
      match expect "," r with
      | Some r => '(members, rest) ← parse_members fuel r; Some ((k, x) :: members, rest)
      | None => r ← expect "}" r; Some ([(k, x)], r)
      end).
  { intros r Hr. unfold member, jsonQuote. cbn [parse_members app]. rewrite <- !app_assoc, expect_head.
    cbn [mbind option_bind app]. rewrite parse_string_escape. cbn [mbind option_bind].
    rewrite expect_head. cbn [mbind option_bind]. rewrite Hr by lia. done. }
  destruct l as [|y l].
  - cbn [map join fst snd]. rewrite Hm by (intros; apply Hx; done). by rewrite expect_other, expect_head.
  - cbn [map fst snd]. rewrite join_cons by done. rewrite <- app_assoc. cbn [app].
    rewrite Hm by (intros; apply Hx; done). rewrite expect_head.
    cbn [map] in IH, Hfuel. rewrite IH by (try done; lia). done.
Qed.

Lemma json_induction (P : json -> Prop) :
  (forall b, P (JBool b)) -> (forall token, P (JNum token)) -> (forall s, P (JStr s)) ->
  (forall items, Forall P items -> P (JArr items)) ->
  (forall members, Forall (fun m => P m.2) members -> P (JObj members)) ->
  forall j, P j.
Proof.
  intros HB HN HS HA HO. fix IH 1. intros [b|token|s|items|members]; [apply HB|apply HN|apply HS|apply HA|apply HO].
  - induction items as [|x l IHl]; constructor; [apply IH|exact IHl].
  - induction members as [|x l IHl]; constructor; [apply IH|exact IHl].
Qed.

Lemma forallb_Forall_impl {A} (f : A -> bool) (P : A -> Prop) l :
  Forall (fun x => f x = true -> P x) l -> forallb f l = true -> Forall P l.
Proof. induction 1 as [|x l Hx Hl IH]; simpl; [done|]. intros H. b2p. auto. Qed.

Lemma parse_value_render j : json_ok j = true -> value_reads j.
Proof.
  induction j as [b|token|s|items IH|members IH] using json_induction; intros Hok fuel rest Hfuel Hr;
    (destruct fuel as [|fuel]; [simpl in Hfuel; lia|]).
  - by destruct b.
  - by apply parse_word_number.
  - unfold render, jsonQuote. cbn [parse_value app]. rewrite <- app_assoc. cbn [app].
    destruct (decide _) as [E|_]; [by vm_compute in E|]. destruct (decide _) as [E|_]; [by vm_compute in E|].
    rewrite decide_True by done. by rewrite parse_string_escape.
  - cbn [render json_ok json_size] in *. unfold brackets. cbn [parse_value app].
    destruct (decide _) as [E|_]; [by vm_compute in E|]. rewrite decide_True by done.
    destruct (decide (items = [])) as [->|Hne]; [by cbn [map join app]; rewrite expect_head|].
    rewrite <- app_assoc. cbn [app]. replace (expect "]" _) with (@None bytes).
    { rewrite parse_items_render; [done|done|by apply (forallb_Forall_impl json_ok)|lia]. }
    destruct items as [|x l]; [done|]. cbn in Hok. b2p. destruct (render_head x) as (c & t & E & H1 & _); [done|].
    cbn [map]. destruct l; cbn [map join]; rewrite E; cbn [app]; by rewrite expect_other.
  - cbn [render json_ok json_size] in *. unfold braces. cbn [parse_value app]. rewrite decide_True by done.
    destruct (decide (members = [])) as [->|Hne]; [by cbn [map join app]; rewrite expect_head|].
    rewrite <- app_assoc. cbn [app]. replace (expect "}" _) with (@None bytes).
    { rewrite parse_members_render; [done|done| |lia].
      by apply (forallb_Forall_impl (fun m => json_ok m.2)). }
    destruct members as [|[k x] l]; [done|]. cbn [map fst snd]. unfold member, jsonQuote.
    by destruct l; cbn [map join app]; rewrite expect_other.
Qed.

Lemma list_sum_le {A} (f : A -> nat) (g : A -> bytes) l :
  Forall (fun x => (f x <= length (g x))%nat) l ->
  (list_sum (map (fun x => S (f x)) l) <= S (length (join ","%char (map g l))))%nat.
Proof.
  induction 1 as [|x l Hx Hl IH]; [simpl; lia|]. cbn [map]. rewrite list_sum_cons.
  destruct l as [|y l]; [simpl; lia|]. cbn [map] in *. rewrite join_cons by done.
  rewrite length_app. cbn [length] in *. lia.
Qed.

Lemma json_size_length j : json_ok j = true -> (json_size j <= length (render j))%nat.
Proof.
  induction j as [b|token|s|items IH|members IH] using json_induction; intros Hok.
  - destruct b; simpl; lia.
  - destruct (json_number_head _ Hok) as (c & t & -> & _). simpl. lia.
  - simpl. lia.
  - cbn [render json_size json_ok] in *. unfold brackets. cbn [length]. rewrite length_app. cbn [length].
    pose proof (list_sum_le json_size render items (forallb_Forall_impl json_ok _ _ IH Hok)). lia.
  - cbn [render json_size json_ok] in *. unfold braces. cbn [length]. rewrite length_app. cbn [length].
    assert (H : Forall (fun m => (json_size m.2 <= length (member m.1 (render m.2)))%nat) members).
    { eapply Forall_impl; [by apply (forallb_Forall_impl _ _ _ IH)|].
      intros m Hm. simpl in *. rewrite length_app. simpl. lia. }
    pose proof (list_sum_le (fun m => json_size m.2) (fun m => member m.1 (render m.2)) members H). lia.
Qed.

Lemma parse_json_render j : json_ok j = true -> parse_json (render j) = Some j.
Proof.
  intros H. unfold parse_json. pose proof (parse_value_render j H (S (length (render j))) []) as E.
  rewrite app_nil_r in E. rewrite E; [done| |done]. pose proof (json_size_length j H). lia.
Qed.
