(* ===== verification/RingBuffer.v ===== *)
(** * src/include/netmon/ring_buffer.hpp: the bounded event buffer

    A deque and a capacity.  [RingBuffer_refines_history] shows that, whatever is
    pushed, the buffer holds the most recent elements up to its capacity, and that
    [items(limit)] returns the most recent [limit] of them, oldest first. *)

From S2P Require Import Prelude.

Record RingBuffer (T : Type) := mkRingBuffer { capacity_ : Z; items_ : list T }.
Arguments mkRingBuffer {T} _ _.
Arguments capacity_ {T} _.
Arguments items_ {T} _.

Section RingBuffer.
Context {T : Type}.
Implicit Types (rb : RingBuffer T).

Definition size_z (l : list T) : Z := Z.of_nat (length l).

(** The constructor. *)
Definition rb_new (capacity : Z) : RingBuffer T := mkRingBuffer capacity [].

(** [while (capacity_ > 0 && items_.size() > capacity_) items_.pop_front();] *)
Fixpoint rb_pop_loop (capacity : Z) (items : list T) : list T :=
  match items with
  | [] => []
  | _ :: rest =>
      if (0 <? capacity) && (capacity <? size_z items) then rb_pop_loop capacity rest else items
  end.

Definition rb_trim rb : RingBuffer T :=
  let items := rb_pop_loop (capacity_ rb) (items_ rb) in
  mkRingBuffer (capacity_ rb) (if capacity_ rb =? 0 then [] else items).

Definition rb_setCapacity rb (capacity : Z) : RingBuffer T :=
  rb_trim (mkRingBuffer capacity (items_ rb)).

Definition rb_push rb (value : T) : RingBuffer T :=
  if capacity_ rb =? 0 then rb
  else rb_trim (mkRingBuffer (capacity_ rb) (items_ rb ++ [value])).

(** [items(limit)]; a limit of 0 means all. *)
Definition rb_items rb (limit : Z) : list T :=
  let size := size_z (items_ rb) in
  let wanted := if (limit =? 0) || (size <? limit) then size else limit in
  drop (Z.to_nat (size - wanted)) (items_ rb).

Definition rb_size rb : Z := size_z (items_ rb).

Definition rb_clear rb : RingBuffer T := mkRingBuffer (capacity_ rb) [].

(** ** The invariant *)

Definition rb_ok rb : Prop := 0 <= capacity_ rb /\ rb_size rb <= capacity_ rb.

Lemma rb_pop_loop_lastn cap items :
  0 < cap -> rb_pop_loop cap items = lastn (Z.to_nat cap) items.
Proof.
  intros Hc. induction items as [|x items IH]; [done|]. cbn [rb_pop_loop].
  destruct (0 <? cap) eqn:E1; [|lia]. unfold size_z. cbn [length andb].
  destruct (cap <? Z.of_nat (S (length items))) eqn:E2.
  - rewrite IH. unfold lastn. cbn [length].
    assert (S (length items) - Z.to_nat cap = S (length items - Z.to_nat cap))%nat as -> by blia.
    done.
  - rewrite lastn_all; [done|]. cbn [length]. blia.
Qed.

Lemma rb_trim_items rb :
  0 <= capacity_ rb -> items_ (rb_trim rb) = lastn (Z.to_nat (capacity_ rb)) (items_ rb).
Proof.
  intros Hc. unfold rb_trim. simpl. destruct (capacity_ rb =? 0) eqn:E.
  - apply Z.eqb_eq in E. by rewrite E, lastn_0.
  - apply rb_pop_loop_lastn. lia.
Qed.

Lemma rb_push_items rb x :
  0 <= capacity_ rb ->
  items_ (rb_push rb x) = lastn (Z.to_nat (capacity_ rb)) (items_ rb ++ [x]) \/
  (capacity_ rb = 0 /\ rb_push rb x = rb).
Proof.
  intros Hc. unfold rb_push. destruct (capacity_ rb =? 0) eqn:E.
  - right. split; [lia|done].
  - left. by rewrite rb_trim_items.
Qed.

Lemma rb_push_capacity rb x : capacity_ (rb_push rb x) = capacity_ rb.
Proof. unfold rb_push. by destruct (capacity_ rb =? 0). Qed.

Lemma rb_new_ok cap : 0 <= cap -> rb_ok (rb_new cap).
Proof. by split. Qed.

Lemma rb_trim_ok rb : 0 <= capacity_ rb -> rb_ok (rb_trim rb).
Proof.
  intros Hc. split; [done|]. unfold rb_size, size_z.
  rewrite rb_trim_items, lastn_length by done. simpl. lia.
Qed.

Lemma rb_push_ok rb x : rb_ok rb -> rb_ok (rb_push rb x).
Proof.
  intros [Hc Hs]. unfold rb_push. destruct (capacity_ rb =? 0); [done|]. by apply rb_trim_ok.
Qed.

Lemma rb_setCapacity_ok rb cap : 0 <= cap -> rb_ok (rb_setCapacity rb cap).
Proof. intros Hc. by apply rb_trim_ok. Qed.

(** Only pushed elements are in the buffer. *)
Lemma rb_push_elem rb x y : y ∈ items_ (rb_push rb x) -> y = x \/ y ∈ items_ rb.
Proof.
  unfold rb_push. destruct (capacity_ rb =? 0) eqn:E; [by right|].
  unfold rb_trim. simpl. rewrite E.
  intros Hy. assert (y ∈ items_ rb ++ [x]) as H.
  { revert Hy. generalize (items_ rb ++ [x]). intros l. induction l as [|z l IH]; simpl; [done|].
    destruct (_ && _); [|done]. intros Hy. right. by apply IH. }
  set_solver.
Qed.

(** ** Refinement: the buffer against the whole history *)

(** The abstract state is the list of everything pushed so far; the buffer
    represents it when it holds its last [capacity] elements. *)
Definition rb_represents rb (history : list T) : Prop :=
  0 <= capacity_ rb /\ items_ rb = lastn (Z.to_nat (capacity_ rb)) history.

Lemma rb_new_represents cap : 0 <= cap -> rb_represents (rb_new cap) [].
Proof. intros Hc. split; [done|]. simpl. by rewrite lastn_all by (simpl; lia). Qed.

Lemma rb_push_represents rb history x :
  rb_represents rb history -> rb_represents (rb_push rb x) (history ++ [x]).
Proof.
  intros [Hc Hi]. split; [by rewrite rb_push_capacity|]. rewrite rb_push_capacity.
  unfold rb_push. destruct (capacity_ rb =? 0) eqn:E.
  - apply Z.eqb_eq in E. by rewrite Hi, E, !lastn_0.
  - rewrite rb_trim_items by done. simpl. rewrite Hi.
    destruct (Z.to_nat (capacity_ rb)) as [|n] eqn:En; [lia|].
    rewrite !lastn_snoc, lastn_lastn. by rewrite Nat.min_l by lia.
Qed.

Lemma rb_items_lastn rb limit :
  0 <= limit ->
  rb_items rb limit =
  (if limit =? 0 then items_ rb else lastn (Z.to_nat limit) (items_ rb)).
Proof.
  intros Hl. unfold rb_items, size_z. destruct (limit =? 0) eqn:E; simpl.
  - by replace (Z.of_nat _ - Z.of_nat _) with 0 by lia.
  - destruct (Z.of_nat (length (items_ rb)) <? limit) eqn:E2.
    + rewrite lastn_all by lia. by replace (Z.of_nat _ - Z.of_nat _) with 0 by lia.
    + unfold lastn. f_equal. lia.
Qed.

(** C33: after any sequence of pushes into a new buffer, [items(limit)] is the last
    [limit] pushed elements, oldest first, or the last [capacity] of them when the
    limit is 0 or above the capacity: the buffer refines the unbounded history. *)
Theorem RingBuffer_refines_history cap limit (history : list T) :
  0 <= cap -> 0 <= limit ->
  rb_items (fold_left rb_push history (rb_new cap)) limit =
  lastn (Z.to_nat (if (limit =? 0) || (cap <? limit) then cap else limit)) history.
Proof.
  intros Hc Hl.
  assert (H : capacity_ (fold_left rb_push history (rb_new cap)) = cap /\
              rb_represents (fold_left rb_push history (rb_new cap)) history).
  { induction history as [|x history [IHc IHr]] using rev_ind.
    - split; [done|]. by apply rb_new_represents.
    - rewrite fold_left_app. simpl. split.
      + by rewrite rb_push_capacity.
      + by apply rb_push_represents. }
  destruct H as [Hcap [_ Hi]]. rewrite Hcap in Hi.
  rewrite rb_items_lastn by done. rewrite Hi.
  destruct (limit =? 0) eqn:E; simpl; [done|]. rewrite lastn_lastn. f_equal.
  destruct (cap <? limit) eqn:E2; lia.
Qed.

End RingBuffer.

#[export] Hint Resolve rb_push_ok rb_new_ok rb_setCapacity_ok : netmon.

(** The buffer of the repository's own test: capacity 3, four pushes. *)
Lemma RingBuffer_refines_history_witness :
  rb_items (fold_left rb_push [1; 2; 3; 4] (rb_new 3)) 0 = [2; 3; 4].
Proof. apply (RingBuffer_refines_history 3 0 [1; 2; 3; 4]); lia. Defined.
