(* ===== verification/Double.v ===== *)
(** * [double]: IEEE 754 binary64

    The rates are C++ [double]s.  They are modelled by the specification floats of
    the Rocq core library at precision 53 and exponent range 1024, with rounding to
    nearest even: exact binary64 arithmetic that computes inside the logic, with one
    NaN.  The lemmas bound the exponent of a rounded result, from which the
    conversions and products of the rate computation are never infinite, and the
    precision of quotients, from which a rate is finite and never negative
    ([rate_bps_rate]). *)

From S2P Require Import Prelude.
From Corelib Require Export SpecFloat.

Abbreviation double := spec_float.

Definition dprec : Z := 53.
Definition demax : Z := 1024.

Definition d_zero : double := S754_zero false.

(** [static_cast<double>(n)] of an integer. *)
Definition d_of_Z (n : Z) : double := binary_normalize dprec demax n 0 false.

Definition dadd : double -> double -> double := SFadd dprec demax.
Definition dmul : double -> double -> double := SFmul dprec demax.
Definition ddiv : double -> double -> double := SFdiv dprec demax.
Definition dabs : double -> double := SFabs.
Definition dltb : double -> double -> bool := SFltb.

(** [duration_cast<duration<double>>(ns).count()]: nanoseconds to seconds. *)
Definition d_seconds (ns : Z) : double := ddiv (d_of_Z ns) (d_of_Z ns_per_s).

(** [static_cast<double>(delta) * 8.0 / delta_time]. *)
Definition rate_bps (delta : Z) (delta_time : double) : double :=
  ddiv (dmul (d_of_Z delta) (d_of_Z 8)) delta_time.

#[export] Instance double_eq_dec : EqDecision double.
Proof. solve_decision. Defined.

(** ** Signs and finiteness *)

(** Zero or positive, possibly infinite; not NaN. *)
Definition d_nonneg (x : double) : Prop :=
  match x with
  | S754_zero s | S754_infinity s | S754_finite s _ _ => s = false
  | S754_nan => False
  end.

Definition d_finite (x : double) : Prop :=
  match x with S754_zero _ | S754_finite _ _ _ => True | _ => False end.

Lemma iter_pos_inv {A} (P : A -> Prop) (f : A -> A) n x :
  (forall y, P y -> P (f y)) -> P x -> P (iter_pos f n x).
Proof. intros Hf. revert x. induction n; intros x Hx; simpl; auto. Qed.

Lemma digits2_pos_lower p : 2 ^ (Z.pos (digits2_pos p) - 1) <= Z.pos p.
Proof.
  assert (H : forall q, 2 ^ (Z.pos (digits2_pos q) - 1) <= Z.pos q ->
                        2 ^ (Z.pos (Pos.succ (digits2_pos q)) - 1) <= 2 * Z.pos q).
  { intros q Hq. rewrite Pos2Z.inj_succ.
    replace (Z.succ (Z.pos (digits2_pos q)) - 1) with (Z.succ (Z.pos (digits2_pos q) - 1)) by lia.
    rewrite Z.pow_succ_r by lia. lia. }
  induction p as [p IH|p IH|]; cbn [digits2_pos].
  - apply H in IH. rewrite Pos2Z.inj_xI. etrans; [exact IH|lia].
  - apply H in IH. rewrite Pos2Z.inj_xO. exact IH.
  - done.
Qed.

Lemma Zdigits2_le m k : 0 <= m < 2 ^ k -> 0 <= k -> Zdigits2 m <= k.
Proof.
  intros Hm Hk. destruct m as [|p|p]; simpl; [done| |lia].
  pose proof (digits2_pos_lower p) as Hl.
  destruct (Z.le_gt_cases (Z.pos (digits2_pos p)) k) as [|Hgt]; [done|].
  assert (2 ^ k <= 2 ^ (Z.pos (digits2_pos p) - 1)) by (apply Z.pow_le_mono_r; lia).
  lia.
Qed.

Lemma shr_1_bounds mrs :
  0 <= shr_m mrs -> 0 <= shr_m (shr_1 mrs) <= shr_m mrs.
Proof. destruct mrs as [[|[p|p|]|p] r s]; simpl; lia. Qed.

Lemma shr_fexp_bounds m e l k :
  0 <= m < 2 ^ k -> 0 <= k ->
  let '(mrs, e') := shr_fexp dprec demax m e l in
  0 <= shr_m mrs <= m /\ e' <= Z.max e (-1074) + k.
Proof.
  intros Hm Hk. unfold shr_fexp, shr.
  pose proof (Zdigits2_le m k Hm Hk) as Hd.
  assert (Hl : shr_m (shr_record_of_loc m l) = m) by (by destruct l as [|[]]).
  assert (Hf : fexp dprec demax (Zdigits2 m + e) <= Z.max e (-1074) + k).
  { unfold fexp, emin, dprec, demax. lia. }
  destruct (fexp dprec demax (Zdigits2 m + e) - e) as [|p|p] eqn:E; simpl.
  - rewrite Hl. lia.
  - split; [|lia]. apply (iter_pos_inv (fun r => 0 <= shr_m r <= m)).
    + intros r Hr. pose proof (shr_1_bounds r). lia.
    + rewrite Hl. lia.
  - rewrite Hl. lia.
Qed.

(** Rounding keeps the sign, never gives NaN, and stays finite while the exponent
    has room. *)
Lemma binary_round_aux_sign sx m e l k :
  0 <= m < 2 ^ k -> 0 <= k ->
  match binary_round_aux dprec demax sx m e l with
  | S754_zero s => s = sx
  | S754_infinity s => s = sx /\ 970 < Z.max e (-1074) + 2 * k + 1
  | S754_finite s m' e' => s = sx /\ Z.pos m' <= 2 ^ k /\ e' <= Z.max e (-1074) + 2 * k + 1
  | S754_nan => False
  end.
Proof.
  intros Hm Hk. unfold binary_round_aux.
  pose proof (shr_fexp_bounds m e l k Hm Hk) as H1.
  destruct (shr_fexp dprec demax m e l) as [mrs e'] eqn:E1. destruct H1 as [H1m H1e].
  set (m1 := round_nearest_even (shr_m mrs) (loc_of_shr_record mrs)).
  assert (0 <= m1 <= m + 1) as Hm1.
  { unfold m1, round_nearest_even. destruct (loc_of_shr_record mrs) as [|[]]; repeat case_match; lia. }
  assert (2 ^ k < 2 ^ (k + 1)) as Hpow by (apply Z.pow_lt_mono_r; lia).
  pose proof (shr_fexp_bounds m1 e' loc_Exact (k + 1) ltac:(lia) ltac:(lia)) as H2.
  destruct (shr_fexp dprec demax m1 e' loc_Exact) as [mrs2 e2] eqn:E2. destruct H2 as [H2m H2e].
  destruct (shr_m mrs2) as [|p|p]; [done| |lia].
  destruct (e2 <=? demax - dprec) eqn:Ee; unfold demax, dprec in *; b2p.
  - split; [done|]. split; [|lia].
    destruct (Z.le_gt_cases (Z.pos p) (2 ^ k)); [done|]. lia.
  - split; [done|]. lia.
Qed.

Lemma pos_shl_bound (m : positive) (d : positive) :
  Z.pos (Pos.iter xO m d) = Z.pos m * 2 ^ Z.pos d.
Proof.
  induction d as [|d IH] using Pos.peano_ind.
  - simpl. lia.
  - rewrite Pos.iter_succ, Pos2Z.inj_xO, IH, Pos2Z.inj_succ, Z.pow_succ_r by lia. lia.
Qed.

(** Conversion of a value below [2^64] is finite and keeps the sign. *)
Lemma d_of_Z_bounds n :
  0 <= n < two64 ->
  match d_of_Z n with
  | S754_zero s => s = false
  | S754_finite s m e => s = false /\ Z.pos m <= 2 ^ 64 /\ e <= 129
  | _ => False
  end.
Proof.
  intros Hn. unfold d_of_Z, binary_normalize. destruct n as [|p|p]; [done| |lia].
  unfold binary_round, shl_align.
  pose proof (digits2_pos_lower p) as Hl.
  assert (Z.pos (digits2_pos p) <= 64) as Hd.
  { apply (Zdigits2_le (Z.pos p) 64); [|lia]. change (2 ^ 64) with two64. lia. }
  set (x := fexp dprec demax (Z.pos (digits2_pos p) + 0)).
  assert (Hx : x = Z.pos (digits2_pos p) - 53).
  { unfold x, fexp, emin, dprec, demax. lia. }
  assert (Hcase : exists mz ez, (match x - 0 with
                                | Z.neg d => (Pos.iter xO p d, x)
                                | _ => (p, 0) end) = (mz, ez) /\ Z.pos mz < 2 ^ 64 /\ -1074 <= ez <= 0).
  { destruct (x - 0) as [|d|d] eqn:E.
    - exists p, 0. split; [done|]. change (2 ^ 64) with two64. lia.
    - exists p, 0. split; [done|]. change (2 ^ 64) with two64. lia.
    - exists (Pos.iter xO p d), x. split; [done|]. split; [|lia].
      rewrite pos_shl_bound.
      assert (Z.pos p < 2 ^ Z.pos (digits2_pos p)) as Hup.
      { clear. induction p as [p IH|p IH|]; cbn [digits2_pos]; [| |done];
          rewrite Pos2Z.inj_succ, Z.pow_succ_r by lia; lia. }
      assert (Z.pos p * 2 ^ Z.pos d < 2 ^ Z.pos (digits2_pos p) * 2 ^ Z.pos d)
        by (apply Z.mul_lt_mono_pos_r; lia).
      rewrite <- Z.pow_add_r in * by lia.
      replace (Z.pos (digits2_pos p) + Z.pos d) with 53 in * by lia.
      assert (2 ^ 53 < 2 ^ 64) by (apply Z.pow_lt_mono_r; lia). lia. }
  destruct Hcase as (mz & ez & -> & Hmz & Hez).
  pose proof (binary_round_aux_sign false (Z.pos mz) ez loc_Exact 64 ltac:(lia) ltac:(lia)) as H.
  destruct (binary_round_aux dprec demax false (Z.pos mz) ez loc_Exact); [done|lia|done|].
  destruct H as (? & ? & ?). split; [done|]. split; [done|lia].
Qed.

Lemma d_of_Z_nonneg n : 0 <= n < two64 -> d_nonneg (d_of_Z n) /\ d_finite (d_of_Z n).
Proof.
  intros Hn. pose proof (d_of_Z_bounds n Hn) as H.
  destruct (d_of_Z n); simpl in *; tauto.
Qed.

(** A byte delta times eight is finite. *)
Lemma d_bits_finite n : 0 <= n < two64 ->
  d_nonneg (dmul (d_of_Z n) (d_of_Z 8)) /\ d_finite (dmul (d_of_Z n) (d_of_Z 8)).
Proof.
  intros Hn. pose proof (d_of_Z_bounds n Hn) as H.
  change (d_of_Z 8) with (S754_finite false 4503599627370496 (-49)).
  destruct (d_of_Z n) as [s|s| |s m e]; simpl in H; try done.
  - subst s. done.
  - destruct H as (-> & Hm & He). unfold dmul. cbn [SFmul xorb].
    assert (Z.pos (m * 4503599627370496) < 2 ^ 118) as Hlt.
    { rewrite Pos2Z.inj_mul. change 4503599627370496%Z with (2 ^ 52).
      assert (Z.pos m * 2 ^ 52 <= 2 ^ 64 * 2 ^ 52) by (apply Z.mul_le_mono_nonneg_r; lia).
      rewrite <- Z.pow_add_r in * by lia.
      assert (2 ^ (64 + 52) < 2 ^ 118) by (apply Z.pow_lt_mono_r; lia). lia. }
    pose proof (binary_round_aux_sign false (Z.pos (m * 4503599627370496)) (e + -49) loc_Exact 118
                  ltac:(lia) ltac:(lia)) as H.
    destruct (binary_round_aux _ _ _ _ _ _); simpl in *; try done; try lia; tauto.
Qed.

Lemma ddiv_finite_nonneg x y :
  d_nonneg x -> d_finite x -> dltb d_zero y = true -> d_nonneg (ddiv x y).
Proof.
  intros Hx Hf Hy. unfold ddiv.
  destruct x as [s|s| |s m e]; simpl in Hf; try done; simpl in Hx; subst s;
    destruct y as [s'|s'| |s' m' e']; try (by destruct s'); try done.
  destruct s'; [done|]. cbn [SFdiv xorb].
  unfold SFdiv_core_binary.
  match goal with |- context [Z.div_eucl ?a ?b] => set (mm := a); pose proof (Z_div_mod mm b) as Hdm end.
  assert (0 <= mm) as Hmm.
  { unfold mm. destruct (e - e' - _); [done| |done]. by apply Z.shiftl_nonneg. }
  destruct (Z.div_eucl mm (Z.pos m')) as [q r]. specialize (Hdm eq_refl) as [Hq Hr].
  assert (0 <= q) as Hq0 by nia.
  set (k := Z.log2 q + 1).
  assert (0 <= q < 2 ^ k) as Hb.
  { split; [done|]. unfold k. destruct (decide (q = 0)) as [->|]; [done|].
    apply Z.log2_spec. lia. }
  match goal with |- context [binary_round_aux _ _ _ q ?ex ?lx] =>
    pose proof (binary_round_aux_sign false q ex lx k Hb ltac:(unfold k; pose proof (Z.log2_nonneg q); lia)) as H;
    destruct (binary_round_aux dprec demax false q ex lx) end; simpl in *; tauto.
Qed.

(** Rounding a positive mantissa gives neither NaN nor a negative number. *)
Lemma binary_round_aux_nonneg m e l : 0 <= m -> d_nonneg (binary_round_aux dprec demax false m e l).
Proof.
  intros Hm. set (k := Z.log2 m + 1). pose proof (Z.log2_nonneg m) as Hlog.
  assert (0 <= m < 2 ^ k) as Hb.
  { split; [done|]. unfold k. destruct (decide (m = 0)) as [->|]; [done|]. apply Z.log2_spec. lia. }
  pose proof (binary_round_aux_sign false m e l k Hb ltac:(unfold k; lia)) as H.
  destruct (binary_round_aux dprec demax false m e l); simpl in *; tauto.
Qed.

Lemma dadd_nonneg x y : d_nonneg x -> d_nonneg y -> d_nonneg (dadd x y).
Proof.
  intros Hx Hy. unfold dadd.
  destruct x as [s|s| |s m e], y as [s'|s'| |s' m' e']; simpl in Hx, Hy; subst; try done.
  cbn [SFadd cond_Zopp]. unfold binary_normalize.
  generalize (Z.min e e'). intros ez.
  match goal with |- context [Z.add (Z.pos ?a) (Z.pos ?b)] =>
    change (Z.add (Z.pos a) (Z.pos b)) with (Z.pos (a + b)); generalize (a + b)%positive end.
  intros p. cbv iota beta.
  unfold binary_round. cbv zeta.
  case (shl_align p ez (fexp dprec demax (Z.pos (digits2_pos p) + ez))). intros mz ez'. by apply binary_round_aux_nonneg.
Qed.

(** A rate computed from a counter difference over a positive time is zero or
    positive and not NaN. *)
Lemma rate_bps_nonneg delta dt :
  0 <= delta < two64 -> dltb d_zero dt = true -> d_nonneg (rate_bps delta dt).
Proof.
  intros Hd Hdt. destruct (d_bits_finite delta Hd) as [Hn Hf].
  by apply ddiv_finite_nonneg.
Qed.

(** ** Exponents and mantissas of results *)

Lemma digits2_pos_upper p : Z.pos p < 2 ^ Z.pos (digits2_pos p).
Proof.
  induction p as [p IH|p IH|]; cbn [digits2_pos]; [| |done]; rewrite Pos2Z.inj_succ, Z.pow_succ_r by lia; lia.
Qed.

Lemma shr_1_half mrs : 0 <= shr_m mrs -> shr_m (shr_1 mrs) = shr_m mrs / 2.
Proof. destruct mrs as [[|[p|p|]|p] r s]; cbn; intros H; try done; try lia; Z.to_euclidean_division_equations; lia. Qed.

Lemma iter_shr_1 p mrs : 0 <= shr_m mrs -> shr_m (iter_pos shr_1 p mrs) = shr_m mrs / 2 ^ Z.pos p /\ 0 <= shr_m (iter_pos shr_1 p mrs).
Proof.
  revert mrs. induction p as [p IH|p IH|]; intros mrs H; cbn [iter_pos].
  - assert (H1 : 0 <= shr_m (shr_1 mrs)) by (rewrite shr_1_half by done; apply Z.div_pos; lia).
    destruct (IH (shr_1 mrs) H1) as [E2 H2]. destruct (IH (iter_pos shr_1 p (shr_1 mrs)) H2) as [E3 H3].
    split; [|done]. rewrite E3, E2, shr_1_half by done. rewrite !Z.div_div by (try lia; apply Z.pow_pos_nonneg; lia).
    f_equal. rewrite (Pos2Z.inj_xI p). rewrite Z.pow_add_r, Z.mul_comm by lia. f_equal.
    replace (2 * Z.pos p) with (Z.pos p + Z.pos p) by lia. rewrite Z.pow_add_r by lia. ring.
  - destruct (IH mrs H) as [E1 H1]. destruct (IH (iter_pos shr_1 p mrs) H1) as [E2 H2]. split; [|done].
    rewrite E2, E1, Z.div_div by (try lia; apply Z.pow_pos_nonneg; lia). f_equal. rewrite (Pos2Z.inj_xO p).
    replace (2 * Z.pos p) with (Z.pos p + Z.pos p) by lia. by rewrite Z.pow_add_r by lia.
  - rewrite shr_1_half by done. split; [done|]. apply Z.div_pos; lia.
Qed.

(** A shift to the precision leaves at most 53 bits, and never lowers the exponent. *)
Lemma shr_fexp_precision m e l :
  0 <= m ->
  let '(mrs, e') := shr_fexp dprec demax m e l in 0 <= shr_m mrs < 2 ^ 53 /\ e <= e'.
Proof.
  intros Hm. unfold shr_fexp, shr.
  assert (Hl : shr_m (shr_record_of_loc m l) = m) by (by destruct l as [|[]]).
  set (d := Zdigits2 m). assert (Hd : m < 2 ^ d /\ 0 <= d).
  { unfold d. destruct m as [|p|p]; simpl; [done| |lia]. split; [apply digits2_pos_upper|lia]. }
  assert (Hf : d + e - 53 <= fexp dprec demax (d + e)) by (unfold fexp, dprec; lia).
  destruct (fexp dprec demax (d + e) - e) as [|p|p] eqn:E; cbv beta iota.
  - rewrite Hl. assert (2 ^ d <= 2 ^ 53) by (apply Z.pow_le_mono_r; lia). lia.
  - destruct (iter_shr_1 p (shr_record_of_loc m l)) as [E1 H1]; [by rewrite Hl|].
    split; [|lia]. split; [done|]. rewrite E1, Hl. apply Z.div_lt_upper_bound; [apply Z.pow_pos_nonneg; lia|].
    rewrite <- Z.pow_add_r by lia. assert (2 ^ d <= 2 ^ (Z.pos p + 53)) by (apply Z.pow_le_mono_r; lia). lia.
  - rewrite Hl. assert (2 ^ d <= 2 ^ 53) by (apply Z.pow_le_mono_r; lia). lia.
Qed.

Lemma binary_round_aux_precision sx m e l s m' e' :
  0 <= m -> binary_round_aux dprec demax sx m e l = S754_finite s m' e' -> Z.pos m' < 2 ^ 53 /\ e <= e'.
Proof.
  intros Hm. unfold binary_round_aux.
  pose proof (shr_fexp_precision m e l Hm) as H1. destruct (shr_fexp dprec demax m e l) as [mrs e1].
  destruct H1 as [Hb1 He1]. set (m1 := round_nearest_even (shr_m mrs) (loc_of_shr_record mrs)).
  assert (0 <= m1) as Hm1.
  { unfold m1, round_nearest_even. destruct (loc_of_shr_record mrs) as [|[]]; repeat case_match; lia. }
  pose proof (shr_fexp_precision m1 e1 loc_Exact Hm1) as H2.
  destruct (shr_fexp dprec demax m1 e1 loc_Exact) as [mrs2 e2]. destruct H2 as [Hb2 He2].
  destruct (shr_m mrs2) as [|p|p]; [done| |done]. destruct (e2 <=? _); [|done]. intros [= _ <- <-]. lia.
Qed.

Lemma d_of_Z_precision n s m e : 0 <= n < two64 -> d_of_Z n = S754_finite s m e -> Z.pos m < 2 ^ 53 /\ -53 <= e <= 129.
Proof.
  intros Hn E. pose proof (d_of_Z_bounds n Hn) as Hb. rewrite E in Hb. revert E.
  unfold d_of_Z, binary_normalize. destruct n as [|p|p]; [done| |lia]. unfold binary_round, shl_align. intros E.
  assert (H : exists mz ez, binary_round_aux dprec demax false (Z.pos mz) ez loc_Exact = S754_finite s m e /\ -53 <= ez).
  { assert (Hf : fexp dprec demax (Z.pos (digits2_pos p) + 0) >= -52) by (unfold fexp, emin, dprec, demax; lia).
    destruct (fexp dprec demax (Z.pos (digits2_pos p) + 0) - 0) as [|d|d] eqn:Ed.
    - exists p, 0. by split.
    - exists p, 0. by split.
    - eexists _, _. split; [exact E|]. lia. }
  destruct H as (mz & ez & H & Hez). destruct (binary_round_aux_precision false (Z.pos mz) ez loc_Exact s m e ltac:(lia) H). lia.
Qed.

(** Quotients of positive numbers of moderate size are finite. *)
Lemma ddiv_moderate m1 e1 m2 e2 :
  Z.pos m1 < 2 ^ 53 -> Z.pos m2 < 2 ^ 53 -> e1 - e2 <= 700 ->
  match ddiv (S754_finite false m1 e1) (S754_finite false m2 e2) with
  | S754_zero s => s = false
  | S754_finite s m e => s = false /\ Z.pos m < 2 ^ 53 /\ Z.min (e1 - e2) (Z.max (-1074) (e1 - e2 - 105)) <= e
  | _ => False
  end.
Proof.
  intros H1 H2 HD. unfold ddiv. cbn [SFdiv xorb]. unfold SFdiv_core_binary.
  assert (Hd1 : 1 <= Zdigits2 (Z.pos m1) <= 53) by (pose proof (Zdigits2_le (Z.pos m1) 53 ltac:(lia) ltac:(lia)); simpl in *; lia).
  assert (Hd2 : 1 <= Zdigits2 (Z.pos m2) <= 53) by (pose proof (Zdigits2_le (Z.pos m2) 53 ltac:(lia) ltac:(lia)); simpl in *; lia).
  pose proof (digits2_pos_upper m1) as Hu. change (Z.pos (digits2_pos m1)) with (Zdigits2 (Z.pos m1)) in Hu.
  set (d1 := Zdigits2 (Z.pos m1)) in *. set (d2 := Zdigits2 (Z.pos m2)) in *.
  set (e' := Z.min (fexp dprec demax (d1 + e1 - (d2 + e2))) (e1 - e2)).
  assert (He' : e' = Z.min (Z.max (d1 + e1 - (d2 + e2) - 53) (-1074)) (e1 - e2)) by done.
  clearbody e'. set (s := e1 - e2 - e').
  match goal with |- context [Z.div_eucl ?a ?b] => set (mm := a); pose proof (Z_div_mod mm b eq_refl) as Hdm end.
  assert (Hmm : 0 <= mm < 2 ^ (d1 + s)).
  { unfold mm. destruct s as [|p|p] eqn:Es; [rewrite Z.add_0_r; lia| |unfold s in Es; lia].
    rewrite Z.shiftl_mul_pow2, Z.pow_add_r by lia. split; [lia|]. apply Z.mul_lt_mono_pos_r; [apply Z.pow_pos_nonneg; lia|done]. }
  destruct (Z.div_eucl mm (Z.pos m2)) as [q r]. destruct Hdm as [Hq Hr].
  assert (Hq0 : 0 <= q < 2 ^ (d1 + s)) by nia.
  pose proof (binary_round_aux_sign false q e' (new_location (Z.pos m2) r) (d1 + s) Hq0 ltac:(unfold s; lia)) as Hs.
  match goal with |- context [binary_round_aux dprec demax false q e' ?l] =>
    pose proof (binary_round_aux_precision false q e' l) as Hp;
    destruct (binary_round_aux dprec demax false q e' l) as [z|z| |z m e] end; [done|unfold s in *; lia|done|].
  destruct (Hp z m e) as [Hm He]; [lia|done|]. split_and!; [tauto|done|lia].
Qed.

(** A rate: zero or positive, and finite. *)
Definition d_rate (x : double) : Prop := d_nonneg x /\ d_finite x.

Lemma d_rate_nonneg x : d_rate x -> d_nonneg x.
Proof. by intros []. Qed.

Lemma d_rate_finite x : d_rate x -> d_finite x.
Proof. by intros []. Qed.

Lemma d_rate_zero : d_rate d_zero.
Proof. by split. Qed.

(** The quotient of a negative number and a positive one is not above zero. *)
Lemma ddiv_negative m1 e1 m2 e2 :
  dltb d_zero (ddiv (S754_finite true m1 e1) (S754_finite false m2 e2)) = false.
Proof.
  unfold ddiv. cbn [SFdiv xorb]. unfold SFdiv_core_binary.
  match goal with |- context [Z.div_eucl ?a ?b] => set (mm := a); pose proof (Z_div_mod mm b eq_refl) as Hdm end.
  assert (Hmm : 0 <= mm) by (unfold mm; destruct (e1 - e2 - _); [done|by apply Z.shiftl_nonneg|done]).
  destruct (Z.div_eucl mm (Z.pos m2)) as [q r]. destruct Hdm as [Hq Hr]. assert (Hq0 : 0 <= q) by nia.
  set (k := Z.log2 q + 1). pose proof (Z.log2_nonneg q) as Hlog.
  assert (Hb : 0 <= q < 2 ^ k).
  { split; [done|]. unfold k. destruct (decide (q = 0)) as [->|]; [done|]. apply Z.log2_spec. lia. }
  match goal with |- context [binary_round_aux _ _ _ q ?ex ?lx] =>
    pose proof (binary_round_aux_sign true q ex lx k Hb ltac:(unfold k; lia)) as H;
    destruct (binary_round_aux dprec demax true q ex lx) end; [by subst|by destruct H as [-> _]|done|by destruct H as [-> _]].
Qed.

Lemma d_of_Z_negative p : d_nonneg (d_of_Z (Z.neg p)) -> False.
Proof.
  unfold d_of_Z, binary_normalize, binary_round.
  destruct (shl_align p 0 _) as [mz ez]. set (k := Z.log2 (Z.pos mz) + 1). pose proof (Z.log2_nonneg (Z.pos mz)).
  pose proof (Z.log2_spec (Z.pos mz) ltac:(lia)) as Hl. rewrite <- Z.add_1_r in Hl.
  pose proof (binary_round_aux_sign true (Z.pos mz) ez loc_Exact k ltac:(unfold k; lia) ltac:(unfold k; lia)) as H1.
  destruct (binary_round_aux dprec demax true (Z.pos mz) ez loc_Exact); simpl; intuition congruence.
Qed.

(** A time above zero, in seconds, is a number of moderate size. *)
Lemma d_seconds_positive ns :
  ns < two64 -> dltb d_zero (d_seconds ns) = true ->
  exists m e, d_seconds ns = S754_finite false m e /\ Z.pos m < 2 ^ 53 /\ -135 <= e.
Proof.
  intros Hns. unfold d_seconds. replace (d_of_Z ns_per_s) with (S754_finite false 8388608000000000 (-23)) by (by vm_compute).
  destruct (Z.le_gt_cases 0 ns) as [H0|H0].
  - pose proof (d_of_Z_bounds ns ltac:(lia)) as Hb. pose proof (d_of_Z_precision ns) as Hp.
    destruct (d_of_Z ns) as [s|s| |s m e]; try done. destruct Hb as (-> & _ & _).
    destruct (Hp false m e ltac:(lia) eq_refl) as [Hm He].
    pose proof (ddiv_moderate m e 8388608000000000 (-23) Hm ltac:(done) ltac:(lia)) as Hd.
    destruct (ddiv _ _) as [s|s| |s m' e']; [by subst|done|done|]. destruct Hd as (-> & Hm' & He'). eauto with lia.
  - destruct ns as [|p|p]; [lia|lia|]. pose proof (d_of_Z_negative p) as Hn.
    destruct (d_of_Z (Z.neg p)) as [[]|[]| |[] m e]; simpl in Hn; try (by destruct Hn); try done.
    by rewrite ddiv_negative.
Qed.

(** A rate computed from a counter difference over a time above zero is zero or positive and
    finite: neither infinite nor NaN. *)
Lemma rate_bps_rate delta ns :
  0 <= delta < two64 -> ns < two64 -> dltb d_zero (d_seconds ns) = true -> d_rate (rate_bps delta (d_seconds ns)).
Proof.
  intros Hd Hns Hpos. destruct (d_seconds_positive ns Hns Hpos) as (m2 & e2 & -> & Hm2 & He2).
  unfold rate_bps. assert (Hx : d_of_Z 8 = S754_finite false 4503599627370496 (-49)) by done. rewrite Hx. clear Hx.
  pose proof (d_of_Z_bounds delta Hd) as Hb. pose proof (d_of_Z_precision delta) as Hp.
  destruct (d_of_Z delta) as [s|s| |s m e]; try done; [by subst|]. destruct Hb as (-> & _ & _).
  destruct (Hp false m e Hd eq_refl) as [Hm He]. unfold dmul. cbn [SFmul xorb].
  assert (Hlt : 0 <= Z.pos (m * 4503599627370496) < 2 ^ 106).
  { rewrite Pos2Z.inj_mul. split; [lia|]. change (2 ^ 106) with (2 ^ 53 * 2 ^ 53). apply Z.mul_lt_mono_nonneg; lia. }
  pose proof (binary_round_aux_sign false _ (e + -49) loc_Exact 106 Hlt ltac:(lia)) as Hs.
  pose proof (binary_round_aux_precision false (Z.pos (m * 4503599627370496)) (e + -49) loc_Exact) as Hq.
  destruct (binary_round_aux dprec demax false (Z.pos (m * 4503599627370496)) (e + -49) loc_Exact) as [z|z| |z m' e']; [by subst|lia|done|].
  destruct Hs as (-> & _ & He'). destruct (Hq false m' e' (proj1 Hlt) eq_refl) as [Hm' _].
  pose proof (ddiv_moderate m' e' m2 e2 Hm' Hm2 ltac:(lia)) as Hdiv.
  destruct (ddiv _ _) as [z|z| |z m3 e3]; [by split|done|done|by destruct Hdiv as (-> & _)].
Qed.

#[export] Hint Resolve d_rate_zero d_rate_nonneg d_rate_finite : netmon.
