(* ===== verification/DoubleText.v ===== *)
(** * The decimal text of a [double]

    [std::ostream << double] with the default format, [%g] with six significant digits, as the
    web server uses it.  The theorem: the text of a finite number is a JSON number, and its
    value is the number rounded to six significant digits. *)

From S2P Require Import Prelude Utils Double Json.

(** ** The text *)

(** Rounds [n / d] to the nearest integer, ties to even. *)
Definition round_half_even (n d : Z) : Z :=
  let q := n / d in
  let r := n mod d in
  if (2 * r <? d) || ((2 * r =? d) && Z.even q) then q else q + 1.

(** The [X] with [10^X <= n / d < 10^(X+1)]. *)
Definition decimal_exponent (n d : Z) : Z :=
  if d <=? n then Z.of_nat (length (to_string (n / d))) - 1
  else - Z.of_nat (length (to_string ((d - 1) / n))).

(** [n / d] rounded to six digits [q] with the first at [10^X]. *)
Definition six_digits (n d : Z) : Z * Z :=
  let X := decimal_exponent n d in
  let q := round_half_even (n * 10 ^ Z.max 0 (5 - X)) (d * 10 ^ Z.max 0 (X - 5)) in
  if q =? 1000000 then (100000, X + 1) else (q, X).

Definition zeros (n : Z) : bytes := replicate (Z.to_nat n) "0"%char.

Definition strip_zeros (ds : bytes) : bytes := rdrop_while (fun c => bool_decide (c = "0"%char)) ds.

(** The digits before and after the point, and the exponent: fixed notation for [-4 <= X < 6]. *)
Definition g_parts (q X : Z) : bytes * bytes * option Z :=
  let ds := strip_zeros (to_string q) in
  if (-4 <=? X) && (X <? 6) then
    if X <? 0 then (["0"%char], zeros (- X - 1) ++ ds, None)
    else let k := Z.to_nat (X + 1) in (take k (ds ++ zeros (6 - Z.of_nat (length ds))), drop k ds, None)
  else (take 1 ds, drop 1 ds, Some X).

Definition fraction_text (f : bytes) : bytes := if decide (f = []) then [] else "."%char :: f.

(** At least two digits. *)
Definition exponent_text (x : option Z) : bytes :=
  match x with
  | None => []
  | Some x => "e"%char :: (if x <? 0 then "-"%char else "+"%char)
              :: (if Z.abs x <? 10 then ["0"%char] else []) ++ to_string (Z.abs x)
  end.

Definition number_text (parts : bytes * bytes * option Z) : bytes :=
  let '(i, f, x) := parts in i ++ fraction_text f ++ exponent_text x.

Definition d_default (v : double) : bytes :=
  let sign (s : bool) : bytes := if s then "-" else [] in
  match v with
  | S754_zero s => sign s ++ ("0" : bytes)
  | S754_infinity s => sign s ++ ("inf" : bytes)
  | S754_nan => "nan"
  | S754_finite s m e =>
      let '(q, X) := six_digits (Z.pos m * 2 ^ Z.max 0 e) (2 ^ Z.max 0 (- e)) in
      sign s ++ number_text (g_parts q X)
  end.

Example text_rate : d_default (d_of_Z 1234567) = "1.23457e+06". Proof. by vm_compute. Qed.
Example text_small : d_default (d_of_Z 123456) = "123456". Proof. by vm_compute. Qed.
Example text_carry : d_default (ddiv (d_of_Z 9999995) (d_of_Z 10)) = "1e+06". Proof. by vm_compute. Qed.
Example text_third : d_default (ddiv (d_of_Z 1) (d_of_Z 3)) = "0.333333". Proof. by vm_compute. Qed.
Example text_eighty : d_default (ddiv (d_of_Z 160) (d_of_Z 2)) = "80". Proof. by vm_compute. Qed.
Example text_tiny : d_default (ddiv (d_of_Z 1) (d_of_Z 300000)) = "3.33333e-06". Proof. by vm_compute. Qed.
Example text_tenth : d_default (ddiv (d_of_Z 1) (d_of_Z 10)) = "0.1". Proof. by vm_compute. Qed.

(** ** Rounding *)

Lemma round_half_even_spec n d : 0 < d -> Z.abs (2 * (n - round_half_even n d * d)) <= d.
Proof.
  intros Hd. unfold round_half_even. pose proof (Z.div_mod n d ltac:(lia)). pose proof (Z.mod_pos_bound n d Hd).
  destruct (_ || _) eqn:E; [|apply orb_false_elim in E as [E _]; b2p; lia].
  apply orb_true_iff in E as [E|E]; b2p; lia.
Qed.

Lemma round_half_even_ge n d k : 0 < d -> k * d <= n -> k <= round_half_even n d.
Proof.
  intros Hd Hk. assert (k <= n / d) by (apply Z.div_le_lower_bound; lia).
  unfold round_half_even. destruct (_ || _); lia.
Qed.

Lemma round_half_even_le n d k : 0 < d -> n < k * d -> round_half_even n d <= k.
Proof.
  intros Hd Hk. assert (n / d < k) by (apply Z.div_lt_upper_bound; lia).
  unfold round_half_even. destruct (_ || _); lia.
Qed.

Lemma pow10_pos k : 0 < 10 ^ Z.max 0 k.
Proof. apply Z.pow_pos_nonneg; lia. Qed.

Lemma decimal_exponent_spec n d :
  0 < n -> 0 < d ->
  let X := decimal_exponent n d in
  d * 10 ^ Z.max 0 X <= n * 10 ^ Z.max 0 (- X) /\ n * 10 ^ Z.max 0 (- X - 1) < d * 10 ^ Z.max 0 (X + 1).
Proof.
  intros Hn Hd. unfold decimal_exponent. destruct (d <=? n) eqn:E; b2p.
  - assert (H1 : 1 <= n / d) by (apply Z.div_le_lower_bound; lia).
    destruct (to_string_size (n / d)) as (k & -> & Hlo & Hhi); [lia|]. cbv zeta.
    replace (Z.of_nat (S k) - 1) with (Z.of_nat k) by lia.
    rewrite (Z.max_l 0 (- Z.of_nat k)), (Z.max_l 0 (- Z.of_nat k - 1)), !Z.max_r by lia.
    pose proof (Z.div_mod n d ltac:(lia)). pose proof (Z.mod_pos_bound n d Hd).
    replace (Z.of_nat k + 1) with (Z.of_nat (S k)) by lia. nia.
  - assert (H1 : 1 <= (d - 1) / n) by (apply Z.div_le_lower_bound; lia).
    destruct (to_string_size ((d - 1) / n)) as (k & -> & Hlo & Hhi); [lia|]. cbv zeta.
    replace (- - Z.of_nat (S k) - 1) with (Z.of_nat k) by lia.
    rewrite (Z.max_l 0 (- Z.of_nat (S k))), (Z.max_l 0 (- Z.of_nat (S k) + 1)), !Z.max_r by lia.
    replace (- - Z.of_nat (S k)) with (Z.of_nat (S k)) by lia.
    pose proof (Z.div_mod (d - 1) n ltac:(lia)). pose proof (Z.mod_pos_bound (d - 1) n Hn). nia.
Qed.

Lemma pow10_split a b c d : a + b = c + d -> 0 <= a -> 0 <= b -> 0 <= c -> 0 <= d -> 10 ^ a * 10 ^ b = 10 ^ c * 10 ^ d.
Proof. intros H ????. rewrite <- !Z.pow_add_r by lia. by f_equal. Qed.

(** [q * 10^(X-5)] is [n / d] up to half a unit of the sixth digit. *)
Definition rounds_to (n d q X : Z) : Prop :=
  Z.abs (2 * (n * 10 ^ Z.max 0 (5 - X) - q * (d * 10 ^ Z.max 0 (X - 5)))) <= d * 10 ^ Z.max 0 (X - 5).

Lemma rounds_to_carry n d X : 0 < d -> rounds_to n d 1000000 X -> rounds_to n d 100000 (X + 1).
Proof.
  intros Hd. unfold rounds_to. destruct (Z.le_gt_cases 5 X).
  - rewrite !(Z.max_l 0 (5 - _)), !(Z.max_r 0 (_ - 5)) by lia.
    replace (X + 1 - 5) with (Z.succ (X - 5)) by lia. rewrite Z.pow_succ_r by lia.
    assert (0 < 10 ^ (X - 5)) by (apply Z.pow_pos_nonneg; lia). nia.
  - rewrite !(Z.max_r 0 (5 - _)), !(Z.max_l 0 (_ - 5)) by lia.
    replace (5 - X) with (Z.succ (5 - (X + 1))) by lia. rewrite Z.pow_succ_r by lia. lia.
Qed.

Lemma six_digits_spec n d :
  0 < n -> 0 < d ->
  let '(q, X) := six_digits n d in 100000 <= q < 1000000 /\ rounds_to n d q X.
Proof.
  intros Hn Hd. unfold six_digits. pose proof (decimal_exponent_spec n d Hn Hd) as [Hlo Hhi].
  remember (decimal_exponent n d) as X eqn:EX. clear EX. cbv zeta.
  pose proof (pow10_pos (5 - X)) as HA. pose proof (pow10_pos (X - 5)) as HB.
  pose proof (pow10_pos (- X)) as HC. pose proof (pow10_pos (- X - 1)) as HD.
  assert (E1 : 10 ^ Z.max 0 X * 10 ^ Z.max 0 (5 - X) = 100000 * 10 ^ Z.max 0 (X - 5) * 10 ^ Z.max 0 (- X)).
  { change 100000 with (10 ^ 5). rewrite <- !Z.pow_add_r by lia. f_equal. lia. }
  assert (E2 : 10 ^ Z.max 0 (X + 1) * 10 ^ Z.max 0 (5 - X) = 1000000 * 10 ^ Z.max 0 (X - 5) * 10 ^ Z.max 0 (- X - 1)).
  { change 1000000 with (10 ^ 6). rewrite <- !Z.pow_add_r by lia. f_equal. lia. }
  set (A := 10 ^ Z.max 0 (5 - X)) in *. set (B := 10 ^ Z.max 0 (X - 5)) in *.
  set (C := 10 ^ Z.max 0 (- X)) in *. set (D := 10 ^ Z.max 0 (- X - 1)) in *.
  assert (L1 : 100000 * (d * B) <= n * A).
  { apply (Z.mul_le_mono_pos_r _ _ C); [done|].
    replace (100000 * (d * B) * C) with (d * (10 ^ Z.max 0 X * A)) by (rewrite E1; ring).
    replace (n * A * C) with (n * C * A) by ring. rewrite Z.mul_assoc.
    apply Z.mul_le_mono_nonneg_r; [lia|done]. }
  assert (L2 : n * A < 1000000 * (d * B)).
  { apply (Z.mul_lt_mono_pos_r D); [done|].
    replace (1000000 * (d * B) * D) with (d * (10 ^ Z.max 0 (X + 1) * A)) by (rewrite E2; ring).
    replace (n * A * D) with (n * D * A) by ring. rewrite Z.mul_assoc.
    apply Z.mul_lt_mono_pos_r; done. }
  assert (HdB : 0 < d * B) by (by apply Z.mul_pos_pos).
  pose proof (round_half_even_ge (n * A) (d * B) _ HdB L1) as Hge.
  pose proof (round_half_even_le (n * A) (d * B) _ HdB L2) as Hle.
  assert (HR : rounds_to n d (round_half_even (n * A) (d * B)) X) by (by apply round_half_even_spec).
  destruct (_ =? 1000000) eqn:Eq; b2p; [|split; [lia|done]].
  rewrite Eq in HR. split; [lia|]. by apply rounds_to_carry.
Qed.

(** ** The text reads back *)

(** A number token as [m * 10^e], without its sign. *)
Definition number_value (s : bytes) : option (Z * Z) :=
  let i := take_while isdigit s in
  let r := drop_while isdigit s in
  let '(f, r) := match r with
                 | c :: t => if decide (c = "."%char) then (take_while isdigit t, drop_while isdigit t) else ([], r)
                 | [] => ([], [])
                 end in
  let m := digits_value (i ++ f) in
  let l := Z.of_nat (length f) in
  match r with
  | [] => Some (m, - l)
  | e :: sign :: t =>
      if decide (e = "e"%char) then
        if decide (sign = "-"%char) then Some (m, - digits_value t - l)
        else if decide (sign = "+"%char) then Some (m, digits_value t - l) else None
      else None
  | _ => None
  end.

(** [m1 * 10^e1 = m2 * 10^e2] *)
Definition same_decimal (a b : Z * Z) : Prop :=
  a.1 * 10 ^ (a.2 - Z.min a.2 b.2) = b.1 * 10 ^ (b.2 - Z.min a.2 b.2).

Definition number_parts_ok (parts : bytes * bytes * option Z) : Prop :=
  let '(i, f, x) := parts in
  all_digits i /\ all_digits f /\ (i = ["0"%char] \/ exists c t, i = c :: t /\ c <> "0"%char).

Lemma forallb_digits s : all_digits s -> forallb isdigit s = true.
Proof. intros H. apply forallb_forall. intros c Hc. apply list_elem_of_In in Hc. by apply (Forall_forall (fun c => isdigit c = true) s). Qed.

Lemma exponent_digits x :
  let t := (if Z.abs x <? 10 then ["0"%char] else []) ++ to_string (Z.abs x) in
  t <> [] /\ all_digits t /\ digits_value t = Z.abs x.
Proof.
  destruct (to_string_spec (Z.abs x)) as (Hne & Hd & Hv); [lia|]. cbv zeta.
  destruct (_ <? _); [|done]. split_and!; [done|by constructor|]. exact Hv.
Qed.

Lemma exponent_text_json x : json_exponent (exponent_text x) = true.
Proof.
  destruct x as [x|]; [|done]. destruct (exponent_digits x) as (Hne & Hd & _). cbv zeta in *.
  unfold exponent_text, json_exponent. rewrite decide_True by (destruct (x <? 0); auto).
  rewrite !bool_decide_true by auto. by apply forallb_digits.
Qed.

Lemma exponent_text_stop x : match exponent_text x with [] => True | c :: _ => isdigit c = false end.
Proof. by destruct x. Qed.

Lemma number_text_json parts : number_parts_ok parts -> json_number (number_text parts) = true.
Proof.
  destruct parts as [[i f] x]. intros (Hi & Hf & Hhead).
  assert (Hfrac : json_fraction (fraction_text f ++ exponent_text x) = true).
  { unfold fraction_text. case_decide as Hne.
    - pose proof (exponent_text_json x) as H. simpl. destruct x; [exact H|done].
    - cbn [app json_fraction]. rewrite decide_True by done.
      rewrite take_while_app_stop, drop_while_app_stop by (done || apply exponent_text_stop).
      rewrite bool_decide_true by done. apply exponent_text_json. }
  unfold number_text. destruct Hhead as [->|(c & t & -> & Hc)].
  - exact Hfrac.
  - apply Forall_cons in Hi as [Hd Ht]. unfold json_number. cbn [app].
    rewrite decide_False by (intros ->; done). rewrite Hd, decide_False by done.
    rewrite drop_while_app_stop; [exact Hfrac|done|].
    unfold fraction_text. case_decide; [apply exponent_text_stop|done].
Qed.

Lemma number_text_value i f x :
  all_digits i -> all_digits f ->
  number_value (number_text (i, f, x)) = Some (digits_value (i ++ f), default 0 x - Z.of_nat (length f)).
Proof.
  intros Hi Hf. unfold number_text, number_value.
  assert (Hstop : match fraction_text f ++ exponent_text x with [] => True | c :: _ => isdigit c = false end).
  { unfold fraction_text. case_decide; [apply exponent_text_stop|done]. }
  rewrite take_while_app_stop, drop_while_app_stop by done.
  assert (Hx : forall m l : Z, match exponent_text x with
    | [] => Some (m, - l)
    | e :: sign :: t =>
        if decide (e = "e"%char) then
          if decide (sign = "-"%char) then Some (m, - digits_value t - l)
          else if decide (sign = "+"%char) then Some (m, digits_value t - l) else None
        else None
    | _ => None
    end = Some (m, default 0 x - l)).
  { intros m l. destruct x as [x|]; [|done]. destruct (exponent_digits x) as (_ & _ & Hv). cbv zeta in Hv.
    unfold exponent_text. rewrite decide_True by done. rewrite Hv. simpl.
    destruct (x <? 0) eqn:E; b2p; [rewrite decide_True by done|rewrite decide_False, decide_True by done];
      do 2 f_equal; lia. }
  unfold fraction_text. case_decide as Hne.
  - subst f. cbn [app]. destruct x as [x|]; [|done].
    specialize (Hx (digits_value (i ++ [])) (Z.of_nat (length (@nil ascii)))). exact Hx.
  - cbn [app]. rewrite decide_True by done.
    rewrite take_while_app_stop, drop_while_app_stop by (done || apply exponent_text_stop). apply Hx.
Qed.

Lemma digits_value_zeros s n : digits_value (s ++ zeros n) = digits_value s * 10 ^ Z.max 0 n.
Proof.
  unfold zeros. replace (Z.max 0 n) with (Z.of_nat (Z.to_nat n)) by lia. generalize (Z.to_nat n). clear n. intros k.
  induction k as [|k IH]; [rewrite app_nil_r; simpl; lia|].
  rewrite replicate_S_end, app_assoc, digits_value_snoc, IH, Nat2Z.inj_succ, Z.pow_succ_r by lia.
  change (digit_value "0") with 0. lia.
Qed.

Lemma digits_value_leading n s : digits_value (zeros n ++ s) = digits_value s.
Proof. unfold zeros. induction (Z.to_nat n) as [|k IH]; [done|]. exact IH. Qed.

Lemma digits_value_bound s : all_digits s -> digits_value s < 10 ^ Z.of_nat (length s).
Proof.
  induction s as [|c s IH] using rev_ind; [done|]. intros [Hs Hc]%Forall_app.
  rewrite Forall_singleton, isdigit_range in Hc. rewrite digits_value_snoc, length_app, Nat.add_1_r, Nat2Z.inj_succ.
  rewrite Z.pow_succ_r by lia. specialize (IH Hs). unfold digit_value. lia.
Qed.

Lemma zeros_digits n : all_digits (zeros n).
Proof. unfold zeros. by apply Forall_replicate. Qed.

(** The digits of a six-digit number without the zeros at its end. *)
Lemma strip_zeros_spec q :
  100000 <= q < 1000000 ->
  let ds := strip_zeros (to_string q) in
  all_digits ds /\ (length ds <= 6)%nat /\ digits_value ds * 10 ^ (6 - Z.of_nat (length ds)) = q /\
  exists c t, ds = c :: t /\ c <> "0"%char.
Proof.
  intros Hq. destruct (to_string_spec q) as (_ & Hd & Hv); [lia|].
  destruct (to_string_size q) as (k & Hk & Hlo & Hhi); [lia|].
  assert (Hlen : length (to_string q) = 6%nat).
  { rewrite Hk. f_equal. destruct (Nat.lt_trichotomy k 5) as [H|[H|H]]; [exfalso|done|exfalso].
    - assert (10 ^ Z.of_nat (S k) <= 10 ^ 5) by (apply Z.pow_le_mono_r; lia). lia.
    - assert (10 ^ 6 <= 10 ^ Z.of_nat k) by (apply Z.pow_le_mono_r; lia). lia. }
  cbv zeta. unfold strip_zeros. destruct (rdrop_while_split (fun c => bool_decide (c = "0"%char)) (to_string q)) as (r & E & Hr).
  remember (rdrop_while _ (to_string q)) as ds eqn:Eds. clear Eds.
  assert (Er : r = zeros (6 - Z.of_nat (length ds))).
  { unfold zeros. rewrite E, length_app in Hlen. replace (Z.to_nat (6 - Z.of_nat (length ds))) with (length r) by lia.
    clear -Hr. induction Hr as [|c r Hc Hr IH]; [done|]. b2p. subst. simpl. by f_equal. }
  rewrite E in Hd, Hv, Hlen. rewrite length_app in Hlen. apply Forall_app in Hd as [Hd _].
  rewrite Er, digits_value_zeros, Z.max_r in Hv by lia.
  split_and!; [done|lia|done|]. destruct ds as [|c t]; [simpl in Hv; lia|]. exists c, t. split; [done|].
  intros ->. apply Forall_cons in Hd as [_ Ht]. pose proof (digits_value_bound t Ht) as Hb.
  change (digits_value ("0"%char :: t)) with (digits_value t) in Hv. cbn [length] in Hv, Hlen.
  assert (digits_value t * 10 ^ (6 - Z.of_nat (S (length t))) < 10 ^ Z.of_nat (length t) * 10 ^ (6 - Z.of_nat (S (length t)))).
  { apply Z.mul_lt_mono_pos_r; [apply Z.pow_pos_nonneg; lia|done]. }
  rewrite <- Z.pow_add_r in * by lia. replace (Z.of_nat (length t) + (6 - Z.of_nat (S (length t)))) with 5 in * by lia. lia.
Qed.

Lemma same_decimal_shift m l q X :
  (l <= 6)%nat -> m * 10 ^ (6 - Z.of_nat l) = q -> same_decimal (m, X + 1 - Z.of_nat l) (q, X - 5).
Proof.
  intros Hl E. unfold same_decimal. cbn [fst snd]. rewrite Z.min_r by lia.
  replace (X + 1 - Z.of_nat l - (X - 5)) with (6 - Z.of_nat l) by lia. rewrite E, Z.sub_diag. lia.
Qed.

Lemma g_parts_spec q X :
  100000 <= q < 1000000 ->
  number_parts_ok (g_parts q X) /\
  exists v, number_value (number_text (g_parts q X)) = Some v /\ same_decimal v (q, X - 5).
Proof.
  intros Hq. destruct (strip_zeros_spec q Hq) as (Hd & Hl & Hv & c & t & E & Hc). cbv zeta in *. unfold g_parts.
  remember (strip_zeros (to_string q)) as ds eqn:Eds. clear Eds.
  assert (Hcut : forall k, all_digits (take k ds) /\ all_digits (drop k ds)).
  { intros k. split; [by apply Forall_take|by apply Forall_drop]. }
  assert (Hpos : (1 <= length ds)%nat) by (subst; simpl; lia).
  destruct (_ && _) eqn:Erange; b2p; [destruct (X <? 0) eqn:Eneg; b2p|].
  - split; [split_and!; [by repeat constructor|apply Forall_app; split; [apply zeros_digits|done]|by left]|].
    eexists. rewrite number_text_value by (repeat constructor || (apply Forall_app; split; [apply zeros_digits|done])).
    split; [done|]. change ["0"%char] with (zeros 1). rewrite !digits_value_leading. cbn [default].
    unfold zeros. rewrite length_app, length_replicate.
    replace (0 - Z.of_nat (Z.to_nat (- X - 1) + length ds)) with (X + 1 - Z.of_nat (length ds)) by lia.
    by apply same_decimal_shift.
  - set (k := Z.to_nat (X + 1)).
    assert (Hi : all_digits (take k (ds ++ zeros (6 - Z.of_nat (length ds))))).
    { apply Forall_take, Forall_app. split; [done|apply zeros_digits]. }
    split; [split_and!; [done|apply Hcut|right; exists c, (take (k - 1) (t ++ zeros (6 - Z.of_nat (length ds)))); split; [|done]]|].
    { rewrite E at 1. unfold k. replace (Z.to_nat (X + 1)) with (S (Z.to_nat X)) by lia. simpl. by rewrite Nat.sub_0_r. }
    eexists. rewrite number_text_value by (done || apply Hcut). split; [done|]. cbn [default].
    destruct (Nat.le_gt_cases (length ds) k).
    + rewrite drop_ge by lia. rewrite app_nil_r, take_app_ge by lia.
      replace (take (k - length ds) (zeros (6 - Z.of_nat (length ds)))) with (zeros (Z.of_nat (k - length ds))).
      2: { unfold zeros. rewrite take_replicate. f_equal. lia. }
      rewrite digits_value_zeros, Z.max_r by lia. unfold same_decimal. cbn [fst snd length]. rewrite Z.min_r by lia.
      rewrite <- Hv, (Z.sub_diag (X - 5)), <- Z.mul_assoc, <- Z.pow_add_r, Z.mul_1_r by lia.
      do 2 f_equal. lia.
    + rewrite take_app_le by lia. rewrite take_drop, length_drop.
      replace (0 - Z.of_nat (length ds - k)) with (X + 1 - Z.of_nat (length ds)) by lia. by apply same_decimal_shift.
  - split; [split_and!; [apply Hcut|apply Hcut|right; exists c, []; by rewrite E]|].
    eexists. rewrite number_text_value by apply Hcut. split; [done|]. rewrite take_drop, length_drop. change (default 0 (Some X)) with X.
    replace (X - Z.of_nat (length ds - 1)) with (X + 1 - Z.of_nat (length ds)) by lia. by apply same_decimal_shift.
Qed.

Lemma d_default_json v : d_finite v -> json_number (d_default v) = true.
Proof.
  destruct v as [s|s| |s m e]; try done; [by destruct s|]. intros _. unfold d_default.
  pose proof (six_digits_spec (Z.pos m * 2 ^ Z.max 0 e) (2 ^ Z.max 0 (- e))) as H.
  assert (0 < 2 ^ Z.max 0 e) by (apply Z.pow_pos_nonneg; lia).
  assert (0 < 2 ^ Z.max 0 (- e)) by (apply Z.pow_pos_nonneg; lia).
  destruct (six_digits _ _) as [q X]. destruct H as [Hq _]; [lia|done|].
  destruct (g_parts_spec q X Hq) as [Hp _]. pose proof (number_text_json _ Hp) as Hn.
  destruct s; [|exact Hn]. destruct (json_number_head _ Hn) as (c & t & E & _). rewrite E in *.
  unfold json_number in Hn |- *. cbn [app String.list_ascii_of_string]. rewrite (decide_True _ _ (P := "-"%char = "-"%char)) by done.
  destruct (g_parts q X) as [[i f] x]. destruct Hp as (Hi & _ & Hh). unfold number_text in E.
  rewrite decide_False in Hn; [exact Hn|]. intros ->.
  destruct Hh as [->|(c' & t' & -> & _)]; simplify_eq/=. by apply Forall_cons in Hi as [? _].
Qed.

(** the text of a finite positive [double] is a JSON number, and it reads back as a decimal
    of six digits that differs from the exact value by at most half a unit of its last digit. *)
Theorem d_default_rounds_to_six_digits m e :
  let text := d_default (S754_finite false m e) in
  json_number text = true /\
  exists v q X, number_value text = Some v /\ same_decimal v (q, X - 5) /\ 100000 <= q < 1000000 /\
    rounds_to (Z.pos m * 2 ^ Z.max 0 e) (2 ^ Z.max 0 (- e)) q X.
Proof.
  split; [by apply d_default_json|]. unfold d_default.
  pose proof (six_digits_spec (Z.pos m * 2 ^ Z.max 0 e) (2 ^ Z.max 0 (- e))) as H.
  assert (0 < 2 ^ Z.max 0 e) by (apply Z.pow_pos_nonneg; lia).
  assert (0 < 2 ^ Z.max 0 (- e)) by (apply Z.pow_pos_nonneg; lia).
  destruct (six_digits _ _) as [q X]. destruct H as [Hq Hr]; [lia|done|].
  destruct (g_parts_spec q X Hq) as (_ & v & Hv & Hs). by exists v, q, X.
Qed.
