(* ===== verification/Sha1.v ===== *)
(** * SHA-1, Base64 and the WebSocket accept key of src/src/web_server.cpp

    [sha1] on 32-bit words with their wrap-around, [base64Encode] and [websocketAcceptKey],
    with a Base64 decoder that inverts the encoder and the published test vectors. *)

From S2P Require Import Prelude.

(** ** SHA-1 *)

(** [std::uint32_t] operations. *)
Definition add32 (a b : Z) : Z := u32 (a + b).
Definition not32 (a : Z) : Z := Z.lxor a 4294967295.
Definition rol (value bits : Z) : Z := Z.lor (u32 (Z.shiftl value bits)) (Z.shiftr value (32 - bits)).

(** The eight bytes of a 64-bit number, the highest first. *)
Definition byte_of (z i : Z) : Z := Z.land (Z.shiftr z (8 * i)) 255.
Definition big_endian (n : nat) (z : Z) : list Z := (fun i => byte_of z (Z.of_nat i)) <$> reverse (seq 0 n).

(** The bytes with the padding: [0x80], zeros up to 56 modulo 64, the length in bits. *)
Definition padded (input : bytes) : list Z :=
  let message := (code <$> input) ++ [128] in
  let bit_len := u64 (Z.of_nat (length input) * 8) in
  message ++ replicate (Z.to_nat ((56 - Z.of_nat (length message)) mod 64)) 0 ++ big_endian 8 bit_len.

(** The words of a chunk, the first byte of each the highest. *)
Fixpoint words_of (l : list Z) : list Z :=
  match l with
  | a :: b :: c :: d :: rest =>
      Z.lor (Z.lor (Z.lor (Z.shiftl a 24) (Z.shiftl b 16)) (Z.shiftl c 8)) d :: words_of rest
  | _ => []
  end.

(** [w[i]] for [i] from 16 on; the list holds [w[i-1], w[i-2], ...]. *)
Definition next_word (w : list Z) : Z :=
  let at_ i := nth (i - 1) w 0 in
  rol (Z.lxor (Z.lxor (Z.lxor (at_ 3%nat) (at_ 8%nat)) (at_ 14%nat)) (at_ 16%nat)) 1.

Definition schedule (w16 : list Z) : list Z :=
  reverse (Nat.iter 64 (fun w => next_word w :: w) (reverse w16)).

Record Hash := mkHash { h_a : Z; h_b : Z; h_c : Z; h_d : Z; h_e : Z }.

Definition initial_hash : Hash := mkHash 1732584193 4023233417 2562383102 271733878 3285377520.

(** [f] and [k] of the round [i]. *)
Definition round_f (i : nat) (b c d : Z) : Z :=
  if (i <? 20)%nat then Z.lor (Z.land b c) (Z.land (not32 b) d)
  else if (i <? 40)%nat then Z.lxor (Z.lxor b c) d
  else if (i <? 60)%nat then Z.lor (Z.lor (Z.land b c) (Z.land b d)) (Z.land c d)
  else Z.lxor (Z.lxor b c) d.

Definition round_k (i : nat) : Z :=
  if (i <? 20)%nat then 1518500249 else if (i <? 40)%nat then 1859775393
  else if (i <? 60)%nat then 2400959708 else 3395469782.

Definition sha_round (h : Hash) (iw : nat * Z) : Hash :=
  let '(i, w) := iw in
  let temp := add32 (add32 (add32 (add32 (rol (h_a h) 5) (round_f i (h_b h) (h_c h) (h_d h))) (h_e h)) (round_k i)) w in
  mkHash temp (h_a h) (rol (h_b h) 30) (h_c h) (h_d h).

Definition sha_chunk (h : Hash) (chunk : list Z) : Hash :=
  let r := fold_left sha_round (imap pair (schedule (words_of chunk))) h in
  mkHash (add32 (h_a h) (h_a r)) (add32 (h_b h) (h_b r)) (add32 (h_c h) (h_c r))
    (add32 (h_d h) (h_d r)) (add32 (h_e h) (h_e r)).

(** [for (chunk = 0; chunk < message.size(); chunk += 64)], with the chunks left. *)
Fixpoint sha_chunks (n : nat) (message : list Z) (h : Hash) : Hash :=
  match n with
  | O => h
  | S n => sha_chunks n (drop 64 message) (sha_chunk h (take 64 message))
  end.

Definition digest_of (h : Hash) : list Z :=
  [h_a h; h_b h; h_c h; h_d h; h_e h] ≫= big_endian 4.

Definition sha1 (input : bytes) : list Z :=
  let message := padded input in
  digest_of (sha_chunks (length message / 64) message initial_hash).

(** ** Base64 *)

Definition base64_table : bytes := "ABCDEFGHIJKLMNOPQRSTUVWXYZabcdefghijklmnopqrstuvwxyz0123456789+/".

Definition base64_char (z : Z) : ascii := nth (Z.to_nat (Z.land z 63)) base64_table c_nul.

Fixpoint base64Encode (data : list Z) : bytes :=
  let triple a b c := Z.lor (Z.lor (Z.shiftl a 16) (Z.shiftl b 8)) c in
  let digit t k := base64_char (Z.shiftr t k) in
  match data with
  | [] => []
  | [a] => let t := triple a 0 0 in [digit t 18; digit t 12; "="%char; "="%char]
  | [a; b] => let t := triple a b 0 in [digit t 18; digit t 12; digit t 6; "="%char]
  | a :: b :: c :: rest =>
      let t := triple a b c in digit t 18 :: digit t 12 :: digit t 6 :: digit t 0 :: base64Encode rest
  end.

Definition websocket_guid : bytes := "258EAFA5-E914-47DA-95CA-C5AB0DC85B11".

Definition websocketAcceptKey (key : bytes) : bytes := base64Encode (sha1 (key ++ websocket_guid)).

Definition hex_of (l : list Z) : Z := fold_left (fun acc b => acc * 256 + b) l 0.

Example sha1_empty : hex_of (sha1 []) = 1245845410931227995499360226027473197403882391305.
Proof. by vm_compute. Qed.
Example sha1_abc : hex_of (sha1 "abc") = 968236873715988614170569073515315707566766479517.
Proof. by vm_compute. Qed.
Example rfc6455_key : websocketAcceptKey "dGhlIHNhbXBsZSBub25jZQ==" = "s3pPLMBiTxaQ9kYGzzhZRbK+xOo=".
Proof. by vm_compute. Qed.

(** ** Lengths and ranges *)

Definition is_byte (z : Z) : Prop := 0 <= z < 256.

Lemma byte_of_range z i : is_byte (byte_of z i).
Proof.
  unfold is_byte, byte_of. change 255 with (Z.ones 8). rewrite Z.land_ones by done.
  by apply Z.mod_pos_bound.
Qed.

Lemma big_endian_length n z : length (big_endian n z) = n.
Proof. unfold big_endian. by rewrite length_fmap, length_reverse, length_seq. Qed.

Lemma big_endian_bytes n z : Forall is_byte (big_endian n z).
Proof. unfold big_endian. apply Forall_fmap, Forall_true. intros i. apply byte_of_range. Qed.

Lemma digest_of_spec h : length (digest_of h) = 20%nat /\ Forall is_byte (digest_of h).
Proof. split; [done|]. apply Forall_bind, Forall_true. intros w. apply big_endian_bytes. Qed.

(** The padded message is a whole number of chunks, begins with the input and ends with its
    length in bits. *)
Lemma padded_chunks input :
  (length (padded input) mod 64 = 0)%nat /\
  exists k, padded input = (code <$> input) ++ 128 :: replicate k 0 ++
    big_endian 8 (u64 (Z.of_nat (length input) * 8)) /\ (k < 64)%nat.
Proof.
  unfold padded. set (m := (code <$> input) ++ [128]).
  pose proof (Z.mod_pos_bound (56 - Z.of_nat (length m)) 64 eq_refl) as Hb.
  split.
  - rewrite !length_app, length_replicate, big_endian_length.
    apply Nat2Z.inj. rewrite Nat2Z.inj_mod, !Nat2Z.inj_add, Z2Nat.id by lia.
    rewrite Z.add_assoc, <- Z.add_mod_idemp_l, Z.add_mod_idemp_r by done.
    replace (Z.of_nat (length m) + (56 - Z.of_nat (length m))) with 56 by lia. done.
  - exists (Z.to_nat ((56 - Z.of_nat (length m)) mod 64)). split; [|lia].
    unfold m. by rewrite <- app_assoc.
Qed.

(** ** Base64 reads back *)

Definition base64_index (c : ascii) : option Z := Z.of_nat <$> find_char c base64_table.

(** Four characters become three bytes, or fewer when they end in ['=']. *)
Fixpoint base64_decode (s : bytes) : option (list Z) :=
  match s with
  | [] => Some []
  | p :: q :: r :: t :: rest =>
      x ← base64_index p; y ← base64_index q;
      if decide (r = "="%char) then
        if decide (t = "="%char /\ rest = []) then Some [x * 4 + y / 16] else None
      else
        z ← base64_index r;
        if decide (t = "="%char) then
          if decide (rest = []) then Some [x * 4 + y / 16; y mod 16 * 16 + z / 4] else None
        else
          w ← base64_index t; l ← base64_decode rest;
          Some (x * 4 + y / 16 :: y mod 16 * 16 + z / 4 :: z mod 4 * 64 + w :: l)
  | _ => None
  end.

Definition table_ok (i : Z) : bool :=
  bool_decide (base64_index (base64_char i) = Some i) && bool_decide (base64_char i <> "="%char).

Lemma base64_char_spec z : base64_index (base64_char z) = Some (z mod 64) /\ base64_char z <> "="%char.
Proof.
  assert (E : base64_char z = base64_char (z mod 64)).
  { unfold base64_char. change 63 with (Z.ones 6). rewrite !Z.land_ones by done. by rewrite Z.mod_mod. }
  assert (H : forallb table_ok (seqZ 0 64) = true) by (by vm_compute).
  rewrite forallb_forall in H. pose proof (Z.mod_pos_bound z 64 eq_refl).
  specialize (H (z mod 64)). unfold table_ok in H. rewrite <- E in H.
  apply andb_prop in H as [H1%bool_decide_eq_true H2%bool_decide_eq_true]; [done|].
  apply list_elem_of_In, elem_of_seqZ. lia.
Qed.

Lemma lor_disjoint a b k : 0 <= k -> 0 <= b < 2 ^ k -> Z.lor (Z.shiftl a k) b = a * 2 ^ k + b.
Proof.
  intros Hk Hb. assert (H : Z.land (Z.shiftl a k) b = 0).
  { apply Z.bits_inj'. intros n Hn. rewrite Z.land_spec, Z.bits_0, Z.shiftl_spec by done.
    destruct (Z.lt_ge_cases n k); [by rewrite (Z.testbit_neg_r a) by lia|].
    rewrite <- (Z.mod_small b (2 ^ k)) by done. rewrite Z.mod_pow2_bits_high by lia. apply andb_false_r. }
  rewrite <- Z.lxor_lor, <- Z.add_nocarry_lxor by done. by rewrite Z.shiftl_mul_pow2.
Qed.

Lemma triple_value a b c :
  is_byte a -> is_byte b -> is_byte c ->
  Z.lor (Z.lor (Z.shiftl a 16) (Z.shiftl b 8)) c = a * 65536 + b * 256 + c.
Proof.
  unfold is_byte. intros Ha Hb Hc.
  assert (E : Z.lor (Z.shiftl a 16) (Z.shiftl b 8) = Z.shiftl (a * 256 + b) 8).
  { rewrite lor_disjoint; rewrite ?Z.shiftl_mul_pow2 by lia; change (2 ^ 16) with 65536; change (2 ^ 8) with 256; lia. }
  rewrite E, lor_disjoint by (change (2 ^ 8) with 256; lia). change (2 ^ 8) with 256. lia.
Qed.

Lemma list_ind3 {A} (P : list A -> Prop) :
  P [] -> (forall a, P [a]) -> (forall a b, P [a; b]) ->
  (forall a b c l, P l -> P (a :: b :: c :: l)) -> forall l, P l.
Proof.
  intros H0 H1 H2 H3. fix IH 1. intros [|a [|b [|c l]]]; [apply H0|apply H1|apply H2|apply H3, IH].
Qed.

(** The four six-bit digits of a triple. *)
Lemma digits_of_triple t :
  (Z.shiftr t 18 mod 64) = t / 262144 mod 64 /\ (Z.shiftr t 12 mod 64) = t / 4096 mod 64 /\
  (Z.shiftr t 6 mod 64) = t / 64 mod 64 /\ (Z.shiftr t 0 mod 64) = t mod 64.
Proof. by rewrite !Z.shiftr_div_pow2, Z.div_1_r by done. Qed.

Lemma triple_bytes a b c :
  is_byte a -> is_byte b -> is_byte c ->
  let t := a * 65536 + b * 256 + c in
  t / 262144 mod 64 * 4 + t / 4096 mod 64 / 16 = a /\
  t / 4096 mod 64 mod 16 * 16 + t / 64 mod 64 / 4 = b /\
  t / 64 mod 64 mod 4 * 64 + t mod 64 = c.
Proof. unfold is_byte. cbv zeta. intros Ha Hb Hc. Z.to_euclidean_division_equations. lia. Qed.

Lemma base64_decode_encode l : Forall is_byte l -> base64_decode (base64Encode l) = Some l.
Proof.
  assert (Hz : is_byte 0) by (by split).
  induction l as [|a|a b|a b c l IH] using list_ind3; intros H; [done|..];
    repeat match goal with H : Forall _ (_ :: _) |- _ => apply Forall_cons in H as [? H] end.
  - cbn [base64Encode]. rewrite (triple_value a 0 0) by done.
    destruct (triple_bytes a 0 0) as (E1 & _); [done..|]. cbv zeta in E1.
    remember (a * 65536 + 0 * 256 + 0) as t eqn:Et. clear Et. destruct (digits_of_triple t) as (D1 & D2 & _).
    cbn [base64_decode]. rewrite !(proj1 (base64_char_spec _)). cbn [mbind option_bind].
    rewrite decide_True, decide_True by done. by rewrite D1, D2, E1.
  - cbn [base64Encode]. rewrite (triple_value a b 0) by done.
    destruct (triple_bytes a b 0) as (E1 & E2 & _); [done..|]. cbv zeta in E1, E2.
    remember (a * 65536 + b * 256 + 0) as t eqn:Et. clear Et. destruct (digits_of_triple t) as (D1 & D2 & D3 & _).
    cbn [base64_decode]. rewrite !(proj1 (base64_char_spec _)). cbn [mbind option_bind].
    rewrite (decide_False (P := base64_char _ = _)) by apply base64_char_spec.
    rewrite decide_True, decide_True by done. by rewrite D1, D2, D3, E1, E2.
  - cbn [base64Encode]. rewrite (triple_value a b c) by done.
    destruct (triple_bytes a b c) as (E1 & E2 & E3); [done..|]. cbv zeta in E1, E2, E3.
    remember (a * 65536 + b * 256 + c) as t eqn:Et. clear Et. destruct (digits_of_triple t) as (D1 & D2 & D3 & D4).
    cbn [base64_decode]. rewrite !(proj1 (base64_char_spec _)). cbn [mbind option_bind].
    rewrite !(decide_False (P := base64_char _ = _)) by apply base64_char_spec.
    rewrite IH by done. cbn [mbind option_bind]. by rewrite D1, D2, D3, D4, E1, E2, E3.
Qed.

Lemma base64_length l : length (base64Encode l) = (4 * ((length l + 2) / 3))%nat.
Proof.
  induction l as [|a|a b|a b c l IH] using list_ind3; [done..|].
  cbn [base64Encode length]. rewrite IH. replace (S (S (S (length l))) + 2)%nat with (length l + 2 + 1 * 3)%nat by lia.
  rewrite Nat.div_add by lia. lia.
Qed.

(** the answer to a WebSocket key is, for every key, the 28 characters that decode in
    Base64 to the SHA-1 digest of the key followed by the identifier of RFC 6455; the hashed
    message is a whole number of chunks that begins with the key and the identifier. *)
Theorem accept_key_is_digest key :
  length (websocketAcceptKey key) = 28%nat /\
  base64_decode (websocketAcceptKey key) = Some (sha1 (key ++ websocket_guid)) /\
  (length (padded (key ++ websocket_guid)) mod 64 = 0)%nat /\
  exists rest, padded (key ++ websocket_guid) = (code <$> key ++ websocket_guid) ++ rest.
Proof.
  unfold websocketAcceptKey. destruct (digest_of_spec (sha_chunks (length (padded (key ++ websocket_guid)) / 64)
    (padded (key ++ websocket_guid)) initial_hash)) as [Hl Hb].
  destruct (padded_chunks (key ++ websocket_guid)) as (Hm & k & E & _).
  split_and!; [|by apply base64_decode_encode|done|by eexists].
  rewrite base64_length. unfold sha1. by rewrite Hl.
Qed.
