(* ===== verification/NetUtils.v ===== *)
(** * src/src/net_utils.cpp: listen addresses and trusted peers *)

From S2P Require Import Prelude Utils.

Record Address := mkAddress { host : bytes; port : Z }.

Definition parseAddress (value : bytes) : option Address :=
  let text := trim value in
  match rfind_char ":"%char text with
  | None => None
  | Some colon =>
      let host0 := take colon text in
      let host1 := if decide (host0 = []) then "0.0.0.0" : bytes else host0 in
      let port_text := drop (S colon) text in
      let '(ec, ptr, p) := from_chars_int port_text in
      if negb (bool_decide (ec = errc_ok)) || negb (bool_decide (ptr = []))
         || (p <=? 0) || (65535 <? p)
      then None
      else Some (mkAddress host1 p)
  end.

Definition isTrustedPeer (trusted_ips : list bytes) (peer_ip : bytes) : bool :=
  if decide (trusted_ips = []) then true
  else
    let normalized_peer := trim peer_ip in
    existsb (fun trusted => bool_decide (trim trusted = normalized_peer)) trusted_ips.

(** ** Facts *)

Lemma to_string_no_colon n : 0 <= n -> ":"%char ∉ to_string n.
Proof.
  intros Hn Hin. destruct (to_string_spec n Hn) as (_ & Hd & _).
  unfold all_digits in Hd. rewrite Forall_forall in Hd. specialize (Hd _ Hin).
  vm_compute in Hd. done.
Qed.

Lemma from_chars_int_to_string n :
  0 <= n <= 2147483647 -> from_chars_int (to_string n) = (errc_ok, [], n).
Proof.
  intros Hn. destruct (to_string_spec n ltac:(lia)) as (Hne & Hd & Hv).
  unfold from_chars_int.
  assert (bool_decide (head (to_string n) = Some "-"%char) = false) as ->.
  { apply bool_decide_eq_false. intros Hh. rewrite head_Some in Hh. destruct Hh as [t Ht].
    unfold all_digits in Hd. rewrite Ht in Hd. inversion Hd as [|? ? Hc]; subst. done. }
  rewrite take_while_whole, drop_while_all by done.
  rewrite decide_False by done. rewrite Hv.
  destruct (_ && _) eqn:E; [done|]. exfalso.
  apply andb_false_iff in E as [E|E]; blia.
Qed.

(** [parseAddress] accepts exactly the listen addresses it can bind: every
    accepted port lies between 1 and 65535 and the host is never empty, and
    [host:port] (or [:port], for all interfaces) with such a port is accepted with
    that host and port, whatever colons the host holds. *)
Theorem parseAddress_correct :
  (forall value a, parseAddress value = Some a -> host a <> [] /\ 1 <= port a <= 65535) /\
  (forall h p, trimmed h -> 1 <= p <= 65535 ->
     parseAddress (h ++ ":"%char :: to_string p) =
     Some (mkAddress (if decide (h = []) then "0.0.0.0" : bytes else h) p)).
Proof.
  split.
  - intros value a. unfold parseAddress. destruct (rfind_char _ _) as [i|]; [|done].
    destruct (from_chars_int _) as [[ec ptr] p]. destruct (_ || _) eqn:E; [done|].
    intros [= <-]. simpl. b2p. split; [case_decide; done|lia].
  - intros h p Hh Hp. unfold parseAddress.
    destruct (to_string_spec p ltac:(lia)) as (Hne & Hd & _).
    assert (Ht : trimmed (h ++ ":"%char :: to_string p)).
    { split; intros c Hc.
      - destruct h as [|x h]; simpl in Hc; [by injection Hc as <-|]. by apply (proj1 Hh).
      - rewrite last_Some in Hc. destruct Hc as [l Hl].
        destruct (to_string p) as [|x l' _] using rev_ind; [done|].
        rewrite app_comm_cons, app_assoc in Hl. apply app_inj_tail in Hl as [_ <-].
        apply Forall_app in Hd as [_ Hx]. rewrite Forall_singleton in Hx.
        by apply isdigit_not_space. }
    rewrite trim_id by done. rewrite rfind_char_app by (apply to_string_no_colon; lia).
    rewrite take_app_length, drop_app_S_length.
    rewrite from_chars_int_to_string by lia. rewrite !bool_decide_true by done. simpl.
    destruct ((p <=? 0) || (65535 <? p)) eqn:E; [|done].
    apply orb_true_iff in E as [E|E]; blia.
Qed.

Lemma parseAddress_correct_witness :
  parseAddress (("127.0.0.1" : bytes) ++ ":"%char :: to_string 8080) = Some (mkAddress "127.0.0.1" 8080).
Proof.
  apply (proj2 parseAddress_correct "127.0.0.1" 8080); [|lia].
  split; intros c; simpl; by intros [= <-].
Defined.

(** with an empty list every peer is trusted; otherwise a peer is trusted
    exactly when its address, trimmed, is one of the listed addresses, trimmed. *)
Theorem isTrustedPeer_correct trusted_ips peer :
  isTrustedPeer trusted_ips peer = true <->
  trusted_ips = [] \/ trim peer ∈ (trim <$> trusted_ips).
Proof.
  unfold isTrustedPeer. case_decide as H; [tauto|].
  rewrite existsb_exists, list_elem_of_fmap. split.
  - intros (x & Hx & Hb). right. exists x. rewrite list_elem_of_In.
    apply bool_decide_eq_true in Hb. done.
  - intros [?|(x & Hx & Hin)]; [done|]. exists x. rewrite <- list_elem_of_In.
    split; [done|]. by apply bool_decide_eq_true.
Qed.
