(* ===== verification/Types.v ===== *)
(** * src/include/netmon/types.hpp: the data the components exchange

    One record per struct, with the member names and order of the source and the
    default member initialisers as the [default_] values; time points are [int64]
    nanosecond counts, counters are 64-bit values, rates are binary64. *)

From S2P Require Import Prelude Utils Double.

Inductive DeviceStatus : Type := Online | Idle | Offline | Unknown.
Inductive EventSeverity : Type := Info | Warning | Critical.

#[export] Instance DeviceStatus_eq_dec : EqDecision DeviceStatus.
Proof. solve_decision. Defined.
#[export] Instance EventSeverity_eq_dec : EqDecision EventSeverity.
Proof. solve_decision. Defined.

(** [toString] of the two enums (utils.cpp). *)
Definition status_toString (status : DeviceStatus) : bytes :=
  match status with
  | Online => "online"
  | Idle => "idle"
  | Offline => "offline"
  | Unknown => "unknown"
  end.

Definition severity_toString (severity : EventSeverity) : bytes :=
  match severity with
  | Info => "info"
  | Warning => "warning"
  | Critical => "critical"
  end.

Record DeviceState := mkDeviceState {
  mac : bytes;
  ip : bytes;
  hostname : bytes;
  interface_name : bytes;
  source : bytes;
  neigh_state : bytes;
  status : DeviceStatus;
  first_seen : time;
  last_seen : time;
  last_dhcp : time;
  last_traffic : time;
  last_rate : time;
  rx_bytes_total : Z;
  tx_bytes_total : Z;
  rx_rate_bps : double;
  tx_rate_bps : double;
  tags : list bytes
}.

#[export] Instance DeviceState_eta : Eta DeviceState := fun d =>
  mkDeviceState (mac d) (ip d) (hostname d) (interface_name d) (source d) (neigh_state d)
    (status d) (first_seen d) (last_seen d) (last_dhcp d) (last_traffic d) (last_rate d)
    (rx_bytes_total d) (tx_bytes_total d) (rx_rate_bps d) (tx_rate_bps d) (tags d).

Definition default_DeviceState : DeviceState :=
  mkDeviceState [] [] [] [] [] [] Unknown epoch epoch epoch epoch epoch 0 0 d_zero d_zero [].

Record TrafficSnapshot := mkTrafficSnapshot {
  ts_mac : bytes;
  ts_ip : bytes;
  ts_ts : time;
  ts_rx_bytes : Z;
  ts_tx_bytes : Z
}.

Record InterfaceSnapshot := mkInterfaceSnapshot {
  is_interface_name : bytes;
  is_ts : time;
  is_rx_bytes : Z;
  is_tx_bytes : Z
}.

Record InterfaceState := mkInterfaceState {
  if_interface_name : bytes;
  if_last_seen : time;
  if_last_rate : time;
  if_rx_bytes_total : Z;
  if_tx_bytes_total : Z;
  if_rx_rate_bps : double;
  if_tx_rate_bps : double
}.

Definition default_InterfaceState : InterfaceState :=
  mkInterfaceState [] epoch epoch 0 0 d_zero d_zero.

Record Event := mkEvent {
  ev_id : bytes;
  ev_ts : time;
  ev_type : bytes;
  ev_severity : EventSeverity;
  ev_source : bytes;
  ev_message : bytes;
  ev_fields : gmap bytes bytes
}.

#[export] Instance Event_eta : Eta Event := fun e =>
  mkEvent (ev_id e) (ev_ts e) (ev_type e) (ev_severity e) (ev_source e) (ev_message e) (ev_fields e).

Record WANAttackEvent := mkWANAttackEvent {
  wa_ts : time;
  wa_in_if : bytes;
  wa_src_ip : bytes;
  wa_dst_ip : bytes;
  wa_src_port : bytes;
  wa_dst_port : bytes;
  wa_proto : bytes;
  wa_length : bytes;
  wa_raw : bytes
}.

#[export] Instance WANAttackEvent_eta : Eta WANAttackEvent := fun e =>
  mkWANAttackEvent (wa_ts e) (wa_in_if e) (wa_src_ip e) (wa_dst_ip e) (wa_src_port e)
    (wa_dst_port e) (wa_proto e) (wa_length e) (wa_raw e).

Record Summary := mkSummary {
  active_devices : Z;
  idle_devices : Z;
  offline_devices : Z;
  unknown_devices : Z;
  wan_attack_5m : Z;
  sm_rx_rate_bps : double;
  sm_tx_rate_bps : double;
  rate_source : bytes;
  rate_interface : bytes;
  last_interface_ts : time;
  sm_last_log_ts : time
}.

#[export] Instance Summary_eta : Eta Summary := fun s =>
  mkSummary (active_devices s) (idle_devices s) (offline_devices s) (unknown_devices s)
    (wan_attack_5m s) (sm_rx_rate_bps s) (sm_tx_rate_bps s) (rate_source s) (rate_interface s)
    (last_interface_ts s) (sm_last_log_ts s).

Definition default_Summary : Summary :=
  mkSummary 0 0 0 0 0 d_zero d_zero "devices" [] epoch epoch.

Example update_check :
  ip (default_DeviceState <| ip := "10.0.0.1" |> <| status := Idle |>) = "10.0.0.1".
Proof. reflexivity. Qed.
