(* ===== verification/Config.v ===== *)
(** * src/include/netmon/config.hpp, src/src/config.cpp: the configuration

    The configuration record with its defaults, the loader of the indented
    [key: value] file and the environment overrides.  The file system and the
    environment are the functions [read_file] and [getenv]. *)

From S2P Require Import Prelude Utils.

Record Config := mkConfig {
  http_addr : bytes;
  syslog_udp_addr : bytes;
  syslog_tcp_addr : bytes;
  enable_udp : bool;
  enable_tcp : bool;
  device_online_ttl_seconds : Z;
  device_idle_ttl_seconds : Z;
  device_keep_ttl_seconds : Z;
  max_events : Z;
  max_attack_events : Z;
  max_traffic_points_per_device : Z;
  traffic_rate_hold_seconds : Z;
  storage_mode : bytes;
  enable_debug_file_log : bool;
  debug_log_path : bytes;
  debug_log_max_mb : Z;
  sqlite_path : bytes;
  sqlite_retention_days : Z;
  sqlite_max_db_mb : Z;
  sqlite_max_events : Z;
  sqlite_max_traffic_points_per_device : Z;
  sqlite_vacuum_on_start : bool;
  prometheus_enabled : bool;
  prometheus_path : bytes;
  prometheus_include_device_labels : bool;
  prometheus_device_label_mode : bytes;
  bind_lan_only : bool;
  dashboard_token : bytes;
  trusted_router_ips : list bytes;
  max_syslog_line_length : Z;
  web_root : bytes
}.

#[export] Instance Config_eta : Eta Config := fun c =>
  mkConfig (http_addr c) (syslog_udp_addr c) (syslog_tcp_addr c) (enable_udp c) (enable_tcp c)
    (device_online_ttl_seconds c) (device_idle_ttl_seconds c) (device_keep_ttl_seconds c)
    (max_events c) (max_attack_events c) (max_traffic_points_per_device c)
    (traffic_rate_hold_seconds c) (storage_mode c) (enable_debug_file_log c) (debug_log_path c)
    (debug_log_max_mb c) (sqlite_path c) (sqlite_retention_days c) (sqlite_max_db_mb c)
    (sqlite_max_events c) (sqlite_max_traffic_points_per_device c) (sqlite_vacuum_on_start c)
    (prometheus_enabled c) (prometheus_path c) (prometheus_include_device_labels c)
    (prometheus_device_label_mode c) (bind_lan_only c) (dashboard_token c)
    (trusted_router_ips c) (max_syslog_line_length c) (web_root c).

Definition default_Config : Config :=
  mkConfig "0.0.0.0:8080" "0.0.0.0:1514" "0.0.0.0:1514" true false
    180 600 3600 2000 1000 60 75
    "memory" false "./netmon-debug.log" 10 "./openwrt-netmon-lite.db" 7 128 50000 2016 false
    false "/metrics" false "mac_hash"
    true [] [] 4096 "./web/static".

(** ** [applyValue]: one [key: value] pair of a section *)

Definition apply_server (config : Config) (key value : bytes) : Config :=
  if decide (key = "http_addr") then config <| http_addr := value |>
  else if decide (key = "syslog_udp_addr") then config <| syslog_udp_addr := value |>
  else if decide (key = "syslog_tcp_addr") then config <| syslog_tcp_addr := value |>
  else if decide (key = "enable_udp") then
    config <| enable_udp := parseBool value (enable_udp config) |>
  else if decide (key = "enable_tcp") then
    config <| enable_tcp := parseBool value (enable_tcp config) |>
  else config.

Definition apply_state (config : Config) (key value : bytes) : Config :=
  if decide (key = "device_online_ttl_seconds") then
    config <| device_online_ttl_seconds := parseInt value (device_online_ttl_seconds config) |>
  else if decide (key = "device_idle_ttl_seconds") then
    config <| device_idle_ttl_seconds := parseInt value (device_idle_ttl_seconds config) |>
  else if decide (key = "device_keep_ttl_seconds") then
    config <| device_keep_ttl_seconds := parseInt value (device_keep_ttl_seconds config) |>
  else if decide (key = "max_events") then
    config <| max_events := parseUint64 value (max_events config) |>
  else if decide (key = "max_attack_events") then
    config <| max_attack_events := parseUint64 value (max_attack_events config) |>
  else if decide (key = "max_traffic_points_per_device") then
    config <| max_traffic_points_per_device :=
      parseUint64 value (max_traffic_points_per_device config) |>
  else if decide (key = "traffic_rate_hold_seconds") then
    config <| traffic_rate_hold_seconds := parseInt value (traffic_rate_hold_seconds config) |>
  else config.

Definition apply_storage (config : Config) (key value : bytes) : Config :=
  if decide (key = "mode") then config <| storage_mode := value |>
  else if decide (key = "enable_debug_file_log") then
    config <| enable_debug_file_log := parseBool value (enable_debug_file_log config) |>
  else if decide (key = "debug_log_path") then config <| debug_log_path := value |>
  else if decide (key = "debug_log_max_mb") then
    config <| debug_log_max_mb := parseInt value (debug_log_max_mb config) |>
  else config.

Definition apply_sqlite (config : Config) (key value : bytes) : Config :=
  if decide (key = "path") then config <| sqlite_path := value |>
  else if decide (key = "retention_days") then
    config <| sqlite_retention_days := parseInt value (sqlite_retention_days config) |>
  else if decide (key = "max_db_mb") then
    config <| sqlite_max_db_mb := parseInt value (sqlite_max_db_mb config) |>
  else if decide (key = "max_events") then
    config <| sqlite_max_events := parseUint64 value (sqlite_max_events config) |>
  else if decide (key = "max_traffic_points_per_device") then
    config <| sqlite_max_traffic_points_per_device :=
      parseUint64 value (sqlite_max_traffic_points_per_device config) |>
  else if decide (key = "vacuum_on_start") then
    config <| sqlite_vacuum_on_start := parseBool value (sqlite_vacuum_on_start config) |>
  else config.

(** [value.empty() || value.front() == '/' ? value : "/" + value]. *)
Definition with_slash (value : bytes) : bytes :=
  match value with
  | [] => []
  | c :: _ => if decide (c = "/"%char) then value else "/"%char :: value
  end.

Definition apply_metrics (config : Config) (key value : bytes) : Config :=
  if decide (key = "prometheus_enabled") then
    config <| prometheus_enabled := parseBool value (prometheus_enabled config) |>
  else if decide (key = "prometheus_path") then config <| prometheus_path := with_slash value |>
  else if decide (key = "include_device_labels") then
    config <| prometheus_include_device_labels :=
      parseBool value (prometheus_include_device_labels config) |>
  else if decide (key = "device_label_mode") then
    config <| prometheus_device_label_mode := value |>
  else config.

Definition apply_security (config : Config) (key value : bytes) : Config :=
  if decide (key = "bind_lan_only") then
    config <| bind_lan_only := parseBool value (bind_lan_only config) |>
  else if decide (key = "dashboard_token") then config <| dashboard_token := value |>
  else if decide (key = "max_syslog_line_length") then
    config <| max_syslog_line_length := parseUint64 value (max_syslog_line_length config) |>
  else config.

Definition applyValue (config : Config) (section key raw_value : bytes) : Config :=
  let value := stripQuotes (stripInlineComment raw_value) in
  if decide (section = "server") then apply_server config key value
  else if decide (section = "state") then apply_state config key value
  else if decide (section = "storage") then apply_storage config key value
  else if decide (section = "storage.sqlite") then apply_sqlite config key value
  else if decide (section = "metrics") then apply_metrics config key value
  else if decide (section = "security") then apply_security config key value
  else if decide (section = "web") then
    if decide (key = "root") then config <| web_root := value |> else config
  else config.

(** ** The loader *)

Definition sectionPath (stack : list (Z * bytes)) : bytes := join "."%char stack.*2.

Definition leadingSpaces (line : bytes) : Z :=
  Z.of_nat (length (take_while (fun ch => bool_decide (ch = c_space)) line)).

(** [while (!stack.empty() && indent <= stack.back().first) stack.pop_back();] *)
Definition popSectionsAtOrAbove (stack : list (Z * bytes)) (indent : Z) : list (Z * bytes) :=
  rdrop_while (fun entry => indent <=? entry.1) stack.

(** The variables of the loop over the lines. *)
Record Loader := mkLoader {
  ld_config : Config;
  ld_list_key : bytes;
  ld_stack : list (Z * bytes)
}.

#[export] Instance Loader_eta : Eta Loader := fun l =>
  mkLoader (ld_config l) (ld_list_key l) (ld_stack l).

Definition trusted_key : bytes := "security.trusted_router_ips".

Definition loadLine (l : Loader) (line : bytes) : Loader :=
  let indent := leadingSpaces line in
  let text := stripInlineComment line in
  if decide (text = []) then l
  else if starts_with "-" text then
    if decide (ld_list_key l = trusted_key) then
      let item := stripQuotes (stripInlineComment (trim (drop 1 text))) in
      if decide (item = []) then l
      else l <| ld_config := (ld_config l)
               <| trusted_router_ips := trusted_router_ips (ld_config l) ++ [item] |> |>
    else l
  else
    match find_char ":"%char text with
    | None => l
    | Some colon =>
        let key := trim (take colon text) in
        let value := trim (drop (S colon) text) in
        let stack := popSectionsAtOrAbove (ld_stack l) indent in
        let section := sectionPath stack in
        if decide (section = "security" /\ key = "trusted_router_ips" /\ value = []) then
          mkLoader ((ld_config l) <| trusted_router_ips := [] |>) trusted_key stack
        else if decide (value = []) then
          mkLoader (ld_config l) [] (stack ++ [(indent, key)])
        else mkLoader (applyValue (ld_config l) section key value) [] stack
    end.

(** The lines [std::getline] delivers: cut at line feeds, without an empty last
    piece. *)
Definition getlines (content : bytes) : list bytes :=
  let pieces := split content c_nl in
  match last pieces with
  | Some [] => take (length pieces - 1) pieces
  | _ => pieces
  end.

(** ** Environment overrides *)

Section Environment.
Context (getenv : bytes -> option bytes).

Definition setIfEnv (name value : bytes) : bytes := default value (getenv name).

Definition setBoolIfEnv (name : bytes) (value : bool) : bool :=
  match getenv name with Some env => parseBool env value | None => value end.

Definition setIntIfEnv (name : bytes) (value : Z) : Z :=
  match getenv name with Some env => parseInt env value | None => value end.

Definition setSizeIfEnv (name : bytes) (value : Z) : Z :=
  match getenv name with Some env => parseUint64 env value | None => value end.

(** The assignments of [applyEnvironmentOverrides], in their order, in five groups. *)
Definition env_server (c : Config) : Config :=
  let c := c <| http_addr := setIfEnv "NETMON_HTTP_ADDR" (http_addr c) |> in
  let c := c <| syslog_udp_addr := setIfEnv "NETMON_SYSLOG_UDP_ADDR" (syslog_udp_addr c) |> in
  let c := c <| syslog_tcp_addr := setIfEnv "NETMON_SYSLOG_TCP_ADDR" (syslog_tcp_addr c) |> in
  let c := c <| enable_udp := setBoolIfEnv "NETMON_ENABLE_UDP" (enable_udp c) |> in
  c <| enable_tcp := setBoolIfEnv "NETMON_ENABLE_TCP" (enable_tcp c) |>.

Definition env_paths (c : Config) : Config :=
  let c := c <| dashboard_token := setIfEnv "NETMON_DASHBOARD_TOKEN" (dashboard_token c) |> in
  let c := c <| web_root := setIfEnv "NETMON_WEB_ROOT" (web_root c) |> in
  let c := c <| storage_mode := setIfEnv "NETMON_STORAGE_MODE" (storage_mode c) |> in
  c <| sqlite_path := setIfEnv "NETMON_SQLITE_PATH" (sqlite_path c) |>.

Definition env_sqlite (c : Config) : Config :=
  let c := c <| sqlite_retention_days :=
    setIntIfEnv "NETMON_SQLITE_RETENTION_DAYS" (sqlite_retention_days c) |> in
  let c := c <| sqlite_max_db_mb := setIntIfEnv "NETMON_SQLITE_MAX_DB_MB" (sqlite_max_db_mb c) |> in
  let c := c <| sqlite_max_events :=
    setSizeIfEnv "NETMON_SQLITE_MAX_EVENTS" (sqlite_max_events c) |> in
  let c := c <| sqlite_max_traffic_points_per_device :=
    setSizeIfEnv "NETMON_SQLITE_MAX_TRAFFIC_POINTS_PER_DEVICE"
      (sqlite_max_traffic_points_per_device c) |> in
  c <| sqlite_vacuum_on_start :=
    setBoolIfEnv "NETMON_SQLITE_VACUUM_ON_START" (sqlite_vacuum_on_start c) |>.

Definition env_metrics (c : Config) : Config :=
  let c := c <| prometheus_enabled :=
    setBoolIfEnv "NETMON_PROMETHEUS_ENABLED" (prometheus_enabled c) |> in
  let c := c <| prometheus_path := setIfEnv "NETMON_PROMETHEUS_PATH" (prometheus_path c) |> in
  let c := c <| prometheus_path := with_slash (prometheus_path c) |> in
  let c := c <| prometheus_include_device_labels :=
    setBoolIfEnv "NETMON_PROMETHEUS_INCLUDE_DEVICE_LABELS"
      (prometheus_include_device_labels c) |> in
  c <| prometheus_device_label_mode :=
    setIfEnv "NETMON_PROMETHEUS_DEVICE_LABEL_MODE" (prometheus_device_label_mode c) |>.

Definition env_trusted (c : Config) : Config :=
  match getenv "NETMON_TRUSTED_ROUTER_IPS" with
  | None => c
  | Some env =>
      c <| trusted_router_ips :=
        filter (fun item => item <> []) (trim <$> split env ","%char) |>
  end.

Definition applyEnvironmentOverrides (c : Config) : Config :=
  env_trusted (env_metrics (env_sqlite (env_paths (env_server c)))).

Context (read_file : bytes -> option bytes).

Definition loadConfig (path : bytes) : Config :=
  let config :=
    if decide (path = []) then default_Config
    else match read_file path with
         | None => default_Config
         | Some content =>
             ld_config (fold_left loadLine (getlines content) (mkLoader default_Config [] []))
         end in
  applyEnvironmentOverrides config.

End Environment.

(** ** Every loaded configuration is within its machine ranges *)

Definition int_ok (n : Z) : Prop := - 2147483648 <= n <= 2147483647.
Definition size_ok (n : Z) : Prop := 0 <= n < two64.
Definition path_ok (path : bytes) : Prop := path = [] \/ head path = Some "/"%char.

Definition ints (c : Config) : list Z :=
  [device_online_ttl_seconds c; device_idle_ttl_seconds c; device_keep_ttl_seconds c;
   traffic_rate_hold_seconds c; debug_log_max_mb c; sqlite_retention_days c; sqlite_max_db_mb c].

Definition sizes (c : Config) : list Z :=
  [max_events c; max_attack_events c; max_traffic_points_per_device c; sqlite_max_events c;
   sqlite_max_traffic_points_per_device c; max_syslog_line_length c].

(** An [int] member holds an [int], a [size_t] member a [size_t], and the path of the
    metrics is empty or absolute. *)
Definition numbers_ok (c : Config) : Prop := Forall int_ok (ints c) /\ Forall size_ok (sizes c).

Definition config_ok (c : Config) : Prop := numbers_ok c /\ path_ok (prometheus_path c).

Lemma with_slash_ok value : path_ok (with_slash value).
Proof. unfold path_ok. destruct value as [|c value]; simpl; [by left|]. right. case_decide; by subst. Qed.

Lemma default_Config_ok : config_ok default_Config.
Proof.
  split; [split|by right]; repeat constructor; vm_compute; discriminate.
Qed.

Lemma parseInt_ok value fallback : int_ok fallback -> int_ok (parseInt value fallback).
Proof. apply parseInt_range. Qed.

Lemma parseUint64_ok value fallback : size_ok fallback -> size_ok (parseUint64 value fallback).
Proof. apply parseUint64_range. Qed.

(** Splits [config_ok] of a configuration with one member assigned. *)
Ltac config_member :=
  repeat match goal with c : Config |- _ => destruct c end;
  unfold config_ok, numbers_ok, ints, sizes in *; rewrite ?Forall_cons in *;
  simpl in *;
  destruct_and!; split_and!; auto using parseInt_ok, parseUint64_ok, with_slash_ok.

Ltac config_cases := repeat (case_decide; [config_member|]); done.

Lemma apply_server_ok c key value : config_ok c -> config_ok (apply_server c key value).
Proof. intros H. unfold apply_server. config_cases. Qed.

Lemma apply_state_ok c key value : config_ok c -> config_ok (apply_state c key value).
Proof. intros H. unfold apply_state. config_cases. Qed.

Lemma apply_storage_ok c key value : config_ok c -> config_ok (apply_storage c key value).
Proof. intros H. unfold apply_storage. config_cases. Qed.

Lemma apply_sqlite_ok c key value : config_ok c -> config_ok (apply_sqlite c key value).
Proof. intros H. unfold apply_sqlite. config_cases. Qed.

Lemma apply_metrics_ok c key value : config_ok c -> config_ok (apply_metrics c key value).
Proof. intros H. unfold apply_metrics. config_cases. Qed.

Lemma apply_security_ok c key value : config_ok c -> config_ok (apply_security c key value).
Proof. intros H. unfold apply_security. config_cases. Qed.

Lemma applyValue_ok c section key value : config_ok c -> config_ok (applyValue c section key value).
Proof.
  intros H. unfold applyValue. case_decide; [by apply apply_server_ok|].
  case_decide; [by apply apply_state_ok|]. case_decide; [by apply apply_storage_ok|].
  case_decide; [by apply apply_sqlite_ok|]. case_decide; [by apply apply_metrics_ok|].
  case_decide; [by apply apply_security_ok|]. case_decide; [|done]. config_cases.
Qed.

Lemma loadLine_ok l line : config_ok (ld_config l) -> config_ok (ld_config (loadLine l line)).
Proof.
  intros H. unfold loadLine. case_decide; [done|]. destruct (starts_with _ _).
  - repeat case_decide; done.
  - destruct (find_char _ _); [|done]. case_decide; [done|].
    case_decide; [done|]. simpl. by apply applyValue_ok.
Qed.

Lemma loadLines_ok lines l :
  config_ok (ld_config l) -> config_ok (ld_config (fold_left loadLine lines l)).
Proof. revert l. induction lines as [|line lines IH]; intros l H; simpl; auto using loadLine_ok. Qed.

Section Loaded.
Context (getenv : bytes -> option bytes) (read_file : bytes -> option bytes).

Lemma setIntIfEnv_ok name value : int_ok value -> int_ok (setIntIfEnv getenv name value).
Proof. unfold setIntIfEnv. destruct (getenv name); auto using parseInt_ok. Qed.

Lemma setSizeIfEnv_ok name value : size_ok value -> size_ok (setSizeIfEnv getenv name value).
Proof. unfold setSizeIfEnv. destruct (getenv name); auto using parseUint64_ok. Qed.

(** A member that an assignment leaves alone, found by its projection. *)
Ltac same_member :=
  match goal with
  | H : ?P (?f ?c) |- ?P (?f (_ ?c)) => exact H
  end.

Ltac all_members :=
  unfold config_ok, numbers_ok, ints, sizes in *; rewrite ?Forall_cons in *;
  destruct_and!; split_and!.

Lemma env_server_ok c : config_ok c -> config_ok (env_server getenv c).
Proof. intros H. all_members; first [apply Forall_nil_2 | same_member]. Qed.

Lemma env_paths_ok c : config_ok c -> config_ok (env_paths getenv c).
Proof. intros H. all_members; first [apply Forall_nil_2 | same_member]. Qed.

Lemma env_sqlite_ok c : config_ok c -> config_ok (env_sqlite getenv c).
Proof.
  intros H. all_members.
  all: match goal with
       | |- Forall _ [] => constructor
       | H : int_ok (sqlite_retention_days ?c') |- int_ok (sqlite_retention_days _) =>
           exact (setIntIfEnv_ok "NETMON_SQLITE_RETENTION_DAYS" _ H)
       | H : int_ok (sqlite_max_db_mb ?c') |- int_ok (sqlite_max_db_mb _) =>
           exact (setIntIfEnv_ok "NETMON_SQLITE_MAX_DB_MB" _ H)
       | H : size_ok (sqlite_max_events ?c') |- size_ok (sqlite_max_events _) =>
           exact (setSizeIfEnv_ok "NETMON_SQLITE_MAX_EVENTS" _ H)
       | H : size_ok (sqlite_max_traffic_points_per_device ?c')
         |- size_ok (sqlite_max_traffic_points_per_device _) =>
           exact (setSizeIfEnv_ok "NETMON_SQLITE_MAX_TRAFFIC_POINTS_PER_DEVICE" _ H)
       | |- _ => same_member
       end.
Qed.

Lemma env_metrics_ok c : config_ok c -> config_ok (env_metrics getenv c).
Proof.
  intros H. all_members.
  all: match goal with
       | |- Forall _ [] => constructor
       | |- path_ok _ => exact (with_slash_ok (setIfEnv getenv "NETMON_PROMETHEUS_PATH" _))
       | |- _ => same_member
       end.
Qed.

Lemma env_trusted_ok c : config_ok c -> config_ok (env_trusted getenv c).
Proof. intros H. unfold env_trusted. by destruct (getenv _). Qed.

Lemma applyEnvironmentOverrides_ok c :
  config_ok c -> config_ok (applyEnvironmentOverrides getenv c).
Proof.
  intros H. unfold applyEnvironmentOverrides.
  apply env_trusted_ok, env_metrics_ok, env_sqlite_ok, env_paths_ok, env_server_ok. exact H.
Qed.

(** C36: whatever the file and the environment hold (numbers out of range, garbage, nothing
    at all), the loaded configuration has every number within the range of its member, and
    a metrics path that is empty or begins with a slash; in particular the sizes the store
    works with are never negative. *)
Theorem loadConfig_in_range path : config_ok (loadConfig getenv read_file path).
Proof.
  unfold loadConfig. apply applyEnvironmentOverrides_ok. case_decide; [apply default_Config_ok|].
  destruct (read_file path); [|apply default_Config_ok].
  apply (loadLines_ok _ (mkLoader default_Config [] [])), default_Config_ok.
Qed.

End Loaded.
