(* ===== verification/Regex.v ===== *)
(** * The [std::regex] the log parser uses

    The ECMAScript expressions of src/src/log_parser.cpp are kept as data and run by
    a backtracking matcher with the priorities of that grammar: alternatives from
    left to right, repetition greedy, the first success wins.  Repetition is only
    applied to single-character classes, as in the source, so the matcher recurses on
    the expression and on the input.  [regex_match_sound] and the lemmas after it
    relate it to the language an expression denotes. *)

From S2P Require Import Prelude Utils.

Inductive regex : Type :=
| RClass (p : ascii -> bool)            (** one character of a class *)
| RLit (s : bytes)                      (** a literal *)
| RSeq (r1 r2 : regex)
| RAlt (r1 r2 : regex)
| RTimes (n : nat) (r : regex)          (** [r{n}] *)
| RStar (p : ascii -> bool)             (** [p*], greedy *)
| RGroup (i : nat) (r : regex)          (** the [i]-th capture *)
| REnd.                                 (** [$] *)

Definition RPlus (p : ascii -> bool) : regex := RSeq (RClass p) (RStar p).

Abbreviation captures := (gmap nat bytes).

Section Match.
Context {X : Type}.

(** [k] is what must match after the expression. *)
Fixpoint rmatch (r : regex) (s : bytes) (c : captures)
    (k : bytes -> captures -> option X) : option X :=
  match r with
  | RClass p =>
      match s with x :: t => if p x then k t c else None | [] => None end
  | RLit l => if starts_with l s then k (drop (length l) s) c else None
  | RSeq r1 r2 => rmatch r1 s c (fun s' c' => rmatch r2 s' c' k)
  | RAlt r1 r2 =>
      match rmatch r1 s c k with Some x => Some x | None => rmatch r2 s c k end
  | RTimes n r1 =>
      (fix times (n : nat) (s : bytes) (c : captures) : option X :=
         match n with
         | O => k s c
         | S n' => rmatch r1 s c (fun s' c' => times n' s' c')
         end) n s c
  | RStar p =>
      (fix star (s : bytes) : option X :=
         match s with
         | x :: t =>
             if p x then match star t with Some v => Some v | None => k s c end else k s c
         | [] => k [] c
         end) s
  | RGroup i r1 =>
      rmatch r1 s c (fun s' c' => k s' (<[i := take (length s - length s') s]> c'))
  | REnd => match s with [] => k [] c | _ :: _ => None end
  end.

End Match.

(** [std::regex_match]: the whole input. *)
Definition regex_match (r : regex) (s : bytes) : option captures :=
  rmatch r s ∅ (fun rest c => match rest with [] => Some c | _ :: _ => None end).

(** [std::regex_search]: the leftmost position that matches. *)
Fixpoint regex_search (r : regex) (s : bytes) : option captures :=
  match rmatch r s ∅ (fun _ c => Some c) with
  | Some c => Some c
  | None => match s with [] => None | _ :: t => regex_search r t end
  end.

(** ** The language of an expression *)

Inductive denotes : regex -> bytes -> Prop :=
| den_class p x : p x = true -> denotes (RClass p) [x]
| den_lit l : denotes (RLit l) l
| den_seq r1 r2 a b : denotes r1 a -> denotes r2 b -> denotes (RSeq r1 r2) (a ++ b)
| den_alt_l r1 r2 a : denotes r1 a -> denotes (RAlt r1 r2) a
| den_alt_r r1 r2 a : denotes r2 a -> denotes (RAlt r1 r2) a
| den_times_0 r : denotes (RTimes 0 r) []
| den_times_S n r a b : denotes r a -> denotes (RTimes n r) b -> denotes (RTimes (S n) r) (a ++ b)
| den_star p a : Forall (fun x => p x = true) a -> denotes (RStar p) a
| den_group i r a : denotes r a -> denotes (RGroup i r) a
| den_end : denotes REnd [].

#[local] Hint Constructors denotes : core.

(** A successful match splits the input: a word of the expression's language, then
    what the continuation accepted. *)
Lemma rmatch_sound {X} r s c (k : bytes -> captures -> option X) v :
  rmatch r s c k = Some v ->
  exists a s' c', s = a ++ s' /\ denotes r a /\ k s' c' = Some v.
Proof.
  revert s c k. induction r as [p|l|r1 IH1 r2 IH2|r1 IH1 r2 IH2|n r IH|p|i r IH|];
    intros s c k; simpl.
  - destruct s as [|x t]; [done|]. destruct (p x) eqn:E; [|done].
    intros H. exists [x], t, c. eauto.
  - destruct (starts_with l s) eqn:E; [|done]. apply starts_with_spec in E as [t ->].
    rewrite drop_app_length. intros H. exists l, t, c. eauto.
  - intros H. apply IH1 in H as (a & s1 & c1 & -> & Ha & H).
    apply IH2 in H as (b & s2 & c2 & -> & Hb & H).
    exists (a ++ b), s2, c2. rewrite app_assoc. eauto.
  - destruct (rmatch r1 s c k) eqn:E.
    + intros [= ->]. apply IH1 in E as (a & s1 & c1 & ? & ? & ?). exists a, s1, c1. eauto.
    + intros H. apply IH2 in H as (a & s1 & c1 & ? & ? & ?). exists a, s1, c1. eauto.
  - revert s c. induction n as [|n IHn]; intros s c H.
    + exists [], s, c. eauto.
    + apply IH in H as (a & s1 & c1 & -> & Ha & H).
      apply IHn in H as (b & s2 & c2 & -> & Hb & H).
      exists (a ++ b), s2, c2. rewrite app_assoc. eauto.
  - induction s as [|x t IHt]; intros H.
    + exists [], [], c. eauto.
    + destruct (p x) eqn:E; [|exists [], (x :: t), c; eauto].
      match type of H with match ?m with _ => _ end = _ => destruct m eqn:Em end.
      * injection H as ->. destruct (IHt eq_refl) as (a & s1 & c1 & -> & Ha & Hk).
        exists (x :: a), s1, c1. split; [done|]. split; [|done].
        inversion Ha; subst. auto.
      * exists [], (x :: t), c. eauto.
  - intros H. apply IH in H as (a & s1 & c1 & -> & Ha & H). eauto 10.
  - destruct s; [|done]. intros H. exists [], [], c. eauto.
Qed.

Lemma regex_match_sound r s c : regex_match r s = Some c -> denotes r s.
Proof.
  intros H. apply rmatch_sound in H as (a & s' & c' & -> & Ha & H).
  destruct s'; [|done]. by rewrite app_nil_r.
Qed.

Lemma regex_search_sound r s c :
  regex_search r s = Some c -> exists l a t, s = l ++ a ++ t /\ denotes r a.
Proof.
  induction s as [|x s IH]; cbn [regex_search].
  - destruct (rmatch r [] ∅ _) eqn:E; [|done].
    apply rmatch_sound in E as (a & s' & c' & E & Ha & _). intros _. exists [], a, s'. eauto.
  - destruct (rmatch r (x :: s) ∅ _) eqn:E.
    + apply rmatch_sound in E as (a & s' & c' & E & Ha & _). intros _. exists [], a, s'. eauto.
    + intros H. destruct (IH H) as (l & a & t & -> & Ha). exists (x :: l), a, t. eauto.
Qed.

(** Completeness, for an expression without [$]: a word of the language followed by
    an input the continuation accepts, whatever was captured, is found. *)
Fixpoint no_end (r : regex) : bool :=
  match r with
  | RSeq r1 r2 | RAlt r1 r2 => no_end r1 && no_end r2
  | RTimes _ r1 | RGroup _ r1 => no_end r1
  | REnd => false
  | _ => true
  end.

Lemma rmatch_complete {X} r a :
  denotes r a -> no_end r = true ->
  forall s c (k : bytes -> captures -> option X),
  (forall c', is_Some (k s c')) -> is_Some (rmatch r (a ++ s) c k).
Proof.
  induction 1 as [p x Hx|l|r1 r2 a b Ha IHa Hb IHb|r1 r2 a Ha IHa|r1 r2 a Ha IHa|r
                 |n r a b Ha IHa Hb IHb|p a Ha|i r a Ha IHa|]; simpl; intros Hne s c k Hk; b2p.
  - by rewrite Hx.
  - by rewrite starts_with_app, drop_app_length.
  - rewrite <- app_assoc. apply IHa; [done|]. intros c'. by apply IHb.
  - destruct (rmatch r1 (a ++ s) c k) eqn:E; [done|].
    destruct (IHa ltac:(done) s c k Hk) as [v Hv]. congruence.
  - destruct (rmatch r1 (a ++ s) c k) eqn:E; [done|]. by apply IHa.
  - done.
  - rewrite <- app_assoc. apply IHa; [done|]. intros c'. by apply (IHb Hne).
  - induction Ha as [|x a Hx Ha IH]; simpl.
    + destruct s as [|y t]; [done|]. repeat case_match; done.
    + rewrite Hx. match goal with |- is_Some (match ?m with _ => _ end) => destruct m eqn:E end.
      * done.
      * destruct IH as [v Hv]. rewrite Hv in E. done.
  - apply IHa; [done|]. intros c'. apply Hk.
  - done.
Qed.

Lemma regex_match_complete r s :
  denotes r s -> no_end r = true -> is_Some (regex_match r s).
Proof.
  intros Hd Hn. unfold regex_match. rewrite <- (app_nil_r s).
  apply rmatch_complete; [done|done|]. by intros c'.
Qed.

Lemma regex_match_complete_end r s :
  denotes r s -> no_end r = true -> is_Some (regex_match (RSeq r REnd) s).
Proof.
  intros Hd Hn. unfold regex_match. cbn [rmatch]. rewrite <- (app_nil_r s).
  apply rmatch_complete; [done|done|]. by intros c'.
Qed.
