(* ===== verification/LogParser.v ===== *)
(** * src/src/log_parser.cpp: from a syslog line to a [ParseResult]

    All the recognisers and the dispatcher, in the order the source tries them. *)

From S2P Require Import Prelude Utils Regex.

Record ParseResult := mkParseResult {
  matched : bool;
  pr_type : bytes;
  fields : gmap bytes bytes;
  raw : bytes
}.

#[export] Instance ParseResult_eta : Eta ParseResult := fun r =>
  mkParseResult (matched r) (pr_type r) (fields r) (raw r).

Definition default_ParseResult : ParseResult := mkParseResult false "unknown" ∅ [].

(** A result as the recognisers build it: matched, with its type and fields. *)
Definition found (type : bytes) (fs : gmap bytes bytes) : ParseResult :=
  mkParseResult true type fs [].

(** ** Helpers *)

Definition stripSyslogPriority (line : bytes) : bytes :=
  let text := trim line in
  if bool_decide (head text = Some "<"%char) then
    match find_char ">"%char text with
    | Some e => if (e <? 8)%nat then trim (drop (S e) text) else text
    | None => text
    end
  else text.

(** The loop of [looksLikeIpv4]: [None] is the early [return false]. *)
Fixpoint count_dots (dots : Z) (value : bytes) : option Z :=
  match value with
  | [] => Some dots
  | ch :: rest =>
      if bool_decide (ch = "."%char) then count_dots (dots + 1) rest
      else if negb (isdigit ch) then None
      else count_dots dots rest
  end.

Definition looksLikeIpv4 (value : bytes) : bool :=
  match count_dots 0 value with Some dots => dots =? 3 | None => false end.

(** [[0-9a-fA-F]]. *)
Definition isxdigit (c : ascii) : bool :=
  isdigit c || ((97 <=? code c) && (code c <=? 102)) || ((65 <=? code c) && (code c <=? 70)).

(** [[0-9a-fA-F]{2}(:[0-9a-fA-F]{2}){5}], with the number of its capture. *)
Definition mac_body (group : nat) : regex :=
  RSeq (RTimes 2 (RClass isxdigit))
       (RTimes 5 (RGroup group (RSeq (RLit ":") (RTimes 2 (RClass isxdigit))))).

(** [regex_match] covers the whole input, so the leading [^] adds nothing. *)
Definition mac_regex : regex := RSeq (mac_body 1) REnd.

Definition looksLikeMac (value : bytes) : bool := bool_decide (is_Some (regex_match mac_regex value)).

Definition eventNameForDhcpMethod (method : bytes) : bytes :=
  if decide (method = "DHCPREQUEST") then "dhcp_request"
  else if decide (method = "DHCPACK") then "dhcp_ack"
  else if decide (method = "DHCPDISCOVER") then "dhcp_discover"
  else if decide (method = "DHCPOFFER") then "dhcp_offer"
  else "dhcp".

Definition afterTag (line tag : bytes) : bytes :=
  match find tag line with
  | None => []
  | Some tag_pos =>
      let rest := drop (tag_pos + length tag) line in
      trim (match rest with
            | ch :: t => if decide (ch = ":"%char) then t else rest
            | [] => []
            end)
  end.

Definition isNumericToken (value : bytes) : bool :=
  if decide (value = []) then false else forallb isdigit value.

(** The loop of [splitSeparated]; [quote] is [Some q] while [in_quote]. *)
Fixpoint separated_loop (line : bytes) (separator : ascii) (out : list bytes)
    (current : bytes) (quote : option ascii) : list bytes :=
  match line with
  | [] => out ++ [stripQuotes (trim current)]
  | ch :: rest =>
      if is_quote ch && match quote with None => true | Some q => bool_decide (q = ch) end then
        separated_loop rest separator out current
          (match quote with None => Some ch | Some _ => None end)
      else if bool_decide (ch = separator) && bool_decide (quote = None) then
        separated_loop rest separator (out ++ [stripQuotes (trim current)]) [] quote
      else separated_loop rest separator out (current ++ [ch]) quote
  end.

Definition splitSeparated (line : bytes) (separator : ascii) : list bytes :=
  separated_loop line separator [] [] None.

(** [while (stream >> token)]: the maximal runs of non-blank characters. *)
Fixpoint stream_tokens (fuel : nat) (text : bytes) : list bytes :=
  match fuel with
  | O => []
  | S fuel' =>
      match drop_while isspace text with
      | [] => []
      | rest => take_while not_space rest :: stream_tokens fuel' (drop_while not_space rest)
      end
  end.

(** The fuel suffices: more of it gives the same tokens. *)
Lemma stream_tokens_fuel f1 f2 text :
  (length text < f1)%nat -> (length text < f2)%nat -> stream_tokens f1 text = stream_tokens f2 text.
Proof.
  revert f2 text. induction f1 as [|f1 IH]; intros [|f2] text H1 H2; try lia. cbn [stream_tokens].
  pose proof (drop_while_length isspace text) as Hl.
  destruct (drop_while isspace text) as [|c rest] eqn:E; [done|]. f_equal.
  apply drop_while_head in E. assert (Hc : not_space c = true) by (by apply not_space_true).
  assert (Hd : drop_while not_space (c :: rest) = drop_while not_space rest) by (simpl; by rewrite Hc).
  rewrite Hd. pose proof (drop_while_length not_space rest). simpl in Hl. apply IH; lia.
Qed.

Definition tokens_of (text : bytes) : list bytes := stream_tokens (S (length text)) text.

Definition splitLooseColumns (line : bytes) : list bytes :=
  let text := trim line in
  if bool_decide (is_Some (find_char ","%char text)) then splitSeparated text ","%char
  else if bool_decide (is_Some (find_char ";"%char text)) then splitSeparated text ";"%char
  else stripQuotes <$> tokens_of text.

(** The first index whose token satisfies the test. *)
Fixpoint index_of (p : bytes -> bool) (tokens : list bytes) : option nat :=
  match tokens with
  | [] => None
  | t :: rest => if p t then Some 0%nat else S <$> index_of p rest
  end.

(** [tokens[i]] for an index the code found. *)
Definition token_at (tokens : list bytes) (i : nat) : bytes := default [] (tokens !! i).

Definition is_header_name (token : bytes) : bool :=
  let name := lower token in
  bool_decide (name = "rx_bytes") || bool_decide (name = "tx_bytes")
  || bool_decide (name = "downld.") || bool_decide (name = "upload").

Definition parseNlbwCsv (payload : bytes) : option (gmap bytes bytes) :=
  let tokens := splitLooseColumns payload in
  if decide (tokens = []) then None
  else if existsb is_header_name tokens then None
  else
    let mac_index := index_of looksLikeMac tokens in
    let ip_index := index_of looksLikeIpv4 tokens in
    match match mac_index with Some i => Some i | None => ip_index end with
    | None => None
    | Some anchor =>
        let numeric := List.filter isNumericToken (drop (S anchor) tokens) in
        if (length numeric <? 4)%nat then None
        else
          let fs : gmap bytes bytes := ∅ in
          let fs := match mac_index with
                    | Some i => <[("mac" : bytes) := lower (token_at tokens i)]> fs
                    | None => fs end in
          let fs := match ip_index with
                    | Some i => <[("ip" : bytes) := token_at tokens i]> fs
                    | None => fs end in
          let fs := <[("conns" : bytes) := token_at numeric 0]> fs in
          let fs := <[("rx_bytes" : bytes) := token_at numeric 1]> fs in
          let fs := <[("rx_pkts" : bytes) := token_at numeric 2]> fs in
          let fs := <[("tx_bytes" : bytes) := token_at numeric 3]> fs in
          let fs := if (4 <? length numeric)%nat
                    then <[("tx_pkts" : bytes) := token_at numeric 4]> fs else fs in
          Some fs
    end.

(** ** The recognisers *)

Definition copy_if_present (from : gmap bytes bytes) (source dest : bytes)
    (to : gmap bytes bytes) : gmap bytes bytes :=
  match from !! source with Some v => <[dest := v]> to | None => to end.

Definition parseWANAttack (line : bytes) : ParseResult :=
  let marker : bytes := "WAN_ATTACK:" in
  match find marker line with
  | None => default_ParseResult
  | Some pos =>
      let payload := trim (drop (pos + length marker) line) in
      let fs := parseKeyValueFields payload in
      let r := copy_if_present fs "IN" "in_if" fs in
      let r := copy_if_present fs "OUT" "out_if" r in
      let r := copy_if_present fs "SRC" "src_ip" r in
      let r := copy_if_present fs "DST" "dst_ip" r in
      let r := copy_if_present fs "SPT" "src_port" r in
      let r := copy_if_present fs "DPT" "dst_port" r in
      let r := copy_if_present fs "PROTO" "proto" r in
      let r := copy_if_present fs "LEN" "len" r in
      found "wan_attack" r
  end.

(** The expression of [dhcp_regex]: a method (capture 1), a parenthesised run without
    a closing parenthesis (capture 2), white space, and the rest of the input without
    line breaks (capture 3), up to the end; [.] matches all but line feed and carriage
    return. *)
Definition regex_dot (c : ascii) : bool :=
  negb (bool_decide (c = c_nl)) && negb (bool_decide (c = c_cr)).

Definition dhcp_methods : regex :=
  RAlt (RLit "DHCPREQUEST") (RAlt (RLit "DHCPACK") (RAlt (RLit "DHCPDISCOVER") (RLit "DHCPOFFER"))).

Definition dhcp_regex : regex :=
  RSeq (RGroup 1 dhcp_methods)
    (RSeq (RLit "(")
      (RSeq (RGroup 2 (RStar (fun c => negb (bool_decide (c = ")"%char)))))
        (RSeq (RLit ")")
          (RSeq (RPlus isspace) (RSeq (RGroup 3 (RPlus regex_dot)) REnd))))).

(** [match[i].str()]. *)
Definition capture (m : captures) (i : nat) : bytes := default [] (m !! i).

Definition dhcp_token_fields (clean_tokens : list bytes) (fs : gmap bytes bytes) : gmap bytes bytes :=
  match clean_tokens with
  | [] => fs
  | t0 :: rest =>
      if looksLikeIpv4 t0 then
        let fs := <[("ip" : bytes) := t0]> fs in
        let fs := match rest with
                  | t1 :: _ => if looksLikeMac t1 then <[("mac" : bytes) := lower t1]> fs else fs
                  | [] => fs end in
        match rest with
        | _ :: t2 :: _ => <[("hostname" : bytes) := t2]> fs
        | _ => fs
        end
      else if looksLikeMac t0 then
        let fs := <[("mac" : bytes) := lower t0]> fs in
        match rest with
        | t1 :: _ => <[("hostname" : bytes) := t1]> fs
        | [] => fs
        end
      else fs
  end.

Definition parseDHCP (line : bytes) : ParseResult :=
  if negb (contains "dnsmasq-dhcp" line) then default_ParseResult
  else
    match regex_search dhcp_regex line with
    | None => default_ParseResult
    | Some m =>
        let method := capture m 1 in
        let fs : gmap bytes bytes := ∅ in
        let fs := <[("event" : bytes) := eventNameForDhcpMethod method]> fs in
        let fs := <[("method" : bytes) := method]> fs in
        let fs := <[("interface" : bytes) := capture m 2]> fs in
        let clean_tokens :=
          filter (fun clean => clean <> []) (trim <$> split (capture m 3) c_space) in
        found "dhcp" (dhcp_token_fields clean_tokens fs)
    end.

(** [if (it = fields.find("mac")) it->second = lower(it->second);] *)
Definition lower_mac (fs : gmap bytes bytes) : gmap bytes bytes :=
  match fs !! ("mac" : bytes) with
  | Some v => <[("mac" : bytes) := lower v]> fs
  | None => fs
  end.

Definition parseNetDev (line : bytes) : ParseResult :=
  if negb (contains "NETDEV" line) then default_ParseResult
  else
    let fs := parseKeyValueFields (afterTag line "NETDEV") in
    let fs := lower_mac fs in
    let fs := match fs !! ("host" : bytes) with
              | Some v => <[("hostname" : bytes) := v]> fs
              | None => fs end in
    found "netdev" fs.

Definition parseNetIface (line : bytes) : ParseResult :=
  if negb (contains "NETIFACE" line) then default_ParseResult
  else
    let fs := parseKeyValueFields (afterTag line "NETIFACE") in
    let fs := match fs !! ("if" : bytes), fs !! ("iface" : bytes) with
              | Some v, _ => <[("interface" : bytes) := v]> fs
              | None, Some v => <[("interface" : bytes) := v]> fs
              | None, None => fs end in
    found "netiface" fs.

(** The loop that copies the fields of the CSV payload over those of the line; the
    keys of the payload are distinct, so its order does not matter. *)
Definition parseNetTraffic (line : bytes) : ParseResult :=
  if negb (contains "NETTRAFFIC" line) then default_ParseResult
  else
    let fs := parseKeyValueFields (afterTag line "NETTRAFFIC") in
    let fs := lower_mac fs in
    let fs := match fs !! ("csv" : bytes) with
              | Some csv => match parseNlbwCsv csv with
                            | Some parsed => parsed ∪ fs
                            | None => fs end
              | None => fs end in
    found "nettraffic" fs.

Definition parseWanLink (line : bytes) : ParseResult :=
  let text := lower line in
  if negb (contains "netifd" text) && negb (contains "pppd" text) then default_ParseResult
  else if negb (contains "wan" text) && negb (contains "pppoe" text) then default_ParseResult
  else
    let fs : gmap bytes bytes := <[("message" : bytes) := line]> ∅ in
    let fs :=
      if contains "down" text || contains "fail" text || contains "disconnect" text
      then <[("state" : bytes) := ("down" : bytes)]> fs
      else if contains "up" text || contains "connect" text
      then <[("state" : bytes) := ("up" : bytes)]> fs
      else fs in
    found "wan" fs.

(** [(AP-STA-CONNECTED|AP-STA-DISCONNECTED)\s+([0-9a-fA-F]{2}(:[0-9a-fA-F]{2}){5})]. *)
Definition wifi_regex : regex :=
  RSeq (RGroup 1 (RAlt (RLit "AP-STA-CONNECTED") (RLit "AP-STA-DISCONNECTED")))
       (RSeq (RPlus isspace) (RGroup 2 (mac_body 3))).

Definition parseHostapd (line : bytes) : ParseResult :=
  if negb (contains "hostapd" line) then default_ParseResult
  else
    let connected := contains "AP-STA-CONNECTED" line in
    let disconnected := contains "AP-STA-DISCONNECTED" line in
    if negb connected && negb disconnected then default_ParseResult
    else
      match regex_search wifi_regex line with
      | None => default_ParseResult
      | Some m =>
          let fs : gmap bytes bytes := ∅ in
          let fs := <[("event" : bytes) :=
                        (if connected then "wifi_connected" else "wifi_disconnected") : bytes]> fs in
          let fs := <[("mac" : bytes) := lower (capture m 2)]> fs in
          found "wifi" fs
      end.

(** ** [LogParser::parse] *)

Definition parsers : list (bytes -> ParseResult) :=
  [parseWANAttack; parseNetDev; parseNetIface; parseNetTraffic; parseDHCP; parseWanLink; parseHostapd].

Fixpoint try_parsers (ps : list (bytes -> ParseResult)) (text : bytes) (result : ParseResult) : ParseResult :=
  match ps with
  | [] => result
  | parser :: rest =>
      let parsed := parser text in
      if matched parsed then parsed <| raw := text |> else try_parsers rest text result
  end.

Definition parse (line : bytes) : ParseResult :=
  let text := stripSyslogPriority line in
  try_parsers parsers text (default_ParseResult <| raw := text |>).

(** ** The repository's own parser tests *)

Example dhcp_line_parses :
  let r := parse "<13>May 29 11:40:31 openwrt-main dnsmasq-dhcp[1]: DHCPACK(eth2.vlan10) 192.168.10.157 00:e0:4c:68:02:89 thanhvn-MacBookAir7-2" in
  (matched r, pr_type r, fields r !! ("event" : bytes), fields r !! ("interface" : bytes),
   fields r !! ("ip" : bytes), fields r !! ("mac" : bytes), fields r !! ("hostname" : bytes)) =
  (true, "dhcp" : bytes, Some ("dhcp_ack" : bytes), Some ("eth2.vlan10" : bytes),
   Some ("192.168.10.157" : bytes), Some ("00:e0:4c:68:02:89" : bytes),
   Some ("thanhvn-MacBookAir7-2" : bytes)).
Proof. vm_compute. reflexivity. Qed.

Example traffic_csv_parses :
  let r := parse "NETTRAFFIC: ts=1767000000 csv=IPv4 192.168.10.157 00:e0:4c:68:02:89 HTTPS 7 250000 120 99000 70" in
  (matched r, pr_type r, fields r !! ("ip" : bytes), fields r !! ("mac" : bytes),
   fields r !! ("rx_bytes" : bytes), fields r !! ("tx_bytes" : bytes)) =
  (true, "nettraffic" : bytes, Some ("192.168.10.157" : bytes), Some ("00:e0:4c:68:02:89" : bytes),
   Some ("250000" : bytes), Some ("99000" : bytes)).
Proof. vm_compute. reflexivity. Qed.

Example unknown_line_is_unmatched :
  parse "totally custom log line" =
  mkParseResult false "unknown" ∅ "totally custom log line".
Proof. vm_compute. reflexivity. Qed.

(** ** Which recogniser wins *)

Lemma matched_default : matched default_ParseResult = false.
Proof. done. Qed.

Lemma find_contains p s : contains p s = bool_decide (is_Some (find p s)).
Proof. done. Qed.

Lemma parseWANAttack_type line :
  matched (parseWANAttack line) = contains "WAN_ATTACK:" line /\
  (matched (parseWANAttack line) = true -> pr_type (parseWANAttack line) = "wan_attack").
Proof.
  unfold parseWANAttack, contains. destruct (find _ line); [|done].
  by rewrite bool_decide_true by eauto.
Qed.

Lemma parseNetDev_type line :
  matched (parseNetDev line) = contains "NETDEV" line /\
  (matched (parseNetDev line) = true -> pr_type (parseNetDev line) = "netdev").
Proof. unfold parseNetDev. by destruct (contains "NETDEV" line). Qed.

Lemma parseNetIface_type line :
  matched (parseNetIface line) = contains "NETIFACE" line /\
  (matched (parseNetIface line) = true -> pr_type (parseNetIface line) = "netiface").
Proof. unfold parseNetIface. by destruct (contains "NETIFACE" line). Qed.

Lemma parseNetTraffic_type line :
  matched (parseNetTraffic line) = contains "NETTRAFFIC" line /\
  (matched (parseNetTraffic line) = true -> pr_type (parseNetTraffic line) = "nettraffic").
Proof. unfold parseNetTraffic. by destruct (contains "NETTRAFFIC" line). Qed.

(** What makes a DHCP, WAN or Wi-Fi line. *)
Definition is_dhcp_line (text : bytes) : bool :=
  contains "dnsmasq-dhcp" text && bool_decide (is_Some (regex_search dhcp_regex text)).

Definition is_wan_line (text : bytes) : bool :=
  (contains "netifd" (lower text) || contains "pppd" (lower text))
  && (contains "wan" (lower text) || contains "pppoe" (lower text)).

Definition is_wifi_line (text : bytes) : bool :=
  contains "hostapd" text
  && (contains "AP-STA-CONNECTED" text || contains "AP-STA-DISCONNECTED" text)
  && bool_decide (is_Some (regex_search wifi_regex text)).

Lemma parseDHCP_type line :
  matched (parseDHCP line) = is_dhcp_line line /\
  (matched (parseDHCP line) = true -> pr_type (parseDHCP line) = "dhcp").
Proof.
  unfold parseDHCP, is_dhcp_line. destruct (contains _ line); [|done]. cbn [negb andb].
  destruct (regex_search dhcp_regex line); [|done]. by rewrite bool_decide_true by eauto.
Qed.

Lemma parseWanLink_type line :
  matched (parseWanLink line) = is_wan_line line /\
  (matched (parseWanLink line) = true -> pr_type (parseWanLink line) = "wan").
Proof.
  unfold parseWanLink, is_wan_line.
  destruct (contains "netifd" _), (contains "pppd" _), (contains "wan" _), (contains "pppoe" _); done.
Qed.

Lemma parseHostapd_type line :
  matched (parseHostapd line) = is_wifi_line line /\
  (matched (parseHostapd line) = true -> pr_type (parseHostapd line) = "wifi").
Proof.
  unfold parseHostapd, is_wifi_line.
  destruct (contains "hostapd" _), (contains "AP-STA-CONNECTED" _),
    (contains "AP-STA-DISCONNECTED" _); cbn [negb andb orb]; try done;
  destruct (regex_search wifi_regex line); try done; by rewrite bool_decide_true by eauto.
Qed.

(** The type of a line as a decision list over the markers, in order of priority. *)
Definition line_type (text : bytes) : option bytes :=
  if contains "WAN_ATTACK:" text then Some ("wan_attack" : bytes)
  else if contains "NETDEV" text then Some ("netdev" : bytes)
  else if contains "NETIFACE" text then Some ("netiface" : bytes)
  else if contains "NETTRAFFIC" text then Some ("nettraffic" : bytes)
  else if is_dhcp_line text then Some ("dhcp" : bytes)
  else if is_wan_line text then Some ("wan" : bytes)
  else if is_wifi_line text then Some ("wifi" : bytes)
  else None.

(** The recogniser behind each type. *)
Definition recogniser (type : bytes) : bytes -> ParseResult :=
  if decide (type = "wan_attack") then parseWANAttack
  else if decide (type = "netdev") then parseNetDev
  else if decide (type = "netiface") then parseNetIface
  else if decide (type = "nettraffic") then parseNetTraffic
  else if decide (type = "dhcp") then parseDHCP
  else if decide (type = "wan") then parseWanLink
  else parseHostapd.

Lemma parse_line_type line :
  let text := stripSyslogPriority line in
  match line_type text with
  | Some t => parse line = mkParseResult true t (fields (recogniser t text)) text
  | None => parse line = mkParseResult false "unknown" ∅ text
  end.
Proof.
  intros text. unfold parse, parsers. fold text. cbn [try_parsers].
  destruct (parseWANAttack_type text) as [E1 T1], (parseNetDev_type text) as [E2 T2],
    (parseNetIface_type text) as [E3 T3], (parseNetTraffic_type text) as [E4 T4],
    (parseDHCP_type text) as [E5 T5], (parseWanLink_type text) as [E6 T6],
    (parseHostapd_type text) as [E7 T7].
  unfold line_type.
  destruct (contains "WAN_ATTACK:" text); rewrite E1; [cbn; by rewrite E1, T1|].
  destruct (contains "NETDEV" text); rewrite E2; [cbn; by rewrite E2, T2|].
  destruct (contains "NETIFACE" text); rewrite E3; [cbn; by rewrite E3, T3|].
  destruct (contains "NETTRAFFIC" text); rewrite E4; [cbn; by rewrite E4, T4|].
  destruct (is_dhcp_line text); rewrite E5; [cbn; by rewrite E5, T5|].
  destruct (is_wan_line text); rewrite E6; [cbn; by rewrite E6, T6|].
  destruct (is_wifi_line text); rewrite E7; [cbn; by rewrite E7, T7|].
  done.
Qed.

(** ** MAC addresses *)

Definition mac_normal (fs : gmap bytes bytes) : Prop :=
  forall m, fs !! ("mac" : bytes) = Some m -> lower m = m.

Lemma lower_mac_normal fs : mac_normal (lower_mac fs).
Proof.
  intros m. unfold lower_mac. destruct (fs !! ("mac" : bytes)) eqn:E.
  - rewrite lookup_insert_eq. intros [= <-]. apply lower_idemp.
  - congruence.
Qed.

Lemma mac_normal_insert fs (k v : bytes) : k <> "mac" -> mac_normal fs -> mac_normal (<[k := v]> fs).
Proof. intros Hk H m. rewrite lookup_insert_ne by done. apply H. Qed.

Lemma mac_normal_insert_mac fs v : mac_normal (<[("mac" : bytes) := lower v]> fs).
Proof. intros m. rewrite lookup_insert_eq. intros [= <-]. apply lower_idemp. Qed.

Lemma mac_normal_empty : mac_normal ∅.
Proof. intros m. by rewrite lookup_empty. Qed.

Lemma mac_normal_union fs1 fs2 : mac_normal fs1 -> mac_normal fs2 -> mac_normal (fs1 ∪ fs2).
Proof. intros H1 H2 m [?|[_ ?]]%lookup_union_Some_raw; auto. Qed.

#[local] Hint Resolve lower_mac_normal mac_normal_insert mac_normal_insert_mac mac_normal_empty
  mac_normal_union : core.

Lemma parseNlbwCsv_mac payload fs : parseNlbwCsv payload = Some fs -> mac_normal fs.
Proof.
  unfold parseNlbwCsv. repeat case_match; intros [= <-]; auto 15.
Qed.

Lemma dhcp_token_fields_mac tokens fs : mac_normal fs -> mac_normal (dhcp_token_fields tokens fs).
Proof. intros H. unfold dhcp_token_fields. repeat case_match; auto. Qed.

(** every line gets exactly one type, by the first marker of a fixed list of markers that
    it contains after its priority prefix, and exactly the fields of that recogniser; a line
    without any marker is unmatched and has no fields. *)
Theorem parse_priority line :
  let text := stripSyslogPriority line in
  parse line =
    if contains "WAN_ATTACK:" text then mkParseResult true "wan_attack" (fields (parseWANAttack text)) text
    else if contains "NETDEV" text then mkParseResult true "netdev" (fields (parseNetDev text)) text
    else if contains "NETIFACE" text then mkParseResult true "netiface" (fields (parseNetIface text)) text
    else if contains "NETTRAFFIC" text then mkParseResult true "nettraffic" (fields (parseNetTraffic text)) text
    else if is_dhcp_line text then mkParseResult true "dhcp" (fields (parseDHCP text)) text
    else if is_wan_line text then mkParseResult true "wan" (fields (parseWanLink text)) text
    else if is_wifi_line text then mkParseResult true "wifi" (fields (parseHostapd text)) text
    else mkParseResult false "unknown" ∅ text.
Proof.
  intros text. pose proof (parse_line_type line) as H. cbv zeta in H. fold text in H.
  unfold line_type in H.
  repeat match type of H with
  | match (if ?b then _ else _) with _ => _ end => destruct b; [exact H|]
  end.
  exact H.
Qed.

(** the MAC address a line carries is stored in lower case whatever its
    spelling: for every line that is recognised as device, DHCP, traffic or Wi-Fi
    telemetry, the [mac] field of the result is its own lower-case form, so the keys
    derived from it agree across the four message kinds. *)
Theorem parse_mac_lowercase line m :
  pr_type (parse line) ∈ ["netdev" : bytes; "dhcp" : bytes; "nettraffic" : bytes; "wifi" : bytes] ->
  fields (parse line) !! ("mac" : bytes) = Some m -> lower m = m.
Proof.
  pose proof (parse_line_type line) as H. cbn zeta in H.
  destruct (line_type (stripSyslogPriority line)) as [t|]; rewrite H;
    [|intros Hin; cbn in Hin; rewrite !elem_of_cons, elem_of_nil in Hin;
      by destruct Hin as [Hin|[Hin|[Hin|[Hin|[]]]]]].
  cbn [pr_type fields]. intros Ht. revert m. change (mac_normal (fields (recogniser t (stripSyslogPriority line)))).
  generalize (stripSyslogPriority line) as text. intros text. clear H.
  rewrite !elem_of_cons, elem_of_nil in Ht.
  destruct Ht as [Ht|[Ht|[Ht|[Ht|[]]]]]; subst t; unfold recogniser; simplify_option_eq.
  - unfold parseNetDev. case_match; [auto|]. cbn [fields found]. case_match; auto.
  - unfold parseDHCP. case_match; [auto|]. case_match; [|auto]. cbn [fields found].
    apply dhcp_token_fields_mac. auto 10.
  - unfold parseNetTraffic. case_match; [auto|]. cbn [fields found].
    case_match; [|auto]. case_match eqn:E; eauto using parseNlbwCsv_mac.
  - unfold parseHostapd. repeat case_match; cbn [fields found]; auto.
Qed.

Lemma parse_mac_lowercase_witness :
  let r := parse "<13>NETDEV: ts=1767000000 mac=00:E0:4C:68:02:89 ip=192.168.10.157" in
  fields r !! ("mac" : bytes) = Some ("00:e0:4c:68:02:89" : bytes) /\
  lower "00:e0:4c:68:02:89" = "00:e0:4c:68:02:89".
Proof.
  split; [vm_compute; reflexivity|].
  apply (parse_mac_lowercase "<13>NETDEV: ts=1767000000 mac=00:E0:4C:68:02:89 ip=192.168.10.157").
  - apply (bool_decide_unpack _). vm_compute. exact I.
  - vm_compute. reflexivity.
Defined.

Definition hex_pair (s : bytes) : Prop := length s = 2%nat /\ Forall (fun c => isxdigit c = true) s.

Lemma denotes_hex_pair s : denotes (RTimes 2 (RClass isxdigit)) s <-> hex_pair s.
Proof.
  split.
  - intros H. inversion H as [| | | | | |? ? a b Ha Hb| | |]; subst.
    inversion Ha; subst. inversion Hb as [| | | | | |? ? a' b' Ha' Hb'| | |]; subst.
    inversion Ha'; subst. inversion Hb'; subst. split; [done|]. by repeat constructor.
  - intros [Hl Hf]. destruct s as [|x [|y [|]]]; try done.
    apply Forall_cons in Hf as [Hx Hf]. apply Forall_cons in Hf as [Hy _].
    apply (den_times_S 1 _ [x] [y]); [by constructor|].
    apply (den_times_S 0 _ [y] []); by constructor.
Qed.

Lemma denotes_mac_tail n g s :
  denotes (RTimes n (RGroup g (RSeq (RLit ":") (RTimes 2 (RClass isxdigit))))) s <->
  exists ps, length ps = n /\ Forall hex_pair ps /\ s = concat (cons ":"%char <$> ps).
Proof.
  revert s. induction n as [|n IH]; intros s; split.
  - intros H. inversion H; subst. exists []. done.
  - intros (ps & Hl & _ & ->). destruct ps; [|done]. constructor.
  - intros H. inversion H as [| | | | | |? ? a b Ha Hb| | |]; subst.
    inversion Ha as [| | | | | | | |? ? ? Hs|]; subst.
    inversion Hs as [| |? ? a1 a2 H1 H2| | | | | | |]; subst. inversion H1; subst.
    apply denotes_hex_pair in H2. apply IH in Hb as (ps & Hl & Hf & ->).
    exists (a2 :: ps). split; [simpl; lia|]. split; [by constructor|done].
  - intros (ps & Hl & Hf & ->). destruct ps as [|p ps]; [done|].
    apply Forall_cons in Hf as [Hp Hf]. cbn [fmap list_fmap concat].
    apply den_times_S; [|apply IH; exists ps; naive_solver].
    constructor. apply (den_seq (RLit ":") _ ":" p); [constructor|]. by apply denotes_hex_pair.
Qed.

Lemma concat_join d p ps : p ++ concat (cons d <$> ps) = join d (p :: ps).
Proof.
  revert p. induction ps as [|q ps IH]; intros p; [by rewrite app_nil_r|].
  rewrite join_cons by done. cbn [fmap list_fmap concat]. rewrite <- IH. done.
Qed.

Lemma denotes_mac g s :
  denotes (mac_body g) s <->
  exists ps, length ps = 6%nat /\ Forall hex_pair ps /\ s = join ":"%char ps.
Proof.
  unfold mac_body. split.
  - intros H. inversion H as [| |? ? a b Ha Hb| | | | | | |]; subst.
    apply denotes_hex_pair in Ha. apply denotes_mac_tail in Hb as (ps & Hl & Hf & ->).
    exists (a :: ps). rewrite concat_join. split; [simpl; lia|]. split; [by constructor|done].
  - intros (ps & Hl & Hf & ->). destruct ps as [|p ps]; [done|]. rewrite <- concat_join.
    apply Forall_cons in Hf as [Hp Hf].
    constructor; [by apply denotes_hex_pair|]. apply denotes_mac_tail. exists ps. naive_solver.
Qed.

(** [looksLikeMac], run through the regular-expression engine, accepts exactly
    six pairs of hexadecimal digits with colons between them. *)
Theorem looksLikeMac_correct s :
  looksLikeMac s = true <->
  exists ps, length ps = 6%nat /\ Forall hex_pair ps /\ s = join ":"%char ps.
Proof.
  rewrite <- (denotes_mac 1). unfold looksLikeMac. rewrite bool_decide_eq_true. split.
  - intros [c Hc]. apply regex_match_sound in Hc.
    inversion Hc as [| |? ? a b Ha Hb| | | | | | |]; subst. inversion Hb; subst.
    by rewrite app_nil_r.
  - intros H. by apply regex_match_complete_end.
Qed.

(** ** The collector's telemetry, end to end *)

(** The datagram [netmon_send] builds for a tag and a list of fields. *)
Definition telemetry_text (tag : bytes) (l : list (bytes * bytes)) : bytes :=
  tag ++ ":"%char :: c_space :: render_fields l.

Definition telemetry_line (tag : bytes) (l : list (bytes * bytes)) : bytes :=
  ("<13>" : bytes) ++ telemetry_text tag l.

Lemma render_fields_nonempty l : l <> [] -> render_fields l <> [].
Proof.
  intros Hl E. pose proof (render_fields_length l) as H. rewrite E in H.
  destruct l; simpl in *; [done|lia].
Qed.

Lemma telemetry_text_trimmed tag l :
  trimmed tag -> tag <> [] -> l <> [] -> Forall field_ok l -> trimmed (telemetry_text tag l).
Proof.
  intros [Ht _] Hne Hl Hok. unfold telemetry_text. split; intros c.
  - destruct tag; [done|]. apply Ht.
  - rewrite last_app_cons, !last_cons.
    destruct (last (render_fields l)) as [y|] eqn:E.
    + intros [= <-]. by apply (proj2 (render_fields_trimmed l Hok)).
    + apply last_None in E. by apply render_fields_nonempty in E.
Qed.

Lemma stripSyslogPriority_13 text :
  trimmed text -> stripSyslogPriority (("<13>" : bytes) ++ text) = text.
Proof.
  intros Ht. unfold stripSyslogPriority.
  assert (trimmed (("<13>" : bytes) ++ text)) as Ht'.
  { split; intros c Hc; [by injection Hc as <-|].
    destruct text as [|x text _] using rev_ind; [by injection Hc as <-|].
    rewrite app_assoc, last_snoc in Hc. injection Hc as <-. apply (proj2 Ht). by rewrite last_snoc. }
  rewrite (trim_id _ Ht'). rewrite bool_decide_true by done.
  change (find_char ">"%char (("<13>" : bytes) ++ text)) with (Some 3%nat). cbn [Nat.ltb Nat.leb].
  change (drop 4 (("<13>" : bytes) ++ text)) with text. by apply trim_id.
Qed.

Lemma afterTag_telemetry tag l :
  tag <> [] -> Forall field_ok l -> afterTag (telemetry_text tag l) tag = render_fields l.
Proof.
  intros Hne Hok. unfold afterTag, telemetry_text.
  pose proof (find_app_first tag [] (":"%char :: c_space :: render_fields l)) as Hf.
  cbn [app length] in Hf. rewrite Hf by (intros j Hj; lia).
  cbn [Nat.add]. rewrite drop_app_length, decide_True by done.
  pose proof (trim_app [c_space] (render_fields l) []) as E. rewrite app_nil_r in E. apply E.
  - by repeat constructor.
  - constructor.
  - by apply render_fields_trimmed.
Qed.

Lemma contains_tag tag l : contains tag (telemetry_text tag l) = true.
Proof. apply (contains_app []). Qed.

Lemma parse_telemetry tag type l :
  trimmed tag -> tag <> [] -> l <> [] -> Forall field_ok l ->
  line_type (telemetry_text tag l) = Some type ->
  parse (telemetry_line tag l) =
  mkParseResult true type (fields (recogniser type (telemetry_text tag l))) (telemetry_text tag l).
Proof.
  intros Ht Hne Hl Hok Hty. pose proof (parse_line_type (telemetry_line tag l)) as H.
  unfold telemetry_line in *.
  rewrite stripSyslogPriority_13 in H by by apply telemetry_text_trimmed.
  cbn zeta in H. by rewrite Hty in H.
Qed.

(** What the server should make of the fields [m] of each kind of telemetry. *)
Definition netdev_field (m : gmap bytes bytes) (k : bytes) : option bytes :=
  if decide (k = "hostname") then
    match m !! ("host" : bytes) with Some v => Some v | None => m !! k end
  else if decide (k = "mac") then lower <$> m !! k
  else m !! k.

Definition netiface_field (m : gmap bytes bytes) (k : bytes) : option bytes :=
  if decide (k = "interface") then
    match m !! ("if" : bytes), m !! ("iface" : bytes) with
    | Some v, _ | None, Some v => Some v
    | None, None => m !! k
    end
  else m !! k.

Definition nettraffic_field (m : gmap bytes bytes) (k : bytes) : option bytes :=
  if decide (k = "mac") then lower <$> m !! k else m !! k.

Lemma lower_mac_lookup fs (k : bytes) :
  lower_mac fs !! k = (if decide (k = "mac") then lower <$> fs !! k else fs !! k).
Proof.
  unfold lower_mac. case_decide as Hk.
  - subst k. destruct (fs !! ("mac" : bytes)) eqn:E; [by rewrite lookup_insert_eq|by rewrite E].
  - destruct (fs !! ("mac" : bytes)) eqn:E; [|done]. by rewrite lookup_insert_ne.
Qed.

Lemma parseNetDev_fields text (k : bytes) :
  contains "NETDEV" text = true ->
  fields (parseNetDev text) !! k = netdev_field (parseKeyValueFields (afterTag text "NETDEV")) k.
Proof.
  intros H. unfold parseNetDev, netdev_field. rewrite H. cbn [negb fields found].
  set (m := parseKeyValueFields _).
  replace (lower_mac m !! ("host" : bytes)) with (m !! ("host" : bytes))
    by (by rewrite lower_mac_lookup).
  destruct (m !! ("host" : bytes)) as [v|] eqn:E.
  - rewrite lookup_insert. repeat case_decide; subst; try done; rewrite lower_mac_lookup;
      repeat case_decide; subst; done.
  - rewrite lower_mac_lookup. repeat case_decide; subst; done.
Qed.

Lemma parseNetIface_fields text (k : bytes) :
  contains "NETIFACE" text = true ->
  fields (parseNetIface text) !! k = netiface_field (parseKeyValueFields (afterTag text "NETIFACE")) k.
Proof.
  intros H. unfold parseNetIface, netiface_field. rewrite H. cbn [negb fields found].
  set (m := parseKeyValueFields _).
  destruct (m !! ("if" : bytes)), (m !! ("iface" : bytes)); rewrite ?lookup_insert;
    repeat case_decide; subst; done.
Qed.

Lemma parseNetTraffic_fields text (k : bytes) :
  contains "NETTRAFFIC" text = true ->
  parseKeyValueFields (afterTag text "NETTRAFFIC") !! ("csv" : bytes) = None ->
  fields (parseNetTraffic text) !! k =
  nettraffic_field (parseKeyValueFields (afterTag text "NETTRAFFIC")) k.
Proof.
  intros H Hcsv. unfold parseNetTraffic, nettraffic_field. rewrite H. cbn [negb fields found].
  set (m := parseKeyValueFields _) in *.
  replace (lower_mac m !! ("csv" : bytes)) with (m !! ("csv" : bytes))
    by (by rewrite lower_mac_lookup).
  rewrite Hcsv. apply lower_mac_lookup.
Qed.

Lemma telemetry_payload tag l :
  tag <> [] -> Forall field_ok l ->
  parseKeyValueFields (afterTag (telemetry_text tag l) tag) = insert_fields ∅ l.
Proof. intros. rewrite afterTag_telemetry by done. by apply parseKeyValueFields_render. Qed.

(** No marker of a recogniser that is tried earlier occurs in the text. *)
Definition quiet (markers : list bytes) (text : bytes) : Prop :=
  Forall (fun marker => contains marker text = false) markers.

(** The [NETDEV] datagram. *)
Lemma telemetry_netdev l :
  l <> [] -> Forall field_ok l -> quiet ["WAN_ATTACK:" : bytes] (telemetry_text "NETDEV" l) ->
  let r := parse (telemetry_line "NETDEV" l) in
  matched r = true /\ pr_type r = "netdev" /\
  forall k, fields r !! k = netdev_field (insert_fields ∅ l) k.
Proof.
  intros Hl Hok Hq r. unfold quiet in Hq. rewrite ?Forall_cons in Hq.
  assert (line_type (telemetry_text "NETDEV" l) = Some ("netdev" : bytes)) as Hty.
  { unfold line_type. destruct Hq as [-> _]. by rewrite contains_tag. }
  unfold r. rewrite (parse_telemetry "NETDEV" "netdev") by (done || by apply trimmed_no_space; repeat constructor).
  split; [done|]. split; [done|]. intros k. cbn [fields].
  change (recogniser "netdev") with parseNetDev.
  rewrite parseNetDev_fields by apply contains_tag. by rewrite telemetry_payload.
Qed.

(** C5: telemetry survives the trip: for any fields the collector can write, the
    datagram [<13>TAG: k=v ...] built for [NETDEV], [NETIFACE] or [NETTRAFFIC] is
    recognised as that kind and delivers exactly those fields, with the MAC address in
    lower case and the [hostname] and [interface] aliases filled in, as long as no
    field smuggles in the marker of a recogniser that is tried earlier. *)
Theorem telemetry_roundtrip l :
  l <> [] -> Forall field_ok l ->
  let m := insert_fields ∅ l in
  (quiet ["WAN_ATTACK:" : bytes] (telemetry_text "NETDEV" l) ->
   let r := parse (telemetry_line "NETDEV" l) in
   matched r = true /\ pr_type r = "netdev" /\ forall k, fields r !! k = netdev_field m k) /\
  (quiet ["WAN_ATTACK:" : bytes; "NETDEV" : bytes] (telemetry_text "NETIFACE" l) ->
   let r := parse (telemetry_line "NETIFACE" l) in
   matched r = true /\ pr_type r = "netiface" /\ forall k, fields r !! k = netiface_field m k) /\
  (quiet ["WAN_ATTACK:" : bytes; "NETDEV" : bytes; "NETIFACE" : bytes] (telemetry_text "NETTRAFFIC" l) ->
   let r := parse (telemetry_line "NETTRAFFIC" l) in
   matched r = true /\ pr_type r = "nettraffic" /\ forall k, fields r !! k = nettraffic_field m k).
Proof.
  intros Hl Hok m.
  assert (Hcsv : m !! ("csv" : bytes) = None).
  { unfold m. rewrite insert_fields_lookup_None; [apply lookup_empty|].
    rewrite list_elem_of_fmap. intros (kv & Hk & Hin). rewrite Forall_forall in Hok.
    by destruct (Hok kv Hin) as (_ & ? & _). }
  split; [intros Hq; by apply telemetry_netdev|].
  split; intros Hq r; unfold quiet in Hq; rewrite ?Forall_cons in Hq.
  - assert (line_type (telemetry_text "NETIFACE" l) = Some ("netiface" : bytes)) as Hty.
    { unfold line_type. destruct Hq as (-> & -> & _). by rewrite contains_tag. }
    unfold r. rewrite (parse_telemetry "NETIFACE" "netiface") by (done || by apply trimmed_no_space; repeat constructor).
    split; [done|]. split; [done|]. intros k. cbn [fields].
    change (recogniser "netiface") with parseNetIface.
    rewrite parseNetIface_fields by apply contains_tag. by rewrite telemetry_payload.
  - assert (line_type (telemetry_text "NETTRAFFIC" l) = Some ("nettraffic" : bytes)) as Hty.
    { unfold line_type. destruct Hq as (-> & -> & -> & _). by rewrite contains_tag. }
    unfold r. rewrite (parse_telemetry "NETTRAFFIC" "nettraffic") by (done || by apply trimmed_no_space; repeat constructor).
    split; [done|]. split; [done|]. intros k. cbn [fields].
    change (recogniser "nettraffic") with parseNetTraffic.
    by rewrite parseNetTraffic_fields; rewrite ?telemetry_payload, ?contains_tag.
Qed.

(** The datagrams of the README. *)
Lemma telemetry_roundtrip_witness :
  let l := [("ts" : bytes, "1767000000" : bytes); ("mac" : bytes, "00:E0:4c:68:02:89" : bytes);
            ("ip" : bytes, "192.168.10.157" : bytes); ("host" : bytes, "test-device" : bytes)] in
  fields (parse "<13>NETDEV: ts=1767000000 mac=00:E0:4c:68:02:89 ip=192.168.10.157 host=test-device")
    !! ("hostname" : bytes) = netdev_field (insert_fields ∅ l) "hostname".
Proof.
  intros l. destruct (telemetry_roundtrip l) as [H _].
  - done.
  - apply (bool_decide_unpack _). vm_compute. exact I.
  - apply H. apply (bool_decide_unpack _). vm_compute. exact I.
Defined.
