(* ===== verification/RuntimeStats.v ===== *)
(** * src/src/runtime_stats.cpp: the message counters

    Three atomic counters and a map of counters per message type.  The increment of the
    total and the increment of the map entry are two separate atomic actions, so threads
    interleave between them; [stats_step] has them as separate steps. *)

From S2P Require Import Prelude Utils.

Record RuntimeStats := mkRuntimeStats {
  syslog_messages_total_ : Z;
  parse_errors_total_ : Z;
  wan_attacks_total_ : Z;
  syslog_messages_by_type_ : gmap bytes Z
}.

#[export] Instance RuntimeStats_eta : Eta RuntimeStats := fun s =>
  mkRuntimeStats (syslog_messages_total_ s) (parse_errors_total_ s) (wan_attacks_total_ s)
    (syslog_messages_by_type_ s).

Definition new_RuntimeStats : RuntimeStats := mkRuntimeStats 0 0 0 ∅.

Definition type_label (type : bytes) : bytes := if decide (type = []) then "unknown" else lower type.

(** [++syslog_messages_total_;] *)
Definition bump_total (s : RuntimeStats) : RuntimeStats :=
  s <| syslog_messages_total_ := u64 (syslog_messages_total_ s + 1) |>.

(** [++syslog_messages_by_type_[...];] under the mutex. *)
Definition bump_type (type : bytes) (s : RuntimeStats) : RuntimeStats :=
  let label := type_label type in
  let count := default 0 (syslog_messages_by_type_ s !! label) in
  s <| syslog_messages_by_type_ := <[label := u64 (count + 1)]> (syslog_messages_by_type_ s) |>.

Definition recordSyslogMessage (type : bytes) (s : RuntimeStats) : RuntimeStats :=
  bump_type type (bump_total s).

Definition recordParseError (s : RuntimeStats) : RuntimeStats :=
  s <| parse_errors_total_ := u64 (parse_errors_total_ s + 1) |>.

Definition recordWANAttack (s : RuntimeStats) : RuntimeStats :=
  s <| wan_attacks_total_ := u64 (wan_attacks_total_ s + 1) |>.

(** [snapshot()] loads the three counters first and copies the map under the mutex
    afterwards; other threads may have moved the state from [s] to [s'] in between. *)
Definition stats_snapshot (s s' : RuntimeStats) : RuntimeStats :=
  mkRuntimeStats (syslog_messages_total_ s) (parse_errors_total_ s) (wan_attacks_total_ s)
    (syslog_messages_by_type_ s').

(** ** Interleavings *)

(** The threads between their two increments are counted by the second component. *)
Inductive stats_step : RuntimeStats * nat -> RuntimeStats * nat -> Prop :=
  | stats_total s n : stats_step (s, n) (bump_total s, S n)
  | stats_type type s n : stats_step (s, S n) (bump_type type s, n)
  | stats_error s n : stats_step (s, n) (recordParseError s, n)
  | stats_attack s n : stats_step (s, n) (recordWANAttack s, n).

Definition sum_by_type (m : gmap bytes Z) : Z := map_fold (fun _ v acc => v + acc) 0 m.

Lemma sum_by_type_insert (m : gmap bytes Z) (k : bytes) v :
  sum_by_type (<[k := v]> m) = sum_by_type m - default 0 (m !! k) + v.
Proof.
  unfold sum_by_type. rewrite <- (insert_delete_eq m).
  rewrite map_fold_insert_L; [|intros; lia|apply lookup_delete_eq].
  destruct (m !! k) as [w|] eqn:E; simpl.
  - rewrite (map_fold_delete_L _ _ k w m); [lia|intros; lia|done].
  - rewrite delete_id by done. lia.
Qed.

Lemma u64_congr a b : (a - b) mod two64 = 0 -> u64 a = u64 b.
Proof.
  unfold u64. intros H. rewrite <- (Z.sub_add b a) at 1.
  rewrite Z.add_mod, H by done. simpl. apply Z.mod_mod. done.
Qed.

Lemma bump_type_sum type s :
  u64 (sum_by_type (syslog_messages_by_type_ (bump_type type s))) =
  u64 (sum_by_type (syslog_messages_by_type_ s) + 1).
Proof.
  simpl. rewrite sum_by_type_insert. apply u64_congr. unfold u64.
  set (c := default 0 _). pose proof (Z.div_mod (c + 1) two64 ltac:(done)) as H.
  replace (sum_by_type _ - c + (c + 1) mod two64 - _) with (- ((c + 1) / two64) * two64) by lia.
  by apply Z.mod_mul.
Qed.

Lemma u64_add_l a b : u64 (u64 a + b) = u64 (a + b).
Proof. unfold u64. rewrite Z.add_mod_idemp_l; done. Qed.

(** in every interleaving of the recording threads, the total counts the messages per
    type and the threads that have counted a message but not yet its type (as 64-bit
    counters); at quiet moments the two agree. *)
Theorem stats_total_is_sum s inflight :
  rtc stats_step (new_RuntimeStats, 0%nat) (s, inflight) ->
  syslog_messages_total_ s = u64 (sum_by_type (syslog_messages_by_type_ s) + Z.of_nat inflight).
Proof.
  intros Hr. remember (new_RuntimeStats, 0%nat) as s0 eqn:E.
  set (P := fun p : RuntimeStats * nat => syslog_messages_total_ p.1 =
    u64 (sum_by_type (syslog_messages_by_type_ p.1) + Z.of_nat p.2)).
  assert (H0 : P s0) by (by subst s0). change (P (s, inflight)). clear E.
  induction Hr as [|p q r Hstep _ IH]; [done|]. apply IH. clear IH. unfold P in *.
  destruct Hstep as [s' n|type s' n|s' n|s' n]; cbn [fst snd] in *; try done.
  - simpl. rewrite H0, u64_add_l. f_equal. lia.
  - change (syslog_messages_total_ (bump_type type s')) with (syslog_messages_total_ s').
    rewrite H0, <- u64_add_l, <- (u64_add_l (sum_by_type (syslog_messages_by_type_ (bump_type type s')))).
    rewrite bump_type_sum, u64_add_l, u64_add_l. f_equal. lia.
Qed.

Lemma stats_total_is_sum_witness :
  syslog_messages_total_ (recordSyslogMessage "DHCP" new_RuntimeStats) = 1.
Proof.
  rewrite (stats_total_is_sum (recordSyslogMessage "DHCP" new_RuntimeStats) 0).
  - vm_compute. reflexivity.
  - eapply rtc_l; [apply stats_total|]. apply rtc_once. apply stats_type.
Defined.
