(* ===== verification/SyslogServer.v ===== *)
(** * src/src/syslog_server.cpp: the syslog receiver

    What the receiver makes of the bytes the sockets deliver: the framing of a TCP stream
    into lines with its bounded buffer, the length filter, the filter of trusted peers.
    A datagram is the sender's address and its bytes, a connection is its address and the
    chunks [recv] returned; the sockets and threads are in [SyslogThreads]. *)

From S2P Require Import Prelude Utils NetUtils Config.

(** A call of the log handler: the line and the peer. *)
Definition call : Type := bytes * bytes.

Section Server.
Context (config : Config).

Definition shouldAccept (peer_ip : bytes) : bool := isTrustedPeer (trusted_router_ips config) peer_ip.

(** The handler calls [deliver] makes: one or none. *)
Definition deliver (line peer_ip : bytes) : list call :=
  match boundedLine line (max_syslog_line_length config) with
  | None => []
  | Some bounded => if decide (bounded = []) then [] else [(bounded, peer_ip)]
  end.

(** One datagram in [runUdp]: [recvfrom] keeps what fits the buffer of
    [max_syslog_line_length + 1] bytes; empty datagrams are skipped. *)
Definition udp_datagram (peer_ip payload : bytes) : list call :=
  let received := take (Z.to_nat (u64 (max_syslog_line_length config + 1))) payload in
  if decide (received = []) then []
  else if negb (shouldAccept peer_ip) then []
  else deliver received peer_ip.

(** [while ((newline = pending.find(...)) != npos)]: the lines cut off the front of the
    buffer, and what remains. *)
Fixpoint tcp_lines (fuel : nat) (pending : bytes) : list bytes * bytes :=
  match fuel with
  | O => ([], pending)
  | S fuel' =>
      match find_char c_nl pending with
      | None => ([], pending)
      | Some newline =>
          let '(lines, rest) := tcp_lines fuel' (drop (S newline) pending) in
          (take newline pending :: lines, rest)
      end
  end.

Record TcpClient := mkTcpClient { pending : bytes; calls : list call }.

(** One round of the loop of [handleTcpClient] in which [recv] returned [chunk]. *)
Definition tcp_chunk (peer_ip : bytes) (c : TcpClient) (chunk : bytes) : TcpClient :=
  let buffer := pending c ++ chunk in
  let '(lines, rest) := tcp_lines (S (length buffer)) buffer in
  let calls := calls c ++ flat_map (fun line => deliver line peer_ip) lines in
  mkTcpClient (if max_syslog_line_length config <? Z.of_nat (length rest) then [] else rest) calls.

(** The connection from its first chunk to its end. *)
Definition handleTcpClient (peer_ip : bytes) (chunks : list bytes) : list call :=
  let c := fold_left (tcp_chunk peer_ip) chunks (mkTcpClient [] []) in
  if decide (pending c <> []) then calls c ++ deliver (pending c) peer_ip else calls c.

(** An accepted connection in [runTcp]. *)
Definition tcp_connection (peer_ip : bytes) (chunks : list bytes) : list call :=
  if negb (shouldAccept peer_ip) then [] else handleTcpClient peer_ip chunks.

(** ** Framing *)

Lemma tcp_lines_split fuel s :
  (length s < fuel)%nat ->
  split_loop fuel s c_nl = (tcp_lines fuel s).1 ++ [(tcp_lines fuel s).2].
Proof.
  revert s. induction fuel as [|fuel IH]; intros s Hlen; [lia|]. cbn [split_loop tcp_lines].
  destruct (find_char c_nl s) as [pos|] eqn:E; [|done].
  apply find_char_Some in E as (_ & _ & Hlt).
  rewrite IH by (rewrite length_drop; lia). by destruct (tcp_lines fuel _).
Qed.

Lemma split_lines s :
  split s c_nl = (tcp_lines (S (length s)) s).1 ++ [(tcp_lines (S (length s)) s).2].
Proof. apply tcp_lines_split. lia. Qed.

Definition with_nl (s : bytes) : bytes := s ++ [c_nl].

Lemma join_app ls ls2 :
  ls2 <> [] -> join c_nl (ls ++ ls2) = concat (with_nl <$> ls) ++ join c_nl ls2.
Proof.
  intros Hne. induction ls as [|s ls IH]; [done|]. cbn [app].
  rewrite join_cons by (destruct ls; [done|done]). rewrite IH. simpl. unfold with_nl.
  by rewrite <- !app_assoc.
Qed.

(** Splitting more text: only the last piece can grow. *)
Lemma split_more ls r a b :
  split a c_nl = ls ++ [r] -> split (a ++ b) c_nl = ls ++ split (r ++ b) c_nl.
Proof.
  intros Ha. pose proof (split_join a c_nl) as Hj. rewrite Ha, join_app in Hj by done. simpl in Hj.
  pose proof (split_pieces a c_nl) as Hp. rewrite Ha in Hp. apply Forall_app in Hp as [Hls _].
  rewrite <- Hj, <- app_assoc, <- (split_join (r ++ b) c_nl) at 1.
  rewrite <- join_app by apply split_nonempty.
  apply split_of_join; [destruct ls; [apply split_nonempty|done]|].
  apply Forall_app. split; [done|apply split_pieces].
Qed.

Lemma split_prefix_first r b :
  c_nl ∉ r -> exists t rest, split (r ++ b) c_nl = (r ++ t) :: rest.
Proof.
  intros Hr. destruct (split b c_nl) as [|p ps] eqn:Hb; [by destruct (split_nonempty b c_nl)|].
  exists p, ps. pose proof (split_join b c_nl) as Hj. rewrite Hb in Hj.
  pose proof (split_pieces b c_nl) as Hp. rewrite Hb in Hp. apply Forall_cons in Hp as [Hp Hps].
  rewrite <- Hj. destruct (decide (ps = [])) as [->|Hne].
  - simpl. apply (split_of_join c_nl [r ++ p]); [done|]. constructor; [set_solver|done].
  - rewrite join_cons by done. rewrite app_assoc, <- join_cons by done.
    apply split_of_join; [done|]. constructor; [set_solver|done].
Qed.

(** The state of a connection that received [text] so far, none of it dropped. *)
Definition framed (peer_ip text : bytes) (c : TcpClient) : Prop :=
  exists ls, split text c_nl = ls ++ [pending c] /\
             calls c = flat_map (fun line => deliver line peer_ip) ls.

Definition short_lines (text : bytes) : Prop :=
  Forall (fun line => Z.of_nat (length line) <= max_syslog_line_length config) (split text c_nl).

Lemma short_lines_prefix text more : short_lines (text ++ more) -> short_lines text.
Proof.
  unfold short_lines. intros H. rewrite split_lines in *.
  set (ls := (tcp_lines _ text).1) in *. set (r := (tcp_lines _ text).2) in *.
  pose proof (split_lines text) as Ht. fold ls r in Ht. rewrite <- split_lines in H.
  rewrite (split_more ls r) in H by done. apply Forall_app in H as [Hls Hr]. apply Forall_app.
  split; [done|]. constructor; [|done].
  pose proof (split_pieces text c_nl) as Hp. rewrite Ht in Hp. apply Forall_app in Hp as [_ Hp].
  apply Forall_cons in Hp as [Hnl _]. destruct (split_prefix_first r more Hnl) as (t & rest & E).
  rewrite E in Hr. apply Forall_cons in Hr as [Hr _]. rewrite length_app in Hr. lia.
Qed.

Lemma tcp_chunk_framed peer_ip text c chunk :
  framed peer_ip text c -> short_lines (text ++ chunk) ->
  framed peer_ip (text ++ chunk) (tcp_chunk peer_ip c chunk).
Proof.
  intros (ls & Hsplit & Hcalls) Hshort. unfold tcp_chunk.
  pose proof (split_lines (pending c ++ chunk)) as Hl.
  destruct (tcp_lines _ (pending c ++ chunk)) as [lines rest]. simpl in Hl.
  assert (Hall : split (text ++ chunk) c_nl = (ls ++ lines) ++ [rest]).
  { by rewrite (split_more ls (pending c)), Hl, app_assoc. }
  exists (ls ++ lines). simpl. split.
  - rewrite Hall. f_equal. f_equal. unfold short_lines in Hshort. rewrite Hall in Hshort.
    apply Forall_app in Hshort as [_ Hr]. apply Forall_cons in Hr as [Hr _].
    by rewrite (proj2 (Z.ltb_ge _ _)) by lia.
  - by rewrite Hcalls, flat_map_app.
Qed.

Lemma handleTcpClient_framed peer_ip chunks :
  short_lines (concat chunks) ->
  framed peer_ip (concat chunks) (fold_left (tcp_chunk peer_ip) chunks (mkTcpClient [] [])).
Proof.
  induction chunks as [|chunk chunks IH] using rev_ind; intros Hshort; [by exists []|].
  rewrite concat_app in *. simpl in *. rewrite app_nil_r in *. rewrite fold_left_app. simpl.
  apply tcp_chunk_framed; [|done]. apply IH. by eapply short_lines_prefix.
Qed.

Lemma deliver_nil peer_ip : deliver [] peer_ip = [].
Proof. unfold deliver, boundedLine. by destruct (_ <? _). Qed.

(** ** Claims *)

(** C15: the segmentation of a TCP stream does not matter: as long as no line of it is
    longer than the limit, the handler gets the lines of the whole text, in order, the
    unfinished one at the end included, however the bytes were cut into chunks. *)
Theorem tcp_framing_ignores_segmentation peer_ip chunks :
  short_lines (concat chunks) ->
  handleTcpClient peer_ip chunks =
  flat_map (fun line => deliver line peer_ip) (split (concat chunks) c_nl).
Proof.
  intros Hshort. destruct (handleTcpClient_framed peer_ip chunks Hshort) as (ls & Hsplit & Hcalls).
  unfold handleTcpClient. rewrite Hsplit, flat_map_app, Hcalls. simpl. rewrite app_nil_r.
  case_decide as Hp; [done|]. by rewrite Hp, deliver_nil, app_nil_r.
Qed.

(** What the handler may be called with. *)
Definition call_ok (peer_ip : bytes) (c : call) : Prop :=
  c.2 = peer_ip /\ shouldAccept peer_ip = true /\ c.1 <> [] /\
  Z.of_nat (length c.1) <= max_syslog_line_length config /\
  (forall ch, last c.1 = Some ch -> ch <> c_nl /\ ch <> c_cr /\ ch <> c_nul).

Lemma deliver_ok line peer_ip :
  shouldAccept peer_ip = true -> Forall (call_ok peer_ip) (deliver line peer_ip).
Proof.
  intros Ha. unfold deliver, boundedLine. destruct (_ <? _) eqn:E; [done|]. case_decide as Hne; [done|].
  constructor; [|done]. unfold call_ok. split_and!; [done|done|done| |]; cbn [fst].
  - match goal with |- Z.of_nat (length (rdrop_while ?p line)) <= _ =>
      pose proof (rdrop_while_length p line) end. blia.
  - intros ch Hch. apply rdrop_while_last in Hch. by b2p.
Qed.

Lemma delivers_ok lines peer_ip :
  shouldAccept peer_ip = true ->
  Forall (call_ok peer_ip) (flat_map (fun line => deliver line peer_ip) lines).
Proof.
  intros Ha. induction lines as [|line lines IH]; simpl; [done|].
  apply Forall_app. auto using deliver_ok.
Qed.

(** A connection whose calls are in order and whose buffer is within its bound. *)
Definition client_ok (peer_ip : bytes) (c : TcpClient) : Prop :=
  Forall (call_ok peer_ip) (calls c) /\
  Z.of_nat (length (pending c)) <= max_syslog_line_length config.

Lemma tcp_chunk_ok peer_ip c chunk :
  0 <= max_syslog_line_length config -> shouldAccept peer_ip = true ->
  client_ok peer_ip c -> client_ok peer_ip (tcp_chunk peer_ip c chunk).
Proof.
  intros Hmax Ha [Hc Hp]. unfold tcp_chunk. destruct (tcp_lines _ _) as [lines rest]. split; simpl.
  - apply Forall_app. auto using delivers_ok.
  - destruct (_ <? _) eqn:E; [simpl; lia|blia].
Qed.

Lemma tcp_chunks_ok peer_ip chunks c :
  0 <= max_syslog_line_length config -> shouldAccept peer_ip = true ->
  client_ok peer_ip c -> client_ok peer_ip (fold_left (tcp_chunk peer_ip) chunks c).
Proof.
  intros Hmax Ha. revert c. induction chunks as [|chunk chunks IH]; intros c Hc; [done|].
  simpl. by apply IH, tcp_chunk_ok.
Qed.

Lemma new_client_ok peer_ip : 0 <= max_syslog_line_length config -> client_ok peer_ip (mkTcpClient [] []).
Proof. by split. Qed.

Lemma udp_datagram_ok peer_ip payload : Forall (call_ok peer_ip) (udp_datagram peer_ip payload).
Proof.
  unfold udp_datagram. case_decide; [done|]. destruct (shouldAccept peer_ip) eqn:Ea; [|done]. by apply deliver_ok.
Qed.

Lemma handleTcpClient_ok peer_ip chunks :
  0 <= max_syslog_line_length config -> shouldAccept peer_ip = true ->
  Forall (call_ok peer_ip) (handleTcpClient peer_ip chunks).
Proof.
  intros Hmax Ha. destruct (tcp_chunks_ok peer_ip chunks _ Hmax Ha (new_client_ok peer_ip Hmax)) as [Hcalls _].
  unfold handleTcpClient. case_decide; [|done]. apply Forall_app. auto using deliver_ok.
Qed.

Lemma pending_bounded peer_ip chunks :
  0 <= max_syslog_line_length config ->
  Z.of_nat (length (pending (fold_left (tcp_chunk peer_ip) chunks (mkTcpClient [] [])))) <= max_syslog_line_length config.
Proof.
  intros Hmax. destruct chunks as [|chunk chunks _] using rev_ind; [done|]. rewrite fold_left_app. simpl.
  unfold tcp_chunk at 1. destruct (tcp_lines _ _) as [lines rest]. simpl. destruct (_ <? _) eqn:E; [simpl; lia|blia].
Qed.

(** whatever arrives, on either transport and however it is cut: the handler is only
    called for peers that are trusted, with lines that are not empty, not longer than the
    limit and without trailing line ends, and a connection never keeps more than the limit
    between two reads. *)
Theorem only_trusted_bounded_lines peer_ip payload chunks :
  0 <= max_syslog_line_length config ->
  Forall (call_ok peer_ip) (udp_datagram peer_ip payload) /\
  Forall (call_ok peer_ip) (tcp_connection peer_ip chunks) /\
  Z.of_nat (length (pending (fold_left (tcp_chunk peer_ip) chunks (mkTcpClient [] [])))) <=
    max_syslog_line_length config.
Proof.
  intros Hmax. split; [apply udp_datagram_ok|]. split; [|by apply pending_bounded].
  unfold tcp_connection. destruct (shouldAccept peer_ip) eqn:Ea; [|done]. by apply handleTcpClient_ok.
Qed.

End Server.

(** A line above the limit is not dropped as a whole: the buffer is cleared when it
    overflows, and what follows, up to the line feed, is delivered as a line. *)
Theorem overlong_line_tail_is_delivered :
  let config := default_Config <| max_syslog_line_length := 8 |> in
  handleTcpClient config "192.168.1.1" ["overlong li" : bytes; ("ne tail" : bytes) ++ [c_nl]]
  = [("ne tail" : bytes, "192.168.1.1" : bytes)].
Proof. vm_compute. reflexivity. Qed.

Lemma tcp_framing_ignores_segmentation_witness :
  handleTcpClient default_Config "192.168.1.1" ["DHCP" : bytes; ("ACK" : bytes) ++ [c_nl]; "x" : bytes] =
  [("DHCPACK" : bytes, "192.168.1.1" : bytes); ("x" : bytes, "192.168.1.1" : bytes)].
Proof.
  apply (tcp_framing_ignores_segmentation default_Config "192.168.1.1"
    ["DHCP" : bytes; ("ACK" : bytes) ++ [c_nl]; "x" : bytes]).
  apply (bool_decide_unpack _). vm_compute. exact I.
Defined.

Lemma only_trusted_bounded_lines_witness :
  Forall (call_ok default_Config "10.0.0.1") (udp_datagram default_Config "10.0.0.1" "x").
Proof. apply (only_trusted_bounded_lines default_Config "10.0.0.1" "x" []). by vm_compute. Defined.
