(* ===== verification/Listeners.v ===== *)
(** * Listening sockets of the process

    What the two servers of the program share: the table of open descriptors, [closeIfOpen]
    and [makeSockaddr] (each defined in syslog_server.cpp and again in web_server.cpp), and
    the way from a configured address to a socket that is bound and listens.  The outcome of
    a system call is an argument.  A descriptor field of a server is a plain [int] that two
    threads use: [closeIfOpen] tests it, closes and assigns it in three steps, between which
    the other thread can be in the same function.  What it closes is the number it has tested
    (nothing between the two in its thread changes the field, so one read serves both). *)

From S2P Require Import Prelude Utils NetUtils.

(** The bytes of a [sockaddr_in] that the program sets, in host order. *)
Record SockAddr := mkSockAddr { sin_port : Z; sin_addr : Z }.

(** [inet_pton] is the C library's: the address a text names, if it names one. *)
Definition makeSockaddr (inet_pton : bytes -> option Z) (address : Address) : SockAddr :=
  mkSockAddr (port address) (default 0 (inet_pton (host address))).

(** Where a thread is in [closeIfOpen]: before the test, before [close] of the descriptor it
    has tested, before the assignment. *)
Inductive Closing : Type := CTest | CClose (fd : Z) | CAssign.

#[export] Instance Closing_eq_dec : EqDecision Closing.
Proof. solve_decision. Defined.

(** Where a listening thread is in its function. *)
Inductive Pc : Type :=
  | PNone                    (* no thread to join *)
  | PStart                   (* before [parseAddress] *)
  | PBind (address : Address)
  | PListen
  | PCheck                   (* at the condition of the loop *)
  | PWait                    (* before the descriptor is read for [select] *)
  | PSelect (fd : Z)
  | PIo                      (* before [recvfrom] or [accept] *)
  | PFail (k : Closing)      (* in [closeIfOpen] after a failed [bind] or [listen] *)
  | PExit.

#[export] Instance Address_eq_dec : EqDecision Address.
Proof. solve_decision. Defined.

#[export] Instance Pc_eq_dec : EqDecision Pc.
Proof. solve_decision. Defined.

Record Listener := mkListener {
  l_fd : Z;
  l_pc : Pc;
  l_bound : option SockAddr       (* the address of the last successful [bind] *)
}.

#[export] Instance Listener_eta : Eta Listener := fun l => mkListener (l_fd l) (l_pc l) (l_bound l).

Definition new_Listener : Listener := mkListener (-1) PNone None.

Section Table.
Context {O : Type}.
Implicit Types (t : gmap Z O) (l : Listener).

(** A descriptor the kernel can give out. *)
Definition fresh (fd : Z) t : Prop := 0 <= fd /\ t !! fd = None.

(** One step of [closeIfOpen] on the field of the listener, and where the thread is then; [None]
    is behind the function.  A [close] of a number that is not open fails and does nothing. *)
Definition closeIfOpen (k : Closing) t l : option Closing * (gmap Z O * Listener) :=
  match k with
  | CTest => (if 0 <=? l_fd l then Some (CClose (l_fd l)) else None, (t, l))
  | CClose fd => (Some CAssign, (delete fd t, l))
  | CAssign => (None, (t, l <| l_fd := -1 |>))
  end.

(** The same step of the listening thread, which exits behind the function. *)
Definition fail_step (k : Closing) t l : gmap Z O * Listener :=
  let '(k, (t, l)) := closeIfOpen k t l in
  (t, l <| l_pc := match k with Some k => PFail k | None => PExit end |>).

(** [parseAddress] and [socket], which returned [fd]. *)
Definition open_socket (owner : O) (addr : bytes) (fd : Z) t l : gmap Z O * Listener :=
  match parseAddress addr with
  | None => (t, l <| l_pc := PExit |>)
  | Some parsed =>
      if fd <? 0 then (t, l <| l_fd := fd |> <| l_pc := PExit |>)
      else (<[fd := owner]> t, l <| l_fd := fd |> <| l_pc := PBind parsed |>)
  end.

(** [bind], which succeeded or not; [next] is what follows it. *)
Definition bind_socket (inet_pton : bytes -> option Z) (parsed : Address) (next : Pc) (ok : bool) t l
    : gmap Z O * Listener :=
  if ok then (t, l <| l_bound := Some (makeSockaddr inet_pton parsed) |> <| l_pc := next |>)
  else (t, l <| l_pc := PFail CTest |>).

Definition listen_socket (ok : bool) t l : gmap Z O * Listener :=
  if ok then (t, l <| l_pc := PCheck |>) else (t, l <| l_pc := PFail CTest |>).

(** [while (running_.load())] *)
Definition check_running (running : bool) l : Listener := l <| l_pc := if running then PWait else PExit |>.

(** The descriptor is read and [select] entered. *)
Definition enter_select l : Listener := l <| l_pc := PSelect (l_fd l) |>.

(** [waitReadable]: [select] came back. *)
Definition leave_select (running ready : bool) l : Listener :=
  l <| l_pc := if running && ready then PIo else PCheck |>.

(** *** Facts *)

Lemma closeIfOpen_pc k t l : l_pc (closeIfOpen k t l).2.2 = l_pc l.
Proof. by destruct k. Qed.

Lemma closeIfOpen_tested k t l k' : (closeIfOpen k t l).1 = Some k' -> k' <> CTest.
Proof. destruct k; simpl; [destruct (0 <=? l_fd l)| |]; by intros [= <-]. Qed.

Lemma closeIfOpen_range k t l : -1 <= l_fd l -> -1 <= l_fd (closeIfOpen k t l).2.2.
Proof. by destruct k. Qed.

(** A step of a thread that opens its socket goes on, and the descriptor is one or [-1]. *)
Definition moves l : Prop := l_pc l <> PStart /\ -1 <= l_fd l.

Lemma open_socket_moves owner addr fd t l : -1 <= fd -> -1 <= l_fd l -> moves (open_socket owner addr fd t l).2.
Proof. intros Hfd Hl. unfold open_socket. destruct (parseAddress addr); [|done]. by destruct (_ <? _). Qed.

Lemma bind_socket_moves inet_pton parsed next ok t l :
  next <> PStart -> -1 <= l_fd l -> moves (bind_socket inet_pton parsed next ok t l).2.
Proof. by destruct ok. Qed.

Lemma listen_socket_moves ok t l : -1 <= l_fd l -> moves (listen_socket ok t l).2.
Proof. by destruct ok. Qed.

Lemma fail_step_moves k t l : -1 <= l_fd l -> moves (fail_step k t l).2.
Proof.
  intros Hl. pose proof (closeIfOpen_range k t l Hl). unfold fail_step. destruct (closeIfOpen k t l) as [k' [t' l']]. by destruct k'.
Qed.

(** What a step of a listener does to the table when it is not in [closeIfOpen]: nothing, or it
    opens its socket. *)
Inductive fd_move (owner : O) t l : gmap Z O * Listener -> Prop :=
  | fd_same l' : l_fd l' = l_fd l -> fd_move owner t l (t, l')
  | fd_open l' : l_fd l = -1 -> fresh (l_fd l') t -> fd_move owner t l (<[l_fd l' := owner]> t, l').

Lemma open_socket_fd owner addr fd t l :
  fd = -1 \/ fresh fd t -> l_fd l = -1 -> fd_move owner t l (open_socket owner addr fd t l).
Proof.
  intros Hfd Hl. unfold open_socket. destruct (parseAddress addr) as [parsed|]; [|by apply fd_same].
  destruct Hfd as [->|[H0 Hf]]; [by apply fd_same|]. rewrite (proj2 (Z.ltb_ge _ _)) by lia.
  exact (fd_open owner t l (l <| l_fd := fd |> <| l_pc := PBind parsed |>) Hl (conj H0 Hf)).
Qed.

End Table.

(** Steps a thread has left in [closeIfOpen], with one more to its exit. *)
Definition closing_rank (k : Closing) : nat := match k with CTest => 3 | CClose _ => 2 | CAssign => 1 end.

(** Steps a thread has left when the server no longer runs. *)
Definition pc_rank (io : nat) (pc : Pc) : nat :=
  match pc with
  | PNone | PExit => 0
  | PCheck => 1
  | PSelect _ => 2
  | PWait => 3
  | PIo => S io
  | PFail k => closing_rank k
  | PListen => 4
  | PBind _ => 5
  | PStart => 6
  end.

Lemma open_socket_rank {O} io (owner : O) addr fd t l : (pc_rank io (l_pc (open_socket owner addr fd t l).2) <= 5)%nat.
Proof. unfold open_socket. destruct (parseAddress addr); [|simpl; lia]. destruct (_ <? _); simpl; lia. Qed.

Lemma bind_socket_rank {O} io pton parsed next ok (t : gmap Z O) l :
  (pc_rank io next <= 4)%nat -> (pc_rank io (l_pc (bind_socket pton parsed next ok t l).2) <= 4)%nat.
Proof. intros Hn. unfold bind_socket. destruct ok; simpl; [done|lia]. Qed.

Lemma listen_socket_rank {O} io ok (t : gmap Z O) l : (pc_rank io (l_pc (listen_socket ok t l).2) <= 3)%nat.
Proof. unfold listen_socket. destruct ok; simpl; lia. Qed.

Lemma closeIfOpen_rank {O} k (t : gmap Z O) l :
  (match (closeIfOpen k t l).1 with Some k' => closing_rank k' | None => 0 end < closing_rank k)%nat.
Proof. destruct k; simpl; try lia. destruct (0 <=? l_fd l); simpl; lia. Qed.

Lemma fail_step_rank {O} io k (t : gmap Z O) l : (pc_rank io (l_pc (fail_step k t l).2) < closing_rank k)%nat.
Proof.
  pose proof (closeIfOpen_rank k t l) as H. unfold fail_step. destruct (closeIfOpen k t l) as [k' [t' l']]. simpl in *. by destruct k'.
Qed.
