(* ===== verification/SyslogThreads.v ===== *)
(** * src/src/syslog_server.cpp: the threads of the receiver

    [start], [stop], [runUdp], [runTcp] and [handleTcpClient] as threads over the flag
    [running_], the descriptors of the process and the list of client threads: a step
    relation in which any thread may take the next step, and in which every system call may
    end in each of its ways.  The handler is called by these threads; which of its calls return
    is the parameter [returns].  The theorems: what the handler is called with in any
    interleaving is what [SyslogServer] says of each datagram and each connection; whose
    descriptors are closed; that [stop] returns when the calls of the handler do. *)

From S2P Require Import Prelude Utils NetUtils Config SyslogServer Listeners.

Inductive Proto : Type := Udp | Tcp.

#[export] Instance Proto_eq_dec : EqDecision Proto.
Proof. solve_decision. Defined.

(** Whose socket a descriptor is. *)
Inductive Owner : Type := OListener (p : Proto) | OClient (id : nat) | OForeign.

Inductive ClientPc : Type := CCheck | CRecv | CFinish | CExit.

#[export] Instance ClientPc_eq_dec : EqDecision ClientPc.
Proof. solve_decision. Defined.

(** A thread in [handleTcpClient]. *)
Record Client := mkClient {
  ct_id : nat;                 (* which accepted connection *)
  ct_fd : Z;
  ct_ip : bytes;
  ct_pc : ClientPc;
  ct_received : list bytes;    (* the chunks so far *)
  ct_conn : TcpClient
}.

#[export] Instance Client_eta : Eta Client := fun c =>
  mkClient (ct_id c) (ct_fd c) (ct_ip c) (ct_pc c) (ct_received c) (ct_conn c).

(** Where the thread is that owns the server. *)
Inductive MainPc : Type :=
  | MNew                       (* constructed *)
  | MUp                        (* started *)
  | MClose (p : Proto) (k : Closing) | MJoin (p : Proto) | MJoinClients
  | MStopped.

Record Threads := mkThreads {
  running_ : bool;
  main_pc : MainPc;
  stops : nat;                                (* calls of [stop] that returned *)
  udp : Listener;
  tcp : Listener;
  client_threads_ : list Client;
  joined : list Client;                       (* client threads of the past *)
  accepted : nat;
  sockets : gmap Z Owner;
  datagrams : list (bytes * bytes);           (* what [recvfrom] returned *)
  udp_calls : list call
}.

#[export] Instance Threads_eta : Eta Threads := fun s =>
  mkThreads (running_ s) (main_pc s) (stops s) (udp s) (tcp s) (client_threads_ s) (joined s) (accepted s)
    (sockets s) (datagrams s) (udp_calls s).

Definition new_Threads (others : gmap Z Owner) : Threads :=
  mkThreads false MNew 0 new_Listener new_Listener [] [] 0 others [] [].

Definition listener (p : Proto) (s : Threads) : Listener := match p with Udp => udp s | Tcp => tcp s end.

(** A step of a listening thread: the table and its own fields. *)
Definition on_listener (p : Proto) (f : gmap Z Owner -> Listener -> gmap Z Owner * Listener) (s : Threads) : Threads :=
  let '(t, l) := f (sockets s) (listener p s) in
  match p with
  | Udp => s <| sockets := t |> <| udp := l |>
  | Tcp => s <| sockets := t |> <| tcp := l |>
  end.

Section Threads.
Context (config : Config) (inet_pton : bytes -> option Z) (inet_ntop : Z -> option bytes).

Definition peerIp (addr : Z) : bytes := default [] (inet_ntop addr).

Definition address_of (p : Proto) : bytes :=
  match p with Udp => syslog_udp_addr config | Tcp => syslog_tcp_addr config end.

Definition transport_enabled (p : Proto) : bool := match p with Udp => enable_udp config | Tcp => enable_tcp config end.

(** *** [start] and [stop] *)

Definition start_thread (p : Proto) (s : Threads) : Threads :=
  if transport_enabled p then on_listener p (fun t l => (t, l <| l_pc := PStart |>)) s else s.

Definition syslog_start (s : Threads) : Threads :=
  (start_thread Tcp (start_thread Udp (s <| running_ := true |>))) <| main_pc := MUp |>.

(** [running_.exchange(false)] *)
Definition stop_begin (s : Threads) : Threads := s <| running_ := false |> <| main_pc := MClose Udp CTest |>.

(** One step of [closeIfOpen(udp_fd_)] or [closeIfOpen(tcp_fd_)]. *)
Definition stop_close (p : Proto) (k : Closing) (s : Threads) : Threads :=
  (on_listener p (fun t l => (closeIfOpen k t l).2) s)
    <| main_pc := match (closeIfOpen k (sockets s) (listener p s)).1 with
                  | Some k => MClose p k
                  | None => match p with Udp => MClose Tcp CTest | Tcp => MJoin Udp end
                  end |>.

(** [if (thread.joinable()) thread.join();] of a thread that came to its end, or of none. *)
Definition stop_join (p : Proto) (s : Threads) : Threads :=
  (on_listener p (fun t l => (t, l <| l_pc := PNone |>)) s)
    <| main_pc := match p with Udp => MJoin Tcp | Tcp => MJoinClients end |>.

Definition stop_join_clients (s : Threads) : Threads :=
  s <| joined := joined s ++ client_threads_ s |> <| client_threads_ := [] |> <| main_pc := MStopped |>
    <| stops := S (stops s) |>.

(** *** [runUdp] and [runTcp] *)

Definition run_socket (p : Proto) (fd : Z) : Threads -> Threads :=
  on_listener p (open_socket (OListener p) (address_of p) fd).

Definition run_bind (p : Proto) (parsed : Address) (ok : bool) : Threads -> Threads :=
  on_listener p (bind_socket inet_pton parsed (match p with Udp => PCheck | Tcp => PListen end) ok).

Definition run_listen (ok : bool) : Threads -> Threads := on_listener Tcp (listen_socket ok).

(** One step of [closeIfOpen] after [bind] or [listen] has failed. *)
Definition run_fail (p : Proto) (k : Closing) : Threads -> Threads := on_listener p (fail_step k).

Definition run_check (p : Proto) (s : Threads) : Threads :=
  on_listener p (fun t l => (t, check_running (running_ s) l)) s.

Definition run_wait (p : Proto) : Threads -> Threads := on_listener p (fun t l => (t, enter_select l)).

Definition run_select (p : Proto) (ready : bool) (s : Threads) : Threads :=
  on_listener p (fun t l => (t, leave_select (running_ s) ready l)) s.

Definition back_to_loop (p : Proto) : Threads -> Threads := on_listener p (fun t l => (t, l <| l_pc := PCheck |>)).

(** [recvfrom]: nothing, or the address of the sender and the payload. *)
Definition udp_receive (received : option (Z * bytes)) (s : Threads) : Threads :=
  let s := match received with
           | None => s
           | Some (remote, payload) =>
               let ip := peerIp remote in
               s <| datagrams := datagrams s ++ [(ip, payload)] |>
                 <| udp_calls := udp_calls s ++ udp_datagram config ip payload |>
           end in
  back_to_loop Udp s.

(** [accept]: nothing, or a descriptor and the address of the client.  The connection of a
    peer that is not trusted is closed at once. *)
Definition tcp_accept (connection : option (Z * Z)) (s : Threads) : Threads :=
  let s := match connection with
           | None => s
           | Some (client_fd, remote) =>
               let ip := peerIp remote in
               if negb (shouldAccept config ip) then s
               else s <| sockets := <[client_fd := OClient (accepted s)]> (sockets s) |>
                      <| client_threads_ :=
                           client_threads_ s ++ [mkClient (accepted s) client_fd ip CCheck [] (mkTcpClient [] [])] |>
                      <| accepted := S (accepted s) |>
           end in
  back_to_loop Tcp s.

(** *** [handleTcpClient] *)

(** What [recv] can return. *)
Inductive Recv : Type :=
  | RecvClosed
  | RecvAgain                  (* [EAGAIN], [EWOULDBLOCK] or [EINTR] *)
  | RecvError
  | RecvData (chunk : bytes).

Definition client_check (running : bool) (c : Client) : Client := c <| ct_pc := if running then CRecv else CFinish |>.

Definition client_recv (r : Recv) (c : Client) : Client :=
  match r with
  | RecvClosed | RecvError => c <| ct_pc := CFinish |>
  | RecvAgain => c <| ct_pc := CCheck |>
  | RecvData chunk =>
      c <| ct_received := ct_received c ++ [chunk] |>
        <| ct_conn := tcp_chunk config (ct_ip c) (ct_conn c) chunk |>
        <| ct_pc := CCheck |>
  end.

(** After the loop: what is pending is delivered. *)
Definition client_flush (c : Client) : Client :=
  c <| ct_conn := if decide (pending (ct_conn c) <> [])
                  then mkTcpClient (pending (ct_conn c)) (calls (ct_conn c) ++ deliver config (pending (ct_conn c)) (ct_ip c))
                  else ct_conn c |>
    <| ct_pc := CExit |>.

Definition update_client (i : nat) (c : Client) (s : Threads) : Threads :=
  s <| client_threads_ := <[i := c]> (client_threads_ s) |>.

(** ... and the connection is closed. *)
Definition client_finish (i : nat) (c : Client) (s : Threads) : Threads :=
  (update_client i (client_flush c) s) <| sockets := delete (ct_fd c) (sockets s) |>.

(** *** The step relation *)

(** Who takes a step; the rest of the process opens and closes descriptors of its own. *)
Inductive Actor : Type := AMain | AListener (p : Proto) | AClient (id : nat) | AWorld.

#[export] Instance Actor_eq_dec : EqDecision Actor.
Proof. solve_decision. Defined.

(** What a call that names a descriptor needs to succeed. *)
Definition is_open (fd : Z) (s : Threads) : Prop := is_Some (sockets s !! fd).

(** Which calls of the handler return.  A thread whose step makes calls takes it when they do. *)
Context (returns : call -> Prop).

Definition returning (before after : list call) : Prop := exists made, after = before ++ made /\ Forall returns made.

Inductive step : Actor -> Threads -> Threads -> Prop :=
  | step_start s : main_pc s = MNew -> step AMain s (syslog_start s)
  | step_stop s : main_pc s = MNew \/ main_pc s = MUp \/ main_pc s = MStopped -> step AMain s (stop_begin s)
  | step_close p k s : main_pc s = MClose p k -> step AMain s (stop_close p k s)
  | step_join p s :
      main_pc s = MJoin p -> l_pc (listener p s) = PNone \/ l_pc (listener p s) = PExit ->
      step AMain s (stop_join p s)
  | step_join_clients s :
      main_pc s = MJoinClients -> Forall (fun c => ct_pc c = CExit) (client_threads_ s) ->
      step AMain s (stop_join_clients s)
  | step_socket p fd s :
      l_pc (listener p s) = PStart -> fd = -1 \/ fresh fd (sockets s) -> step (AListener p) s (run_socket p fd s)
  | step_bind p parsed ok s :
      l_pc (listener p s) = PBind parsed -> (ok = true -> is_open (l_fd (listener p s)) s) ->
      step (AListener p) s (run_bind p parsed ok s)
  | step_listen ok s :
      l_pc (tcp s) = PListen -> (ok = true -> is_open (l_fd (tcp s)) s) -> step (AListener Tcp) s (run_listen ok s)
  | step_fail p k s : l_pc (listener p s) = PFail k -> step (AListener p) s (run_fail p k s)
  | step_check p s : l_pc (listener p s) = PCheck -> step (AListener p) s (run_check p s)
  | step_wait p s : l_pc (listener p s) = PWait -> step (AListener p) s (run_wait p s)
  | step_select p fd ready s : l_pc (listener p s) = PSelect fd -> step (AListener p) s (run_select p ready s)
  | step_receive received s :
      l_pc (udp s) = PIo -> (received <> None -> is_open (l_fd (udp s)) s) ->
      returning (udp_calls s) (udp_calls (udp_receive received s)) ->
      step (AListener Udp) s (udp_receive received s)
  | step_accept connection s :
      l_pc (tcp s) = PIo ->
      (forall fd remote, connection = Some (fd, remote) -> is_open (l_fd (tcp s)) s /\ fresh fd (sockets s)) ->
      step (AListener Tcp) s (tcp_accept connection s)
  | step_client_check i c s :
      client_threads_ s !! i = Some c -> ct_pc c = CCheck ->
      step (AClient (ct_id c)) s (update_client i (client_check (running_ s) c) s)
  | step_client_recv i c r s :
      client_threads_ s !! i = Some c -> ct_pc c = CRecv ->
      (forall chunk, r = RecvData chunk -> chunk <> [] /\ (length chunk <= 1024)%nat) ->
      returning (calls (ct_conn c)) (calls (ct_conn (client_recv r c))) ->
      step (AClient (ct_id c)) s (update_client i (client_recv r c) s)
  | step_client_finish i c s :
      client_threads_ s !! i = Some c -> ct_pc c = CFinish ->
      returning (calls (ct_conn c)) (calls (ct_conn (client_flush c))) ->
      step (AClient (ct_id c)) s (client_finish i c s)
  | step_world_open fd s : fresh fd (sockets s) -> step AWorld s (s <| sockets := <[fd := OForeign]> (sockets s) |>)
  | step_world_close fd s :
      sockets s !! fd = Some OForeign -> step AWorld s (s <| sockets := delete fd (sockets s) |>).

Definition any_step (s s' : Threads) : Prop := exists a, step a s s'.

(** A process whose other descriptors are open when the server is constructed. *)
Definition initial (s : Threads) : Prop :=
  exists others, s = new_Threads others /\ map_Forall (fun fd o => 0 <= fd /\ o = OForeign) others.

Definition reachable_threads (s : Threads) : Prop := exists s0, initial s0 /\ rtc any_step s0 s.

Lemma reachable_ind (P : Threads -> Prop) :
  (forall s, initial s -> P s) -> (forall a s s', step a s s' -> P s -> P s') -> forall s, reachable_threads s -> P s.
Proof.
  intros H0 Hs s (s0 & Hi & Hr). apply H0 in Hi. induction Hr as [|s s' s'' [a H] _ IH]; [done|]. eauto.
Qed.

End Threads.

(** *** More calls that return *)

Lemma returning_mono (R R' : call -> Prop) before after :
  (forall x, R x -> R' x) -> returning R before after -> returning R' before after.
Proof. intros HR (made & -> & Hm). exists made. split; [done|]. by eapply Forall_impl. Qed.

Lemma step_mono config pton ntop (R R' : call -> Prop) a s s' :
  (forall x, R x -> R' x) -> step config pton ntop R a s s' -> step config pton ntop R' a s s'.
Proof. intros HR Hs. destruct Hs; econstructor; eauto using returning_mono. Qed.

(** Every call returns. *)
Definition any_call (_ : call) : Prop := True.

Lemma step_any config pton ntop (R : call -> Prop) a s s' :
  step config pton ntop R a s s' -> step config pton ntop any_call a s s'.
Proof. by apply step_mono. Qed.

(** A step that makes no call. *)
Lemma returning_none (R : call -> Prop) l : returning R l l.
Proof. exists []. by rewrite app_nil_r. Qed.

Lemma returning_all (R : call -> Prop) before made : (forall x, R x) -> returning R before (before ++ made).
Proof. intros HR. exists made. split; [done|]. apply Forall_forall. auto. Qed.
