(* ===== verification/SyslogStop.v ===== *)
(** * Theorems about the threads of the receiver

    [handler_calls_are_framed_lines], [stop_closes_descriptors] and [stop_returns]: safety of
    what is delivered, ownership of the descriptors (and the race of two calls of
    [closeIfOpen], which breaks it), and that [stop] comes to its end when the calls of the
    handler return, over all interleavings of [SyslogThreads]. *)

From S2P Require Import Prelude Utils NetUtils Config SyslogServer Listeners SyslogThreads.

Section Framing.
Context (config : Config) (inet_pton : bytes -> option Z) (inet_ntop : Z -> option bytes).
Context (returns : call -> Prop).
Abbreviation step := (step config inet_pton inet_ntop returns).
Abbreviation any_step := (any_step config inet_pton inet_ntop returns).
Abbreviation reachable_threads := (reachable_threads config inet_pton inet_ntop returns).
Implicit Types (s : Threads) (c : Client).

(** ** Frames *)

(** What a step of a listening thread leaves alone. *)
Record same_rest (s s' : Threads) : Prop := {
  sr_running : running_ s' = running_ s;
  sr_main : main_pc s' = main_pc s;
  sr_stops : stops s' = stops s;
  sr_clients : client_threads_ s' = client_threads_ s;
  sr_joined : joined s' = joined s;
  sr_accepted : accepted s' = accepted s;
  sr_datagrams : datagrams s' = datagrams s;
  sr_calls : udp_calls s' = udp_calls s
}.

Lemma on_listener_spec p f s :
  let s' := on_listener p f s in
  sockets s' = (f (sockets s) (listener p s)).1 /\ listener p s' = (f (sockets s) (listener p s)).2 /\
  (forall q, q <> p -> listener q s' = listener q s) /\ same_rest s s'.
Proof.
  unfold on_listener. destruct (f _ _) as [t l]. destruct p; (split_and!; [done..| |]); try done; by intros [] ?.
Qed.

(** ** What the handler gets *)

(** A client thread did with its chunks what [handleTcpClient] does: all of it at its end,
    the part for the chunks so far before. *)
Definition client_spec c : Prop :=
  shouldAccept config (ct_ip c) = true /\ Forall (fun chunk => chunk <> []) (ct_received c) /\
  match ct_pc c with
  | CExit => calls (ct_conn c) = handleTcpClient config (ct_ip c) (ct_received c)
  | _ => ct_conn c = fold_left (tcp_chunk config (ct_ip c)) (ct_received c) (mkTcpClient [] [])
  end.

Definition framed_calls s : Prop :=
  Forall client_spec (joined s) /\ Forall client_spec (client_threads_ s) /\
  udp_calls s = flat_map (fun d => udp_datagram config d.1 d.2) (datagrams s).

Lemma framed_same s s' : same_rest s s' -> framed_calls s -> framed_calls s'.
Proof. intros [] H. unfold framed_calls in *. congruence. Qed.

Lemma framed_on_listener p f s : framed_calls s -> framed_calls (on_listener p f s).
Proof. apply framed_same, on_listener_spec. Qed.

Lemma client_recv_spec r c :
  (forall chunk, r = RecvData chunk -> chunk <> []) -> ct_pc c = CRecv -> client_spec c -> client_spec (client_recv config r c).
Proof.
  intros Hr Hpc (Ha & Hne & Hc). rewrite Hpc in Hc. destruct r as [| | |chunk]; (split; [done|]); (split; [try done|try done]).
  - apply Forall_app. auto.
  - simpl. by rewrite fold_left_app, <- Hc.
Qed.

Lemma client_flush_spec c : ct_pc c = CFinish -> client_spec c -> client_spec (client_flush config c).
Proof.
  intros Hpc (Ha & Hne & Hc). rewrite Hpc in Hc. (split; [done|]); (split; [done|]). simpl. unfold handleTcpClient. rewrite <- Hc.
  by case_decide.
Qed.

Lemma framed_update s i c c' :
  client_threads_ s !! i = Some c -> (client_spec c -> client_spec c') -> framed_calls s -> framed_calls (update_client i c' s).
Proof.
  intros Hi Hcc (Hj & Hc & Hu). split; [done|]. split; [|done]. simpl.
  apply Forall_insert; [done|]. apply Hcc. by eapply Forall_lookup_1.
Qed.

Lemma framed_step a s s' : step a s s' -> framed_calls s -> framed_calls s'.
Proof.
  intros Hstep H. destruct Hstep as [s _|s _|p k s _|p s _ _|s _ _|p fd s _ _|p parsed ok s _ _|ok s _ _|p k s _|p s _|p s _|p fd ready s _
    |received s _ _ _|connection s _ _|i c s Hi Hpc|i c r s Hi Hpc Hr _|i c s Hi Hpc _|fd s _|fd s _];
    try (by apply framed_on_listener); try done.
  - unfold syslog_start, start_thread. destruct (transport_enabled config Tcp), (transport_enabled config Udp); by repeat apply framed_on_listener.
  - destruct H as (Hj & Hc & Hu). split; [by apply Forall_app|]. by split; [constructor|].
  - apply framed_on_listener. destruct received as [[remote payload]|]; [|done]. destruct H as (Hj & Hc & Hu).
    split; [done|]. split; [done|]. simpl. rewrite Hu, flat_map_app. simpl. by rewrite app_nil_r.
  - apply framed_on_listener. destruct connection as [[fd remote]|]; [|done].
    cbv zeta. case_match eqn:Ea; [done|]. b2p. destruct H as (Hj & Hc & Hu). split; [done|]. split; [|done]. simpl.
    apply Forall_app. split; [done|]. constructor; [|done]. by split.
  - apply (framed_update s i c); [done| |done]. intros (Ha & Hne & Hc). rewrite Hpc in Hc. split; [done|]. split; [done|]. simpl. by destruct (running_ s).
  - apply (framed_update s i c); [done| |done]. apply client_recv_spec; [naive_solver|done].
  - apply (framed_update s i c) with (c' := client_flush config c) in H; [done|done|]. by apply client_flush_spec.
Qed.

Lemma reachable_framed s : reachable_threads s -> framed_calls s.
Proof.
  apply reachable_ind; [|by apply framed_step]. intros s0 (others & -> & _). by split_and!.
Qed.

Lemma call_ok_own p l : Forall (call_ok config p) l -> Forall (fun x => call_ok config x.2 x) l.
Proof. intros H. eapply Forall_impl; [exact H|]. intros x Hx. by rewrite (proj1 Hx). Qed.

Lemma client_calls_ok c :
  0 <= max_syslog_line_length config -> client_spec c -> Forall (call_ok config (ct_ip c)) (calls (ct_conn c)).
Proof.
  intros Hmax (Ha & _ & Hc). destruct (ct_pc c); [..|rewrite Hc; by apply handleTcpClient_ok]; rewrite Hc;
    by apply tcp_chunks_ok, new_client_ok.
Qed.

(** C16: whatever the threads of the receiver do in whatever order and whatever the system
    calls return: every thread of a connection hands over exactly the lines of its own chunks
    ([handleTcpClient]), the UDP thread those of each datagram, and every call of the handler
    is for a trusted peer with a line that is not empty and within the limit. *)
Theorem handler_calls_are_framed_lines s :
  0 <= max_syslog_line_length config -> reachable_threads s ->
  udp_calls s = flat_map (fun d => udp_datagram config d.1 d.2) (datagrams s) /\
  (forall c, c ∈ joined s ++ client_threads_ s ->
     (ct_pc c = CExit -> calls (ct_conn c) = handleTcpClient config (ct_ip c) (ct_received c)) /\
     (ct_pc c <> CExit -> ct_conn c = fold_left (tcp_chunk config (ct_ip c)) (ct_received c) (mkTcpClient [] [])) /\
     Forall (call_ok config (ct_ip c)) (calls (ct_conn c))) /\
  Forall (fun x => call_ok config x.2 x) (udp_calls s).
Proof.
  intros Hmax Hr. destruct (reachable_framed s Hr) as (Hj & Hc & Hu). split; [done|]. split.
  - intros c Hin. assert (Hs : client_spec c).
    { apply elem_of_app in Hin as [Hin|Hin]; [by eapply Forall_forall in Hj|by eapply Forall_forall in Hc]. }
    split_and!; [| |by apply client_calls_ok]; destruct Hs as (_ & _ & Hs); intros Hpc; destruct (ct_pc c); done.
  - rewrite Hu. apply Forall_flat_map, Forall_forall. intros d _. eapply call_ok_own, udp_datagram_ok.
Qed.

(** ** The course of [start] and [stop] *)

Definition past_join (p : Proto) s : Prop :=
  (1 <= stops s)%nat \/
  match main_pc s, p with MJoin Tcp, Udp | MJoinClients, _ | MStopped, _ => True | _, _ => False end.

(** The socket of a thread that is gone is closed. *)
Definition past_close_again (p : Proto) s : Prop :=
  (2 <= stops s)%nat \/
  (1 <= stops s)%nat /\ match main_pc s, p with MClose Tcp _, Udp | MJoin _, _ | MJoinClients, _ => True | _, _ => False end.

Record control s : Prop := {
  k_running : running_ s = true <-> main_pc s = MUp;
  k_new : main_pc s = MNew -> (forall p, listener p s = new_Listener) /\ stops s = 0%nat /\ client_threads_ s = [];
  k_stopped : main_pc s = MStopped -> (1 <= stops s)%nat;
  k_start : forall p, l_pc (listener p s) = PStart -> l_fd (listener p s) = -1;
  k_range : forall p, -1 <= l_fd (listener p s);
  k_joined : forall p, past_join p s -> l_pc (listener p s) = PNone;
  k_clients : (1 <= stops s)%nat -> client_threads_ s = [];
  k_closed : forall p, past_close_again p s -> l_fd (listener p s) = -1
}.

Lemma close_again_joined p s : past_close_again p s -> past_join p s.
Proof. unfold past_close_again, past_join. intros [?|[? _]]; left; lia. Qed.

Lemma initial_control s : initial s -> control s.
Proof.
  intros (others & -> & _). split; simpl; try done; try (by intros []).
  - intros _. split; [by intros []|done].
Qed.

(** Steps of a thread of the receiver that has not been joined. *)
Lemma control_listener p f s :
  l_pc (listener p s) <> PNone -> moves (f (sockets s) (listener p s)).2 ->
  control s -> control (on_listener p f s).
Proof.
  intros Hpc [Hnew Hfd] []. destruct (on_listener_spec p f s) as (_ & Hl & Ho & [Er Em Es Ec _ _ _ _]).
  assert (Hj : ~ past_join p s) by auto.
  assert (Hq : forall q, listener q (on_listener p f s) = if decide (q = p) then (f (sockets s) (listener p s)).2 else listener q s).
  { intros q. destruct (decide (q = p)) as [->|]; auto. }
  split; unfold past_join, past_close_again in *; rewrite ?Er, ?Em, ?Es, ?Ec; auto.
  - intros Hm. destruct (k_new0 Hm) as [Hn _]. by rewrite Hn in Hpc.
  - intros q. rewrite Hq. case_decide; [done|auto].
  - intros q. rewrite Hq. case_decide; [done|auto].
  - intros q Hp. rewrite Hq. case_decide; [by subst|auto].
  - intros q Hp. rewrite Hq. case_decide; [subst|auto]. destruct Hj. destruct Hp as [?|[? _]]; left; lia.
Qed.

Lemma listener_mk q s r m n cs j a t d u :
  listener q (mkThreads r m n (udp s) (tcp s) cs j a t d u) = listener q s.
Proof. by destruct q. Qed.

Lemma control_same s s' :
  running_ s' = running_ s -> main_pc s' = main_pc s -> stops s' = stops s -> client_threads_ s' = client_threads_ s ->
  (forall p, listener p s' = listener p s) -> control s -> control s'.
Proof.
  intros Er Em Es Ec El []. split; unfold past_join, past_close_again in *; rewrite ?Er, ?Em, ?Es, ?Ec; auto;
    try (intros p; rewrite El; auto). intros Hm. destruct (k_new0 Hm) as [Hn ?]. split; [|done]. intros p. by rewrite El.
Qed.

(** A client thread takes a step only before the client threads are joined. *)
Lemma control_client s i c c' t :
  client_threads_ s !! i = Some c -> control s -> control ((update_client i c' s) <| sockets := t |>).
Proof.
  intros Hi []. split; try done.
  - simpl. intros Hm. destruct (k_new0 Hm) as (_ & _ & Hn). by rewrite Hn in Hi.
  - simpl. intros Hs. by rewrite k_clients0 in Hi.
Qed.

Lemma control_start s : main_pc s = MNew -> control s -> control (syslog_start config s).
Proof.
  intros Hm []. destruct (k_new0 Hm) as (Hl & Hs & Hc). clear k_new0.
  pose proof (Hl Udp) as Hu. pose proof (Hl Tcp) as Ht. simpl in Hu, Ht.
  assert (E : exists pu pt, syslog_start config s = s <| running_ := true |> <| udp := new_Listener <| l_pc := pu |> |>
                <| tcp := new_Listener <| l_pc := pt |> |> <| main_pc := MUp |>).
  { unfold syslog_start, start_thread, on_listener.
    exists (if transport_enabled config Udp then PStart else PNone), (if transport_enabled config Tcp then PStart else PNone).
    destruct s; simpl in *; subst.
    by destruct (enable_udp config), (enable_tcp config). }
  destruct E as (pu & pt & ->). split; unfold past_join, past_close_again in *; simpl; try done; try (by intros []).
  - intros p [?|?]; [lia|done].
Qed.

Lemma control_stop_begin s : main_pc s = MNew \/ main_pc s = MUp \/ main_pc s = MStopped -> control s -> control (stop_begin s).
Proof.
  intros Hm []. split; unfold past_join, past_close_again in *; simpl; try done.
  - intros p [H|H]; [apply k_joined0; by left|by destruct p].
  - intros p [H|[_ H]]; [apply k_closed0; by left|by destruct p].
Qed.

Lemma control_stop_close p k s : main_pc s = MClose p k -> control s -> control (stop_close p k s).
Proof.
  intros Hm []. set (f := fun (t : gmap Z Owner) l => (closeIfOpen k t l).2).
  destruct (on_listener_spec p f s) as (_ & Hl & Ho & [Er _ Es Ec _ _ _ _]).
  set (s' := on_listener p f s) in *.
  assert (Hpcs : forall q, l_pc (listener q s') = l_pc (listener q s)).
  { intros q. destruct (decide (q = p)) as [->|Hn]; [rewrite Hl; by destruct k|by rewrite Ho]. }
  assert (Hfds : forall q, l_fd (listener q s') = l_fd (listener q s) \/ l_fd (listener q s') = -1).
  { intros q. destruct (decide (q = p)) as [->|Hn]; [rewrite Hl; destruct k; by auto|rewrite Ho by done; auto]. }
  assert (Hdone : (closeIfOpen k (sockets s) (listener p s)).1 = None -> l_fd (listener p s') = -1).
  { rewrite Hl. pose proof (k_range0 p). destruct k; simpl; try done. destruct (0 <=? _) eqn:E; [done|]. b2p. lia. }
  change (stop_close p k s) with (s' <| main_pc := match (closeIfOpen k (sockets s) (listener p s)).1 with
    | Some k => MClose p k | None => match p with Udp => MClose Tcp CTest | Tcp => MJoin Udp end end |>).
  clearbody s'. clear Hl Ho f.
  assert (Hmain : forall q, (1 <= stops s)%nat \/ match main_pc s, q with MJoin Tcp, Udp | MJoinClients, _ | MStopped, _ => True | _, _ => False end ->
    (1 <= stops s)%nat) by (intros q [?|?]; [done|by rewrite Hm in *]).
  split; unfold past_join, past_close_again in *; simpl; rewrite ?Er, ?Es, ?Ec; auto; try (intros q; rewrite ?listener_mk, ?Hpcs).
  - rewrite k_running0, Hm. destruct (closeIfOpen _ _ _).1; by destruct p.
  - destruct (closeIfOpen _ _ _).1; by destruct p.
  - destruct (closeIfOpen _ _ _).1; by destruct p.
  - intros Hq. destruct (Hfds q) as [->| ->]; auto.
  - destruct (Hfds q) as [->| ->]; [auto|lia].
  - intros [Hq|Hq]; apply k_joined0; [by left|]. destruct (closeIfOpen _ _ _).1; [done|]. by destruct p, q.
  - destruct (closeIfOpen k (sockets s) (listener p s)).1 as [k'|] eqn:E.
    + intros Hq. assert (Hz : l_fd (listener q s) = -1); [|destruct (Hfds q) as [Hx|Hx]; lia].
      apply k_closed0. rewrite Hm. destruct Hq as [?|[? Hq]]; [by left|right]. by destruct p, q.
    + intros Hq. destruct (decide (q = p)) as [->|Hne]; [auto|]. assert (Hz : l_fd (listener q s) = -1); [|destruct (Hfds q) as [Hx|Hx]; lia].
      apply k_closed0. rewrite Hm. destruct Hq as [?|[? Hq]]; [by left|right]. by destruct p, q.
Qed.

Lemma control_stop_join p s :
  main_pc s = MJoin p -> control s -> control (stop_join p s).
Proof.
  intros Hm []. unfold stop_join. set (f := fun t l => (t, l <| l_pc := PNone |>)).
  destruct (on_listener_spec p f s) as (_ & Hl & Ho & [Er _ Es Ec _ _ _ _]).
  assert (Hpcs : forall q, l_pc (listener q (on_listener p f s)) = if decide (q = p) then PNone else l_pc (listener q s)).
  { intros q. destruct (decide (q = p)) as [->|Hn]; [by rewrite Hl|by rewrite Ho]. }
  assert (Hfds : forall q, l_fd (listener q (on_listener p f s)) = l_fd (listener q s)).
  { intros q. destruct (decide (q = p)) as [->|Hn]; [by rewrite Hl|by rewrite Ho]. }
  set (s' := on_listener p f s) in *.
  split; unfold past_join, past_close_again in *; simpl; rewrite ?Er, ?Es, ?Ec; auto; try (intros q; rewrite ?listener_mk, ?Hpcs, ?Hfds); auto.
  - rewrite k_running0, Hm. by destruct p.
  - by destruct p.
  - by destruct p.
  - case_decide; [done|auto].
  - intros Hq. case_decide as Hd; [done|]. apply k_joined0. rewrite Hm. destruct Hq as [?|Hq]; [by left|right]. by destruct p, q.
  - intros Hq. apply k_closed0. rewrite Hm. destruct Hq as [?|[? Hq]]; [by left|right]. split; [done|]. by destruct p, q.
Qed.

Lemma control_stop_join_clients s : main_pc s = MJoinClients -> control s -> control (stop_join_clients s).
Proof.
  intros Hm []. assert (El : forall q, listener q (stop_join_clients s) = listener q s) by (by intros []).
  split; unfold past_join, past_close_again in *; try (intros q; rewrite El); simpl; auto; try lia.
  - rewrite k_running0, Hm. done.
  - done.
  - intros _. apply k_joined0. right. by rewrite Hm.
  - intros [?|[_ ?]]; [|done]. apply k_closed0. right. rewrite Hm. by split; [lia|destruct q].
Qed.

Lemma control_back p s : l_pc (listener p s) <> PNone -> control s -> control (back_to_loop p s).
Proof. intros Hpc Hc. apply control_listener; [done| |done]. split; [done|apply (k_range _ Hc)]. Qed.

Lemma control_accept connection s : l_pc (tcp s) = PIo -> control s -> control (tcp_accept config inet_ntop connection s).
Proof.
  intros Hpc Hc. assert (Hp : l_pc (listener Tcp s) <> PNone) by (simpl; by rewrite Hpc).
  destruct connection as [[fd remote]|]; [|by apply control_back]. unfold tcp_accept. cbv zeta.
  case_match; [by apply control_back|]. apply control_back; [done|]. destruct Hc. split; try done.
  - simpl. intros Hm. destruct (k_new0 Hm) as (Hn & _). by rewrite Hn in Hp.
  - simpl. intros Hs. destruct Hp. apply k_joined0. by left.
Qed.

Lemma control_step a s s' : step a s s' -> control s -> control s'.
Proof.
  intros Hstep Hc. pose proof (k_range _ Hc) as Hrange.
  destruct Hstep as [s Hm|s Hm|p k s Hm|p s Hm _|s Hm _|p fd s Hpc Hfd|p parsed ok s Hpc _|ok s Hpc _|p k s Hpc|p s Hpc|p s Hpc|p fd ready s Hpc
    |received s Hpc _ _|connection s Hpc _|i c s Hi _|i c r s Hi _ _ _|i c s Hi _ _|fd s _|fd s _].
  - by apply control_start.
  - by apply control_stop_begin.
  - by apply control_stop_close.
  - by apply control_stop_join.
  - by apply control_stop_join_clients.
  - apply control_listener; [by rewrite Hpc|apply open_socket_moves; [|done]|done]. destruct Hfd as [->|[? _]]; lia.
  - apply control_listener; [by rewrite Hpc|apply bind_socket_moves; [by destruct p|done]|done].
  - apply control_listener; [by simpl; rewrite Hpc|apply listen_socket_moves, (Hrange Tcp)|done].
  - apply control_listener; [by rewrite Hpc|apply fail_step_moves, Hrange|done].
  - apply control_listener; [by rewrite Hpc|split; [simpl; by destruct (running_ s)|apply Hrange]|done].
  - apply control_listener; [by rewrite Hpc|split; [done|apply Hrange]|done].
  - apply control_listener; [by rewrite Hpc|split; [simpl; by destruct (_ && _)|apply Hrange]|done].
  - apply control_back; [simpl; by destruct received as [[]|]; simpl; rewrite Hpc|]. destruct received as [[]|]; [|done].
    eapply control_same; [..|exact Hc]; try done; by intros [].
  - by apply control_accept.
  - by apply (control_client s i c _ (sockets s)).
  - by apply (control_client s i c _ (sockets s)).
  - by apply (control_client s i c).
  - eapply control_same; [..|exact Hc]; try done; by intros [].
  - eapply control_same; [..|exact Hc]; try done; by intros [].
Qed.

Lemma reachable_control s : reachable_threads s -> control s.
Proof. apply reachable_ind; [apply initial_control|apply control_step]. Qed.

(** ** Whose the descriptors are *)

(** A thread is in [closeIfOpen] of a descriptor field: the one that stops the server, or the
    listening thread. *)
Definition closer (p : Proto) (k : Closing) s : Prop := main_pc s = MClose p k \/ l_pc (listener p s) = PFail k.

(** Both are, past the test. *)
Definition overlap (p : Proto) s : Prop :=
  exists k k', main_pc s = MClose p k /\ l_pc (listener p s) = PFail k' /\ k <> CTest /\ k' <> CTest.

Definition calm s : Prop := forall p, ~ overlap p s.

(** The field names the socket, or is empty, or its descriptor is closed and the field is about
    to be emptied. *)
Record field_ok (p : Proto) s : Prop := {
  f_field : l_fd (listener p s) = -1 \/ sockets s !! l_fd (listener p s) = Some (OListener p) \/ closer p CAssign s;
  f_close : forall fd, closer p (CClose fd) s -> fd = l_fd (listener p s) /\ sockets s !! fd = Some (OListener p);
  f_assign : closer p CAssign s ->
    0 <= l_fd (listener p s) /\ sockets s !! l_fd (listener p s) <> Some (OListener p)
}.

Definition holds (fd : Z) (id : nat) c : Prop := ct_pc c <> CExit /\ ct_id c = id /\ ct_fd c = fd.

Record owned s : Prop := {
  o_table : forall fd o, sockets s !! fd = Some o -> 0 <= fd /\
    match o with
    | OListener p => l_fd (listener p s) = fd
    | OClient id => exists c, c ∈ client_threads_ s /\ holds fd id c
    | OForeign => True
    end;
  o_field : forall p, field_ok p s;
  o_clients : forall c, c ∈ client_threads_ s -> ct_pc c <> CExit -> sockets s !! ct_fd c = Some (OClient (ct_id c));
  o_ids : NoDup (ct_id <$> client_threads_ s);
  o_next : Forall (fun c => (ct_id c < accepted s)%nat) (client_threads_ s)
}.

(** An open socket is the one its field names. *)
Lemma listener_socket s fd p : owned s -> sockets s !! fd = Some (OListener p) -> 0 <= fd /\ l_fd (listener p s) = fd.
Proof. intros Ho Hfd. exact (o_table _ Ho fd _ Hfd). Qed.

Lemma field_empty s p :
  owned s -> l_fd (listener p s) = -1 -> forall k, k <> CTest -> ~ closer p k s.
Proof.
  intros Ho Hl k Hk Hc. destruct (o_field _ Ho p) as [_ Hcl Has]. destruct k as [|fd|]; [done| |].
  - destruct (Hcl fd Hc) as [-> Hs]. destruct (listener_socket _ _ _ Ho Hs). lia.
  - destruct (Has Hc). lia.
Qed.

Lemma field_none p s :
  l_fd (listener p s) = -1 -> (forall k, k <> CTest -> ~ closer p k s) -> field_ok p s.
Proof.
  intros Hl Hn. split; [by left|intros fd Hc|intros Hc]; exfalso; by eapply Hn; [|exact Hc].
Qed.

Lemma field_same p s s' :
  l_fd (listener p s') = l_fd (listener p s) -> (forall k, k <> CTest -> closer p k s' <-> closer p k s) ->
  (sockets s' !! l_fd (listener p s) = Some (OListener p) <-> sockets s !! l_fd (listener p s) = Some (OListener p)) ->
  field_ok p s -> field_ok p s'.
Proof.
  intros El Ec Et [H1 H2 H3]. split; rewrite El.
  - rewrite Et, (Ec CAssign) by done. done.
  - intros fd Hc. rewrite (Ec (CClose fd)) in Hc by done. destruct (H2 fd Hc) as [-> Hs]. split; [done|]. by apply Et.
  - rewrite (Ec CAssign) by done. rewrite Et. done.
Qed.

(** Another thread changes the table, but not at this socket. *)
Lemma field_kept p s s' :
  main_pc s' = main_pc s -> listener p s' = listener p s ->
  (forall o, o = OListener p -> sockets s' !! l_fd (listener p s) = Some o <-> sockets s !! l_fd (listener p s) = Some o) ->
  field_ok p s -> field_ok p s'.
Proof.
  intros Em El Et. apply field_same; [by rewrite El|intros k _; unfold closer; by rewrite Em, El|by apply Et].
Qed.

Lemma initial_owned s : initial s -> owned s.
Proof.
  intros (others & -> & Ho). split; simpl; [| |by intros c ?%not_elem_of_nil|constructor|done].
  - intros fd o Hfd. by destruct (Ho fd o Hfd) as [? ->].
  - intros p. apply field_none; [by destruct p|]. intros k _ [Hm|Hp]; [done|by destruct p].
Qed.

(** The table as seen by the threads that do not take the step. *)
Lemma owned_intro s s' :
  client_threads_ s' = client_threads_ s -> accepted s' = accepted s ->
  (forall fd o, sockets s' !! fd = Some o -> 0 <= fd /\
     match o with OListener p => l_fd (listener p s') = fd | OClient _ => sockets s !! fd = Some o | OForeign => True end) ->
  (forall p, field_ok p s') ->
  (forall fd id, sockets s !! fd = Some (OClient id) -> sockets s' !! fd = Some (OClient id)) ->
  owned s -> owned s'.
Proof.
  intros Ec Ea Ht Hl Hk []. split; rewrite ?Ec, ?Ea; try done.
  - intros fd o Hfd. destruct (Ht fd o Hfd) as [H0 Ho]. split; [done|]. destruct o; try done. by destruct (o_table0 _ _ Ho).
  - intros c Hc Hpc. by apply Hk, o_clients0.
Qed.

(** The listening thread is not in [closeIfOpen] before the step, nor past its test afterwards. *)
Definition not_closing (l l' : Listener) : Prop :=
  (forall k, l_pc l <> PFail k) /\ forall k, k <> CTest -> l_pc l' <> PFail k.

Lemma closer_listener p f s q k :
  not_closing (listener p s) (f (sockets s) (listener p s)).2 -> k <> CTest ->
  closer q k (on_listener p f s) <-> closer q k s.
Proof.
  intros [Hb Ha] Hk. destruct (on_listener_spec p f s) as (_ & El & Eo & [_ Em _ _ _ _ _ _]). unfold closer. rewrite Em.
  destruct (decide (q = p)) as [->|Hq]; [|by rewrite Eo]. rewrite El. specialize (Ha k Hk). specialize (Hb k). tauto.
Qed.

Lemma owned_listener_step p f s :
  not_closing (listener p s) (f (sockets s) (listener p s)).2 ->
  fd_move (OListener p) (sockets s) (listener p s) (f (sockets s) (listener p s)) -> owned s -> owned (on_listener p f s).
Proof.
  intros Hnc Hmove Ho. pose proof (closer_listener p f s) as Hcl. destruct (on_listener_spec p f s) as (Et & El & Eo & [_ _ _ Ec _ Ea _ _]).
  assert (Hfd : forall q, q <> p -> l_fd (listener q (on_listener p f s)) = l_fd (listener q s)) by (intros q Hq; by rewrite Eo).
  pose proof (o_field _ Ho) as Hl. pose proof (o_table _ Ho) as Htab.
  destruct Hmove as [l' Hsame|l' Hold [H0 Hf]]; simpl in El, Et, Hnc.
  - assert (Hall : forall q, l_fd (listener q (on_listener p f s)) = l_fd (listener q s)).
    { intros q. destruct (decide (q = p)) as [->|Hq]; [by rewrite El|auto]. }
    apply (owned_intro s); [done|done| | |intros fd id Hc; by rewrite Et|done].
    + intros fd o Hso. rewrite Et in Hso. destruct (Htab fd o Hso) as [H0 Hm]. split; [done|].
      destruct o as [q|id|]; [|done|done]. by rewrite Hall.
    + intros q. apply (field_same q s); [apply Hall|intros k Hk; by apply Hcl|by rewrite Et|done].
  - assert (Hne : forall fd, is_Some (sockets s !! fd) -> fd <> l_fd l') by (intros fd [x Hx] ->; congruence).
    apply (owned_intro s); [done|done| | | |done].
    + intros fd o Hso. rewrite Et in Hso. apply lookup_insert_Some in Hso as [[<- <-]|[_ Hso]]; [by rewrite El|].
      destruct (Htab fd o Hso) as [Hfd0 Hm]. split; [done|]. destruct o as [q|id|]; [|done|done].
      destruct (decide (q = p)) as [->|Hq]; [lia|by rewrite Hfd].
    + intros q. destruct (decide (q = p)) as [->|Hq].
      * split; rewrite ?El, ?Et; [right; left; apply lookup_insert_eq|intros fd Hc|intros Hc]; exfalso;
          (eapply (field_empty s p Ho Hold); [|apply (Hcl p); [exact Hnc| |exact Hc]]; done).
      * apply (field_same q s); [by apply Hfd|intros k Hk; by apply Hcl| |done]. rewrite Et.
        destruct (decide (l_fd (listener q s) = l_fd l')) as [E|]; [|by rewrite lookup_insert_ne].
        rewrite E, lookup_insert_eq, Hf. split; [congruence|done].
    + intros fd id Hc. rewrite Et, lookup_insert_ne; [done|]. intros <-. by eapply Hne.
Qed.

Lemma owned_same_fd p f s :
  not_closing (listener p s) (f (sockets s) (listener p s)).2 ->
  (f (sockets s) (listener p s)).1 = sockets s -> l_fd (f (sockets s) (listener p s)).2 = l_fd (listener p s) ->
  owned s -> owned (on_listener p f s).
Proof.
  intros Hnc H1 H2. apply owned_listener_step; [done|]. destruct (f _ _) as [t l]. simpl in *. subst t. by apply fd_same.
Qed.

Lemma owned_back p s : (forall k, l_pc (listener p s) <> PFail k) -> owned s -> owned (back_to_loop p s).
Proof. intros Hpc. by apply owned_same_fd. Qed.

Lemma owned_same s s' :
  sockets s' = sockets s -> client_threads_ s' = client_threads_ s -> accepted s' = accepted s ->
  (forall p, l_fd (listener p s') = l_fd (listener p s)) -> (forall p k, k <> CTest -> closer p k s' <-> closer p k s) ->
  owned s -> owned s'.
Proof.
  intros Et Ec Ea Hl Hcl Ho. apply (owned_intro s); rewrite ?Et; try done.
  - intros fd o Hfd. destruct (o_table _ Ho fd o Hfd) as [H0 Hm]. split; [done|]. destruct o; [by rewrite Hl|done|done].
  - intros p. apply (field_same p s); [done|by apply Hcl|by rewrite Et|apply (o_field _ Ho)].
Qed.

(** *** [closeIfOpen] *)

(** A step of the one thread that is past the test, or of one that tests. *)
Lemma owned_closing p k s s' :
  -1 <= l_fd (listener p s) -> closer p k s ->
  sockets s' = (closeIfOpen k (sockets s) (listener p s)).2.1 ->
  l_fd (listener p s') = l_fd (closeIfOpen k (sockets s) (listener p s)).2.2 ->
  (forall q, q <> p -> l_fd (listener q s') = l_fd (listener q s)) ->
  client_threads_ s' = client_threads_ s -> accepted s' = accepted s ->
  (forall q k', q <> p -> k' <> CTest -> closer q k' s' <-> closer q k' s) ->
  (forall k', (closeIfOpen k (sockets s) (listener p s)).1 = Some k' -> closer p k' s') ->
  (forall k', k' <> CTest -> closer p k' s' -> (closeIfOpen k (sockets s) (listener p s)).1 = Some k' \/ k = CTest /\ closer p k' s) ->
  (forall k', k = CTest -> k' <> CTest -> closer p k' s -> closer p k' s') ->
  ((exists k1, k1 <> CTest /\ closer p k1 s) -> (closeIfOpen k (sockets s) (listener p s)).1 <> None -> k <> CTest) ->
  owned s -> owned s'.
Proof.
  intros Hr Hc Et El Eo Ecl Eacc Hq Hto Hfrom Hkeep Hcalm Ho. pose proof (o_table _ Ho) as Htab. pose proof (o_field _ Ho) as Hf.
  destruct (Hf p) as [F1 F2 F3]. destruct k as [|fd|]; simpl in *.
  - (* the test *) assert (Hall : forall q, l_fd (listener q s') = l_fd (listener q s)).
    { intros q. destruct (decide (q = p)) as [->|]; auto. }
    apply (owned_intro s); [done|done| | |intros x id Hx; by rewrite Et|done].
    + intros x o Hx. rewrite Et in Hx. destruct (Htab x o Hx) as [H0 Hm]. split; [done|]. destruct o as [q| |]; [|done|done]. by rewrite Hall.
    + intros q. destruct (decide (q = p)) as [->|Hne]; [|apply (field_same q s); [auto|auto|by rewrite Et|auto]].
      revert Hto Hfrom Hcalm. destruct (0 <=? l_fd (listener p s)) eqn:E; b2p; intros Hto Hfrom Hcalm.
      * assert (Hno : forall k1, k1 <> CTest -> ~ closer p k1 s).
        { intros k1 Hk1 Hc1. exact (Hcalm (ex_intro _ k1 (conj Hk1 Hc1)) ltac:(done) eq_refl). }
        split; rewrite ?Hall, ?Et.
        -- destruct F1 as [?|[?|Hx]]; [auto|auto|]. by apply Hno in Hx.
        -- intros x Hx. destruct (Hfrom (CClose x) ltac:(done) Hx) as [[= <-]|[_ Hx']]; [|by apply Hno in Hx'].
           split; [done|]. destruct F1 as [?|[?|Hy]]; [lia|done|]. by apply Hno in Hy.
        -- intros Hx. destruct (Hfrom CAssign ltac:(done) Hx) as [?|[_ Hx']]; [done|]. by apply Hno in Hx'.
      * assert (El1 : l_fd (listener p s) = -1) by lia. apply field_none; [by rewrite Hall|].
        intros k1 Hk1 Hx. destruct (Hfrom k1 Hk1 Hx) as [?|[_ Hx']]; [done|]. by apply (field_empty s p Ho El1 k1).
  - (* [close] *) destruct (F2 fd Hc) as [Efd Hfd]. destruct (Htab fd _ Hfd) as [H0 _]. rewrite <- Efd in El.
    apply (owned_intro s); [done|done| | | |done].
    + intros x o Hx. rewrite Et in Hx. apply lookup_delete_Some in Hx as [Hne Hx]. destruct (Htab x o Hx) as [Hx0 Hm]. split; [done|].
      destruct o as [q| |]; [|done|done]. destruct (decide (q = p)) as [->|]; [congruence|by rewrite Eo].
    + intros q. destruct (decide (q = p)) as [->|Hne].
      * split; rewrite ?El, ?Et; [right; right; by apply Hto|intros x Hx|intros _; by rewrite lookup_delete_eq].
        destruct (Hfrom (CClose x) ltac:(done) Hx) as [?|[? _]]; done.
      * apply (field_same q s); [auto|auto| |auto]. rewrite Et.
        destruct (decide (l_fd (listener q s) = fd)) as [->|]; [|by rewrite lookup_delete_ne].
        rewrite lookup_delete_eq, Hfd. split; [done|congruence].
    + intros x id Hx. rewrite Et, lookup_delete_ne; [done|]. intros ->. congruence.
  - (* the assignment *) destruct (F3 Hc) as [H0 Hn].
    apply (owned_intro s); [done|done| | |intros x id Hx; by rewrite Et|done].
    + intros x o Hx. rewrite Et in Hx. destruct (Htab x o Hx) as [Hx0 Hm]. split; [done|]. destruct o as [q| |]; [|done|done].
      destruct (decide (q = p)) as [->|]; [by rewrite Hm in Hn|by rewrite Eo].
    + intros q. destruct (decide (q = p)) as [->|Hne]; [|apply (field_same q s); [auto|auto|by rewrite Et|auto]].
      apply field_none; [done|]. intros k1 Hk1 Hx. by destruct (Hfrom k1 Hk1 Hx) as [?|[? _]].
Qed.

Lemma owned_stop_close p k s :
  main_pc s = MClose p k -> calm s -> calm (stop_close p k s) -> control s -> owned s -> owned (stop_close p k s).
Proof.
  intros Hm Hcs Hcs' Hc Ho. set (f := fun (t : gmap Z Owner) l => (closeIfOpen k t l).2).
  destruct (on_listener_spec p f s) as (Et & El & Eo & [_ _ _ Ec _ Ea _ _]).
  assert (Hl : forall q, listener q (stop_close p k s) = listener q (on_listener p f s)) by (intros q; apply listener_mk).
  assert (Hpc : forall q, l_pc (listener q (stop_close p k s)) = l_pc (listener q s)).
  { intros q. rewrite Hl. destruct (decide (q = p)) as [->|]; [rewrite El; apply closeIfOpen_pc|by rewrite Eo]. }
  assert (Hm' : forall q k', main_pc (stop_close p k s) = MClose q k' -> k' <> CTest ->
    q = p /\ (closeIfOpen k (sockets s) (listener p s)).1 = Some k').
  { intros q k'. simpl. destruct (closeIfOpen _ _ _).1; [by intros [= -> ->]|]. destruct p; [by intros [= <- <-]|done]. }
  apply (owned_closing p k s); try done.
  - apply (k_range _ Hc).
  - by left.
  - by rewrite Hl, El.
  - intros q Hq. rewrite Hl. by rewrite Eo.
  - intros q k' Hq Hk'. unfold closer. rewrite Hpc, Hm. split; (intros [Hx|Hx]; [|by right]); [by destruct (Hm' _ _ Hx Hk')|congruence].
  - intros k' Hk'. left. simpl. by rewrite Hk'.
  - intros k' Hk' [Hx|Hx]; [left; by eapply Hm'|]. rewrite Hpc in Hx. destruct (decide (k = CTest)) as [->|Hk]; [right; split; [done|by right]|].
    destruct (Hcs p). by exists k, k'.
  - intros k' -> Hk' [Hx|Hx]; [congruence|]. right. by rewrite Hpc.
  - intros (k1 & Hk1 & Hx) Hsome Ek. destruct Hx as [Hx|Hx]; [congruence|].
    destruct (closeIfOpen k (sockets s) (listener p s)).1 as [k2|] eqn:E; [|done].
    destruct (Hcs' p). exists k2, k1. split; [simpl; by rewrite E|]. split; [by rewrite Hpc|]. split; [|done].
    by eapply closeIfOpen_tested.
Qed.

Lemma owned_fail p k s :
  l_pc (listener p s) = PFail k -> calm s -> calm (run_fail p k s) -> control s -> owned s -> owned (run_fail p k s).
Proof.
  intros Hp Hcs Hcs' Hc Ho. destruct (on_listener_spec p (fail_step k) s) as (Et & El & Eo & [_ Em _ Ec _ Ea _ _]).
  fold (run_fail p k s) in Et, El, Eo, Em, Ec, Ea.
  assert (Hf : fail_step k (sockets s) (listener p s) = ((closeIfOpen k (sockets s) (listener p s)).2.1,
    (closeIfOpen k (sockets s) (listener p s)).2.2 <| l_pc := match (closeIfOpen k (sockets s) (listener p s)).1 with Some k => PFail k | None => PExit end |>)).
  { unfold fail_step. by destruct (closeIfOpen _ _ _) as [? []]. }
  rewrite Hf in Et, El. simpl in Et, El.
  assert (Hpc' : l_pc (listener p (run_fail p k s)) =
    match (closeIfOpen k (sockets s) (listener p s)).1 with Some k => PFail k | None => PExit end) by (by rewrite El).
  assert (Hpc : forall k', l_pc (listener p (run_fail p k s)) = PFail k' -> (closeIfOpen k (sockets s) (listener p s)).1 = Some k').
  { intros k'. rewrite Hpc'. destruct (closeIfOpen _ _ _).1; by intros [= ->]. }
  apply (owned_closing p k s); try done.
  - apply (k_range _ Hc).
  - by right.
  - by rewrite El.
  - intros q Hq. by rewrite Eo.
  - intros q k' Hq Hk'. unfold closer. by rewrite Em, Eo.
  - intros k' Hk'. right. by rewrite Hpc', Hk'.
  - intros k' Hk' [Hx|Hx]; [|left; by apply Hpc]. rewrite Em in Hx. destruct (decide (k = CTest)) as [->|Hk]; [right; split; [done|by left]|].
    destruct (Hcs p). by exists k', k.
  - intros k' -> Hk' [Hx|Hx]; [|congruence]. left. by rewrite Em.
  - intros (k1 & Hk1 & Hx) Hsome Ek. destruct Hx as [Hx|Hx]; [|congruence].
    destruct (closeIfOpen k (sockets s) (listener p s)).1 as [k2|] eqn:E; [|done].
    destruct (Hcs' p). exists k1, k2. split; [by rewrite Em|]. split; [by rewrite Hpc'|]. split; [done|].
    by eapply closeIfOpen_tested.
Qed.

Lemma owned_world s t :
  (forall fd o, t !! fd = Some o -> 0 <= fd /\ (sockets s !! fd = Some o \/ o = OForeign)) ->
  (forall fd o, o <> OForeign -> sockets s !! fd = Some o -> t !! fd = Some o) -> owned s -> owned (s <| sockets := t |>).
Proof.
  intros Ht Hk Ho. apply (owned_intro s); simpl; try done.
  - intros fd o Hfd. destruct (Ht fd o Hfd) as [H0 [Hs| ->]]; [|done]. split; [done|]. destruct (o_table _ Ho fd o Hs) as [_ Hm].
    by destruct o as [[]| |].
  - intros p. apply (field_same p s); [by destruct p|intros k _; by destruct p| |apply (o_field _ Ho)]. simpl. split.
    + intros Hx. by destruct (Ht _ _ Hx) as [_ [?|?]].
    + by apply Hk.
  - intros fd id. by apply Hk.
Qed.

Lemma owned_accept connection s :
  l_pc (tcp s) = PIo ->
  (forall fd remote, connection = Some (fd, remote) -> is_open (l_fd (tcp s)) s /\ fresh fd (sockets s)) ->
  owned s -> owned (tcp_accept config inet_ntop connection s).
Proof.
  intros Hpc Hconn Ho. unfold tcp_accept. destruct connection as [[fd remote]|]; [|apply owned_back; [by simpl; rewrite Hpc|done]].
  cbv zeta. case_match; [apply owned_back; [by simpl; rewrite Hpc|done]|]. apply owned_back; [by simpl; rewrite Hpc|]. destruct (Hconn fd remote eq_refl) as [_ [H0 Hf]]. clear Hconn. destruct Ho. split; simpl.
  - intros x o. rewrite lookup_insert_Some. intros [[<- <-]|[Hne Hx]].
    + split; [done|]. eexists. split; [apply elem_of_app; right; by apply list_elem_of_singleton|]. by split.
    + destruct (o_table0 x o Hx) as [? Hm]. split; [done|]. destruct o as [[]|id|]; try done.
      destruct Hm as (c & Hc & Hh). exists c. split; [set_solver|done].
  - intros p. apply (field_kept p s); [done|by destruct p| |done]. intros o ->. simpl.
    destruct (decide (l_fd (listener p s) = fd)) as [->|]; [|by rewrite lookup_insert_ne].
    rewrite lookup_insert_eq, Hf. by split.
  - intros c. rewrite elem_of_app, list_elem_of_singleton. intros [Hc| ->] Hx; [|by rewrite lookup_insert_eq].
    specialize (o_clients0 c Hc Hx). rewrite lookup_insert_ne; [done|]. intros E. by rewrite <- E, Hf in o_clients0.
  - rewrite fmap_app. apply NoDup_app. split; [done|]. split; [|apply NoDup_singleton].
    intros id (c & -> & Hc)%list_elem_of_fmap Hin. simpl in Hin. apply list_elem_of_singleton in Hin.
    eapply Forall_forall in o_next0; [|exact Hc]. simpl in *. lia.
  - apply Forall_app. split; [|constructor; [simpl; lia|done]]. eapply Forall_impl; [exact o_next0|]. simpl. lia.
Qed.

(** A client thread that keeps its descriptor. *)
Lemma owned_client s i c c' :
  client_threads_ s !! i = Some c -> ct_pc c <> CExit -> ct_pc c' <> CExit -> ct_id c' = ct_id c -> ct_fd c' = ct_fd c ->
  owned s -> owned (update_client i c' s).
Proof.
  intros Hi Hpc Hpc' Hid Hfd []. pose proof (lookup_lt_Some _ _ _ Hi) as Hlt.
  assert (Hin : forall x, x ∈ client_threads_ s -> x = c \/ x ∈ <[i := c']> (client_threads_ s)).
  { intros x [j Hj]%list_elem_of_lookup. destruct (decide (j = i)) as [->|]; [left; congruence|right].
    apply list_elem_of_lookup. exists j. by rewrite list_lookup_insert_ne. }
  assert (Hc' : c' ∈ <[i := c']> (client_threads_ s)) by (apply list_elem_of_lookup; exists i; by apply list_lookup_insert_eq).
  assert (Hids : ct_id <$> <[i := c']> (client_threads_ s) = ct_id <$> client_threads_ s).
  { rewrite list_fmap_insert. apply list_insert_id. by rewrite list_lookup_fmap, Hi, Hid. }
  split; simpl.
  - intros fd o Hfo. destruct (o_table0 fd o Hfo) as [H0 Hm]. split; [done|]. destruct o as [[]|id|]; try done.
    destruct Hm as (x & Hx & Hh). destruct (Hin x Hx) as [->|?]; [|by eauto]. exists c'. split; [done|].
    destruct Hh as (_ & <- & <-). by split.
  - intros p. by apply (field_kept p s); [|destruct p|..].
  - intros x Hx Hxp. apply list_elem_of_lookup in Hx as [j Hj]. apply list_lookup_insert_Some in Hj as [(<- & <- & _)|[_ Hj]].
    + rewrite Hfd, Hid. apply o_clients0; [|done]. apply list_elem_of_lookup. eauto.
    + apply o_clients0; [|done]. apply list_elem_of_lookup. eauto.
  - by rewrite Hids.
  - apply Forall_insert; [done|]. rewrite Hid. by apply (Forall_lookup_1 _ _ _ _ o_next0 Hi).
Qed.

(** Two client threads with the same number are the same thread. *)
Lemma same_client s i j c x :
  owned s -> client_threads_ s !! i = Some c -> client_threads_ s !! j = Some x -> ct_id x = ct_id c -> i = j.
Proof.
  intros Ho Hi Hj Hid. eapply NoDup_lookup; [exact (o_ids _ Ho)| |]; rewrite list_lookup_fmap.
  - by rewrite Hi.
  - by rewrite Hj, <- Hid.
Qed.

Lemma owned_finish s i c :
  client_threads_ s !! i = Some c -> ct_pc c = CFinish -> owned s -> owned (client_finish config i c s).
Proof.
  intros Hi Hpc Ho. pose proof (same_client s i) as Hsame. set (cs := <[i := client_flush config c]> (client_threads_ s)).
  assert (Hother : forall x, x ∈ cs -> ct_pc x <> CExit -> exists j, j <> i /\ client_threads_ s !! j = Some x).
  { intros x [j Hj]%list_elem_of_lookup Hx. apply list_lookup_insert_Some in Hj as [(_ & <- & _)|[Hne Hj]]; [done|eauto]. }
  assert (Hown : sockets s !! ct_fd c = Some (OClient (ct_id c))).
  { apply (o_clients _ Ho); [|by rewrite Hpc]. apply list_elem_of_lookup. eauto. }
  assert (Hids : ct_id <$> cs = ct_id <$> client_threads_ s).
  { unfold cs. rewrite list_fmap_insert. apply list_insert_id. by rewrite list_lookup_fmap, Hi. }
  split; simpl; fold cs.
  - intros fd o Hfo. apply lookup_delete_Some in Hfo as [Hne Hfo]. destruct (o_table _ Ho fd o Hfo) as [H0 Hm]. split; [done|].
    destruct o as [[]|id|]; try done. destruct Hm as (x & [j Hj]%list_elem_of_lookup & Hh). exists x. split; [|done].
    apply list_elem_of_lookup. exists j. unfold cs. rewrite list_lookup_insert_ne; [done|]. intros ->.
    rewrite Hi in Hj. injection Hj as <-. destruct Hh as (_ & _ & Hx). done.
  - intros p. apply (field_kept p s); [done|by destruct p| |apply (o_field _ Ho)]. intros o ->. simpl.
    destruct (decide (l_fd (listener p s) = ct_fd c)) as [->|]; [|by rewrite lookup_delete_ne].
    rewrite lookup_delete_eq, Hown. by split.
  - intros x Hx Hxp. destruct (Hother x Hx Hxp) as (j & Hne & Hj).
    assert (Hxo : sockets s !! ct_fd x = Some (OClient (ct_id x))).
    { apply (o_clients _ Ho); [|done]. apply list_elem_of_lookup. eauto. }
    rewrite lookup_delete_ne; [done|]. intros E. rewrite E in Hown. destruct Hne. symmetry. eapply Hsame; eauto. congruence.
  - rewrite Hids. apply (o_ids _ Ho).
  - apply Forall_insert; [apply (o_next _ Ho)|]. apply (Forall_lookup_1 _ _ _ _ (o_next _ Ho) Hi).
Qed.

Lemma owned_start s : main_pc s = MNew -> control s -> owned s -> owned (syslog_start config s).
Proof.
  intros Hm Hc Ho. destruct (k_new _ Hc Hm) as (Hl & _ & _).
  assert (Hst : forall p x, owned x -> (forall k, l_pc (listener p x) <> PFail k) -> owned (start_thread config p x)).
  { intros p x Hx Hp. unfold start_thread. destruct (transport_enabled config p); [by apply owned_same_fd|done]. }
  assert (Hu : l_pc (udp s) = PNone) by exact (f_equal l_pc (Hl Udp)).
  assert (Ht : l_pc (tcp s) = PNone) by exact (f_equal l_pc (Hl Tcp)).
  set (s0 := s <| running_ := true |>). set (s1 := start_thread config Udp s0). set (s2 := start_thread config Tcp s1).
  assert (Hm2 : main_pc s2 = MNew).
  { unfold s2, s1, start_thread. by destruct (transport_enabled config Tcp), (transport_enabled config Udp). }
  assert (El : forall p, listener p (syslog_start config s) = listener p s2) by (by intros []).
  apply (owned_same s2); [done..| | |].
  - intros p. by rewrite El.
  - intros p k _. unfold closer. rewrite El, Hm2. simpl. split; (intros [?|?]; [done|by right]).
  - apply Hst; [apply Hst|].
    + apply (owned_same s); done || by intros [].
    + simpl. by rewrite Hu.
    + unfold s1, start_thread. destruct (transport_enabled config Udp); simpl; by rewrite Ht.
Qed.

Lemma owned_join_clients s :
  main_pc s = MJoinClients -> Forall (fun c => ct_pc c = CExit) (client_threads_ s) -> owned s -> owned (stop_join_clients s).
Proof.
  intros Hm Hexit []. split; simpl; [| |by intros c ?%not_elem_of_nil|constructor|done].
  - intros fd o Hfo. destruct (o_table0 fd o Hfo) as [H0 Hx]. split; [done|]. destruct o as [[]|id|]; try done.
    destruct Hx as (c & Hc & Hpc & _). eapply Forall_forall in Hexit; [|exact Hc]. done.
  - intros p. apply (field_same p s); [by destruct p| |done|done]. intros k _. assert (El : listener p (stop_join_clients s) = listener p s) by (by destruct p). unfold closer. rewrite El, Hm. simpl.
    split; (intros [?|?]; [done|by right]).
Qed.

(** What [stop] does outside of [closeIfOpen]. *)
Lemma owned_main s s' :
  sockets s' = sockets s -> client_threads_ s' = client_threads_ s -> accepted s' = accepted s ->
  (forall p, l_fd (listener p s') = l_fd (listener p s)) ->
  (forall p k, k <> CTest -> main_pc s <> MClose p k /\ main_pc s' <> MClose p k) ->
  (forall p k, l_pc (listener p s') = PFail k <-> l_pc (listener p s) = PFail k) -> owned s -> owned s'.
Proof.
  intros Et Ec Ea El Em Ep. apply owned_same; try done. intros p k Hk. unfold closer. rewrite Ep. destruct (Em p k Hk). tauto.
Qed.

Lemma owned_step a s s' : step a s s' -> calm s -> calm s' -> control s -> owned s -> owned s'.
Proof.
  intros Hstep Hcs Hcs' Hc Ho. pose proof (k_range _ Hc) as Hrange. pose proof (k_start _ Hc) as Hstart.
  destruct Hstep as [s Hm|s Hm|p k s Hm|p s Hm Hj|s Hm Hexit|p fd s Hpc Hfd|p parsed ok s Hpc _|ok s Hpc _|p k s Hpc|p s Hpc|p s Hpc|p fd ready s Hpc
    |received s Hpc _ _|connection s Hpc Hconn|i c s Hi Hpc|i c r s Hi Hpc _ _|i c s Hi Hpc _|fd s [H0 Hf]|fd s Hfd].
  - by apply owned_start.
  - apply (owned_main s); [done..|by intros []| |by intros []|done]. intros p k Hk. split; [destruct Hm as [?|[?|?]]; congruence|]. by intros [= _ <-].
  - by apply owned_stop_close.
  - apply (owned_main (on_listener p (fun t l => (t, l <| l_pc := PNone |>)) s)); [by destruct p..|by destruct p; intros []| |by destruct p; intros []|].
    { intros q k _. split; [|by destruct p]. by destruct p; simpl; rewrite Hm. }
    apply owned_same_fd; [split; [|done]|done..]. intros k E. destruct Hj; congruence.
  - by apply owned_join_clients.
  - apply owned_listener_step; [split; [by rewrite Hpc|]| |done].
    + intros k _. unfold open_socket. destruct (parseAddress _); [|done]. by destruct (_ <? _).
    + apply open_socket_fd; auto.
  - apply owned_same_fd; [split; [by rewrite Hpc|]|by destruct ok..|done]. intros k Hk. destruct ok; simpl; [by destruct p|]. by intros [= <-].
  - apply owned_same_fd; [split; [by simpl; rewrite Hpc|]|by destruct ok..|done]. intros k Hk. destruct ok; simpl; [done|]. by intros [= <-].
  - by apply owned_fail.
  - apply owned_same_fd; [split; [by rewrite Hpc|]|done..]. intros k _. simpl. by destruct (running_ s).
  - by apply owned_same_fd; [split; [rewrite Hpc|]|..].
  - apply owned_same_fd; [split; [by rewrite Hpc|]|done..]. intros k _. simpl. by destruct (_ && _).
  - unfold udp_receive. apply owned_back; [by destruct received as [[]|]; simpl; rewrite Hpc|].
    destruct received as [[]|]; [|done]. apply (owned_same s); try done; by intros [].
  - by apply owned_accept.
  - apply (owned_client s i c); try done; [by rewrite Hpc|]. simpl. by destruct (running_ s).
  - apply (owned_client s i c); try done; [by rewrite Hpc|..]; by destruct r.
  - by apply owned_finish.
  - apply owned_world; [..|done].
    + intros x o [[<- <-]|[_ Hx]]%lookup_insert_Some; [by auto|]. destruct (o_table _ Ho x o Hx). auto.
    + intros x o Hno Hx. rewrite lookup_insert_ne; [done|]. intros ->. congruence.
  - apply owned_world; [..|done].
    + intros x o [_ Hx]%lookup_delete_Some. destruct (o_table _ Ho x o Hx). auto.
    + intros x o Hno Hx. rewrite lookup_delete_ne; [done|]. intros ->. congruence.
Qed.

(** The states that are reached without two calls of [closeIfOpen] overlapping. *)
Definition calm_reachable s : Prop := exists s0, initial s0 /\ rtc (fun x y => any_step x y /\ calm y) s0 s.

Lemma calm_reachable_reachable s : calm_reachable s -> reachable_threads s.
Proof.
  intros (s0 & Hi & Hr). exists s0. split; [done|]. eapply rtc_subrel; [|exact Hr]. by intros x y [H _].
Qed.

(** No overlap while no listening thread is in [closeIfOpen]. *)
Lemma calm_more s s' :
  calm_reachable s -> any_step s s' -> (forall p, match l_pc (listener p s') with PFail _ => False | _ => True end) ->
  calm_reachable s'.
Proof.
  intros (s0 & Hi & Hr) Hs Hf. exists s0. split; [done|]. eapply rtc_r; [exact Hr|]. split; [done|].
  intros p (k & k' & _ & Hk & _). specialize (Hf p). by rewrite Hk in Hf.
Qed.

Lemma initial_calm s : initial s -> calm s.
Proof. intros (others & -> & _) p (k & k' & Hm & _). done. Qed.

Lemma calm_reachable_owned s : calm_reachable s -> calm s /\ control s /\ owned s.
Proof.
  intros (s0 & Hi & Hr). assert (H0 : calm s0 /\ control s0 /\ owned s0) by auto using initial_calm, initial_control, initial_owned.
  clear Hi. induction Hr as [s|s s1 s2 [[a Hs] Hcs] _ IH]; [done|]. destruct H0 as (H1 & H2 & H3).
  apply IH. split_and!; [done|by eapply control_step|by eapply owned_step].
Qed.

(** A server that has not been stopped was not before the step. *)
Lemma unstopped_back a s s' :
  step a s s' -> main_pc s' = MNew \/ main_pc s' = MUp -> main_pc s = MNew \/ main_pc s = MUp.
Proof.
  intros Hstep H. assert (Hsame : main_pc s' = main_pc s -> main_pc s = MNew \/ main_pc s = MUp) by (by intros <-).
  destruct Hstep as [s Hm|s Hm|p k s Hm|p s Hm _|s Hm _|p fd s Hpc Hfd|p parsed ok s Hpc _|ok s Hpc _|p k s Hpc|p s Hpc|p s Hpc|p fd ready s Hpc
    |received s Hpc _ _|connection s Hpc _|i c s Hi Hpc|i c r s Hi Hpc _ _|i c s Hi Hpc _|fd s _|fd s _]; try (by left);
    try (by apply Hsame); try (by apply Hsame, on_listener_spec).
  - simpl in H. by destruct H.
  - simpl in H. destruct (closeIfOpen _ _ _).1; destruct p, H; done.
  - simpl in H. destruct p, H; done.
  - simpl in H. by destruct H.
  - apply Hsame. by destruct received as [[]|].
  - apply Hsame. unfold tcp_accept. destruct connection as [[]|]; [|done]. cbv zeta. by case_match.
Qed.

(** While the server runs no [closeIfOpen] has overlapped another. *)
Lemma running_calm s : reachable_threads s -> main_pc s = MNew \/ main_pc s = MUp -> calm_reachable s.
Proof.
  intros (s0 & Hi & Hr) Hm. exists s0. split; [done|]. revert s Hr Hm.
  apply (rtc_ind_r (fun s => main_pc s = MNew \/ main_pc s = MUp -> rtc _ s0 s)); [done|].
  intros s1 s2 _ [a Hs] IH Hm. eapply rtc_r; [apply IH; by eapply unstopped_back|].
  split; [by exists a|]. intros p (k & k' & Hk & _). destruct Hm; congruence.
Qed.

(** [closeIfOpen] of a thread that does not overlap another closes the socket of the field. *)
Lemma closing_foreign p k s fd :
  closer p k s -> owned s -> sockets s !! fd = Some OForeign ->
  (closeIfOpen k (sockets s) (listener p s)).2.1 !! fd = Some OForeign.
Proof.
  intros Hc Ho Hfd. destruct k as [|x|]; simpl; [done| |done]. destruct (f_close _ _ (o_field _ Ho p) x Hc) as [_ Hx].
  rewrite lookup_delete_ne; [done|]. intros ->. congruence.
Qed.

(** A step of the receiver leaves the descriptors of the rest of the process alone. *)
Lemma foreign_kept a s s' fd :
  step a s s' -> control s -> owned s -> a <> AWorld -> sockets s !! fd = Some OForeign -> sockets s' !! fd = Some OForeign.
Proof.
  intros Hstep Hc Ho Ha Hfd.
  assert (Htab : forall p f, (f (sockets s) (listener p s)).1 !! fd = Some OForeign -> sockets (on_listener p f s) !! fd = Some OForeign).
  { intros p f Hm. by destruct (on_listener_spec p f s) as (-> & _ & _). }
  destruct Hstep as [s Hm|s Hm|p k s Hm|p s Hm _|s Hm _|p x s Hpc Hx|p parsed ok s Hpc _|ok s Hpc _|p k s Hpc|p s Hpc|p s Hpc|p x ready s Hpc
    |received s Hpc _ _|connection s Hpc Hconn|i c s Hi Hpc|i c r s Hi Hpc _ _|i c s Hi Hpc _|x s [H0 Hf]|x s Hx]; try done; try (by apply Htab).
  - unfold syslog_start, start_thread. by destruct (transport_enabled config Tcp), (transport_enabled config Udp).
  - apply Htab, closing_foreign; [by left|done..].
  - apply Htab. unfold open_socket. destruct (parseAddress _); [|done]. destruct (x <? 0) eqn:E; [done|]. simpl. b2p.
    destruct Hx as [->|[_ Hx]]; [lia|]. rewrite lookup_insert_ne; [done|congruence].
  - apply Htab. by destruct ok.
  - apply Htab. by destruct ok.
  - apply Htab. pose proof (closing_foreign p k s fd) as H. unfold fail_step. destruct (closeIfOpen _ _ _) as [? []]. simpl in *. apply H; [by right|done..].
  - by destruct received as [[]|].
  - destruct connection as [[x remote]|]; [|done]. unfold tcp_accept. cbv zeta. case_match; [done|]. simpl.
    destruct (Hconn x remote eq_refl) as [_ [_ Hf]]. rewrite lookup_insert_ne; [done|congruence].
  - simpl. rewrite lookup_delete_ne; [done|]. intros E.
    assert (Hown : sockets s !! ct_fd c = Some (OClient (ct_id c))).
    { apply (o_clients _ Ho); [|by rewrite Hpc]. apply list_elem_of_lookup. eauto. }
    congruence.
Qed.

(** What is open when [stop] has returned. *)
Lemma stopped_sockets s :
  control s -> owned s -> main_pc s = MStopped ->
  (forall fd o, sockets s !! fd = Some o -> o = OForeign \/ exists p, o = OListener p /\ fd = l_fd (listener p s)) /\
  ((2 <= stops s)%nat -> forall fd o, sockets s !! fd = Some o -> o = OForeign).
Proof.
  intros Hc Ho Hm. pose proof (k_clients _ Hc (k_stopped _ Hc Hm)) as Hcl.
  assert (Hown : forall fd o, sockets s !! fd = Some o ->
            0 <= fd /\ (o = OForeign \/ exists p, o = OListener p /\ fd = l_fd (listener p s))).
  { intros fd o Hfd. destruct (o_table _ Ho fd o Hfd) as [H0 Hown]. split; [done|]. destruct o as [p|id|]; [by eauto| |by left].
    destruct Hown as (c & Hin & _). rewrite Hcl in Hin. by apply not_elem_of_nil in Hin. }
  split; [by apply Hown|]. intros Hs fd o Hfd. destruct (Hown fd o Hfd) as [H0 [?|(p & _ & ->)]]; [done|].
  rewrite (k_closed _ Hc p) in H0 by (by left). lia.
Qed.

Lemma stopped_receiver s :
  control s -> main_pc s = MStopped ->
  running_ s = false /\ (forall p, l_pc (listener p s) = PNone) /\ client_threads_ s = [].
Proof.
  intros Hc Hm. pose proof (k_stopped _ Hc Hm) as Hs. split_and!.
  - destruct (running_ s) eqn:E; [|done]. apply (k_running _ Hc) in E. congruence.
  - intros p. apply (k_joined _ Hc). by left.
  - by apply (k_clients _ Hc).
Qed.

(** ** What the listeners select on *)

Definition serving (p : Proto) (l : Listener) : Prop :=
  match l_pc l with
  | PBind parsed => parseAddress (address_of config p) = Some parsed
  | PListen | PCheck | PWait | PSelect _ | PIo =>
      exists parsed, parseAddress (address_of config p) = Some parsed /\ l_bound l = Some (makeSockaddr inet_pton parsed)
  | _ => True
  end /\ (p = Udp -> l_pc l <> PListen).

Definition holding (l : Listener) : Prop :=
  match l_pc l with
  | PBind _ | PListen | PCheck | PWait | PIo => 0 <= l_fd l
  | PSelect fd => fd = l_fd l /\ 0 <= fd
  | _ => True
  end.

Definition attached s : Prop :=
  forall p, serving p (listener p s) /\ (running_ s = true -> holding (listener p s)).

Lemma attached_listener p f s :
  (serving p (listener p s) -> serving p (f (sockets s) (listener p s)).2) ->
  (holding (listener p s) -> running_ s = true -> holding (f (sockets s) (listener p s)).2) ->
  attached s -> attached (on_listener p f s).
Proof.
  intros Hs Hh Ha q. destruct (on_listener_spec p f s) as (_ & El & Eo & [Er _ _ _ _ _ _ _]). rewrite Er.
  destruct (decide (q = p)) as [->|Hq]; [rewrite El|rewrite Eo by done; apply Ha]. destruct (Ha p). auto.
Qed.

Lemma attached_same s s' :
  running_ s' = running_ s -> (forall p, listener p s' = listener p s) -> attached s -> attached s'.
Proof. intros Er El Ha p. rewrite Er, El. apply Ha. Qed.

Lemma attached_back p s : l_pc (listener p s) = PIo -> attached s -> attached (back_to_loop p s).
Proof.
  intros Hpc. apply attached_listener; unfold serving, holding; rewrite Hpc; simpl; [|done].
  by intros [H _].
Qed.

Lemma attached_step a s s' : step a s s' -> control s -> attached s -> attached s'.
Proof.
  intros Hstep Hc Ha.
  destruct Hstep as [s Hm|s Hm|p k s Hm|p s Hm _|s Hm Hexit|p fd s Hpc Hfd|p parsed ok s Hpc _|ok s Hpc _|p k s Hpc|p s Hpc|p s Hpc|p fd ready s Hpc
    |received s Hpc _ _|connection s Hpc Hconn|i c s Hi Hpc|i c r s Hi Hpc _ _|i c s Hi Hpc _|fd s [H0 Hf]|fd s Hfd];
    try (by (eapply attached_same; [..|exact Ha]; [done|intros []])).
  - assert (Hst : forall p x, attached x -> attached (start_thread config p x)).
    { intros p x Hx. unfold start_thread. destruct (transport_enabled config p); [by apply attached_listener|done]. }
    eapply attached_same; [..|apply Hst, Hst]; [done|by intros []|]. intros p.
    destruct (k_new _ Hc Hm) as (Hl & _). assert (E : listener p (s <| running_ := true |>) = new_Listener) by (rewrite <- (Hl p); by destruct p).
    by rewrite E.
  - intros p. split; [|done]. destruct (Ha p) as [Hs _]. by destruct p.
  - assert (Hr : running_ s <> true) by (intros H; apply (k_running _ Hc) in H; congruence).
    eapply attached_same; [..|apply (attached_listener p (fun t l => (closeIfOpen k t l).2)), Ha]; [done|by intros []| |done].
    by destruct k.
  - eapply attached_same; [..|apply (attached_listener p (fun t l => (t, l <| l_pc := PNone |>))), Ha]; done || by intros [].
  - apply attached_listener; [..|done]; unfold open_socket; destruct (parseAddress (address_of config p)) as [parsed|] eqn:Ep; simpl; try done.
    + by destruct (_ <? _).
    + intros _ _. destruct (_ <? _) eqn:E; [done|]. unfold holding. simpl. blia.
  - apply attached_listener; [..|done]; unfold serving, holding; rewrite Hpc; destruct ok; simpl; try done; [|by destruct p].
    intros [Hp _]. by destruct p; (split; [eauto|done]).
  - apply attached_listener; [..|done]; unfold serving, holding; simpl; rewrite Hpc; destruct ok; simpl; try done. by intros [H _].
  - apply attached_listener; [..|done]; unfold fail_step; destruct k; simpl; try destruct (0 <=? _); done.
  - apply attached_listener; [..|done]; unfold serving, holding; rewrite Hpc; simpl; destruct (running_ s); naive_solver.
  - apply attached_listener; [..|done]; unfold serving, holding; rewrite Hpc; simpl; [|done]. naive_solver.
  - apply attached_listener; [..|done]; unfold serving, holding; rewrite Hpc; simpl; [|by destruct (_ && _); intros [<- ?]].
    intros [H _]. by destruct (_ && _).
  - destruct received as [[]|]; (apply attached_back; [done|]); [|done]. eapply attached_same; [..|exact Ha]; [done|by intros []].
  - unfold tcp_accept. destruct connection as [[x remote]|]; [|by apply attached_back]. cbv zeta.
    case_match; apply attached_back; done.
Qed.

Lemma reachable_attached s : reachable_threads s -> control s /\ attached s.
Proof.
  apply (reachable_ind _ _ _ _ (fun s => control s /\ attached s)).
  - intros s0 (others & -> & Ho). split; [apply initial_control; by exists others|]. by intros [].
  - intros a s1 s2 Hs [Hc Ha]. split; [by eapply control_step|by eapply attached_step].
Qed.

(** ** [stop] comes to its end *)

(** Between the moment [stop] cleared the flag and its end. *)
Definition stopping s : Prop := match main_pc s with MClose _ _ | MJoin _ | MJoinClients => True | _ => False end.

Definition main_rank (pc : MainPc) : nat :=
  match pc with
  | MClose Udp k => 6 + closing_rank k
  | MClose Tcp k => 3 + closing_rank k
  | MJoin Udp => 3
  | MJoin Tcp => 2
  | MJoinClients => 1
  | _ => 0
  end.

Definition client_rank c : nat := match ct_pc c with CCheck => 2 | CRecv => 3 | CFinish => 1 | CExit => 0 end.

Definition clients_rank (cs : list Client) : nat := sum_list (client_rank <$> cs).

(** How many steps the threads can still take when the flag is cleared. *)
Definition rank s : nat :=
  main_rank (main_pc s) + pc_rank 1 (l_pc (udp s)) + pc_rank 3 (l_pc (tcp s)) + clients_rank (client_threads_ s).

Lemma clients_rank_app cs ds : clients_rank (cs ++ ds) = (clients_rank cs + clients_rank ds)%nat.
Proof. unfold clients_rank. by rewrite fmap_app, sum_list_with_app. Qed.

Lemma clients_rank_insert cs i c c' :
  cs !! i = Some c -> (clients_rank (<[i := c']> cs) + client_rank c = clients_rank cs + client_rank c')%nat.
Proof.
  intros Hi. rewrite <- (take_drop_middle cs i c Hi) at 2.
  rewrite (insert_take_drop cs i c') by (by eapply lookup_lt_Some).
  rewrite !clients_rank_app. change (clients_rank (?x :: ?l)) with (client_rank x + clients_rank l)%nat. lia.
Qed.

Definition io_of (p : Proto) : nat := match p with Udp => 1 | Tcp => 3 end.

Lemma rank_listener p f s :
  (rank (on_listener p f s) + pc_rank (io_of p) (l_pc (listener p s)) =
   rank s + pc_rank (io_of p) (l_pc (f (sockets s) (listener p s)).2))%nat.
Proof.
  destruct (on_listener_spec p f s) as (_ & El & Eo & [_ Em _ Ec _ _ _ _]). unfold rank. rewrite Em, Ec.
  destruct p; simpl in El |- *; rewrite El.
  - specialize (Eo Tcp ltac:(done)). simpl in Eo. rewrite Eo. lia.
  - specialize (Eo Udp ltac:(done)). simpl in Eo. rewrite Eo. lia.
Qed.

Lemma rank_client s i c c' :
  client_threads_ s !! i = Some c -> (client_rank c' < client_rank c)%nat -> (rank (update_client i c' s) < rank s)%nat.
Proof. intros Hi Hlt. pose proof (clients_rank_insert _ i c c' Hi). unfold rank. simpl. lia. Qed.

Lemma rank_add_client s t c n :
  rank (s <| sockets := t |> <| client_threads_ := client_threads_ s ++ [c] |> <| accepted := n |>) = (rank s + client_rank c)%nat.
Proof. unfold rank. simpl. rewrite clients_rank_app. change (clients_rank [c]) with (client_rank c + 0)%nat. lia. Qed.

Lemma rank_back p s :
  l_pc (listener p s) = PIo -> (rank (back_to_loop p s) + S (io_of p) = rank s + 1)%nat.
Proof. intros Hpc. pose proof (rank_listener p (fun t l => (t, l <| l_pc := PCheck |>)) s) as H. by rewrite Hpc in H. Qed.

(** A step that is not of the rest of the process brings the end nearer. *)
Lemma step_rank a s s' :
  step a s s' -> control s -> stopping s -> a <> AWorld -> (rank s' < rank s)%nat.
Proof.
  intros Hstep Hc Hstop Ha. assert (Hrun : running_ s = false).
  { destruct (running_ s) eqn:E; [|done]. apply (k_running _ Hc) in E. unfold stopping in Hstop. by rewrite E in Hstop. }
  destruct Hstep as [s Hm|s Hm|p k s Hm|p s Hm _|s Hm Hexit|p fd s Hpc Hfd|p parsed ok s Hpc _|ok s Hpc _|p k s Hpc|p s Hpc|p s Hpc|p fd ready s Hpc
    |received s Hpc _ _|connection s Hpc Hconn|i c s Hi Hpc|i c r s Hi Hpc _ _|i c s Hi Hpc _|fd s [H0 Hf]|fd s Hfd]; try done;
    unfold stopping in Hstop.
  - by rewrite Hm in Hstop.
  - destruct Hm as [Hm|[Hm|Hm]]; by rewrite Hm in Hstop.
  - set (f := fun (t : gmap Z Owner) l => (closeIfOpen k t l).2).
    pose proof (rank_listener p f s) as H. unfold f in H at 2. rewrite closeIfOpen_pc in H.
    destruct (on_listener_spec p f s) as (_ & _ & _ & [_ Em _ _ _ _ _ _]).
    pose proof (closeIfOpen_rank k (sockets s) (listener p s)) as Hk.
    unfold rank in *. rewrite Em, Hm in H. unfold stop_close. simpl. fold f. rewrite Hm.
    destruct (closeIfOpen k (sockets s) (listener p s)).1, p; simpl in *; lia.
  - pose proof (rank_listener p (fun t l => (t, l <| l_pc := PNone |>)) s) as H.
    destruct (on_listener_spec p (fun t l => (t, l <| l_pc := PNone |>)) s) as (_ & _ & _ & [_ Em _ _ _ _ _ _]).
    unfold rank in *. rewrite Em, Hm in H. unfold stop_join. simpl. rewrite Hm. destruct p; simpl in *; lia.
  - unfold rank. simpl. rewrite Hm. change (clients_rank []) with 0%nat. simpl. lia.
  - pose proof (rank_listener p (open_socket (OListener p) (address_of config p) fd) s) as H.
    pose proof (open_socket_rank (io_of p) (OListener p) (address_of config p) fd (sockets s) (listener p s)).
    rewrite Hpc in H. unfold run_socket. simpl in H. lia.
  - set (next := match p with Udp => PCheck | Tcp => PListen end).
    pose proof (rank_listener p (bind_socket inet_pton parsed next ok) s) as H. rewrite Hpc in H.
    pose proof (bind_socket_rank (io_of p) inet_pton parsed next ok (sockets s) (listener p s) ltac:(destruct p; simpl; lia)).
    unfold run_bind. fold next. cbn [pc_rank] in H. lia.
  - pose proof (rank_listener Tcp (listen_socket ok) s) as H. cbn [listener] in H. rewrite Hpc in H.
    pose proof (listen_socket_rank 3 ok (sockets s) (tcp s)). unfold run_listen. cbn [pc_rank io_of] in H. lia.
  - pose proof (rank_listener p (fail_step k) s) as H. rewrite Hpc in H.
    pose proof (fail_step_rank (io_of p) k (sockets s) (listener p s)). unfold run_fail. cbn [pc_rank] in H. lia.
  - pose proof (rank_listener p (fun t l => (t, check_running (running_ s) l)) s) as H. rewrite Hpc, Hrun in H. unfold run_check. rewrite Hrun in *. simpl in *. lia.
  - pose proof (rank_listener p (fun t l => (t, enter_select l)) s) as H. rewrite Hpc in H. unfold run_wait. simpl in *. lia.
  - pose proof (rank_listener p (fun t l => (t, leave_select (running_ s) ready l)) s) as H. rewrite Hpc, Hrun in H. unfold run_select. rewrite Hrun. simpl in *. lia.
  - unfold udp_receive. destruct received as [[remote payload]|]; cbv zeta;
      match goal with |- context [back_to_loop Udp ?x] => pose proof (rank_back Udp x Hpc) as H; change (rank x) with (rank s) in H end;
      cbn [io_of] in H; lia.
  - clear Hstop. unfold tcp_accept. destruct connection as [[x remote]|]; cbv zeta;
      [destruct (negb (shouldAccept config (peerIp inet_ntop remote)))|];
      match goal with |- context [back_to_loop Tcp ?x] => pose proof (rank_back Tcp x Hpc) as H end; cbn [io_of] in H; try lia.
    rewrite rank_add_client in H. cbn [client_rank ct_pc] in H. lia.
  - rewrite Hrun. eapply rank_client; [exact Hi|]. unfold client_rank. rewrite Hpc. simpl. lia.
  - eapply rank_client; [exact Hi|]. unfold client_rank. rewrite Hpc. destruct r; simpl; lia.
  - assert (rank (client_finish config i c s) = rank (update_client i (client_flush config c) s)) as -> by done.
    eapply rank_client; [exact Hi|]. unfold client_rank. rewrite Hpc. simpl. lia.
Qed.

(** A listening thread that has not come to its end can go on: each system call has an outcome. *)
Lemma listener_progress p s :
  attached s -> l_pc (listener p s) <> PNone -> l_pc (listener p s) <> PExit ->
  exists s', step (AListener p) s s'.
Proof.
  intros Ha Hn He. destruct (l_pc (listener p s)) as [| |parsed| | | |fd| |k|] eqn:E; try done.
  - exists (run_socket config p (-1) s). apply step_socket; [done|by left].
  - exists (run_bind inet_pton p parsed false s). by apply step_bind.
  - destruct p; [by destruct (Ha Udp) as [[_ Hl] _]; destruct Hl|]. exists (run_listen false s). by apply step_listen.
  - exists (run_check p s). by apply step_check.
  - exists (run_wait p s). by apply step_wait.
  - exists (run_select p false s). by eapply step_select.
  - destruct p.
    + exists (udp_receive config inet_ntop None s). apply step_receive; [done..|]. apply returning_none.
    + exists (tcp_accept config inet_ntop None s). by apply step_accept.
  - exists (run_fail p k s). by apply step_fail.
Qed.

(** Calls that all return. *)
Lemma client_flush_returning c : (forall x, returns x) -> returning returns (calls (ct_conn c)) (calls (ct_conn (client_flush config c))).
Proof.
  intros Hret. simpl. case_decide; [by apply returning_all|apply returning_none].
Qed.

Lemma stopping_progress s :
  (forall x, returns x) -> attached s -> stopping s -> exists a s', a <> AWorld /\ step a s s'.
Proof.
  intros Hret Ha Hstop. unfold stopping in Hstop. destruct (main_pc s) as [| |p k|p| |] eqn:Em; try done.
  - exists AMain, (stop_close p k s). split; [done|by apply step_close].
  - destruct (decide (l_pc (listener p s) = PNone \/ l_pc (listener p s) = PExit)) as [Hj|Hj].
    + exists AMain, (stop_join p s). split; [done|by apply step_join].
    + destruct (listener_progress p s Ha) as [s' Hs]; [tauto..|]. by exists (AListener p), s'.
  - destruct (decide (Forall (fun c => ct_pc c = CExit) (client_threads_ s))) as [Hj|Hj].
    + exists AMain, (stop_join_clients s). split; [done|by apply step_join_clients].
    + apply not_Forall_Exists, Exists_exists in Hj as (c & [i Hi]%list_elem_of_lookup & Hpc); [|apply _].
      exists (AClient (ct_id c)). destruct (ct_pc c) eqn:E; simpl in Hpc; rewrite ?E in Hpc; try done.
      * exists (update_client i (client_check (running_ s) c) s). split; [done|by apply step_client_check].
      * exists (update_client i (client_recv config RecvClosed c) s). split; [done|apply step_client_recv; [done..|apply returning_none]].
      * exists (client_finish config i c s). split; [done|apply step_client_finish; [done..|by apply client_flush_returning]].
Qed.

(** What happens until [stop] has returned: the actors of the steps, in order. *)
Inductive run : list Actor -> Threads -> Threads -> Prop :=
  | run_nil s : run [] s s
  | run_cons a l s s1 s2 : main_pc s <> MStopped -> step a s s1 -> run l s1 s2 -> run (a :: l) s s2.

Lemma main_pc_back p s : main_pc (back_to_loop p s) = main_pc s.
Proof. by destruct p. Qed.

Lemma stopping_step a s s' : step a s s' -> control s -> stopping s -> stopping s' \/ main_pc s' = MStopped.
Proof.
  intros Hstep Hc Hstop. unfold stopping in *.
  assert (Hsame : main_pc s' = main_pc s -> match main_pc s' with MClose _ _ | MJoin _ | MJoinClients => True | _ => False end \/ main_pc s' = MStopped).
  { intros ->. by left. }
  destruct Hstep as [s Hm|s Hm|p k s Hm|p s Hm _|s Hm Hexit|p fd s Hpc Hfd|p parsed ok s Hpc _|ok s Hpc _|p k s Hpc|p s Hpc|p s Hpc|p fd ready s Hpc
    |received s Hpc _ _|connection s Hpc Hconn|i c s Hi Hpc|i c r s Hi Hpc _ _|i c s Hi Hpc _|fd s [H0 Hf]|fd s Hfd]; try (by apply Hsame);
    try (by apply Hsame, on_listener_spec).
  - by rewrite Hm in Hstop.
  - by left.
  - left. simpl. destruct (closeIfOpen _ _ _).1; by destruct p.
  - left. by destruct p.
  - by right.
  - apply Hsame. unfold udp_receive. destruct received as [[]|]; cbv zeta; by rewrite main_pc_back.
  - apply Hsame. clear. unfold tcp_accept. destruct connection as [[]|]; cbv zeta; [case_match|]; by rewrite main_pc_back.
Qed.

Lemma rank_world s s' : step AWorld s s' -> rank s' = rank s /\ main_pc s' = main_pc s.
Proof. intros Hs. inversion Hs; subst; done. Qed.

Lemma run_bounded l s s' :
  run l s s' -> control s -> stopping s -> (length (filter (fun a => a <> AWorld) l) + rank s' <= rank s)%nat.
Proof.
  induction 1 as [s|a l s s1 s2 Hm Hstep Hrun IH]; intros Hc Hstop; [simpl; lia|].
  assert (Hc1 : control s1) by (by eapply control_step).
  assert (IH' : (length (filter (fun a => a <> AWorld) l) + rank s2 <= rank s1)%nat).
  { destruct (stopping_step a s s1 Hstep Hc Hstop) as [?|Hdone]; [auto|].
    inversion Hrun; subst; [simpl; lia|done]. }
  rewrite filter_cons. case_decide as Ha.
  - pose proof (step_rank a s s1 Hstep Hc Hstop Ha). simpl. lia.
  - assert (a = AWorld) as -> by (destruct a; done || (destruct Ha; done)). destruct (rank_world s s1 Hstep). lia.
Qed.

Lemma run_to_end n s :
  (forall x, returns x) -> (rank s <= n)%nat -> control s -> attached s -> stopping s ->
  exists l s', run l s s' /\ main_pc s' = MStopped.
Proof.
  intros Hret. revert s. induction n as [|n IH]; intros s Hn Hc Ha Hstop.
  - destruct (stopping_progress s Hret Ha Hstop) as (a & s1 & Hw & Hs). pose proof (step_rank a s s1 Hs Hc Hstop Hw). lia.
  - destruct (stopping_progress s Hret Ha Hstop) as (a & s1 & Hw & Hs). pose proof (step_rank a s s1 Hs Hc Hstop Hw).
    assert (Hm : main_pc s <> MStopped) by (intros E; unfold stopping in Hstop; by rewrite E in Hstop).
    destruct (stopping_step a s s1 Hs Hc Hstop) as [Hst|Hdone].
    + destruct (IH s1) as (l & s2 & Hr & He); [lia|by eapply control_step|by eapply attached_step|done|].
      exists (a :: l), s2. split; [by eapply run_cons|done].
    + exists [a], s1. split; [|done]. eapply run_cons; [done|exact Hs|apply run_nil].
Qed.

Lemma clients_rank_bound cs : (clients_rank cs <= 3 * length cs)%nat.
Proof.
  induction cs as [|c cs IH]; [done|]. change (clients_rank (c :: cs)) with (client_rank c + clients_rank cs)%nat.
  unfold client_rank. simpl. destruct (ct_pc c); lia.
Qed.

Lemma rank_bound s : (rank s <= 21 + 3 * length (client_threads_ s))%nat.
Proof.
  pose proof (clients_rank_bound (client_threads_ s)). unfold rank.
  assert (main_rank (main_pc s) <= 9)%nat by (destruct (main_pc s) as [| |[] []|[]| |]; simpl; lia).
  assert (pc_rank 1 (l_pc (udp s)) <= 6)%nat by (destruct (l_pc (udp s)) as [| | | | | | | |[]|]; simpl; lia).
  assert (pc_rank 3 (l_pc (tcp s)) <= 6)%nat by (destruct (l_pc (tcp s)) as [| | | | | | | |[]|]; simpl; lia). lia.
Qed.

(** C35: when [stop] has cleared the flag, however far the threads are: every course of events
    has at most [21] steps of the receiver's own and three for each connection before [stop]
    has returned, whatever the rest of the process does, whatever the system calls return and
    whether or not the calls of the handler return.  When those all return, there is no
    deadlock: from every state on the way the receiver can go on, and there is a course to the
    end.  (A handler call that blocks does keep [stop]: [stalled_client_blocks_stop].) *)
Theorem stop_returns s :
  reachable_threads s -> stopping s ->
  (forall l s', run l s s' ->
     (length (filter (fun a => a <> AWorld) l) <= 21 + 3 * length (client_threads_ s))%nat) /\
  ((forall x, returns x) ->
     (exists l s', run l s s' /\ main_pc s' = MStopped) /\
     (forall l s', run l s s' -> main_pc s' <> MStopped -> exists a s'', a <> AWorld /\ step a s' s'')).
Proof.
  intros Hr Hstop. destruct (reachable_attached s Hr) as [Hc Ha]. split; [|intros Hret; split; [by eapply run_to_end|]].
  - intros l s' Hrun. pose proof (run_bounded l s s' Hrun Hc Hstop). pose proof (rank_bound s). lia.
  - intros l s' Hrun Hm. apply stopping_progress; [done|..].
    + clear Hm Hstop Hr. induction Hrun as [|a l s s1 s2 _ Hs _ IH]; [done|]. apply IH; [by eapply control_step|by eapply attached_step].
    + clear Hr. induction Hrun as [|a l s s1 s2 Hm' Hs Hrun IH]; [done|].
      destruct (stopping_step a s s1 Hs Hc Hstop) as [?|Hd]; [apply IH; [done|by eapply control_step|by eapply attached_step|done]|].
      inversion Hrun; subst; done.
Qed.

End Framing.

(** ** Concrete courses *)

Definition demo_pton (_ : bytes) : option Z := Some 0.
Definition demo_ntop (_ : Z) : option bytes := Some ("192.168.1.1" : bytes).

Abbreviation demo_reachable := (reachable_threads default_Config demo_pton demo_ntop any_call).
Abbreviation demo_calm := (calm_reachable default_Config demo_pton demo_ntop any_call).

Definition demo_start : Threads := new_Threads {[ 2 := OForeign ]}.
Definition demo_address : Address := default (mkAddress [] 0) (parseAddress (syslog_udp_addr default_Config)).

(** The UDP socket is open and the thread in its loop. *)
Definition demo_serving : Threads :=
  run_wait Udp (run_check Udp (run_bind demo_pton Udp demo_address true
    (run_socket default_Config Udp 3 (syslog_start default_Config demo_start)))).

Lemma demo_initial : initial demo_start.
Proof. exists {[ 2 := OForeign ]}. split; [done|]. apply map_Forall_singleton. by split. Qed.

Lemma demo_serving_reachable : demo_reachable demo_serving.
Proof.
  exists demo_start. split; [apply demo_initial|]. unfold demo_serving.
  eapply rtc_l; [exists AMain; by apply step_start|].
  eapply rtc_l; [exists (AListener Udp); apply (step_socket _ _ _ _ Udp 3); [by vm_compute|right; split; [done|by vm_compute]]|].
  eapply rtc_l; [exists (AListener Udp); apply (step_bind _ _ _ _ Udp demo_address true); [by vm_compute|intros _; vm_compute; eauto]|].
  eapply rtc_l; [exists (AListener Udp); apply step_check; by vm_compute|].
  eapply rtc_l; [exists (AListener Udp); apply step_wait; by vm_compute|]. done.
Qed.

(** Further steps from a state that is reached. *)
Lemma reachable_more config pton ntop returns s s' :
  reachable_threads config pton ntop returns s -> rtc (any_step config pton ntop returns) s s' ->
  reachable_threads config pton ntop returns s'.
Proof. intros (s0 & Hi & Hr) Hr'. exists s0. split; [done|]. by etransitivity. Qed.

(** [stop] closed the socket between the check of the flag and the read of the descriptor. *)
Definition demo_race : Threads :=
  run_wait Udp (stop_close Udp CAssign (stop_close Udp (CClose 3) (stop_close Udp CTest (stop_begin (run_check Udp
    (run_bind demo_pton Udp demo_address true (run_socket default_Config Udp 3 (syslog_start default_Config demo_start)))))))).

Lemma demo_race_reachable : demo_reachable demo_race.
Proof.
  exists demo_start. split; [apply demo_initial|]. unfold demo_race.
  eapply rtc_l; [exists AMain; by apply step_start|].
  eapply rtc_l; [exists (AListener Udp); apply (step_socket _ _ _ _ Udp 3); [by vm_compute|right; split; [done|by vm_compute]]|].
  eapply rtc_l; [exists (AListener Udp); apply (step_bind _ _ _ _ Udp demo_address true); [by vm_compute|intros _; vm_compute; eauto]|].
  eapply rtc_l; [exists (AListener Udp); apply step_check; by vm_compute|].
  eapply rtc_l; [exists AMain; apply step_stop; right; left; by vm_compute|].
  eapply rtc_l; [exists AMain; apply step_close; by vm_compute|].
  eapply rtc_l; [exists AMain; apply step_close; by vm_compute|].
  eapply rtc_l; [exists AMain; apply step_close; by vm_compute|].
  eapply rtc_l; [exists (AListener Udp); apply step_wait; by vm_compute|]. done.
Qed.

(** while the server runs, what a listening thread selects on is its own socket, bound to
    the configured address.  When [stop] closes the socket between the thread's check of the
    flag and its read of the descriptor field, the thread selects on the descriptor [-1], for
    which [FD_SET] is not defined. *)
Theorem listeners_select_on_their_own_socket :
  (forall config pton ntop returns s p fd, reachable_threads config pton ntop returns s ->
     l_pc (listener p s) = PSelect fd -> running_ s = true ->
     sockets s !! fd = Some (OListener p) /\
     exists parsed, parseAddress (address_of config p) = Some parsed /\
       l_bound (listener p s) = Some (makeSockaddr pton parsed)) /\
  exists s, demo_reachable s /\ l_pc (udp s) = PSelect (-1).
Proof.
  split.
  - intros config pton ntop returns s p fd Hr Hpc Hrun. destruct (reachable_attached config pton ntop returns s Hr) as [Hc Ha].
    pose proof (proj1 (k_running _ Hc) Hrun) as Hm.
    destruct (calm_reachable_owned config pton ntop returns s) as (_ & _ & Ho); [by apply running_calm; [|right]|].
    destruct (Ha p) as [[Hs _] Hh]. unfold serving, holding in *. rewrite Hpc in *. destruct (Hh Hrun) as [-> H0].
    split; [|done]. destruct (f_field _ _ (o_field _ Ho p)) as [?|[?|[Hx|Hx]]]; [lia|done|congruence|congruence].
  - exists demo_race. split; [apply demo_race_reachable|by vm_compute].
Qed.

(** [stop] came before the thread opened its socket. *)
Definition demo_stopped : Threads :=
  stop_join_clients (stop_join Tcp (stop_join Udp (run_check Udp
    (run_bind demo_pton Udp demo_address true (run_socket default_Config Udp 3
      (stop_close Tcp CTest (stop_close Udp CTest (stop_begin (syslog_start default_Config demo_start))))))))).

Lemma demo_stopped_calm : demo_calm demo_stopped.
Proof.
  unfold demo_stopped.
  eapply calm_more; [|exists AMain; apply step_join_clients; by vm_compute|by intros []].
  eapply calm_more; [|exists AMain; apply step_join; [by vm_compute|left; by vm_compute]|by intros []].
  eapply calm_more; [|exists AMain; apply step_join; [by vm_compute|right; by vm_compute]|by intros []].
  eapply calm_more; [|exists (AListener Udp); apply step_check; by vm_compute|by intros []].
  eapply calm_more; [|exists (AListener Udp); apply (step_bind _ _ _ _ Udp demo_address true); [by vm_compute|intros _; vm_compute; eauto]|by intros []].
  eapply calm_more; [|exists (AListener Udp); apply (step_socket _ _ _ _ Udp 3); [by vm_compute|right; split; [done|by vm_compute]]|by intros []].
  eapply calm_more; [|exists AMain; apply step_close; by vm_compute|by intros []].
  eapply calm_more; [|exists AMain; apply step_close; by vm_compute|by intros []].
  eapply calm_more; [|exists AMain; apply step_stop; right; left; by vm_compute|by intros []].
  eapply calm_more; [|exists AMain; by apply step_start|by intros []].
  exists demo_start. split; [apply demo_initial|done].
Qed.

(** A socket opened while [stop] runs is still open, and bound, when [stop] returns. *)
Theorem first_stop_can_leave_a_socket :
  demo_reachable demo_stopped /\
  main_pc demo_stopped = MStopped /\ sockets demo_stopped !! 3 = Some (OListener Udp) /\
  l_bound (udp demo_stopped) = Some (makeSockaddr demo_pton demo_address).
Proof. split; [apply calm_reachable_reachable, demo_stopped_calm|by vm_compute]. Qed.

Definition demo_received : Threads :=
  udp_receive default_Config demo_ntop (Some (0, ("DHCPACK" : bytes) ++ [c_nl])) (run_select Udp true demo_serving).

Lemma demo_received_reachable : demo_reachable demo_received.
Proof.
  eapply reachable_more; [apply demo_serving_reachable|].
  eapply rtc_l; [exists (AListener Udp); eapply (step_select _ _ _ _ Udp 3 true); by vm_compute|].
  eapply rtc_l; [exists (AListener Udp); apply (step_receive _ _ _ _ (Some (0, ("DHCPACK" : bytes) ++ [c_nl]))); [by vm_compute|intros _; vm_compute; eauto|by apply returning_all]|]. done.
Qed.

(** The UDP socket cannot be bound while [stop] is called: [stop] and the listening thread have
    both tested the field when [stop] closes the descriptor and the rest of the process opens
    another under its number. *)
Definition demo_overlap : Threads :=
  (stop_close Udp (CClose 3) (stop_close Udp CTest (stop_begin (run_fail Udp CTest (run_bind demo_pton Udp demo_address false
     (run_socket default_Config Udp 3 (syslog_start default_Config demo_start)))))))
    <| sockets := {[ 2 := OForeign; 3 := OForeign ]} |>.

Lemma demo_overlap_reachable : demo_reachable demo_overlap.
Proof.
  exists demo_start. split; [apply demo_initial|].
  eapply rtc_l; [exists AMain; by apply step_start|].
  eapply rtc_l; [exists (AListener Udp); apply (step_socket _ _ _ _ Udp 3); [by vm_compute|right; split; [done|by vm_compute]]|].
  eapply rtc_l; [exists (AListener Udp); apply (step_bind _ _ _ _ Udp demo_address false); [by vm_compute|done]|].
  eapply rtc_l; [exists (AListener Udp); apply (step_fail _ _ _ _ Udp CTest); by vm_compute|].
  eapply rtc_l; [exists AMain; apply step_stop; right; left; by vm_compute|].
  eapply rtc_l; [exists AMain; apply (step_close _ _ _ _ Udp CTest); by vm_compute|].
  eapply rtc_l; [exists AMain; apply (step_close _ _ _ _ Udp (CClose 3)); by vm_compute|].
  eapply rtc_l; [exists AWorld; apply (step_world_open _ _ _ _ 3); split; [done|by vm_compute]|]. done.
Qed.

Lemma demo_overlap_step :
  step default_Config demo_pton demo_ntop any_call (AListener Udp) demo_overlap (run_fail Udp (CClose 3) demo_overlap).
Proof. apply step_fail. by vm_compute. Qed.

(** C34: whose descriptors are closed.  When [stop] has returned, no thread of the receiver is
    left.  In every course in which [stop] and a listening thread whose [bind] or [listen]
    failed are never both past the test of [closeIfOpen] on one field: no step of the receiver
    closes or replaces a descriptor of the rest of the process; when [stop] has returned, every
    accepted connection is closed, and the only sockets of the receiver that can still be open
    are those of its two fields; after the second call, which the destructor makes, there are
    none.  In a course in which the two do overlap, the descriptor is closed twice, and the
    second [close] hits a descriptor of the rest of the process that was given the number. *)
Theorem stop_closes_descriptors :
  (forall config pton ntop returns s, reachable_threads config pton ntop returns s -> main_pc s = MStopped ->
     running_ s = false /\ (forall p, l_pc (listener p s) = PNone) /\ client_threads_ s = []) /\
  (forall config pton ntop returns s, calm_reachable config pton ntop returns s ->
     (forall a s' fd, step config pton ntop returns a s s' -> a <> AWorld ->
        sockets s !! fd = Some OForeign -> sockets s' !! fd = Some OForeign) /\
     (main_pc s = MStopped ->
        (forall fd o, sockets s !! fd = Some o -> o = OForeign \/ exists p, o = OListener p /\ fd = l_fd (listener p s)) /\
        ((2 <= stops s)%nat -> forall fd o, sockets s !! fd = Some o -> o = OForeign))) /\
  (exists s a s' fd, demo_reachable s /\ step default_Config demo_pton demo_ntop any_call a s s' /\ a <> AWorld /\
     sockets s !! fd = Some OForeign /\ sockets s' !! fd = None).
Proof.
  split; [|split].
  - intros config pton ntop returns s Hr Hm. eapply stopped_receiver; [by eapply reachable_control|done].
  - intros config pton ntop returns s Hr. destruct (calm_reachable_owned _ _ _ _ s Hr) as (_ & Hc & Ho). split.
    + intros a s' fd Hs Ha. by eapply foreign_kept.
    + by eapply stopped_sockets.
  - exists demo_overlap, (AListener Udp), (run_fail Udp (CClose 3) demo_overlap), 3.
    split; [apply demo_overlap_reachable|]. split; [apply demo_overlap_step|]. by vm_compute.
Qed.

Lemma handler_calls_are_framed_lines_witness :
  udp_calls demo_received = [("DHCPACK" : bytes, "192.168.1.1" : bytes)] /\
  udp_calls demo_received = flat_map (fun d => udp_datagram default_Config d.1 d.2) (datagrams demo_received).
Proof.
  split; [by vm_compute|].
  apply (handler_calls_are_framed_lines default_Config demo_pton demo_ntop any_call demo_received); [by vm_compute|apply demo_received_reachable].
Defined.

Lemma stop_closes_descriptors_witness :
  running_ demo_stopped = false /\ (forall p, l_pc (listener p demo_stopped) = PNone) /\
  (forall fd o, sockets demo_stopped !! fd = Some o -> o = OForeign \/ exists p, o = OListener p /\ fd = l_fd (listener p demo_stopped)).
Proof.
  destruct stop_closes_descriptors as (H1 & H2 & _).
  destruct (H1 default_Config demo_pton demo_ntop any_call demo_stopped) as (Hr & Hp & _);
    [apply calm_reachable_reachable, demo_stopped_calm|by vm_compute|].
  destruct (H2 default_Config demo_pton demo_ntop any_call demo_stopped demo_stopped_calm) as [_ H].
  by destruct (H ltac:(by vm_compute)).
Defined.

Lemma stop_returns_witness :
  exists l s', run default_Config demo_pton demo_ntop any_call l (stop_begin demo_received) s' /\ main_pc s' = MStopped.
Proof.
  apply (stop_returns default_Config demo_pton demo_ntop any_call (stop_begin demo_received)); [|exact I|by intros x].
  eapply reachable_more; [apply demo_received_reachable|].
  eapply rtc_l; [exists AMain; apply step_stop; right; left; by vm_compute|]. done.
Defined.
