(* ===== verification/StateStore.v ===== *)
(** * src/src/state_store.cpp: the in-memory state

    The store as a record of its members and every member function as a function on
    it; the mutex makes each call atomic.  A call of [nowSystem()] is an argument:
    [clk i] is the reading of the [i]-th call site of the operation, in the order of
    the source text.  Loops over the hash maps take their order from [HashOrder]. *)

From S2P Require Import Prelude Utils RingBuffer Double Types Config.

Record StateStore := mkStateStore {
  devices_by_key_ : gmap bytes DeviceState;
  ip_to_key_ : gmap bytes bytes;
  traffic_points_ : gmap bytes (list TrafficSnapshot);
  interface_snapshots_ : gmap bytes InterfaceSnapshot;
  interfaces_by_name_ : gmap bytes InterfaceState;
  events_ : RingBuffer Event;
  wan_attacks_ : RingBuffer WANAttackEvent;
  last_log_ts_ : time;
  event_seq_ : Z
}.

#[export] Instance StateStore_eta : Eta StateStore := fun s =>
  mkStateStore (devices_by_key_ s) (ip_to_key_ s) (traffic_points_ s) (interface_snapshots_ s)
    (interfaces_by_name_ s) (events_ s) (wan_attacks_ s) (last_log_ts_ s) (event_seq_ s).

Definition clock : Type := nat -> time.

(** [std::chrono::seconds{n}] compared with a nanosecond duration. *)
Definition seconds (n : Z) : Z := n * ns_per_s.

Definition kInterfaceRateFreshWindow : Z := seconds 10.

(** ** The file-local helpers *)

Definition isReachableNeighbour (state : bytes) : bool :=
  let normalized := upper state in
  bool_decide (normalized = "REACHABLE") || bool_decide (normalized = "STALE")
  || bool_decide (normalized = "DELAY") || bool_decide (normalized = "PROBE").

Definition isFailedNeighbour (state : bytes) : bool :=
  let normalized := upper state in
  bool_decide (normalized = "FAILED") || bool_decide (normalized = "INCOMPLETE")
  || bool_decide (normalized = "NOARP").

(** [setIfNotEmpty(dest, value)]: the new value of [dest]. *)
Definition setIfNotEmpty (dest value : bytes) : bytes :=
  if decide (value <> [] /\ value <> "unknown" /\ value <> "*") then value else dest.

Definition hasTag (tags : list bytes) (tag : bytes) : bool := bool_decide (tag ∈ tags).

Definition add_tag (tags : list bytes) (tag : bytes) : list bytes :=
  if hasTag tags tag then tags else tags ++ [tag].

(** [while (points.size() > max) points.pop_front();] *)
Fixpoint trim_points (max_points : Z) (points : list TrafficSnapshot) : list TrafficSnapshot :=
  match points with
  | [] => []
  | _ :: rest => if max_points <? Z.of_nat (length points) then trim_points max_points rest else points
  end.

Definition mac_key (mac : bytes) : bytes := ("mac:" : bytes) ++ mac.
Definition ip_key (ip : bytes) : bytes := ("ip:" : bytes) ++ ip.

Section Store.
Context (config : Config).

(** The constructor. *)
Definition new_StateStore : StateStore :=
  mkStateStore ∅ ∅ ∅ ∅ ∅ (rb_new (max_events config)) (rb_new (max_attack_events config)) epoch 0.

(** ** Keys *)

Definition makeKey (mac ip : bytes) : bytes :=
  let normalized_mac := lower mac in
  if decide (normalized_mac <> []) then mac_key normalized_mac
  else if decide (ip <> []) then ip_key ip
  else [].

Definition findKeyLocked (st : StateStore) (mac ip : bytes) : bytes :=
  let normalized_mac := lower mac in
  if decide (normalized_mac <> [] /\ is_Some (devices_by_key_ st !! mac_key normalized_mac))
  then mac_key normalized_mac
  else if decide (ip <> []) then
    match ip_to_key_ st !! ip with
    | Some key => key
    | None => if decide (is_Some (devices_by_key_ st !! ip_key ip)) then ip_key ip else []
    end
  else [].

(** The key an update works on: the one found, or else the one made. *)
Definition keyFor (st : StateStore) (mac ip : bytes) : bytes :=
  let key := findKeyLocked st mac ip in
  if decide (key = []) then makeKey mac ip else key.

(** ** Status *)

Definition statusFor (device : DeviceState) (now : time) : DeviceStatus :=
  if last_seen device =? 0 then Unknown
  else
    let age := tsub now (last_seen device) in
    if seconds (device_idle_ttl_seconds config) <? age then Offline
    else if isFailedNeighbour (neigh_state device) then Idle
    else if (age <=? seconds (device_online_ttl_seconds config))
            && (bool_decide (neigh_state device = [])
                || isReachableNeighbour (neigh_state device)
                || bool_decide (source device = "dhcp")
                || bool_decide (source device = "traffic")
                || bool_decide (source device = "wifi"))
    then Online
    else Idle.

(** ** Events *)

Definition event_id (n : Z) : bytes := ("evt-" : bytes) ++ to_string n.

Definition nextEventId (st : StateStore) : bytes * StateStore :=
  let id := u64 (event_seq_ st + 1) in
  (event_id id, st <| event_seq_ := id |>).

Definition touchLastLogLocked (now : time) (ts : time) (st : StateStore) : StateStore :=
  let ts := if ts =? 0 then now else ts in
  if (last_log_ts_ st =? 0) || (last_log_ts_ st <? ts)
  then st <| last_log_ts_ := ts |> else st.

Definition pushEventLocked (clk : clock) (st : StateStore) (event : Event) : StateStore :=
  let '(event, st) :=
    if decide (ev_id event = []) then
      let '(id, st') := nextEventId st in (event <| ev_id := id |>, st')
    else (event, st) in
  let event := if ev_ts event =? 0 then event <| ev_ts := clk 0%nat |> else event in
  let st := st <| events_ := rb_push (events_ st) event |> in
  touchLastLogLocked (clk 1%nat) (ev_ts event) st.

Definition addEvent (clk : clock) (st : StateStore) (event : Event) : StateStore :=
  pushEventLocked clk st event.

Definition addWANAttack (clk : clock) (st : StateStore) (event : WANAttackEvent) : StateStore :=
  let attack := if wa_ts event =? 0 then event <| wa_ts := clk 0%nat |> else event in
  let st := st <| wan_attacks_ := rb_push (wan_attacks_ st) attack |> in
  touchLastLogLocked (clk 2%nat) (if wa_ts event =? 0 then clk 1%nat else wa_ts event) st.

(** ** [updateDevice] *)

Definition mergeDeviceLocked (current incoming : DeviceState) (now : time) : DeviceState :=
  let incoming_mac := lower (mac incoming) in
  let incoming_seen := if last_seen incoming =? 0 then now else last_seen incoming in
  let merged :=
    mkDeviceState
      (setIfNotEmpty (mac current) incoming_mac)
      (setIfNotEmpty (ip current) (ip incoming))
      (setIfNotEmpty (hostname current) (hostname incoming))
      (setIfNotEmpty (interface_name current) (interface_name incoming))
      (setIfNotEmpty (source current) (source incoming))
      (setIfNotEmpty (neigh_state current) (neigh_state incoming))
      (status current)
      (if first_seen current =? 0 then incoming_seen else first_seen current)
      (if (last_seen current =? 0) || (last_seen current <? incoming_seen)
       then incoming_seen else last_seen current)
      (if last_dhcp incoming =? 0 then last_dhcp current else last_dhcp incoming)
      (if last_traffic incoming =? 0 then last_traffic current else last_traffic incoming)
      (if last_rate incoming =? 0 then last_rate current else last_rate incoming)
      (if 0 <? rx_bytes_total incoming then rx_bytes_total incoming else rx_bytes_total current)
      (if 0 <? tx_bytes_total incoming then tx_bytes_total incoming else tx_bytes_total current)
      (if dltb d_zero (dabs (rx_rate_bps incoming)) then rx_rate_bps incoming else rx_rate_bps current)
      (if dltb d_zero (dabs (tx_rate_bps incoming)) then tx_rate_bps incoming else tx_rate_bps current)
      (fold_left add_tag (tags incoming) (tags current)) in
  merged <| status :=
    match status incoming with Offline => Offline | _ => statusFor merged now end |>.

(** The block that moves a record stored under an address to the key of its MAC
    address: [extract], [insert] of the node (which a taken key would refuse), and the
    move of its traffic points.  It returns the key to use from there on. *)
Definition rekey (st : StateStore) (mac key desired_key : bytes) : bytes * StateStore :=
  if decide (mac <> [] /\ starts_with "ip:" key = true /\ desired_key <> [] /\ desired_key <> key) then
    match devices_by_key_ st !! key with
    | None => (key, st)
    | Some node =>
        let devices := delete key (devices_by_key_ st) in
        let devices := match devices !! desired_key with
                       | Some _ => devices
                       | None => <[desired_key := node]> devices end in
        let points := default [] (traffic_points_ st !! key) in
        (desired_key,
         st <| devices_by_key_ := devices |>
            <| traffic_points_ := delete key (<[desired_key := points]> (traffic_points_ st)) |>)
    end
  else (key, st).

(** [devices_by_key_[key]]: the record, created when it is missing. *)
Definition device_at (st : StateStore) (key : bytes) : DeviceState :=
  default default_DeviceState (devices_by_key_ st !! key).

(** [if (!ip.empty()) ip_to_key_[ip] = key;] *)
Definition index_ip (ip key : bytes) (st : StateStore) : StateStore :=
  if decide (ip <> []) then st <| ip_to_key_ := <[ip := key]> (ip_to_key_ st) |> else st.

Definition updateDevice (clk : clock) (st : StateStore) (device : DeviceState) : StateStore :=
  let now := clk 0%nat in
  let key := keyFor st (mac device) (ip device) in
  if decide (key = []) then st
  else
    let desired_key := makeKey (mac device) (ip device) in
    let '(key, st) := rekey st (mac device) key desired_key in
    let current := mergeDeviceLocked (device_at st key) device now in
    let st := st <| devices_by_key_ := <[key := current]> (devices_by_key_ st) |> in
    let st := index_ip (ip current) key st in
    touchLastLogLocked (clk 1%nat) (last_seen current) st.

(** ** [updateTraffic] *)

(** The rates and flags the comparison with the previous point yields:
    receive rate, transmit rate, [should_store_point], [counters_reset]. *)
Definition traffic_rates (device : DeviceState) (points : list TrafficSnapshot)
    (current : TrafficSnapshot) : double * double * bool * bool :=
  match last points with
  | None => (rx_rate_bps device, tx_rate_bps device, true, false)
  | Some previous =>
      let counters_changed := negb (ts_rx_bytes current =? ts_rx_bytes previous)
                              || negb (ts_tx_bytes current =? ts_tx_bytes previous) in
      let counters_reset := (ts_rx_bytes current <? ts_rx_bytes previous)
                            || (ts_tx_bytes current <? ts_tx_bytes previous) in
      if counters_reset then (d_zero, d_zero, true, true)
      else if counters_changed then
        let delta_time := d_seconds (tsub (ts_ts current) (ts_ts previous)) in
        if dltb d_zero delta_time then
          (rate_bps (u64 (ts_rx_bytes current - ts_rx_bytes previous)) delta_time,
           rate_bps (u64 (ts_tx_bytes current - ts_tx_bytes previous)) delta_time, true, false)
        else (rx_rate_bps device, tx_rate_bps device, false, false)
      else
        let has_recent_rate :=
          negb (last_rate device =? 0)
          && (tsub (ts_ts current) (last_rate device) <=? seconds (traffic_rate_hold_seconds config)) in
        if has_recent_rate then (rx_rate_bps device, tx_rate_bps device, false, false)
        else (d_zero, d_zero, false, false)
  end.

(** The device record after the snapshot. *)
Definition traffic_device (device : DeviceState) (current : TrafficSnapshot)
    (rx_rate tx_rate : double) (counters_reset : bool) : DeviceState :=
  let merged :=
    mkDeviceState
      (setIfNotEmpty (mac device) (ts_mac current))
      (setIfNotEmpty (ip device) (ts_ip current))
      (hostname device) (interface_name device) "traffic" (neigh_state device) (status device)
      (if first_seen device =? 0 then ts_ts current else first_seen device)
      (Z.max (last_seen device) (ts_ts current))
      (last_dhcp device) (ts_ts current)
      (if dltb d_zero rx_rate || dltb d_zero tx_rate then ts_ts current
       else if counters_reset then epoch else last_rate device)
      (ts_rx_bytes current) (ts_tx_bytes current) rx_rate tx_rate
      (add_tag (tags device) "traffic") in
  merged <| status := statusFor merged (ts_ts current) |>.

Definition updateTraffic (clk : clock) (st : StateStore) (snapshot : TrafficSnapshot) : StateStore :=
  if decide (ts_mac snapshot = [] /\ ts_ip snapshot = []) then st
  else
    let current := mkTrafficSnapshot (lower (ts_mac snapshot)) (ts_ip snapshot)
                     (if ts_ts snapshot =? 0 then clk 0%nat else ts_ts snapshot)
                     (ts_rx_bytes snapshot) (ts_tx_bytes snapshot) in
    let key := keyFor st (ts_mac current) (ts_ip current) in
    if decide (key = []) then st
    else
      let points := default [] (traffic_points_ st !! key) in
      let device := device_at st key in
      let '(rx_rate, tx_rate, should_store_point, counters_reset) :=
        traffic_rates device points current in
      let points := if should_store_point
                    then trim_points (max_traffic_points_per_device config) (points ++ [current])
                    else points in
      let device := traffic_device device current rx_rate tx_rate counters_reset in
      let st := st <| traffic_points_ := <[key := points]> (traffic_points_ st) |>
                   <| devices_by_key_ := <[key := device]> (devices_by_key_ st) |> in
      let st := index_ip (ip device) key st in
      touchLastLogLocked (clk 1%nat) (ts_ts current) st.

(** ** [updateInterface] *)

(** The receive and transmit rates, or [None] when [rate_ready] stays false. *)
Definition interface_rates (previous : option InterfaceSnapshot) (current : InterfaceSnapshot)
    : option (double * double) :=
  match previous with
  | None => None
  | Some previous =>
      let delta_time := d_seconds (tsub (is_ts current) (is_ts previous)) in
      let counters_reset := (is_rx_bytes current <? is_rx_bytes previous)
                            || (is_tx_bytes current <? is_tx_bytes previous) in
      if dltb d_zero delta_time && negb counters_reset then
        Some (rate_bps (u64 (is_rx_bytes current - is_rx_bytes previous)) delta_time,
              rate_bps (u64 (is_tx_bytes current - is_tx_bytes previous)) delta_time)
      else None
  end.

Definition updateInterface (clk : clock) (st : StateStore) (snapshot : InterfaceSnapshot) : StateStore :=
  if decide (is_interface_name snapshot = []) then st
  else
    let name := is_interface_name snapshot in
    let current := mkInterfaceSnapshot name
                     (if is_ts snapshot =? 0 then clk 0%nat else is_ts snapshot)
                     (is_rx_bytes snapshot) (is_tx_bytes snapshot) in
    let state := default default_InterfaceState (interfaces_by_name_ st !! name) in
    let rates := interface_rates (interface_snapshots_ st !! name) current in
    let '(rx_rate, tx_rate) := default (d_zero, d_zero) rates in
    let state := mkInterfaceState name (is_ts current)
                   (match rates with Some _ => is_ts current | None => if_last_rate state end)
                   (is_rx_bytes current) (is_tx_bytes current) rx_rate tx_rate in
    let st := st <| interface_snapshots_ := <[name := current]> (interface_snapshots_ st) |>
                 <| interfaces_by_name_ := <[name := state]> (interfaces_by_name_ st) |> in
    touchLastLogLocked (clk 1%nat) (is_ts current) st.

(** ** Queries *)

Context {HO : HashOrder}.

Definition status_rank (s : DeviceStatus) : Z :=
  match s with Online => 0 | Idle => 1 | Offline => 2 | Unknown => 3 end.

(** Not later in the order of the comparator of [devices()]. *)
Definition device_before (lhs rhs : DeviceState) : Prop :=
  status_rank (status lhs) < status_rank (status rhs) \/
  (status lhs = status rhs /\ last_seen rhs <= last_seen lhs).

#[global] Instance device_before_dec lhs rhs : Decision (device_before lhs rhs).
Proof. unfold device_before. apply _. Defined.

Definition devices (now : time) (st : StateStore) : list DeviceState :=
  merge_sort device_before
    ((fun entry => entry.2 <| status := statusFor entry.2 now |>) <$> iter_order (devices_by_key_ st)).

Definition recentEvents (st : StateStore) (limit : Z) : list Event := rb_items (events_ st) limit.

Definition recentWANAttacks (st : StateStore) (limit : Z) : list WANAttackEvent :=
  rb_items (wan_attacks_ st) limit.

Definition eventBufferSize (st : StateStore) : Z := rb_size (events_ st).
Definition wanAttackBufferSize (st : StateStore) : Z := rb_size (wan_attacks_ st).

(** The body of the loop over the devices. *)
Definition summary_device (now : time) (out : Summary) (device : DeviceState) : Summary :=
  let out := match statusFor device now with
             | Online => out <| active_devices := active_devices out + 1 |>
             | Idle => out <| idle_devices := idle_devices out + 1 |>
             | Offline => out <| offline_devices := offline_devices out + 1 |>
             | Unknown => out <| unknown_devices := unknown_devices out + 1 |>
             end in
  out <| sm_rx_rate_bps := dadd (sm_rx_rate_bps out) (rx_rate_bps device) |>
      <| sm_tx_rate_bps := dadd (sm_tx_rate_bps out) (tx_rate_bps device) |>.

Definition interface_fresh (now : time) (iface : InterfaceState) : bool :=
  negb ((if_last_rate iface =? 0) || (kInterfaceRateFreshWindow <? tsub now (if_last_rate iface))).

(** The body of the loop that looks for the freshest interface. *)
Definition fresher_interface (now : time) (best : option InterfaceState) (iface : InterfaceState)
    : option InterfaceState :=
  if interface_fresh now iface then
    match best with
    | None => Some iface
    | Some b => if if_last_rate b <? if_last_rate iface then Some iface else best
    end
  else best.

Definition summary (now : time) (st : StateStore) : Summary :=
  let window_start := tsub now (seconds 300) in
  let out := default_Summary <| sm_last_log_ts := last_log_ts_ st |> in
  let out := fold_left (summary_device now) (iter_order (devices_by_key_ st)).*2 out in
  let out :=
    match fold_left (fresher_interface now) (iter_order (interfaces_by_name_ st)).*2 None with
    | None => out
    | Some iface =>
        out <| sm_rx_rate_bps := if_rx_rate_bps iface |>
            <| sm_tx_rate_bps := if_tx_rate_bps iface |>
            <| rate_source := "interface" |>
            <| rate_interface := if_interface_name iface |>
            <| last_interface_ts := if_last_seen iface |>
    end in
  out <| wan_attack_5m :=
    Z.of_nat (length (List.filter (fun e => window_start <=? wa_ts e) (items_ (wan_attacks_ st)))) |>.

(** ** [cleanup] *)

Definition offline_event (id : bytes) (now : time) (device : DeviceState) : Event :=
  mkEvent id now "device" Warning "state" "Device offline"
    (<[("hostname" : bytes) := hostname device]> (<[("ip" : bytes) := ip device]>
      (<[("mac" : bytes) := mac device]> ∅))).

(** The rates of a device that has not reported for longer than the hold time. *)
Definition expire_rates (now : time) (device : DeviceState) : DeviceState :=
  if (dltb d_zero (rx_rate_bps device) || dltb d_zero (tx_rate_bps device))
     && ((last_rate device =? 0)
         || (seconds (traffic_rate_hold_seconds config) <? tsub now (last_rate device)))
  then device <| rx_rate_bps := d_zero |> <| tx_rate_bps := d_zero |>
  else device.

Definition cleanup_device (now : time) (device : DeviceState) : DeviceState :=
  let device := expire_rates now device in
  device <| status := statusFor device now |>.

Definition goes_offline (now : time) (device : DeviceState) : bool :=
  negb (bool_decide (status device = Offline))
  && bool_decide (status (cleanup_device now device) = Offline).

Definition expired (now : time) (device : DeviceState) : bool :=
  bool_decide (status device = Offline)
  && negb (last_seen device =? 0)
  && (seconds (device_keep_ttl_seconds config) <? tsub now (last_seen device)).

(** The body of the loop over the devices; the second component is [erase_keys].
    [clk n] is what [nowSystem()] returns to the [touchLastLogLocked] that follows the
    event numbered [n]. *)
Definition cleanup_step (clk : clock) (now : time) (acc : StateStore * list bytes)
    (entry : bytes * DeviceState) : StateStore * list bytes :=
  let '(st, erase_keys) := acc in
  let '(key, device) := entry in
  let device' := cleanup_device now device in
  let st := st <| devices_by_key_ := <[key := device']> (devices_by_key_ st) |> in
  let st := if goes_offline now device then
              let '(id, st) := nextEventId st in
              touchLastLogLocked (clk (Z.to_nat (event_seq_ st))) now
                (st <| events_ := rb_push (events_ st) (offline_event id now device') |>)
            else st in
  (st, if expired now device' then erase_keys ++ [key] else erase_keys).

Definition erase_key (st : StateStore) (key : bytes) : StateStore :=
  st <| devices_by_key_ := delete key (devices_by_key_ st) |>
     <| traffic_points_ := delete key (traffic_points_ st) |>
     <| ip_to_key_ := filter (fun entry => entry.2 <> key) (ip_to_key_ st) |>.

Definition cleanup (clk : clock) (now : time) (st : StateStore) : StateStore :=
  let '(st, erase_keys) := fold_left (cleanup_step clk now) (iter_order (devices_by_key_ st)) (st, []) in
  fold_left erase_key erase_keys st.

End Store.
