(* ===== verification/StoreCleanup.v ===== *)
(** * [StateStore::cleanup]: the periodic sweep

    What one sweep does to every part of the store: [cleanup_spec] gives each table after
    the sweep from the table before it, for every iteration order of the hash map; a
    second sweep at the same time does nothing. *)

From S2P Require Import Prelude Utils RingBuffer Double Types Config StateStore.

(** ** Loops over a map *)

Section MapLoops.
Context {V : Type} (f : V -> V).

Definition put_entry (m : gmap bytes V) (entry : bytes * V) : gmap bytes V :=
  <[entry.1 := f entry.2]> m.

Lemma fold_put_notin (l : list (bytes * V)) (m : gmap bytes V) (k : bytes) :
  k ∉ l.*1 -> fold_left put_entry l m !! k = m !! k.
Proof.
  revert m. induction l as [|[k' v] l IH]; intros m Hk; simpl; [done|].
  rewrite IH by set_solver. unfold put_entry. simpl. apply lookup_insert_ne. set_solver.
Qed.

Lemma fold_put_in (l : list (bytes * V)) (m : gmap bytes V) (k : bytes) v :
  NoDup l.*1 -> (k, v) ∈ l -> fold_left put_entry l m !! k = Some (f v).
Proof.
  revert m. induction l as [|[k' v'] l IH]; intros m Hnd Hin; [set_solver|].
  simpl. apply NoDup_cons in Hnd as [Hk' Hnd]. apply elem_of_cons in Hin as [[= <- <-]|Hin].
  - rewrite fold_put_notin by done. apply lookup_insert_eq.
  - by apply IH.
Qed.

(** A loop that rewrites every entry of a map in place. *)
Lemma fold_put_all `{HashOrder} (m : gmap bytes V) :
  fold_left put_entry (iter_order m) m = f <$> m.
Proof.
  apply map_eq. intros k. rewrite lookup_fmap. destruct (m !! k) as [v|] eqn:E; simpl.
  - apply fold_put_in; [apply NoDup_iter_order_keys|]. by apply elem_of_iter_order.
  - rewrite fold_put_notin; [done|]. intros ([k' v] & -> & Hin)%list_elem_of_fmap.
    apply elem_of_iter_order in Hin. simpl in *. congruence.
Qed.

End MapLoops.

Section Cleanup.
Context (config : Config) (now : time) {HO : HashOrder}.

(** The events of a loop over [l] when the last number given out is [seq], and the last
    number after it. *)
Fixpoint offline_events (seq : Z) (l : list (bytes * DeviceState)) : list Event :=
  match l with
  | [] => []
  | (_, d) :: rest =>
      if goes_offline config now d then
        let id := u64 (seq + 1) in
        offline_event (event_id id) now (cleanup_device config now d) :: offline_events id rest
      else offline_events seq rest
  end.

Definition seq_after (seq : Z) (l : list (bytes * DeviceState)) : Z :=
  fold_left (fun n entry => if goes_offline config now entry.2 then u64 (n + 1) else n) l seq.

Definition expired_keys (l : list (bytes * DeviceState)) : list bytes :=
  (filter (fun entry => expired config now (cleanup_device config now entry.2) = true) l).*1.

(** The store and the keys to erase, after the loop over [l]. *)
Record swept (l : list (bytes * DeviceState)) (st : StateStore) (er : list bytes)
    (st' : StateStore) (er' : list bytes) : Prop := {
  sw_devices : devices_by_key_ st' = fold_left (put_entry (cleanup_device config now)) l (devices_by_key_ st);
  sw_erase : er' = er ++ expired_keys l;
  sw_events : events_ st' = fold_left rb_push (offline_events (event_seq_ st) l) (events_ st);
  sw_seq : event_seq_ st' = seq_after (event_seq_ st) l;
  sw_index : ip_to_key_ st' = ip_to_key_ st;
  sw_points : traffic_points_ st' = traffic_points_ st;
  sw_snapshots : interface_snapshots_ st' = interface_snapshots_ st;
  sw_interfaces : interfaces_by_name_ st' = interfaces_by_name_ st;
  sw_attacks : wan_attacks_ st' = wan_attacks_ st;
  sw_log : offline_events (event_seq_ st) l = [] -> last_log_ts_ st' = last_log_ts_ st
}.

Lemma expired_keys_cons k d l :
  expired_keys ((k, d) :: l) =
  (if expired config now (cleanup_device config now d) then [k] else []) ++ expired_keys l.
Proof.
  unfold expired_keys. rewrite filter_cons. simpl.
  destruct (expired config now (cleanup_device config now d)); by case_decide.
Qed.

Lemma swept_loop clk l st er :
  let '(st', er') := fold_left (cleanup_step config clk now) l (st, er) in swept l st er st' er'.
Proof.
  revert st er. induction l as [|[k d] l IH]; intros st er; simpl.
  { split; simpl; auto. by rewrite app_nil_r. }
  match goal with |- context [fold_left _ _ ?a] => destruct a as [st1 er1] eqn:E end.
  specialize (IH st1 er1). destruct (fold_left _ l _) as [st' er'].
  unfold touchLastLogLocked in E.
  destruct (goes_offline config now d) eqn:Eg, (expired config now (cleanup_device config now d)) eqn:Ex;
    try destruct (_ || _) in E; injection E as <- <-; destruct IH; simpl in *; (split; simpl; rewrite ?Eg;
      rewrite ?expired_keys_cons, ?Ex; simpl; auto; try done; by rewrite <- ?app_assoc in *).
Qed.

Lemma erase_keys_devices ks st k :
  devices_by_key_ (fold_left erase_key ks st) !! k =
  if decide (k ∈ ks) then None else devices_by_key_ st !! k.
Proof.
  revert st. induction ks as [|k' ks IH]; intros st; simpl; [done|]. rewrite IH. simpl.
  destruct (decide (k ∈ ks)); [rewrite decide_True by set_solver; done|].
  destruct (decide (k = k')) as [->|Hk].
  - rewrite decide_True by set_solver. apply lookup_delete_eq.
  - rewrite decide_False by set_solver. by apply lookup_delete_ne.
Qed.

Lemma erase_keys_points ks st k :
  traffic_points_ (fold_left erase_key ks st) !! k =
  if decide (k ∈ ks) then None else traffic_points_ st !! k.
Proof.
  revert st. induction ks as [|k' ks IH]; intros st; simpl; [done|]. rewrite IH. simpl.
  destruct (decide (k ∈ ks)); [rewrite decide_True by set_solver; done|].
  destruct (decide (k = k')) as [->|Hk].
  - rewrite decide_True by set_solver. apply lookup_delete_eq.
  - rewrite decide_False by set_solver. by apply lookup_delete_ne.
Qed.

Lemma erase_keys_index ks st i k :
  ip_to_key_ (fold_left erase_key ks st) !! i = Some k <->
  ip_to_key_ st !! i = Some k /\ k ∉ ks.
Proof.
  revert st. induction ks as [|k' ks IH]; intros st; simpl; [set_solver|]. rewrite IH. simpl.
  rewrite map_lookup_filter_Some. simpl. set_solver.
Qed.

Lemma erase_keys_other ks st :
  let st' := fold_left erase_key ks st in
  events_ st' = events_ st /\ event_seq_ st' = event_seq_ st /\
  interface_snapshots_ st' = interface_snapshots_ st /\
  interfaces_by_name_ st' = interfaces_by_name_ st /\
  wan_attacks_ st' = wan_attacks_ st /\ last_log_ts_ st' = last_log_ts_ st.
Proof.
  revert st. induction ks as [|k ks IH]; intros st; simpl; [done|].
  destruct (IH (erase_key st k)) as (-> & -> & -> & -> & -> & ->). done.
Qed.

(** The record at [k] expires in the sweep. *)
Definition erased (st : StateStore) (k : bytes) : Prop :=
  match devices_by_key_ st !! k with
  | Some d => expired config now (cleanup_device config now d) = true
  | None => False
  end.

#[local] Instance erased_dec st k : Decision (erased st k).
Proof. unfold erased. destruct (_ !! k); apply _. Defined.

Lemma elem_of_expired_keys st k :
  k ∈ expired_keys (iter_order (devices_by_key_ st)) <-> erased st k.
Proof.
  unfold expired_keys, erased. rewrite list_elem_of_fmap. setoid_rewrite list_elem_of_filter. split.
  - intros ([k' d] & -> & Hx & Hin%elem_of_iter_order). simpl in *. by rewrite Hin.
  - destruct (devices_by_key_ st !! k) as [d|] eqn:E; [|done]. intros Hx.
    exists (k, d). by rewrite elem_of_iter_order.
Qed.

(** ** The store after a sweep *)

Record cleaned (st st' : StateStore) : Prop := {
  cl_devices : forall k, devices_by_key_ st' !! k =
    if decide (erased st k) then None else cleanup_device config now <$> devices_by_key_ st !! k;
  cl_points : forall k, traffic_points_ st' !! k =
    if decide (erased st k) then None else traffic_points_ st !! k;
  cl_index : forall i k, ip_to_key_ st' !! i = Some k <-> ip_to_key_ st !! i = Some k /\ ~ erased st k;
  cl_events : events_ st' =
    fold_left rb_push (offline_events (event_seq_ st) (iter_order (devices_by_key_ st))) (events_ st);
  cl_seq : event_seq_ st' = seq_after (event_seq_ st) (iter_order (devices_by_key_ st));
  cl_snapshots : interface_snapshots_ st' = interface_snapshots_ st;
  cl_interfaces : interfaces_by_name_ st' = interfaces_by_name_ st;
  cl_attacks : wan_attacks_ st' = wan_attacks_ st;
  cl_log : offline_events (event_seq_ st) (iter_order (devices_by_key_ st)) = [] ->
    last_log_ts_ st' = last_log_ts_ st
}.

Lemma cleanup_cleaned clk st : cleaned st (cleanup config clk now st).
Proof.
  unfold cleanup. pose proof (swept_loop clk (iter_order (devices_by_key_ st)) st []) as H.
  destruct (fold_left _ _ _) as [st1 er]. destruct H as [Hd He Hv Hs Hi Hp Hsn Hif Ha Hl].
  simpl in He. rewrite fold_put_all in Hd. destruct (erase_keys_other er st1) as (E1&E2&E3&E4&E5&E6).
  assert (Her : forall k, k ∈ er <-> erased st k) by (subst er; apply elem_of_expired_keys).
  split; try congruence.
  - intros k. rewrite erase_keys_devices, Hd, lookup_fmap. by rewrite (decide_ext _ _ _ _ (Her k)).
  - intros k. rewrite erase_keys_points, Hp. by rewrite (decide_ext _ _ _ _ (Her k)).
  - intros i k. by rewrite erase_keys_index, Hi, Her.
  - intros Hno. by rewrite E6, Hl.
Qed.

(** ** One record in the sweep *)

Lemma statusFor_cleanup d : statusFor config (cleanup_device config now d) now = statusFor config d now.
Proof. unfold cleanup_device, expire_rates. by destruct (_ && _). Qed.

Lemma cleanup_device_status d : status (cleanup_device config now d) = statusFor config d now.
Proof. unfold cleanup_device, expire_rates. by destruct (_ && _). Qed.

Lemma cleanup_device_last_seen d : last_seen (cleanup_device config now d) = last_seen d.
Proof. unfold cleanup_device, expire_rates. by destruct (_ && _). Qed.

Lemma expire_rates_idemp d s :
  expire_rates config now ((expire_rates config now d) <| status := s |>) =
  (expire_rates config now d) <| status := s |>.
Proof.
  unfold expire_rates at 2 3. destruct (_ && _) eqn:E; [done|].
  unfold expire_rates. by destruct d; simpl in *; rewrite E.
Qed.

Lemma cleanup_device_idemp d :
  cleanup_device config now (cleanup_device config now d) = cleanup_device config now d.
Proof.
  transitivity ((expire_rates config now (cleanup_device config now d))
    <| status := statusFor config (cleanup_device config now d) now |>).
  { unfold cleanup_device at 1. f_equal. unfold statusFor, expire_rates. by destruct (_ && _). }
  rewrite statusFor_cleanup. unfold cleanup_device at 1. rewrite expire_rates_idemp.
  unfold cleanup_device, expire_rates. by destruct (_ && _).
Qed.

Lemma goes_offline_again d : goes_offline config now (cleanup_device config now d) = false.
Proof.
  unfold goes_offline. rewrite cleanup_device_idemp. by destruct (bool_decide _).
Qed.

(** A record is erased when it is older than both the idle and the keep time. *)
Lemma expired_cleanup d :
  expired config now (cleanup_device config now d) = true <->
  last_seen d <> 0 /\ seconds (device_idle_ttl_seconds config) < tsub now (last_seen d) /\
  seconds (device_keep_ttl_seconds config) < tsub now (last_seen d).
Proof.
  unfold expired. rewrite cleanup_device_status, cleanup_device_last_seen. unfold statusFor.
  destruct (last_seen d =? 0) eqn:E0.
  { rewrite andb_false_r. b2p. naive_solver. }
  destruct (seconds (device_idle_ttl_seconds config) <? _) eqn:E1.
  - simpl. rewrite Z.ltb_lt. b2p. naive_solver.
  - assert (Hno : bool_decide ((if isFailedNeighbour (neigh_state d) then Idle
      else if (tsub now (last_seen d) <=? seconds (device_online_ttl_seconds config)) &&
              (bool_decide (neigh_state d = []) || isReachableNeighbour (neigh_state d)
               || bool_decide (source d = "dhcp") || bool_decide (source d = "traffic")
               || bool_decide (source d = "wifi")) then Online else Idle) = Offline) = false).
    { apply bool_decide_eq_false. destruct (isFailedNeighbour _); [done|]. by destruct (_ && _). }
    rewrite Hno. simpl. b2p. split; [done|lia].
Qed.

(** ** The events of a sweep *)

Definition offline_fields (d : DeviceState) : gmap bytes bytes :=
  <[("hostname" : bytes) := hostname d]> (<[("ip" : bytes) := ip d]> (<[("mac" : bytes) := mac d]> ∅)).

Lemma offline_fields_cleanup d : offline_fields (cleanup_device config now d) = offline_fields d.
Proof. unfold cleanup_device, expire_rates. by destruct (_ && _). Qed.

Lemma offline_events_fields seq l :
  ev_fields <$> offline_events seq l =
  (fun entry => offline_fields entry.2) <$> filter (fun entry => goes_offline config now entry.2 = true) l.
Proof.
  revert seq. induction l as [|[k d] l IH]; intros seq; simpl; [done|].
  rewrite filter_cons. simpl. destruct (goes_offline config now d) eqn:E; case_decide; try done; simpl.
  rewrite IH. f_equal. apply offline_fields_cleanup.
Qed.

Lemma offline_events_none seq l :
  (forall k d, (k, d) ∈ l -> goes_offline config now d = false) ->
  offline_events seq l = [] /\ seq_after seq l = seq.
Proof.
  unfold seq_after. intros H. induction l as [|[k d] l IH]; [done|]. simpl.
  rewrite (H k d) by set_solver. apply IH. set_solver.
Qed.

(** ** Claims *)

(** C14: one sweep erases exactly the records that are older than both the idle and the
    keep time, together with their traffic points and the address index entries that lead
    to them; every other record has its rates expired and its status recomputed, and every
    other point list and index entry is untouched. *)
Theorem cleanup_erases_exactly_expired clk st :
  let st' := cleanup config clk now st in
  let old d := last_seen d <> 0 /\
               seconds (device_idle_ttl_seconds config) < tsub now (last_seen d) /\
               seconds (device_keep_ttl_seconds config) < tsub now (last_seen d) in
  (forall k d, devices_by_key_ st !! k = Some d -> old d ->
     devices_by_key_ st' !! k = None /\ traffic_points_ st' !! k = None /\
     forall i, ip_to_key_ st' !! i <> Some k) /\
  (forall k d, devices_by_key_ st !! k = Some d -> ~ old d ->
     devices_by_key_ st' !! k = Some (cleanup_device config now d) /\
     traffic_points_ st' !! k = traffic_points_ st !! k /\
     forall i, ip_to_key_ st' !! i = Some k <-> ip_to_key_ st !! i = Some k) /\
  (forall k, devices_by_key_ st !! k = None -> devices_by_key_ st' !! k = None).
Proof.
  destruct (cleanup_cleaned clk st) as [Hd Hp Hi _ _ _ _ _ _]. split_and!.
  - intros k d Hk Hold%expired_cleanup. assert (He : erased st k) by (unfold erased; by rewrite Hk).
    rewrite Hd, Hp. split_and!; [by rewrite decide_True|by rewrite decide_True|].
    intros i H%Hi. tauto.
  - intros k d Hk Hold. rewrite <- expired_cleanup in Hold.
    assert (He : ~ erased st k) by (unfold erased; by rewrite Hk).
    rewrite Hd, Hp, !decide_False, Hk by done. split_and!; [done..|]. intros i. rewrite Hi. tauto.
  - intros k Hk. rewrite Hd, Hk. by case_decide.
Qed.

(** a sweep pushes one "Device offline" event for every record whose status changes to
    offline in it, with that record's identity, and no other event, whatever the order in
    which the hash map is visited. *)
Theorem cleanup_reports_each_transition clk st :
  exists events,
    events_ (cleanup config clk now st) = fold_left rb_push events (events_ st) /\
    ev_fields <$> events ≡ₚ
      (fun entry => offline_fields entry.2) <$>
        filter (fun entry => status entry.2 <> Offline /\ statusFor config entry.2 now = Offline)
          (map_to_list (devices_by_key_ st)) /\
    Forall (fun e => ev_ts e = now /\ ev_message e = "Device offline" /\ ev_severity e = Warning) events.
Proof.
  exists (offline_events (event_seq_ st) (iter_order (devices_by_key_ st))). split_and!.
  - apply (cl_events _ _ (cleanup_cleaned clk st)).
  - rewrite offline_events_fields. apply fmap_Permutation. rewrite iter_order_perm.
    erewrite list_filter_iff; [done|]. intros [k d]. simpl. unfold goes_offline.
    rewrite cleanup_device_status, andb_true_iff, negb_true_iff, bool_decide_eq_true,
      bool_decide_eq_false. done.
  - generalize (event_seq_ st). induction (iter_order _) as [|[k d] l IH]; intros seq; simpl; [done|].
    destruct (goes_offline config now d); [|apply IH]. by apply Forall_cons.
Qed.

(** a sweep repeated at the same time changes nothing: no record, no index entry, no
    event, no counter. *)
Theorem cleanup_idempotent clk clk' st :
  cleanup config clk' now (cleanup config clk now st) = cleanup config clk now st.
Proof.
  set (st1 := cleanup config clk now st). pose proof (cleanup_cleaned clk st) as H1. fold st1 in H1.
  assert (Hfix : forall k d, devices_by_key_ st1 !! k = Some d ->
    cleanup_device config now d = d /\ expired config now d = false).
  { intros k d. rewrite (cl_devices _ _ H1). case_decide as He; [done|].
    intros (d0 & Hd0 & ->)%fmap_Some. split; [apply cleanup_device_idemp|].
    unfold erased in He. rewrite Hd0 in He. by apply not_true_is_false. }
  assert (Hno : forall k, ~ erased st1 k).
  { intros k. unfold erased. destruct (devices_by_key_ st1 !! k) as [d|] eqn:E; [|tauto].
    destruct (Hfix k d E) as [-> ->]. done. }
  destruct (offline_events_none (event_seq_ st1) (iter_order (devices_by_key_ st1))) as [Hev Hseq].
  { intros k d Hin%elem_of_iter_order. destruct (Hfix k d Hin) as [<- _]. apply goes_offline_again. }
  destruct (cleanup_cleaned clk' st1) as [Hd Hp Hi Hv Hs Hsn Hif Ha Hl].
  rewrite Hev in Hv. specialize (Hl Hev). rewrite Hseq in Hs.
  assert (Ed : devices_by_key_ (cleanup config clk' now st1) = devices_by_key_ st1).
  { apply map_eq. intros k. rewrite Hd, decide_False by done.
    destruct (devices_by_key_ st1 !! k) as [d|] eqn:E; simpl; [|done]. by destruct (Hfix k d E) as [-> _]. }
  assert (Ep : traffic_points_ (cleanup config clk' now st1) = traffic_points_ st1).
  { apply map_eq. intros k. by rewrite Hp, decide_False. }
  assert (Ei : ip_to_key_ (cleanup config clk' now st1) = ip_to_key_ st1).
  { apply map_eq. intros i. apply option_eq. intros k. rewrite Hi. naive_solver. }
  destruct (cleanup config clk' now st1), st1. simpl in *. congruence.
Qed.

End Cleanup.
