(* ===== verification/StoreInvariant.v ===== *)
(** * The invariant of the state store

    The mutating operations of the store as the steps of a transition system, and the
    invariant [store_ok] that holds in every reachable state: keys, address index and
    traffic points agree with the device table, the buffers and point lists stay within
    their configured bounds, MAC addresses are normalised, rates are finite and never negative. *)

From S2P Require Import Prelude Utils RingBuffer Double Types Config StateStore StoreCleanup.

(** ** Keys *)

Lemma mac_key_inj a b : mac_key a = mac_key b -> a = b.
Proof. unfold mac_key. apply app_inv_head. Qed.

Lemma ip_key_inj a b : ip_key a = ip_key b -> a = b.
Proof. unfold ip_key. apply app_inv_head. Qed.

Lemma mac_key_ip_key a b : mac_key a <> ip_key b.
Proof. done. Qed.

Lemma starts_ip_key x : starts_with "ip:" (ip_key x) = true.
Proof. apply starts_with_app. Qed.

Lemma starts_ip_mac_key m : starts_with "ip:" (mac_key m) = false.
Proof. done. Qed.

(** Values that [setIfNotEmpty] takes over. *)
Definition informative (v : bytes) : Prop := v <> [] /\ v <> "unknown" /\ v <> "*".

#[export] Instance informative_dec v : Decision (informative v).
Proof. unfold informative. apply _. Defined.

Lemma setIfNotEmpty_informative d v : informative v -> setIfNotEmpty d v = v.
Proof. unfold setIfNotEmpty, informative. intros H. by rewrite decide_True. Qed.

Lemma setIfNotEmpty_other d v : ~ informative v -> setIfNotEmpty d v = d.
Proof. unfold setIfNotEmpty, informative. intros H. by rewrite decide_False. Qed.

Lemma setIfNotEmpty_cases (P : bytes -> Prop) d v :
  P d -> (informative v -> P v) -> P (setIfNotEmpty d v).
Proof.
  intros Hd Hv. destruct (decide (informative v)).
  - rewrite setIfNotEmpty_informative; auto.
  - by rewrite setIfNotEmpty_other.
Qed.

(** ** Traffic points *)

(** Two adjacent stored points: the second was stored because a counter went back,
    or because a counter advanced, none went back, and time had passed. *)
Definition point_follows (p q : TrafficSnapshot) : Prop :=
  (ts_rx_bytes q < ts_rx_bytes p \/ ts_tx_bytes q < ts_tx_bytes p) \/
  (ts_rx_bytes p <= ts_rx_bytes q /\ ts_tx_bytes p <= ts_tx_bytes q /\
   ts_rx_bytes p + ts_tx_bytes p < ts_rx_bytes q + ts_tx_bytes q /\
   dltb d_zero (d_seconds (tsub (ts_ts q) (ts_ts p))) = true).

Fixpoint points_chain (points : list TrafficSnapshot) : Prop :=
  match points with
  | p :: (q :: _) as rest => point_follows p q /\ points_chain rest
  | _ => True
  end.

Lemma points_chain_tail p l : points_chain (p :: l) -> points_chain l.
Proof. destruct l; simpl; tauto. Qed.

Lemma points_chain_snoc l q :
  points_chain l -> (forall p, last l = Some p -> point_follows p q) -> points_chain (l ++ [q]).
Proof.
  induction l as [|p l IH]; [done|]. intros Hl Hq. destruct l as [|p' l].
  - simpl. split; [|done]. by apply Hq.
  - simpl app. simpl in Hl. destruct Hl as [Hp Hl]. split; [done|]. by apply IH.
Qed.

Lemma trim_points_chain n l : points_chain l -> points_chain (trim_points n l).
Proof.
  induction l as [|p l IH]; intros Hl; [done|]. cbn [trim_points].
  destruct (_ <? _); [|done]. by eapply IH, points_chain_tail.
Qed.

Lemma trim_points_lastn n l : 0 <= n -> trim_points n l = lastn (Z.to_nat n) l.
Proof.
  intros Hn. induction l as [|p l IH]; [done|]. cbn [trim_points]. destruct (n <? _) eqn:E; b2p; simpl in E.
  - rewrite IH. unfold lastn. simpl length. by replace (S (length l) - Z.to_nat n)%nat with (S (length l - Z.to_nat n)) by lia.
  - symmetry. apply lastn_all. simpl. lia.
Qed.

Lemma trim_points_length n l : 0 <= n -> Z.of_nat (length (trim_points n l)) <= n.
Proof.
  intros Hn. induction l as [|p l IH]; [simpl; lia|]. cbn [trim_points].
  destruct (_ <? _) eqn:E; [done|]. blia.
Qed.

(** A list of points within the configured bound. *)
Definition points_ok (max_points : Z) (l : list TrafficSnapshot) : Prop :=
  points_chain l /\ Z.of_nat (length l) <= max_points.

Lemma points_ok_nil n : 0 <= n -> points_ok n [].
Proof. by split. Qed.

#[export] Hint Resolve points_ok_nil : netmon.

(** ** Devices *)

(** The key of a record: its MAC address in lower case, or an address. *)
Definition key_ok (k : bytes) : Prop :=
  (exists m, k = mac_key m /\ m <> [] /\ lower m = m) \/ (exists i, k = ip_key i /\ i <> []).

Record device_ok (k : bytes) (d : DeviceState) : Prop := {
  dok_mac : lower (mac d) = mac d;
  dok_ip : ip d = [] \/ informative (ip d);
  dok_ip_key : forall x, k = ip_key x -> ip d = [] \/ ip d = x;
  dok_tags : NoDup (tags d);
  dok_rx : d_rate (rx_rate_bps d);
  dok_tx : d_rate (tx_rate_bps d)
}.

Lemma default_device_ok k : device_ok k default_DeviceState.
Proof. split; simpl; auto using NoDup_nil_2, d_rate_zero. Qed.

Lemma add_tag_NoDup l t : NoDup l -> NoDup (add_tag l t).
Proof.
  intros Hl. unfold add_tag, hasTag. case_bool_decide; [done|].
  apply NoDup_app. split_and!; [done| |apply NoDup_singleton]. set_solver.
Qed.

Lemma add_tags_NoDup l ts : NoDup l -> NoDup (fold_left add_tag ts l).
Proof. revert l. induction ts as [|t ts IH]; intros l Hl; simpl; auto using add_tag_NoDup. Qed.

#[export] Hint Resolve default_device_ok add_tag_NoDup add_tags_NoDup : netmon.

(** ** The store *)

Section Invariant.
Context (config : Config).

Record store_ok (st : StateStore) : Prop := {
  sok_keys : forall k d, devices_by_key_ st !! k = Some d -> key_ok k /\ device_ok k d;
  sok_index : forall i k, ip_to_key_ st !! i = Some k ->
    informative i /\ is_Some (devices_by_key_ st !! k) /\ forall x, k = ip_key x -> i = x;
  sok_points : forall k l, traffic_points_ st !! k = Some l ->
    is_Some (devices_by_key_ st !! k) /\ points_ok (max_traffic_points_per_device config) l;
  sok_interfaces : forall n i, interfaces_by_name_ st !! n = Some i ->
    if_interface_name i = n /\ is_Some (interface_snapshots_ st !! n) /\
    d_rate (if_rx_rate_bps i) /\ d_rate (if_tx_rate_bps i);
  sok_events : rb_ok (events_ st) /\ capacity_ (events_ st) = max_events config;
  sok_attacks : rb_ok (wan_attacks_ st) /\ capacity_ (wan_attacks_ st) = max_attack_events config;
  sok_seq : 0 <= event_seq_ st < two64
}.

(** What the store reads of its configuration: three sizes, never negative. *)
Definition sizes_ok : Prop :=
  0 <= max_events config /\ 0 <= max_attack_events config /\
  0 <= max_traffic_points_per_device config.

(** Every configuration within its machine ranges has them. *)
Lemma config_sizes_ok : config_ok config -> sizes_ok.
Proof.
  unfold config_ok, numbers_ok, sizes, sizes_ok, size_ok. rewrite !Forall_cons. naive_solver.
Qed.

(** A record an update brings: its rates are finite and not negative. *)
Definition device_input (d : DeviceState) : Prop :=
  d_rate (rx_rate_bps d) /\ d_rate (tx_rate_bps d).

(** A counter of 64 bits. *)
Definition counter (n : Z) : Prop := 0 <= n < two64.

Context {HO : HashOrder}.

(** The calls that change the store, with the events a client adds in [accepted]. *)
Inductive store_step (accepted : Event -> Prop) : StateStore -> StateStore -> Prop :=
  | step_updateDevice clk st d :
      device_input d -> store_step accepted st (updateDevice config clk st d)
  | step_updateTraffic clk st s : store_step accepted st (updateTraffic config clk st s)
  | step_updateInterface clk st s : store_step accepted st (updateInterface clk st s)
  | step_addEvent clk st e : accepted e -> store_step accepted st (addEvent clk st e)
  | step_addWANAttack clk st e : store_step accepted st (addWANAttack clk st e)
  | step_nextEventId st : store_step accepted st (nextEventId st).2
  | step_cleanup clk now st : store_step accepted st (cleanup config clk now st).

Definition any_event (_ : Event) : Prop := True.

(** Reached from the empty store by any calls. *)
Definition reachable (st : StateStore) : Prop :=
  rtc (store_step any_event) (new_StateStore config) st.

(** *** Small operations *)

Lemma touchLastLog_ok now ts st : store_ok st -> store_ok (touchLastLogLocked now ts st).
Proof. intros []. unfold touchLastLogLocked. destruct (_ || _); split; simpl; auto. Qed.

Lemma new_store_ok : sizes_ok -> store_ok (new_StateStore config).
Proof.
  intros (He & Ha & Hp). split; simpl; try (intros ? ? H; by rewrite lookup_empty in H).
  - split; [by apply rb_new_ok|done].
  - split; [by apply rb_new_ok|done].
  - words.
Qed.

Lemma push_events_ok st e :
  store_ok st -> store_ok (st <| events_ := rb_push (events_ st) e |>).
Proof.
  intros []. split; simpl; auto. rewrite rb_push_capacity. split; [|tauto].
  apply rb_push_ok. tauto.
Qed.

Lemma nextEventId_ok st : store_ok st -> store_ok (nextEventId st).2.
Proof. intros []. split; simpl; auto. apply u64_range. Qed.

Lemma addEvent_ok clk st e : store_ok st -> store_ok (addEvent clk st e).
Proof.
  intros H. unfold addEvent, pushEventLocked. case_decide; simpl; apply touchLastLog_ok.
  - apply (push_events_ok (nextEventId st).2). by apply nextEventId_ok.
  - by apply push_events_ok.
Qed.

Lemma addWANAttack_ok clk st e : store_ok st -> store_ok (addWANAttack clk st e).
Proof.
  intros []. unfold addWANAttack. apply touchLastLog_ok. split; simpl; auto.
  rewrite rb_push_capacity. split; [|tauto]. apply rb_push_ok. tauto.
Qed.

Lemma interface_rates_rate prev cur rx tx :
  interface_rates prev cur = Some (rx, tx) -> d_rate rx /\ d_rate tx.
Proof.
  unfold interface_rates. destruct prev as [prev|]; [|done].
  destruct (dltb _ _ && _) eqn:E; [|done]. b2p. intros [= <- <-].
  split; apply rate_bps_rate; auto using u64_range, tsub_upper.
Qed.

Lemma updateInterface_ok clk st s : store_ok st -> store_ok (updateInterface clk st s).
Proof.
  intros []. unfold updateInterface. case_decide; [done|].
  match goal with |- context [interface_rates ?p ?c] => destruct (interface_rates p c) as [[rx tx]|] eqn:E end;
    simpl; apply touchLastLog_ok; split; simpl; auto; intros n i;
    rewrite lookup_insert_Some; (intros [[<- <-]|[Hn Hi]]; simpl;
      [rewrite lookup_insert_eq; eauto 10 using interface_rates_rate, d_rate_zero
      |rewrite lookup_insert_ne by done; auto]).
Qed.

(** *** Keys found and made *)

(** What [keyFor] can return: nothing when both identifiers are missing; the key of
    the MAC address; or the record an address leads to, when the MAC address has none. *)
Inductive key_choice (st : StateStore) (m i : bytes) : bytes -> Prop :=
  | choice_none : m = [] -> i = [] -> key_choice st m i []
  | choice_mac : m <> [] -> key_choice st m i (mac_key (lower m))
  | choice_index k :
      (m = [] \/ devices_by_key_ st !! mac_key (lower m) = None) -> i <> [] ->
      ip_to_key_ st !! i = Some k -> key_choice st m i k
  | choice_ip :
      (m = [] \/ devices_by_key_ st !! mac_key (lower m) = None) -> i <> [] ->
      ip_to_key_ st !! i = None ->
      (m = [] \/ is_Some (devices_by_key_ st !! ip_key i)) -> key_choice st m i (ip_key i).

Lemma makeKey_mac m i : m <> [] -> makeKey m i = mac_key (lower m).
Proof. intros Hm. unfold makeKey. rewrite decide_True; [done|]. by rewrite lower_nil. Qed.

Lemma makeKey_ip i : i <> [] -> makeKey [] i = ip_key i.
Proof. intros Hi. unfold makeKey. simpl. by rewrite decide_True. Qed.

Lemma keyFor_choice st m i : store_ok st -> key_choice st m i (keyFor st m i).
Proof.
  intros Hst. unfold keyFor, findKeyLocked.
  destruct (decide (lower m <> [] /\ is_Some (devices_by_key_ st !! mac_key (lower m)))) as [[Hm Hd]|Hno].
  { rewrite decide_False by done. apply choice_mac. by rewrite <- lower_nil. }
  assert (Hno' : m = [] \/ devices_by_key_ st !! mac_key (lower m) = None).
  { destruct (decide (m = [])) as [|Hm]; [by left|right]. apply eq_None_not_Some.
    intros Hs. apply Hno. by rewrite lower_nil. }
  destruct (decide (i <> [])) as [Hi|Hi].
  - destruct (ip_to_key_ st !! i) as [k|] eqn:Ek.
    + destruct (sok_index _ Hst _ _ Ek) as (_ & [d Hd] & _).
      rewrite decide_False; [by apply choice_index|].
      destruct (sok_keys _ Hst _ _ Hd) as [[(?&->&_)|(?&->&_)] _]; done.
    + destruct (decide (is_Some (devices_by_key_ st !! ip_key i))) as [Hs|Hs].
      * rewrite decide_False by done. apply choice_ip; auto.
      * rewrite decide_True by done. destruct (decide (m = [])) as [->|Hm].
        -- rewrite makeKey_ip by done. apply choice_ip; auto.
        -- rewrite makeKey_mac by done. by apply choice_mac.
  - rewrite decide_True by done. apply dec_stable in Hi. subst i.
    destruct (decide (m = [])) as [->|Hm]; [by apply choice_none|].
    rewrite makeKey_mac by done. by apply choice_mac.
Qed.

Lemma keyFor_nil st m i : store_ok st -> keyFor st m i = [] <-> m = [] /\ i = [].
Proof.
  intros Hst. split.
  - pose proof (keyFor_choice st m i Hst) as H. intros E. rewrite E in H.
    inversion H as [| |k ? ? Hk|]; subst; auto.
    destruct (sok_index _ Hst _ _ Hk) as (_ & [d Hd] & _).
    destruct (sok_keys _ Hst _ _ Hd) as [[(?&?&_)|(?&?&_)] _]; done.
  - by intros [-> ->].
Qed.

(** A record stored under an address is only reached through that address. *)
Lemma keyFor_ip_key st m i x : store_ok st -> keyFor st m i = ip_key x -> i = x.
Proof.
  intros Hst. pose proof (keyFor_choice st m i Hst) as H. intros E. rewrite E in H.
  inversion H as [|? Hk|k ? ? Hk|? ? ? ? Hk]; subst; auto using ip_key_inj; try done.
  by apply (sok_index _ Hst _ _ Hk).
Qed.

Lemma keyFor_ok st m i : store_ok st -> keyFor st m i <> [] -> key_ok (keyFor st m i).
Proof.
  intros Hst Hk. destruct (keyFor_choice st m i Hst) as [|Hm|k ? ? Hi|? Hi].
  - done.
  - left. exists (lower m). split; [done|]. rewrite lower_nil, lower_idemp. done.
  - destruct (sok_index _ Hst _ _ Hi) as (_ & [d Hd] & _). by apply (sok_keys _ Hst k d).
  - right. by exists i.
Qed.

(** *** Records *)

Lemma mergeDevice_ok k cur d now :
  device_ok k cur -> device_input d -> (forall x, k = ip_key x -> ip d = x) ->
  device_ok k (mergeDeviceLocked config cur d now).
Proof.
  intros [] [Hrx Htx] Hip. split; simpl.
  - apply (setIfNotEmpty_cases (fun v => lower v = v)); [done|]. intros _. apply lower_idemp.
  - apply (setIfNotEmpty_cases (fun v => v = [] \/ informative v)); auto.
  - intros x Hx. apply (setIfNotEmpty_cases (fun v => v = [] \/ v = x)); auto.
  - by apply add_tags_NoDup.
  - by destruct (dltb _ (dabs (rx_rate_bps d))).
  - by destruct (dltb _ (dabs (tx_rate_bps d))).
Qed.

Lemma device_at_ok st k : store_ok st -> device_ok k (device_at st k).
Proof.
  intros Hst. unfold device_at. destruct (devices_by_key_ st !! k) as [d|] eqn:E; simpl.
  - by apply (sok_keys _ Hst).
  - apply default_device_ok.
Qed.

Lemma device_ok_mac_key k d m : device_ok k d -> device_ok (mac_key m) d.
Proof. intros []. by split. Qed.

(** [devices_by_key_[k] = d;] and the index entry of its address. *)
Definition install (k : bytes) (d : DeviceState) (st : StateStore) : StateStore :=
  index_ip (ip d) k (st <| devices_by_key_ := <[k := d]> (devices_by_key_ st) |>).

Lemma is_Some_insert {V} (m : gmap bytes V) (k k' : bytes) v :
  is_Some (m !! k) -> is_Some (<[k' := v]> m !! k).
Proof. rewrite lookup_insert_is_Some'. auto. Qed.

Lemma install_ok k d st : store_ok st -> key_ok k -> device_ok k d -> store_ok (install k d st).
Proof.
  intros Hst Hk Hd. unfold install, index_ip.
  assert (Hdev : forall k' d', <[k := d]> (devices_by_key_ st) !! k' = Some d' ->
    key_ok k' /\ device_ok k' d').
  { intros k' d' [[<- <-]|[_ H]]%lookup_insert_Some; [done|]. by apply (sok_keys _ Hst). }
  destruct Hst. case_decide as Hip; split; simpl; auto.
  - intros i k' [[<- <-]|[_ H]]%lookup_insert_Some.
    + split_and!; [by destruct (dok_ip _ _ Hd)|by rewrite lookup_insert_eq|].
      intros x Hx. by destruct (dok_ip_key _ _ Hd x Hx).
    + destruct (sok_index0 _ _ H) as (? & ? & ?). auto using is_Some_insert.
  - intros k' l H. destruct (sok_points0 _ _ H). auto using is_Some_insert.
  - intros i k' H. destruct (sok_index0 _ _ H) as (? & ? & ?). auto using is_Some_insert.
  - intros k' l H. destruct (sok_points0 _ _ H). auto using is_Some_insert.
Qed.

Lemma store_points_ok st k l :
  store_ok st -> is_Some (devices_by_key_ st !! k) ->
  points_ok (max_traffic_points_per_device config) l ->
  store_ok (st <| traffic_points_ := <[k := l]> (traffic_points_ st) |>).
Proof.
  intros [] Hk Hl. split; simpl; auto.
  intros k' l' [[<- <-]|[_ H]]%lookup_insert_Some; auto.
Qed.

Lemma install_points_ok k d l st :
  store_ok st -> key_ok k -> device_ok k d ->
  points_ok (max_traffic_points_per_device config) l ->
  store_ok ((install k d st) <| traffic_points_ := <[k := l]> (traffic_points_ st) |>).
Proof.
  intros Hst Hk Hd Hl. pose proof (install_ok k d st Hst Hk Hd) as Hi.
  replace (traffic_points_ st) with (traffic_points_ (install k d st))
    by (unfold install, index_ip; by case_decide).
  apply store_points_ok; [done| |done].
  unfold install, index_ip. case_decide; simpl; by rewrite lookup_insert_eq.
Qed.

(** *** Moving a record from its address to its MAC address *)

(** The store after the move. *)
Definition moved (st : StateStore) (m i : bytes) (node : DeviceState) : StateStore :=
  st <| devices_by_key_ :=
          <[mac_key (lower m) := node]> (delete (ip_key i) (devices_by_key_ st)) |>
     <| traffic_points_ :=
          delete (ip_key i) (<[mac_key (lower m) := default [] (traffic_points_ st !! ip_key i)]>
            (traffic_points_ st)) |>.

Inductive rekey_result (st : StateStore) (m i : bytes) : bytes * StateStore -> Prop :=
  | rekey_same :
      (m = [] \/ exists m', keyFor st m i = mac_key m') ->
      rekey_result st m i (keyFor st m i, st)
  | rekey_moved node :
      m <> [] -> i <> [] -> keyFor st m i = ip_key i ->
      devices_by_key_ st !! ip_key i = Some node ->
      devices_by_key_ st !! mac_key (lower m) = None ->
      rekey_result st m i (mac_key (lower m), moved st m i node).

Lemma rekey_at_ip st m i :
  store_ok st -> m <> [] -> i <> [] -> keyFor st m i = ip_key i ->
  is_Some (devices_by_key_ st !! ip_key i) -> devices_by_key_ st !! mac_key (lower m) = None ->
  rekey_result st m i (rekey st m (ip_key i) (makeKey m i)).
Proof.
  intros Hst Hm Hi Hk [node Hn] Hnone. unfold rekey. rewrite makeKey_mac by done.
  rewrite decide_True by (split_and!; try done; apply starts_ip_key). rewrite Hn.
  rewrite lookup_delete_ne, Hnone by done. by apply rekey_moved.
Qed.

Lemma rekey_spec st m i :
  store_ok st -> keyFor st m i <> [] ->
  rekey_result st m i (rekey st m (keyFor st m i) (makeKey m i)).
Proof.
  intros Hst Hne. destruct (decide (m = [])) as [->|Hm].
  { unfold rekey. rewrite decide_False by tauto. apply rekey_same. by left. }
  assert (Hmac : forall m', keyFor st m i = mac_key m' ->
    rekey_result st m i (rekey st m (keyFor st m i) (makeKey m i))).
  { intros m' E. replace (rekey _ _ _ _) with (keyFor st m i, st); [apply rekey_same; eauto|].
    unfold rekey. rewrite decide_False; [done|]. by rewrite E, starts_ip_mac_key; intros (_&?&_). }
  pose proof (keyFor_choice st m i Hst) as Hc. remember (keyFor st m i) as k0 eqn:E.
  destruct Hc as [|_|k [?|Hno] Hi Hk|[?|Hno] Hi Hk [?|Hs]]; try done.
  - by eapply Hmac.
  - destruct (sok_index _ Hst _ _ Hk) as (_ & [d Hd] & Hx).
    destruct (sok_keys _ Hst _ _ Hd) as [[(m'&Em&_)|(x&Ex&_)] _]; [by eapply Hmac|].
    rewrite <- (Hx x Ex) in Ex. subst k. rewrite Ex in Hd |- *. apply rekey_at_ip; eauto.
  - by apply rekey_at_ip.
Qed.

(** The moved store is sound apart from the index entry of the address, which the
    update that follows writes. *)
Lemma moved_ok st m i node :
  store_ok st -> 0 <= max_traffic_points_per_device config -> m <> [] ->
  devices_by_key_ st !! ip_key i = Some node ->
  store_ok ((moved st m i node) <| ip_to_key_ := delete i (ip_to_key_ st) |>).
Proof.
  intros [] Hp Hm Hn. split; simpl; auto.
  - intros k d [[<- <-]|[_ H]]%lookup_insert_Some.
    + split; [left; exists (lower m); by rewrite lower_nil, lower_idemp|].
      by eapply device_ok_mac_key, sok_keys0.
    + apply lookup_delete_Some in H as [_ H]. by apply sok_keys0.
  - intros i' k [Hi H]%lookup_delete_Some. destruct (sok_index0 _ _ H) as (? & Hs & Hx).
    split_and!; [done| |done]. apply is_Some_insert. rewrite lookup_delete_ne; [done|].
    intros E. by apply Hi, eq_sym, Hx.
  - intros k l [Hk H]%lookup_delete_Some. apply lookup_insert_Some in H as [[<- <-]|[Hk' H]].
    + split; [by rewrite lookup_insert_eq|].
      destruct (traffic_points_ st !! ip_key i) eqn:E; simpl; [by eapply sok_points0|by apply points_ok_nil].
    + destruct (sok_points0 _ _ H). split; [|done]. apply is_Some_insert.
      by rewrite lookup_delete_ne.
Qed.

(** Writing the moved record: the index entry of its address is overwritten. *)
Lemma install_moved st m i node k d :
  store_ok st -> (ip d = i \/ ~ informative i) ->
  install k d (moved st m i node) =
  install k d ((moved st m i node) <| ip_to_key_ := delete i (ip_to_key_ st) |>).
Proof.
  intros Hst Hd. unfold install, index_ip. simpl.
  assert (Hdel : ~ informative i -> delete i (ip_to_key_ st) = ip_to_key_ st).
  { intros Hi. apply delete_id. apply eq_None_not_Some. intros [k' Hk].
    by apply Hi, (sok_index _ Hst _ _ Hk). }
  case_decide as Hip; simpl.
  - destruct Hd as [->|Hi]; [by rewrite insert_delete_eq|by rewrite Hdel].
  - destruct Hd as [<-|Hi]; [|by rewrite Hdel].
    rewrite Hdel; [done|]. intros [? _]. tauto.
Qed.

(** [updateDevice] as the choice of a key, a possible move, and the write of the merged
    record. *)
Lemma updateDevice_install clk st d :
  store_ok st -> mac d <> [] \/ ip d <> [] ->
  exists key st1,
    rekey_result st (mac d) (ip d) (key, st1) /\
    let merged := mergeDeviceLocked config (device_at st1 key) d (clk 0%nat) in
    updateDevice config clk st d =
    touchLastLogLocked (clk 1%nat) (last_seen merged) (install key merged st1).
Proof.
  intros Hst Hne. assert (Hk : keyFor st (mac d) (ip d) <> []).
  { rewrite keyFor_nil by done. tauto. }
  pose proof (rekey_spec st _ _ Hst Hk) as Hr. unfold updateDevice.
  rewrite decide_False by done. destruct (rekey _ _ _ _) as [key st1].
  exists key, st1. done.
Qed.

Lemma updateDevice_ok clk st d :
  sizes_ok -> device_input d -> store_ok st -> store_ok (updateDevice config clk st d).
Proof.
  intros (_ & _ & Hp) Hd Hst.
  destruct (decide (mac d = [] /\ ip d = [])) as [Hnil|Hne].
  { unfold updateDevice. by rewrite decide_True by by apply keyFor_nil. }
  destruct (updateDevice_install clk st d Hst (proj1 not_and_l Hne)) as (key & st1 & Hr & ->).
  apply touchLastLog_ok. inversion Hr as [_|node Hm Hi Hk Hn Hnone]; subst.
  - apply install_ok; auto.
    + apply keyFor_ok; [done|]. rewrite keyFor_nil by done. tauto.
    + apply mergeDevice_ok; auto using device_at_ok. intros x. by apply keyFor_ip_key.
  - pose proof (moved_ok st _ (ip d) node Hst Hp Hm Hn) as Hmv.
    rewrite install_moved; [|done|].
    + apply install_ok; [done|left; exists (lower (mac d)); by rewrite lower_nil, lower_idemp|].
      apply mergeDevice_ok; [by apply (device_at_ok _ _ Hmv)|done|done].
    + destruct (decide (informative (ip d))); [left|by right]. simpl.
      by apply setIfNotEmpty_informative.
Qed.

(** *** Traffic *)

(** The outcome of the comparison with the previous point: rates are finite and not negative, and
    a point is only stored next to one it may follow. *)
Lemma traffic_rates_spec device points current rx tx store reset :
  d_rate (rx_rate_bps device) -> d_rate (tx_rate_bps device) ->
  traffic_rates config device points current = (rx, tx, store, reset) ->
  d_rate rx /\ d_rate tx /\
  (store = true -> forall p, last points = Some p -> point_follows p current).
Proof.
  intros Hrx Htx. unfold traffic_rates. destruct (last points) as [p|]; [|naive_solver].
  destruct ((_ <? _) || (_ <? _)) eqn:Ereset.
  { intros [= <- <- <- <-]. split_and!; [apply d_rate_zero..|]. intros _ ? [= <-]. left.
    apply orb_prop in Ereset as [?|?]; b2p; auto. }
  destruct (negb _ || negb _) eqn:Ech.
  - destruct (dltb _ _) eqn:Et; [|naive_solver]. intros [= <- <- <- <-].
    split_and!; [apply rate_bps_rate; auto using u64_range, tsub_upper..|].
    intros _ ? [= <-]. right. apply orb_prop in Ech. b2p. split_and!; try done; destruct Ech; b2p; lia.
  - destruct (_ && _); pose proof d_rate_zero; naive_solver.
Qed.

Lemma traffic_device_ok k device current rx tx reset :
  device_ok k device -> d_rate rx -> d_rate tx -> lower (ts_mac current) = ts_mac current ->
  (forall x, k = ip_key x -> ts_ip current = x) ->
  device_ok k (traffic_device config device current rx tx reset).
Proof.
  intros [] Hrx Htx Hmac Hip. split; simpl; auto.
  - by apply (setIfNotEmpty_cases (fun v => lower v = v)).
  - apply (setIfNotEmpty_cases (fun v => v = [] \/ informative v)); auto.
  - intros x Hx. apply (setIfNotEmpty_cases (fun v => v = [] \/ v = x)); auto.
  - by apply add_tag_NoDup.
Qed.

(** The snapshot as [updateTraffic] keeps it: MAC address normalised, time filled in. *)
Definition normalized_snapshot (clk : clock) (s : TrafficSnapshot) : TrafficSnapshot :=
  mkTrafficSnapshot (lower (ts_mac s)) (ts_ip s)
    (if ts_ts s =? 0 then clk 0%nat else ts_ts s) (ts_rx_bytes s) (ts_tx_bytes s).

Definition points_at (st : StateStore) (k : bytes) : list TrafficSnapshot :=
  default [] (traffic_points_ st !! k).

Lemma points_at_ok st k :
  store_ok st -> 0 <= max_traffic_points_per_device config ->
  points_ok (max_traffic_points_per_device config) (points_at st k).
Proof.
  intros Hst Hp. unfold points_at. destruct (traffic_points_ st !! k) eqn:E; simpl.
  - by apply (sok_points _ Hst _ _ E).
  - by apply points_ok_nil.
Qed.

(** [updateTraffic] as the write of a record and of its points. *)
Lemma updateTraffic_install clk st s :
  store_ok st -> ts_mac s <> [] \/ ts_ip s <> [] ->
  let current := normalized_snapshot clk s in
  let key := keyFor st (ts_mac current) (ts_ip current) in
  let '(rx, tx, store, reset) := traffic_rates config (device_at st key) (points_at st key) current in
  let points := if store then trim_points (max_traffic_points_per_device config)
                                (points_at st key ++ [current]) else points_at st key in
  let device := traffic_device config (device_at st key) current rx tx reset in
  updateTraffic config clk st s =
  touchLastLogLocked (clk 1%nat) (ts_ts current)
    ((install key device st) <| traffic_points_ := <[key := points]> (traffic_points_ st) |>).
Proof.
  intros Hst Hne current key. unfold updateTraffic. rewrite decide_False by tauto.
  fold (normalized_snapshot clk s). fold current key (points_at st key). cbv zeta.
  rewrite decide_False.
  2:{ unfold key. rewrite keyFor_nil by done. simpl. rewrite lower_nil. tauto. }
  destruct (traffic_rates _ _ _ _) as [[[rx tx] store] reset]. f_equal.
  unfold install, index_ip. by case_decide.
Qed.

Lemma updateTraffic_ok clk st s :
  sizes_ok -> store_ok st -> store_ok (updateTraffic config clk st s).
Proof.
  intros (_ & _ & Hp) Hst.
  destruct (decide (ts_mac s = [] /\ ts_ip s = [])) as [Hnil|Hne].
  { unfold updateTraffic. by rewrite decide_True. }
  pose proof (proj1 not_and_l Hne) as Hne'.
  pose proof (updateTraffic_install clk st s Hst Hne') as H. cbv zeta in H.
  set (key := keyFor st (ts_mac (normalized_snapshot clk s)) _) in *.
  destruct (traffic_rates _ _ _ _) as [[[rx tx] store] reset] eqn:Er. rewrite H.
  pose proof (device_at_ok st key Hst) as Hdev.
  destruct (traffic_rates_spec _ _ _ _ _ _ _ (dok_rx _ _ Hdev) (dok_tx _ _ Hdev) Er)
    as (Hrx & Htx & Hfollow).
  destruct (points_at_ok st key Hst Hp) as [Hchain Hlen].
  assert (Hkey : key <> []).
  { unfold key. rewrite keyFor_nil by done. simpl. rewrite lower_nil. tauto. }
  apply touchLastLog_ok, install_points_ok; auto.
  - by apply keyFor_ok.
  - apply traffic_device_ok; auto; [apply lower_idemp|]. intros x. by apply keyFor_ip_key.
  - destruct store; [|done]. split; [|by apply trim_points_length].
    apply trim_points_chain, points_chain_snoc; auto.
Qed.

(** *** The sweep *)

Lemma cleanup_device_ok now k d : device_ok k d -> device_ok k (cleanup_device config now d).
Proof. intros []. unfold cleanup_device, expire_rates. destruct (_ && _); by split. Qed.

Lemma pushes_ok {T} (l : list T) (rb : RingBuffer T) :
  rb_ok rb -> rb_ok (fold_left rb_push l rb) /\ capacity_ (fold_left rb_push l rb) = capacity_ rb.
Proof.
  revert rb. induction l as [|x l IH]; intros rb H; simpl; [done|].
  destruct (IH (rb_push rb x)) as [H1 H2]; [by apply rb_push_ok|]. by rewrite H2, rb_push_capacity.
Qed.

Lemma seq_after_range now seq l : 0 <= seq < two64 -> 0 <= seq_after config now seq l < two64.
Proof.
  unfold seq_after. revert seq. induction l as [|[k d] l IH]; intros seq H; simpl; [done|].
  apply IH. destruct (goes_offline _ _ _); [apply u64_range|done].
Qed.

Lemma cleanup_ok clk now st : store_ok st -> store_ok (cleanup config clk now st).
Proof.
  intros []. destruct (cleanup_cleaned config now clk st) as [Hd Hp Hi Hv Hs Hsn Hif Ha _].
  assert (Hkeep : forall k, is_Some (devices_by_key_ st !! k) -> ~ erased config now st k ->
    is_Some (devices_by_key_ (cleanup config clk now st) !! k)).
  { intros k [d Hk] He. rewrite Hd, decide_False, Hk by done. eauto. }
  split.
  - intros k d. rewrite Hd. case_decide; [done|]. intros (d0 & Hk & ->)%fmap_Some.
    destruct (sok_keys0 _ _ Hk). auto using cleanup_device_ok.
  - intros i k [Hk He]%Hi. destruct (sok_index0 _ _ Hk) as (? & ? & ?). auto.
  - intros k l. rewrite Hp. case_decide; [done|]. intros Hk. destruct (sok_points0 _ _ Hk). auto.
  - rewrite Hif, Hsn. done.
  - rewrite Hv. destruct sok_events0 as [He Hc]. destruct (pushes_ok (offline_events config now
      (event_seq_ st) (iter_order (devices_by_key_ st))) _ He). split; [done|congruence].
  - by rewrite Ha.
  - rewrite Hs. by apply seq_after_range.
Qed.

(** *** Every step keeps the invariant *)

Lemma store_step_ok accepted st st' :
  sizes_ok -> store_step accepted st st' -> store_ok st -> store_ok st'.
Proof.
  intros Hs [] Hst; eauto using updateDevice_ok, updateTraffic_ok, updateInterface_ok, addEvent_ok,
    addWANAttack_ok, nextEventId_ok, cleanup_ok.
Qed.

Lemma reachable_store_ok st : sizes_ok -> reachable st -> store_ok st.
Proof.
  intros Hs Hr. unfold reachable in Hr. remember (new_StateStore config) as st0 eqn:E.
  assert (store_ok st0) as H0 by (subst; by apply new_store_ok). clear E.
  induction Hr as [|st0 st1 st2 H1 _ IH]; [done|]. by apply IH, (store_step_ok any_event st0).
Qed.

End Invariant.

Arguments store_step config {HO} _ _ _.
Arguments reachable config {HO} _.
