(* ===== verification/StoreUpdates.v ===== *)
(** * What the updates of the store do

    The claims on the mutating operations: the invariant in every reachable state, the
    effect and the frame of [updateDevice] and [updateTraffic], the log time, the event
    numbers; and the statement of how an address taken over by another device is handled. *)

From S2P Require Import Prelude Utils RingBuffer Double Types Config StateStore.
From S2P Require Import StoreCleanup StoreInvariant.

Section Updates.
Context (config : Config).
Implicit Types (st : StateStore).

(** ** Finding a record *)

Lemma find_mac st m i :
  m <> [] -> is_Some (devices_by_key_ st !! mac_key (lower m)) ->
  findKeyLocked st m i = mac_key (lower m).
Proof. intros Hm Hs. unfold findKeyLocked. rewrite decide_True; [done|]. by rewrite lower_nil. Qed.

Lemma find_index st m i k :
  (m = [] \/ devices_by_key_ st !! mac_key (lower m) = None) -> i <> [] ->
  ip_to_key_ st !! i = Some k -> findKeyLocked st m i = k.
Proof.
  intros Hm Hi Hk. unfold findKeyLocked. rewrite decide_False.
  - by rewrite decide_True, Hk.
  - intros [Hm' [d Hd]]. rewrite lower_nil in Hm'. destruct Hm; congruence.
Qed.

Lemma install_devices k d st :
  devices_by_key_ (install k d st) = <[k := d]> (devices_by_key_ st).
Proof. unfold install, index_ip. by case_decide. Qed.

Lemma install_index k d st :
  ip_to_key_ (install k d st) =
  if decide (ip d <> []) then <[ip d := k]> (ip_to_key_ st) else ip_to_key_ st.
Proof. unfold install, index_ip. by case_decide. Qed.

Lemma touch_devices now ts st :
  devices_by_key_ (touchLastLogLocked now ts st) = devices_by_key_ st.
Proof. unfold touchLastLogLocked. by destruct (_ || _). Qed.

Lemma touch_index now ts st : ip_to_key_ (touchLastLogLocked now ts st) = ip_to_key_ st.
Proof. unfold touchLastLogLocked. by destruct (_ || _). Qed.

Lemma touch_points now ts st : traffic_points_ (touchLastLogLocked now ts st) = traffic_points_ st.
Proof. unfold touchLastLogLocked. by destruct (_ || _). Qed.

Hint Rewrite install_devices install_index touch_devices touch_index touch_points : netmon.

Lemma find_touch now ts st m i : findKeyLocked (touchLastLogLocked now ts st) m i = findKeyLocked st m i.
Proof. unfold findKeyLocked. by autorewrite with netmon. Qed.

(** After a record was written under the key an update chose, the same identifiers
    lead to it. *)
Lemma find_installed st m i d :
  store_ok config st -> m <> [] \/ i <> [] -> device_ok (keyFor st m i) d ->
  (informative i -> ip d = i) ->
  findKeyLocked (install (keyFor st m i) d st) m i = keyFor st m i.
Proof.
  intros Hst Hne Hd Hip. pose proof (keyFor_choice config st m i Hst) as Hc.
  remember (keyFor st m i) as k eqn:E. clear E.
  destruct (decide (m <> [] /\ k = mac_key (lower m))) as [[Hm ->]|Hk].
  { apply find_mac; [done|]. rewrite install_devices, lookup_insert_eq. eauto. }
  assert (Hno : forall k', (m = [] \/ devices_by_key_ st !! mac_key (lower m) = None) -> k = k' ->
    m = [] \/ <[k' := d]> (devices_by_key_ st) !! mac_key (lower m) = None).
  { intros k' [->|Hn] <-; [by left|]. destruct (decide (m = [])); [by left|right].
    rewrite lookup_insert_ne; [done|naive_solver]. }
  destruct Hc as [-> ->|Hm|k Hm Hi Hidx|Hm Hi Hidx Hs]; [naive_solver..| |].
  - destruct (sok_index _ _ Hst _ _ Hidx) as (Hinf & _). apply find_index; [|done|].
    + rewrite install_devices. auto.
    + rewrite install_index, Hip, decide_True by done. apply lookup_insert_eq.
  - destruct (decide (informative i)) as [Hinf|Hinf].
    + apply find_index; [rewrite install_devices; auto|done|].
      rewrite install_index, Hip, decide_True by done. apply lookup_insert_eq.
    + unfold findKeyLocked. rewrite install_devices, install_index.
      rewrite decide_False by (rewrite lower_nil; intros [? [? ?]];
        destruct (Hno (ip_key i) Hm eq_refl); congruence).
      rewrite decide_True by done.
      assert (Hd0 : ip d = []).
      { destruct (dok_ip_key _ _ Hd i eq_refl) as [|Ed]; [done|].
        destruct (dok_ip _ _ Hd); [done|]. congruence. }
      rewrite Hd0, decide_False by tauto. rewrite Hidx. apply decide_True.
      rewrite lookup_insert_eq. eauto.
Qed.



(** The record [updateDevice] writes, and what it leaves alone. *)
Lemma updateDevice_merges clk st d :
  store_ok config st -> device_input d -> mac d <> [] \/ ip d <> [] ->
  let old_key := keyFor st (mac d) (ip d) in
  let st' := updateDevice config clk st d in
  let key := findKeyLocked st' (mac d) (ip d) in
  devices_by_key_ st' !! key =
    Some (mergeDeviceLocked config (device_at st old_key) d (clk 0%nat)) /\
  (forall k, k <> key -> k <> old_key -> devices_by_key_ st' !! k = devices_by_key_ st !! k) /\
  (key <> old_key -> devices_by_key_ st' !! old_key = None).
Proof.
  intros Hst Hd Hne old_key st' key.
  unfold st' in *. clear st'. subst key.
  destruct (updateDevice_install config clk st d Hst Hne) as (k & st1 & Hk & ->). rewrite find_touch.
  inversion Hk as [_|node Hm Hi Hkey Hn Hnone]; subst; autorewrite with netmon.
  - rewrite find_installed; try done.
    + split_and!; [by rewrite lookup_insert_eq| |done].
      intros k' Hk' _. by apply lookup_insert_ne.
    + apply mergeDevice_ok; [by apply device_at_ok with config|done|].
      intros x. by apply (keyFor_ip_key config).
    + intros Hinf. simpl. by apply setIfNotEmpty_informative.
  - rewrite find_mac; [|done|rewrite install_devices, lookup_insert_eq; eauto].
    unfold old_key. rewrite Hkey. split_and!.
    + rewrite lookup_insert_eq. unfold device_at. simpl. by rewrite lookup_insert_eq, Hn.
    + intros k Hk1 Hk2. simpl. by rewrite !lookup_insert_ne, lookup_delete_ne.
    + intros _. simpl. rewrite !lookup_insert_ne by done. apply lookup_delete_eq.
Qed.

(** ** Claims *)

Context {HO : HashOrder}.

(** C1: in every reachable state of the store, whatever calls were made in whatever
    order, the tables agree with each other and stay within their bounds: every key is
    the lower-case MAC address or the address of its record, the address index and the
    point lists only name records that exist, buffers and point lists respect their
    configured sizes, MAC addresses are in lower case, tags have no duplicates, rates are
    not negative (nor NaN), and adjacent traffic points differ. *)
Theorem store_invariant_reachable st :
  sizes_ok config -> reachable config st -> store_ok config st.
Proof. apply reachable_store_ok. Qed.

(** C12: [updateDevice] merges the report into the record its identifiers led to (or a
    new one), the same identifiers lead to the merged record afterwards, and every
    record other than that one is unchanged. *)
Theorem updateDevice_effect clk st d :
  sizes_ok config -> reachable config st -> device_input d -> mac d <> [] \/ ip d <> [] ->
  let old_key := keyFor st (mac d) (ip d) in
  let st' := updateDevice config clk st d in
  let key := findKeyLocked st' (mac d) (ip d) in
  devices_by_key_ st' !! key =
    Some (mergeDeviceLocked config (device_at st old_key) d (clk 0%nat)) /\
  (forall k, k <> key -> k <> old_key -> devices_by_key_ st' !! k = devices_by_key_ st !! k) /\
  (key <> old_key -> devices_by_key_ st' !! old_key = None).
Proof. intros Hs Hr. apply updateDevice_merges. by eapply reachable_store_ok. Qed.

(** a device that appears with a new MAC address on an address the index still
    holds for another MAC address gets no record of its own: the report is merged into
    the record of the previous holder, whose MAC address is overwritten. *)
Theorem address_takeover_merges_records clk st d a :
  sizes_ok config -> reachable config st ->
  mac d <> [] -> informative (lower (mac d)) -> ip d <> [] ->
  devices_by_key_ st !! mac_key (lower (mac d)) = None ->
  ip_to_key_ st !! ip d = Some (mac_key a) ->
  let st' := updateDevice config clk st d in
  devices_by_key_ st' !! mac_key (lower (mac d)) = None /\
  exists merged, devices_by_key_ st' !! mac_key a = Some merged /\ mac merged = lower (mac d).
Proof.
  intros Hs Hr Hm Hinf Hi Hnone Hidx st'. pose proof (reachable_store_ok _ _ Hs Hr) as Hst.
  assert (Hk : keyFor st (mac d) (ip d) = mac_key a).
  { unfold keyFor. rewrite (find_index st (mac d) (ip d) (mac_key a)); auto. }
  assert (Hna : mac_key (lower (mac d)) <> mac_key a).
  { intros E. rewrite E in Hnone. destruct (sok_index _ _ Hst _ _ Hidx) as (_ & [? ?] & _). congruence. }
  unfold st'. clear st'.
  destruct (updateDevice_install config clk st d Hst ltac:(by left)) as (k & st1 & Hres & ->).
  inversion Hres as [_|node _ _ Hkey]; subst; [|by rewrite Hk in Hkey]. autorewrite with netmon. rewrite Hk. split.
  - by rewrite lookup_insert_ne.
  - eexists. split; [apply lookup_insert_eq|]. simpl. by apply setIfNotEmpty_informative.
Qed.


(** ** The log time and the event numbers *)

Lemma touch_log now ts st :
  0 < last_log_ts_ st -> last_log_ts_ st <= last_log_ts_ (touchLastLogLocked now ts st).
Proof. intros H. unfold touchLastLogLocked. destruct (_ || _) eqn:E; simpl; [|lia].
  apply orb_prop in E as [E|E]; b2p; lia.
Qed.

(** Closes a goal on the log time after the final [touchLastLogLocked]. *)
Ltac log_step :=
  match goal with
  | H : 0 < _ |- _ <= last_log_ts_ (touchLastLogLocked ?n ?t ?s) => exact (touch_log n t s H)
  end.

Lemma cleanup_loop_log clk now l st er :
  0 < last_log_ts_ st ->
  last_log_ts_ st <= last_log_ts_ (fold_left (cleanup_step config clk now) l (st, er)).1.
Proof.
  revert st er. induction l as [|[k d] l IH]; intros st er H; [simpl; lia|].
  cbn [fold_left]. destruct (cleanup_step _ _ _ _ _) as [st1 er1] eqn:E.
  assert (H1 : last_log_ts_ st <= last_log_ts_ st1).
  { unfold cleanup_step in E. destruct (goes_offline config now d); injection E as <- _; [|simpl; lia].
    log_step. }
  specialize (IH st1 er1). lia.
Qed.

(** once a message was logged, the time of the last log never goes back, whatever
    time stamps later messages carry. *)
Theorem last_log_monotone st st' :
  store_step config any_event st st' -> 0 < last_log_ts_ st -> last_log_ts_ st <= last_log_ts_ st'.
Proof.
  intros [clk st0 d _|clk st0 s|clk st0 s|clk st0 e _|clk st0 e|st0|clk now st0] H.
  - unfold updateDevice. case_decide; [lia|].
    assert (Hk : forall k, last_log_ts_ (rekey st0 (mac d) k (makeKey (mac d) (ip d))).2 = last_log_ts_ st0).
    { intros k. unfold rekey. case_decide; [|done]. by destruct (devices_by_key_ st0 !! k). }
    specialize (Hk (keyFor st0 (mac d) (ip d))). destruct (rekey _ _ _ _) as [key st1]. simpl in Hk.
    rewrite <- Hk in *. unfold index_ip. case_decide; log_step.
  - unfold updateTraffic. case_decide; [lia|]. cbv zeta. case_decide; [lia|].
    destruct (traffic_rates _ _ _ _) as [[[rx tx] store] reset]. unfold index_ip.
    case_decide; log_step.
  - unfold updateInterface. case_decide; [lia|]. cbv zeta.
    destruct (default _ _) as [rx tx]. log_step.
  - unfold addEvent, pushEventLocked. case_decide; simpl; log_step.
  - unfold addWANAttack. log_step.
  - simpl. lia.
  - unfold cleanup. pose proof (cleanup_loop_log clk now (iter_order (devices_by_key_ st0)) st0 [] H) as Hc.
    destruct (fold_left _ _ _) as [st1 er]. by destruct (erase_keys_other er st1) as (_&_&_&_&_&->).
Qed.

(** Different identifiers, all of them numbers up to [seq]. *)
Definition ids_ok (seq : Z) (ids : list bytes) : Prop :=
  NoDup ids /\ forall id, id ∈ ids -> exists n, 1 <= n <= seq /\ id = event_id n.

(** The identifiers in the buffer, and the numbers that were taken with [nextEventId] for
    events not added yet. *)
Definition ids_of (rb : RingBuffer Event) (taken : list Z) : list bytes :=
  (ev_id <$> items_ rb) ++ (event_id <$> taken).

Lemma event_id_inj n m : 0 <= n -> 0 <= m -> event_id n = event_id m -> n = m.
Proof. intros Hn Hm H. apply to_string_inj; [done..|]. by apply app_inv_head in H. Qed.

Lemma event_id_not_nil n : event_id n <> [].
Proof. done. Qed.

Lemma rb_push_sublist {T} (rb : RingBuffer T) x : items_ (rb_push rb x) `sublist_of` items_ rb ++ [x].
Proof.
  unfold rb_push. destruct (capacity_ rb =? 0); [by apply sublist_inserts_r|].
  unfold rb_trim. simpl. destruct (capacity_ rb =? 0); [apply sublist_nil_l|].
  induction (items_ rb ++ [x]) as [|y l IH]; [done|]. cbn [rb_pop_loop].
  destruct (_ && _); [by apply sublist_cons|done].
Qed.

Lemma ids_ok_sublist seq ids ids' : ids_ok seq ids -> ids' `sublist_of` ids -> ids_ok seq ids'.
Proof.
  intros [Hnd Hids] Hs. split; [by eapply sublist_NoDup|].
  intros id Hid. apply Hids. by eapply elem_of_sublist.
Qed.

#[export] Instance ids_ok_Proper seq : Proper ((≡ₚ) ==> iff) (ids_ok seq).
Proof. intros l l' H. unfold ids_ok. by setoid_rewrite H. Qed.

Lemma ids_ok_fresh seq n ids :
  ids_ok seq ids -> 0 <= seq < n -> ids_ok n (event_id n :: ids).
Proof.
  intros [Hnd Hids] Hn. split.
  - apply NoDup_cons. split; [|done]. intros Hid. destruct (Hids _ Hid) as (n' & Hn' & E).
    apply event_id_inj in E; lia.
  - intros id [->|Hid]%elem_of_cons; [exists n; split; [lia|done]|].
    destruct (Hids _ Hid) as (n' & ? & ?). exists n'. split; [lia|done].
Qed.

Lemma ids_of_push rb taken e seq :
  ids_ok seq (ev_id e :: ids_of rb taken) -> ids_ok seq (ids_of (rb_push rb e) taken).
Proof.
  intros H. eapply ids_ok_sublist with (ids := (ev_id <$> items_ rb ++ [e]) ++ (event_id <$> taken)).
  - rewrite fmap_app, <- app_assoc. simpl. by rewrite <- Permutation_middle.
  - apply sublist_app; [|done]. apply fmap_sublist, rb_push_sublist.
Qed.

Lemma ids_pushes now l seq rb taken :
  0 <= seq -> seq + Z.of_nat (length l) < two64 -> ids_ok seq (ids_of rb taken) ->
  ids_ok (seq_after config now seq l)
    (ids_of (fold_left rb_push (offline_events config now seq l) rb) taken).
Proof.
  revert seq rb. induction l as [|[k d] l IH]; intros seq rb H0 H1 Hrb; [done|].
  unfold seq_after. simpl. cbn [length] in H1. destruct (goes_offline config now d).
  - rewrite u64_small by lia. apply IH; [lia..|].
    apply ids_of_push. eapply ids_ok_fresh; [done|lia].
  - apply IH; auto. lia.
Qed.

(** Runs in which the events a client adds carry a number it took with [nextEventId]
    and uses once, or none, in any interleaving of its threads, while fewer than [2^64]
    numbers were given out. *)
Definition numbers_left st : Prop :=
  event_seq_ st + Z.of_nat (size (devices_by_key_ st)) + 1 < two64.

Inductive numbered_step : StateStore * list Z -> StateStore * list Z -> Prop :=
  | numbered_take st taken :
      numbers_left st ->
      numbered_step (st, taken) ((nextEventId st).2, u64 (event_seq_ st + 1) :: taken)
  | numbered_add clk st e n taken1 taken2 :
      ev_id e = event_id n ->
      numbered_step (st, taken1 ++ n :: taken2) (addEvent clk st e, taken1 ++ taken2)
  | numbered_own clk st e taken :
      numbers_left st -> ev_id e = [] -> numbered_step (st, taken) (addEvent clk st e, taken)
  | numbered_other st st' taken :
      numbers_left st -> store_step config (fun _ => False) st st' ->
      numbered_step (st, taken) (st', taken).

(** The parts of the store an operation other than [addEvent] and [cleanup] leaves alone. *)
Definition same_events st st' : Prop := events_ st' = events_ st /\ event_seq_ st' = event_seq_ st.

Lemma same_events_touch now ts st st' :
  same_events st st' -> same_events st (touchLastLogLocked now ts st').
Proof. unfold touchLastLogLocked. by destruct (_ || _). Qed.

Lemma same_events_index i k st st' : same_events st st' -> same_events st (index_ip i k st').
Proof. unfold index_ip. by case_decide. Qed.

Lemma updateDevice_events clk st d : same_events st (updateDevice config clk st d).
Proof.
  unfold updateDevice. case_decide; [done|].
  assert (Hk : forall k, same_events st (rekey st (mac d) k (makeKey (mac d) (ip d))).2).
  { intros k. unfold rekey. case_decide; [|done]. by destruct (devices_by_key_ st !! k). }
  specialize (Hk (keyFor st (mac d) (ip d))). destruct (rekey _ _ _ _) as [key st1].
  by apply same_events_touch, same_events_index.
Qed.

Lemma updateTraffic_events clk st s : same_events st (updateTraffic config clk st s).
Proof.
  unfold updateTraffic. case_decide; [done|]. cbv zeta. case_decide; [done|].
  destruct (traffic_rates _ _ _ _) as [[[rx tx] store] reset].
  by apply same_events_touch, same_events_index.
Qed.

Lemma updateInterface_events clk st s : same_events st (updateInterface clk st s).
Proof.
  unfold updateInterface. case_decide; [done|]. cbv zeta. destruct (default _ _) as [rx tx].
  by apply same_events_touch.
Qed.

Lemma addWANAttack_events clk st e : same_events st (addWANAttack clk st e).
Proof. unfold addWANAttack. by apply same_events_touch. Qed.

Lemma addEvent_numbered clk st e :
  ev_id e = [] ->
  event_seq_ (addEvent clk st e) = u64 (event_seq_ st + 1) /\
  exists e', ev_id e' = event_id (u64 (event_seq_ st + 1)) /\
             events_ (addEvent clk st e) = rb_push (events_ st) e'.
Proof.
  intros He. unfold addEvent, pushEventLocked. rewrite decide_True by done. simpl.
  unfold touchLastLogLocked. destruct (ev_ts e =? 0), (_ || _); simpl; (split; [done|]);
    eexists; (split; [|reflexivity]); done.
Qed.

Lemma addEvent_keeps_id clk st e :
  ev_id e <> [] ->
  event_seq_ (addEvent clk st e) = event_seq_ st /\
  exists e', ev_id e' = ev_id e /\ events_ (addEvent clk st e) = rb_push (events_ st) e'.
Proof.
  intros He. unfold addEvent, pushEventLocked. rewrite decide_False by done. simpl.
  unfold touchLastLogLocked. destruct (ev_ts e =? 0), (_ || _); simpl; (split; [done|]);
    eexists; (split; [|reflexivity]); done.
Qed.

Definition numbered_ok (s : StateStore * list Z) : Prop :=
  0 <= event_seq_ s.1 /\ ids_ok (event_seq_ s.1) (ids_of (events_ s.1) s.2).

Lemma other_step_ids st st' taken :
  numbers_left st -> store_step config (fun _ => False) st st' ->
  numbered_ok (st, taken) -> numbered_ok (st', taken).
Proof.
  intros Hroom Hs [H0 Hids]. unfold numbers_left, numbered_ok in *. simpl in *.
  assert (Hsame : same_events st st' -> 0 <= event_seq_ st' /\ ids_ok (event_seq_ st') (ids_of (events_ st') taken))
    by (by intros [-> ->]).
  destruct Hs as [clk st d _|clk st s|clk st s|clk st e []|clk st e|st|clk now st].
  - apply Hsame, updateDevice_events.
  - apply Hsame, updateTraffic_events.
  - apply Hsame, updateInterface_events.
  - apply Hsame, addWANAttack_events.
  - simpl. rewrite u64_small by lia. split; [lia|].
    eapply ids_ok_sublist; [apply (ids_ok_fresh (event_seq_ st) (event_seq_ st + 1)); [done|lia]|by apply sublist_cons].
  - destruct (cleanup_cleaned config now clk st) as [_ _ _ -> -> _ _ _ _]. split.
    + pose proof (seq_after_range config now (event_seq_ st) (iter_order (devices_by_key_ st))). lia.
    + apply ids_pushes; [done| |done]. rewrite length_iter_order. lia.
Qed.

Lemma numbered_step_ok s s' : numbered_step s s' -> numbered_ok s -> numbered_ok s'.
Proof.
  intros [st taken Hroom|clk st e n taken1 taken2 He|clk st e taken Hroom He|st st' taken Hroom Hs] Hok.
  - destruct Hok as [H0 Hids]. unfold numbers_left, numbered_ok in *. simpl in *.
    rewrite u64_small by lia. split; [lia|]. unfold ids_of in *. simpl.
    rewrite <- Permutation_middle. apply ids_ok_fresh with (event_seq_ st); [done|lia].
  - destruct Hok as [H0 Hids]. unfold numbered_ok in *. simpl in *.
    destruct (addEvent_keeps_id clk st e) as (-> & e' & He' & ->); [by rewrite He|].
    split; [done|]. apply ids_of_push. rewrite He', He. unfold ids_of in *.
    rewrite fmap_app in *. simpl in *. by rewrite app_assoc, <- Permutation_middle, <- app_assoc in Hids.
  - destruct Hok as [H0 Hids]. unfold numbers_left, numbered_ok in *. simpl in *.
    destruct (addEvent_numbered clk st e He) as (-> & e' & He' & ->).
    rewrite u64_small in * by lia. split; [lia|]. apply ids_of_push. rewrite He'.
    eapply ids_ok_fresh; [done|lia].
  - by eapply other_step_ids.
Qed.

(** as long as the events of a process carry numbers it took from the store (each used
    once, in any order) or get one when they are added, no two events in the buffer have
    the same identifier. *)
Theorem event_ids_unique st taken :
  rtc numbered_step (new_StateStore config, []) (st, taken) ->
  NoDup (ev_id <$> items_ (events_ st)).
Proof.
  intros Hr. assert (H : numbered_ok (st, taken)).
  { remember (new_StateStore config, []) as s0 eqn:E.
    assert (H0 : numbered_ok s0).
    { subst s0. split; simpl; [lia|]. split; [apply NoDup_nil_2|set_solver]. }
    clear E. induction Hr as [|s0 s1 s2 H1 _ IH]; [done|]. by apply IH, (numbered_step_ok s0). }
  destruct H as [_ [Hnd _]]. unfold ids_of in Hnd. by apply NoDup_app in Hnd as [? _].
Qed.

(** an event that arrives with an identifier keeps it, and the numbering starts at 1 in
    every process: after events of an earlier run were read back, the first new event has
    the identifier of the first event of that run. *)
Theorem reloaded_event_id_collision clk clk' reloaded fresh :
  2 <= max_events config -> ev_id reloaded = event_id 1 -> ev_id fresh = [] ->
  exists e1 e2,
    items_ (events_ (addEvent clk' (addEvent clk (new_StateStore config) reloaded) fresh)) = [e1; e2] /\
    ev_id e1 = ev_id e2.
Proof.
  intros Hcap Hr Hf.
  set (st1 := addEvent clk (new_StateStore config) reloaded).
  assert (H1 : event_seq_ st1 = 0 /\ exists e, ev_id e = event_id 1 /\
            events_ st1 = rb_push (rb_new (max_events config)) e).
  { unfold st1, addEvent, pushEventLocked. rewrite decide_False by by rewrite Hr.
    unfold touchLastLogLocked. destruct (ev_ts reloaded =? 0), (_ || _); simpl; (split; [done|]);
      eexists; (split; [|reflexivity]); done. }
  destruct H1 as (Hseq & e1 & He1 & Hev1).
  destruct (addEvent_numbered clk' st1 fresh Hf) as (_ & e2 & He2 & ->).
  rewrite Hseq in He2. rewrite Hev1. exists e1, e2. split; [|by rewrite He1, He2].
  assert (Hrep : rb_represents (rb_push (rb_push (rb_new (max_events config)) e1) e2) [e1; e2]).
  { apply (rb_push_represents _ [e1]), (rb_push_represents _ []), rb_new_represents. lia. }
  destruct Hrep as [_ ->]. rewrite !rb_push_capacity. apply lastn_all. simpl. lia.
Qed.

End Updates.

(** ** The claims on a small network *)

Definition demo_time : time := 1700000000 * ns_per_s.
Definition demo_clock : clock := fun i => demo_time + Z.of_nat i.

Definition demo_phone : DeviceState :=
  default_DeviceState <| mac := "AA:BB:CC:DD:EE:01" |> <| ip := "192.168.1.10" |>
    <| hostname := "phone" |> <| source := "dhcp" |> <| last_seen := demo_time |>.

Definition demo_laptop : DeviceState :=
  default_DeviceState <| mac := "AA:BB:CC:DD:EE:02" |> <| ip := "192.168.1.10" |>
    <| hostname := "laptop" |> <| source := "dhcp" |> <| last_seen := demo_time + 1 |>.

Definition demo_counters (seconds_later rx : Z) : TrafficSnapshot :=
  mkTrafficSnapshot "aa:bb:cc:dd:ee:01" "192.168.1.10" (demo_time + seconds_later * ns_per_s) rx 0.

Definition demo_event : Event := mkEvent [] demo_time "dhcp" Info "dnsmasq" "lease" ∅.

Definition demo_store : StateStore :=
  updateDevice default_Config demo_clock (new_StateStore default_Config) demo_phone.

Definition demo_traffic_store : StateStore :=
  updateTraffic default_Config demo_clock demo_store (demo_counters 1 1000).

Lemma demo_sizes : sizes_ok default_Config.
Proof. by split_and!. Qed.

Lemma demo_reachable : @reachable default_Config canonical_order demo_store.
Proof. apply rtc_once. by apply step_updateDevice. Qed.

Lemma demo_traffic_reachable : @reachable default_Config canonical_order demo_traffic_store.
Proof. eapply rtc_r; [apply demo_reachable|]. apply step_updateTraffic. Qed.

Lemma store_invariant_reachable_witness : store_ok default_Config demo_traffic_store.
Proof.
  exact (@store_invariant_reachable default_Config canonical_order demo_traffic_store
    demo_sizes demo_traffic_reachable).
Defined.

Lemma updateDevice_effect_witness :
  let st' := updateDevice default_Config demo_clock demo_store demo_phone in
  is_Some (devices_by_key_ st' !! findKeyLocked st' "AA:BB:CC:DD:EE:01" "192.168.1.10").
Proof.
  intros st'. eexists.
  exact (proj1 (@updateDevice_effect default_Config canonical_order demo_clock demo_store demo_phone
    demo_sizes demo_reachable (conj d_rate_zero d_rate_zero) ltac:(by left))).
Defined.

Lemma address_takeover_merges_records_witness :
  let st' := updateDevice default_Config demo_clock demo_store demo_laptop in
  devices_by_key_ st' !! mac_key "aa:bb:cc:dd:ee:02" = None /\
  exists merged, devices_by_key_ st' !! mac_key "aa:bb:cc:dd:ee:01" = Some merged /\
                 mac merged = "aa:bb:cc:dd:ee:02".
Proof.
  apply (@address_takeover_merges_records default_Config canonical_order demo_clock demo_store
    demo_laptop "aa:bb:cc:dd:ee:01" demo_sizes demo_reachable); try done; vm_compute; reflexivity.
Defined.


Lemma last_log_monotone_witness :
  last_log_ts_ demo_store <= last_log_ts_ demo_traffic_store.
Proof.
  apply (@last_log_monotone default_Config canonical_order demo_store demo_traffic_store);
    [apply step_updateTraffic|by vm_compute].
Defined.

Lemma event_ids_unique_witness :
  NoDup (ev_id <$> items_ (events_ (addEvent demo_clock
    (addEvent demo_clock (nextEventId (new_StateStore default_Config)).2 demo_event)
    (demo_event <| ev_id := "evt-1" |>)))).
Proof.
  apply (@event_ids_unique default_Config canonical_order _ []).
  eapply rtc_l; [by apply numbered_take|]. eapply rtc_l; [apply numbered_own with (clk := demo_clock) (e := demo_event); by vm_compute|].
  apply rtc_once. by apply numbered_add with (n := 1) (taken1 := []) (taken2 := []).
Defined.

Lemma reloaded_event_id_collision_witness :
  exists e1 e2,
    items_ (events_ (addEvent demo_clock (addEvent demo_clock (new_StateStore default_Config)
      (demo_event <| ev_id := "evt-1" |>)) demo_event)) = [e1; e2] /\ ev_id e1 = ev_id e2.
Proof.
  apply (reloaded_event_id_collision default_Config demo_clock demo_clock
    (demo_event <| ev_id := "evt-1" |>) demo_event); by vm_compute.
Defined.
