(* ===== verification/StoreQueries.v ===== *)
(** * What the queries of the store return

    [statusFor], [devices()] and [summary()] against their specifications: how the status
    of a device ages, the order of the device list, the counters and the rate source of the
    summary.  All of them hold for every iteration order of the hash maps. *)

From S2P Require Import Prelude Utils RingBuffer Double Types Config StateStore StoreInvariant.

Section Queries.
Context (config : Config).

(** ** Status *)

(** without new reports a device only ages: from online to idle to offline, never
    back, whatever the configured times are. *)
Theorem status_only_ages d now1 now2 :
  sane_time now1 -> sane_time now2 -> now1 <= now2 ->
  last_seen d = 0 \/ sane_time (last_seen d) ->
  status_rank (statusFor config d now1) <= status_rank (statusFor config d now2).
Proof.
  intros H1 H2 Hle Hs. unfold statusFor. destruct (last_seen d =? 0) eqn:E0; [done|].
  destruct Hs as [Hs|Hs]; [by rewrite Hs in E0|]. rewrite !tsub_sane by done.
  destruct (seconds (device_idle_ttl_seconds config) <? now1 - last_seen d) eqn:E1.
  { rewrite (proj2 (Z.ltb_lt _ (now2 - last_seen d))) by blia. done. }
  destruct (_ <? now2 - _) eqn:E2; [by repeat case_match|].
  destruct (isFailedNeighbour _); [done|].
  destruct (_ || bool_decide (source d = "wifi")), (now1 - _ <=? _) eqn:E3, (now2 - _ <=? _) eqn:E4;
    simpl; try done; blia.
Qed.

(** What a status says of a record: it was never seen; not for longer than the idle time; within
    the idle time, and, when it is online, within the online time, by a report that vouches
    for it, with a neighbour entry that has not failed. *)
Definition vouched (now : time) (d : DeviceState) : Prop :=
  isFailedNeighbour (neigh_state d) = false /\ now - last_seen d <= device_online_ttl_seconds config * ns_per_s /\
  (neigh_state d = [] \/ isReachableNeighbour (neigh_state d) = true \/
   source d = "dhcp" \/ source d = "traffic" \/ source d = "wifi").

Definition status_means (now : time) (d : DeviceState) : Prop :=
  match status d with
  | Unknown => last_seen d = 0
  | Offline => last_seen d <> 0 /\ device_idle_ttl_seconds config * ns_per_s < now - last_seen d
  | Idle => last_seen d <> 0 /\ now - last_seen d <= device_idle_ttl_seconds config * ns_per_s /\ ~ vouched now d
  | Online => last_seen d <> 0 /\ now - last_seen d <= device_idle_ttl_seconds config * ns_per_s /\ vouched now d
  end.

Lemma statusFor_means now d :
  sane_time now -> last_seen d = 0 \/ sane_time (last_seen d) -> status_means now (d <| status := statusFor config d now |>).
Proof.
  intros Hn Hs. unfold status_means, statusFor, seconds. simpl. destruct (last_seen d =? 0) eqn:E0; b2p; [done|].
  destruct Hs as [?|Hs]; [done|]. rewrite tsub_sane by done.
  destruct (_ <? now - last_seen d) eqn:E1; b2p; [by split|]. unfold vouched. simpl.
  destruct (isFailedNeighbour (neigh_state d)) eqn:Ef; [split_and!; [done|done|by intros [? _]]|].
  destruct (now - last_seen d <=? _) eqn:E2; b2p; [|simpl; split_and!; [done|done|intros (_ & ? & _); lia]].
  simpl. repeat case_bool_decide; destruct (isReachableNeighbour _); simpl; naive_solver.
Qed.

(** ** The device list *)

#[local] Instance device_before_total : Total device_before.
Proof.
  intros x y. unfold device_before. destruct (status x), (status y); simpl; lia || (auto; lia) || idtac.
  all: destruct (Z.le_ge_cases (last_seen x) (last_seen y)); auto.
Qed.

#[local] Instance device_before_trans : Transitive device_before.
Proof.
  intros x y z. unfold device_before.
  destruct (status x), (status y), (status z); simpl; naive_solver lia.
Qed.

Context {HO : HashOrder}.

Definition newer (d e : DeviceState) : Prop := last_seen e <= last_seen d.

Definition of_status (s : DeviceStatus) : list DeviceState -> list DeviceState := filter (fun d => status d = s).

(** A list in the order of the comparator falls into its four parts. *)
Lemma sorted_parts l :
  StronglySorted device_before l ->
  l = of_status Online l ++ of_status Idle l ++ of_status Offline l ++ of_status Unknown l /\
  forall s, StronglySorted newer (of_status s l).
Proof.
  induction 1 as [|x l _ [IH1 IH2] Hx]; [split; [done|constructor]|]. unfold of_status in *. split.
  - assert (Hnone : forall s, status_rank s < status_rank (status x) -> filter (fun d => status d = s) l = []).
    { intros s Hs. destruct (filter (fun d => status d = s) l) as [|y m] eqn:E; [done|].
      assert (Hy : y ∈ filter (fun d => status d = s) l) by (rewrite E; by left).
      apply list_elem_of_filter in Hy as [<- Hy]. eapply Forall_forall in Hx; [|exact Hy].
      destruct Hx as [?|[Hxy _]]; [lia|]. rewrite Hxy in Hs. lia. }
    rewrite IH1 at 1. rewrite !filter_cons. destruct (status x); simpl;
      repeat match goal with |- context [filter (fun d => status d = ?s) l] => rewrite (Hnone s) by (simpl; lia); simpl end; done.
  - intros s. rewrite filter_cons. case_decide as Es; [|done]. constructor; [done|]. apply Forall_forall.
    intros y [<- Hy]%list_elem_of_filter. eapply Forall_forall in Hx; [|exact Hy]. destruct Hx as [?|[_ ?]]; [|done].
    rewrite Es in *. lia.
Qed.

(** C30: [devices()] returns every record exactly once with only its status changed; the status
    says when, and by what report, the device was last seen (for times that do not overflow);
    first come all that are online, then the idle ones, then those offline, then the unknown,
    and among those of one status the one seen last comes first. *)
Theorem devices_sorted_permutation now st :
  sane_time now -> map_Forall (fun _ d => last_seen d = 0 \/ sane_time (last_seen d)) (devices_by_key_ st) ->
  let out := devices config now st in
  (exists f, out ≡ₚ (fun d => d <| status := f d |>) <$> (map_to_list (devices_by_key_ st)).*2) /\
  Forall (status_means now) out /\
  out = of_status Online out ++ of_status Idle out ++ of_status Offline out ++ of_status Unknown out /\
  forall s, StronglySorted newer (of_status s out).
Proof.
  intros Hn Hs out.
  assert (Hp : out ≡ₚ (fun d => d <| status := statusFor config d now |>) <$> (map_to_list (devices_by_key_ st)).*2).
  { unfold out, devices. by rewrite merge_sort_Permutation, <- list_fmap_compose, iter_order_perm. }
  split; [by exists (fun d => statusFor config d now)|]. split; [|apply sorted_parts, (StronglySorted_merge_sort _)].
  rewrite Hp. apply Forall_fmap, Forall_fmap, Forall_forall. intros [k d] Hd%elem_of_map_to_list. simpl.
  apply statusFor_means; [done|]. exact (Hs k d Hd).
Qed.

(** ** The summary *)

Definition count_status (now : time) (s : DeviceStatus) (ds : list DeviceState) : Z :=
  Z.of_nat (length (filter (fun d => statusFor config d now = s) ds)).

Lemma count_status_cons now s d ds :
  count_status now s (d :: ds) =
  (if decide (statusFor config d now = s) then 1 else 0) + count_status now s ds.
Proof. unfold count_status. rewrite filter_cons. case_decide; simpl; lia. Qed.

#[local] Instance count_status_Proper now s : Proper ((≡ₚ) ==> (=)) (count_status now s).
Proof. intros ds ds' H. unfold count_status. by rewrite H. Qed.

Lemma count_status_total now ds :
  count_status now Online ds + count_status now Idle ds + count_status now Offline ds
  + count_status now Unknown ds = Z.of_nat (length ds).
Proof.
  induction ds as [|d ds IH]; [done|]. rewrite !count_status_cons. simpl length.
  destruct (statusFor config d now); simpl; lia.
Qed.

Definition sum_rates (rate : DeviceState -> double) (ds : list DeviceState) (start : double) : double :=
  fold_left (fun acc d => dadd acc (rate d)) ds start.

(** The loop over the devices. *)
Lemma summary_loop now ds out :
  let out' := fold_left (summary_device config now) ds out in
  active_devices out' = active_devices out + count_status now Online ds /\
  idle_devices out' = idle_devices out + count_status now Idle ds /\
  offline_devices out' = offline_devices out + count_status now Offline ds /\
  unknown_devices out' = unknown_devices out + count_status now Unknown ds /\
  sm_rx_rate_bps out' = sum_rates rx_rate_bps ds (sm_rx_rate_bps out) /\
  sm_tx_rate_bps out' = sum_rates tx_rate_bps ds (sm_tx_rate_bps out) /\
  rate_source out' = rate_source out /\ rate_interface out' = rate_interface out /\
  sm_last_log_ts out' = sm_last_log_ts out /\ last_interface_ts out' = last_interface_ts out.
Proof.
  revert out. induction ds as [|d ds IH]; intros out; simpl.
  { unfold count_status. simpl. split_and!; done || lia. }
  destruct (IH (summary_device config now out d)) as (-> & -> & -> & -> & -> & -> & -> & -> & -> & ->).
  rewrite !count_status_cons. unfold summary_device.
  destruct (statusFor config d now) eqn:E; simpl; split_and!; try done; lia.
Qed.

(** The loop over the interfaces: the result is fresh and none fresh is newer. *)
Lemma freshest_loop now l best :
  match fold_left (fresher_interface now) l best with
  | None => best = None /\ forall i, i ∈ l -> interface_fresh now i = false
  | Some r =>
      (best = Some r \/ r ∈ l /\ interface_fresh now r = true) /\
      (forall b, best = Some b -> if_last_rate b <= if_last_rate r) /\
      forall i, i ∈ l -> interface_fresh now i = true -> if_last_rate i <= if_last_rate r
  end.
Proof.
  revert best. induction l as [|i l IH]; intros best; simpl.
  { destruct best; [|set_solver]. split_and!; [by left|naive_solver lia|set_solver]. }
  specialize (IH (fresher_interface now best i)).
  assert (Hstep : forall r, fresher_interface now best i = Some r ->
    (best = Some r \/ r = i /\ interface_fresh now i = true) /\
    (forall b, best = Some b -> if_last_rate b <= if_last_rate r) /\
    (interface_fresh now i = true -> if_last_rate i <= if_last_rate r)).
  { intros r. unfold fresher_interface. destruct (interface_fresh now i); [|naive_solver lia].
    destruct best as [b|]; [|naive_solver lia]. destruct (_ <? _) eqn:E; b2p; naive_solver lia. }
  destruct (fold_left _ l _) as [r|].
  - destruct IH as (Hr & Hb & Hl). destruct (fresher_interface now best i) as [b|] eqn:Eb.
    + destruct (Hstep b eq_refl) as (H1 & H2 & H3). specialize (Hb b eq_refl).
      split_and!.
      * destruct Hr as [[= ->]|[? ?]]; [destruct H1 as [->|[-> ?]]|]; set_solver.
      * intros b' Eb'. specialize (H2 b' Eb'). lia.
      * intros i' [->|Hi']%elem_of_cons Hf; [specialize (H3 Hf); lia|by apply Hl].
    + assert (best = None /\ interface_fresh now i = false) as [-> Hi].
      { unfold fresher_interface in Eb. destruct (interface_fresh now i), best; try done.
        by destruct (_ <? _) in Eb. }
      split_and!; [set_solver|done|]. intros i' [->|Hi']%elem_of_cons Hf; [congruence|by apply Hl].
  - destruct IH as [Eb Hl]. unfold fresher_interface in Eb.
    destruct (interface_fresh now i) eqn:Ei, best; try done; [by destruct (_ <? _) in Eb|].
    split; [done|]. intros i' [->|?]%elem_of_cons; auto.
Qed.

Lemma recent_attacks_filter start l :
  List.filter (fun e => start <=? wa_ts e) l = filter (fun e => start <= wa_ts e) l.
Proof.
  induction l as [|e l IH]; [done|]. rewrite filter_cons. simpl. rewrite IH.
  case_decide as E; [by rewrite (proj2 (Z.leb_le _ _) E)|by rewrite (proj2 (Z.leb_gt _ _)) by lia].
Qed.

(** the summary counts every device exactly once, under its status at the time of the
    call, and counts the attacks of the last five minutes. *)
Theorem summary_counts now st :
  let out := summary config now st in
  let ds := (map_to_list (devices_by_key_ st)).*2 in
  active_devices out = count_status now Online ds /\
  idle_devices out = count_status now Idle ds /\
  offline_devices out = count_status now Offline ds /\
  unknown_devices out = count_status now Unknown ds /\
  active_devices out + idle_devices out + offline_devices out + unknown_devices out =
    Z.of_nat (size (devices_by_key_ st)) /\
  wan_attack_5m out =
    Z.of_nat (length (filter (fun e => tsub now (300 * ns_per_s) <= wa_ts e) (items_ (wan_attacks_ st)))) /\
  sm_last_log_ts out = last_log_ts_ st.
Proof.
  intros out ds. assert (Hperm : (iter_order (devices_by_key_ st)).*2 ≡ₚ ds).
  { unfold ds. by rewrite iter_order_perm. }
  assert (Hc : forall s, count_status now s (iter_order (devices_by_key_ st)).*2 = count_status now s ds)
    by (intros s; by rewrite Hperm).
  assert (Hlen : length ds = size (devices_by_key_ st)).
  { unfold ds. by rewrite length_fmap, length_map_to_list. }
  pose proof (count_status_total now ds) as Htot. rewrite Hlen in Htot.
  destruct (summary_loop now (iter_order (devices_by_key_ st)).*2
    (default_Summary <| sm_last_log_ts := last_log_ts_ st |>)) as (H1 & H2 & H3 & H4 & _ & _ & _ & _ & H5 & _).
  rewrite Hc in H1; rewrite Hc in H2; rewrite Hc in H3; rewrite Hc in H4. simpl in H1, H2, H3, H4, H5.
  unfold out, summary.
  destruct (fold_left (fresher_interface now) _ _); simpl; rewrite H1, H2, H3, H4, H5;
    (split_and!; [done..| |done]); by rewrite recent_attacks_filter.
Qed.

(** the rates of the summary come from the interface whose rate is newest, among those
    with a rate computed in the last ten seconds; when there is none, they are the sums of
    the device rates. *)
Theorem summary_rate_source now st :
  let out := summary config now st in
  (exists name iface,
     interfaces_by_name_ st !! name = Some iface /\ interface_fresh now iface = true /\
     (forall n i, interfaces_by_name_ st !! n = Some i -> interface_fresh now i = true ->
        if_last_rate i <= if_last_rate iface) /\
     rate_source out = "interface" /\ rate_interface out = if_interface_name iface /\
     sm_rx_rate_bps out = if_rx_rate_bps iface /\ sm_tx_rate_bps out = if_tx_rate_bps iface) \/
  ((forall n i, interfaces_by_name_ st !! n = Some i -> interface_fresh now i = false) /\
   rate_source out = "devices" /\ rate_interface out = [] /\
   sm_rx_rate_bps out = sum_rates rx_rate_bps (iter_order (devices_by_key_ st)).*2 d_zero /\
   sm_tx_rate_bps out = sum_rates tx_rate_bps (iter_order (devices_by_key_ st)).*2 d_zero).
Proof.
  assert (Hin : forall i, i ∈ (iter_order (interfaces_by_name_ st)).*2 <->
    exists n, interfaces_by_name_ st !! n = Some i).
  { intros i. rewrite list_elem_of_fmap. split.
    - intros ([n i'] & -> & Hn%elem_of_iter_order). eauto.
    - intros [n Hn]. exists (n, i). by rewrite elem_of_iter_order. }
  unfold summary. pose proof (freshest_loop now (iter_order (interfaces_by_name_ st)).*2 None) as Hf.
  destruct (fold_left (fresher_interface now) _ _) as [r|]; simpl.
  - left. destruct Hf as ([?|[Hr Hfr]] & _ & Hmax); [done|]. apply Hin in Hr as [n Hn].
    exists n, r. split_and!; try done. intros n' i Hi. apply Hmax, Hin. eauto.
  - right. destruct Hf as [_ Hno].
    destruct (summary_loop now (iter_order (devices_by_key_ st)).*2
      (default_Summary <| sm_last_log_ts := last_log_ts_ st |>)) as (_ & _ & _ & _ & H1 & H2 & H3 & H4 & _).
    split_and!; [|done..]. intros n i Hi. apply Hno, Hin. eauto.
Qed.

End Queries.

(** ** The claims at concrete times *)

Definition seen_device (t : Z) (s : bytes) : DeviceState :=
  default_DeviceState <| last_seen := t * ns_per_s |> <| source := s |>.

Lemma status_only_ages_witness :
  status_rank (statusFor default_Config (seen_device 1000 "dhcp") (1100 * ns_per_s)) <=
  status_rank (statusFor default_Config (seen_device 1000 "dhcp") (1700 * ns_per_s)).
Proof.
  apply (status_only_ages default_Config (seen_device 1000 "dhcp")); try (by vm_compute).
  right. by vm_compute.
Defined.

(** A device that was seen a minute ago and one that was not seen for an hour. *)
Definition demo_listed : StateStore :=
  (new_StateStore default_Config) <| devices_by_key_ :=
    {[ ("gone" : bytes) := seen_device 1000 "dhcp"; ("here" : bytes) := seen_device 4540 "dhcp" ]} |>.

Lemma devices_sorted_permutation_witness :
  let out := @devices default_Config canonical_order (4600 * ns_per_s) demo_listed in
  (fun d => (status d, last_seen d)) <$> out = [(Online, 4540 * ns_per_s); (Offline, 1000 * ns_per_s)] /\
  Forall (status_means default_Config (4600 * ns_per_s)) out.
Proof.
  intros out. split; [by vm_compute|].
  refine (proj1 (proj2 (@devices_sorted_permutation default_Config canonical_order (4600 * ns_per_s) demo_listed _ _))); [by vm_compute|].
  apply map_Forall_insert_2; [right; by vm_compute|]. apply map_Forall_singleton. right. by vm_compute.
Defined.
