(* ===== verification/App.v ===== *)
(** * src/src/app.cpp: the application

    The handler of a syslog line ([handleLog]), the sanitising of what is stored, and one
    round of the cleanup loop, as functions on the state of the application.  Calls into
    the SQLite store and the web server are recorded as [Effect]s, in the order they are
    made.  [nowSystem()] is read from a clock, with an index of its own for every call. *)

From S2P Require Import Prelude Utils RingBuffer Double Types Config LogParser.
From S2P Require Import RuntimeStats StateStore.

(** ** Sanitising for storage *)

Definition is_blank_control (ch : ascii) : bool :=
  bool_decide (ch = c_nl) || bool_decide (ch = c_cr) || bool_decide (ch = c_tab).

Definition is_printable (ch : ascii) : bool := (32 <=? code ch) && negb (code ch =? 127).

(** The loop of [cleanStorageValue]; [out] is the string built so far. *)
Fixpoint clean_loop (max_length : Z) (value out : bytes) : bytes :=
  match value with
  | [] => out
  | ch :: rest =>
      let out := if is_blank_control ch then out ++ [c_space]
                 else if is_printable ch then out ++ [ch] else out in
      if max_length <=? Z.of_nat (length out) then out else clean_loop max_length rest out
  end.

(** [std::string::resize]: cut, or fill up with NUL characters. *)
Definition resize (n : nat) (s : bytes) : bytes := take n s ++ replicate (n - length s) c_nul.

Definition cleanStorageValue (value : bytes) (max_length : Z) : bytes :=
  let out := trim (clean_loop max_length value []) in
  if (max_length <? Z.of_nat (length value)) && (3 <=? Z.of_nat (length out))
  then resize (Z.to_nat (u64 (max_length - 3))) out ++ ("..." : bytes)
  else out.

Definition common_fields : list bytes :=
  ["ts" : bytes; "event" : bytes; "mac" : bytes; "ip" : bytes; "hostname" : bytes; "host" : bytes;
   "interface" : bytes; "if" : bytes; "iface" : bytes; "neigh" : bytes; "rx_bytes" : bytes;
   "tx_bytes" : bytes; "in_if" : bytes; "src_ip" : bytes; "dst_ip" : bytes; "src_port" : bytes;
   "dst_port" : bytes; "proto" : bytes; "len" : bytes; "state" : bytes; "message" : bytes].

Definition storageFieldAllowed (type key : bytes) : bool :=
  bool_decide (key ∈ common_fields)
  || (bool_decide (type = "wan_attack")
      && (bool_decide (key = "tos") || bool_decide (key = "ttl") || bool_decide (key = "out_if"))).

(** The loop over the fields: the map built so far, through [break] or the end. *)
Fixpoint clean_fields (type : bytes) (l : list (bytes * bytes)) (cleaned : gmap bytes bytes)
    : gmap bytes bytes :=
  match l with
  | [] => cleaned
  | (key, value) :: rest =>
      let normalized_key := lower (cleanStorageValue key 48) in
      if decide (normalized_key = []) then clean_fields type rest cleaned
      else if decide (normalized_key = "raw" \/ normalized_key = "csv") then
        let cleaned := <[normalized_key ++ ("_preview" : bytes) := cleanStorageValue value 180]> cleaned in
        let cleaned := <[normalized_key ++ ("_len" : bytes) := to_string (Z.of_nat (length value))]> cleaned in
        clean_fields type rest cleaned
      else if negb (storageFieldAllowed type normalized_key) then clean_fields type rest cleaned
      else
        let cleaned := <[normalized_key := if decide (normalized_key = "mac")
                                           then lower (cleanStorageValue value 96)
                                           else cleanStorageValue value 180]> cleaned in
        if (40 <=? size cleaned)%nat then cleaned else clean_fields type rest cleaned
  end.

Definition preprocessEventForStorage `{HashOrder} (event : Event) : Event :=
  mkEvent (ev_id event) (ev_ts event) (ev_type event) (ev_severity event)
    (cleanStorageValue (ev_source event) 80)
    (if decide (ev_type event = "raw") then "Unparsed syslog line"
     else cleanStorageValue (ev_message event) 240)
    (clean_fields (ev_type event) (iter_order (ev_fields event)) ∅).

Definition preprocessWANAttackForStorage (event : WANAttackEvent) : WANAttackEvent :=
  mkWANAttackEvent (wa_ts event)
    (cleanStorageValue (wa_in_if event) 64)
    (cleanStorageValue (wa_src_ip event) 64)
    (cleanStorageValue (wa_dst_ip event) 64)
    (cleanStorageValue (wa_src_port event) 16)
    (cleanStorageValue (wa_dst_port event) 16)
    (cleanStorageValue (wa_proto event) 24)
    (cleanStorageValue (wa_length event) 24)
    (cleanStorageValue (wa_raw event) 240).

(** ** The state of the application *)

(** A call into another component. *)
Inductive Effect : Type :=
  | UpsertDevices (devices : list DeviceState)
  | InsertEvent (event : Event)
  | InsertTraffic (snapshot : TrafficSnapshot)
  | InsertWANAttack (event : WANAttackEvent)
  | ApplyRetention
  | Broadcast (message : bytes).

Record App := mkApp {
  state_ : StateStore;
  stats_ : RuntimeStats;
  sqlite_enabled : bool;  (* sqlite_store_ && sqlite_store_->enabled() *)
  web_running : bool;     (* web_server_ is set *)
  effects : list Effect
}.

#[export] Instance App_eta : Eta App := fun a =>
  mkApp (state_ a) (stats_ a) (sqlite_enabled a) (web_running a) (effects a).

Definition on_state (f : StateStore -> StateStore) (a : App) : App := a <| state_ := f (state_ a) |>.
Definition on_stats (f : RuntimeStats -> RuntimeStats) (a : App) : App := a <| stats_ := f (stats_ a) |>.
Definition emit (e : Effect) (a : App) : App := a <| effects := effects a ++ [e] |>.

(** The clock from its [n]-th call on. *)
Definition later (n : nat) (clk : clock) : clock := fun i => clk (n + i)%nat.

Section Handlers.
Context (config : Config) {HO : HashOrder}.

(** The constructor, and the part of [start] before the threads: the storage mode is
    checked and the components are made.  [None] is the exception. *)
Definition new_App : App := mkApp (new_StateStore config) new_RuntimeStats false false [].

Definition start (load : StateStore -> StateStore) (a : App) : option App :=
  let mode := lower (storage_mode config) in
  if decide (mode <> "memory" /\ mode <> "sqlite") then None
  else
    let enabled := bool_decide (mode = "sqlite") in
    let a := a <| sqlite_enabled := enabled |> in
    let a := if enabled then on_state load a else a in
    Some (a <| web_running := true |>).

(** *** Publishing and persisting *)

(** [{"type":<type>,"payload":{}}], with both names quoted. *)
Definition update_message (type : bytes) : bytes :=
  ("{" : bytes) ++ jsonQuote "type" ++ (":" : bytes) ++ jsonQuote type
  ++ ("," : bytes) ++ jsonQuote "payload" ++ (":{}}" : bytes).

Definition publishUpdate (type : bytes) (a : App) : App :=
  if web_running a then emit (Broadcast (update_message type)) a else a.

Definition persistDevices (now : time) (a : App) : App :=
  if sqlite_enabled a then emit (UpsertDevices (devices config now (state_ a))) a else a.

Definition persistEvent (event : Event) (a : App) : App :=
  if sqlite_enabled a then emit (InsertEvent (preprocessEventForStorage event)) a else a.

Definition persistTraffic (snapshot : TrafficSnapshot) (a : App) : App :=
  if sqlite_enabled a then emit (InsertTraffic snapshot) a else a.

Definition persistWANAttack (event : WANAttackEvent) (a : App) : App :=
  if sqlite_enabled a then emit (InsertWANAttack (preprocessWANAttackForStorage event)) a else a.

Definition persistRecentEvents (a : App) : App :=
  if sqlite_enabled a then
    fold_left (fun a event => emit (InsertEvent (preprocessEventForStorage event)) a)
      (recentEvents (state_ a) (max_events config)) a
  else a.

(** *** Fields of a parse result *)

Definition fieldOr (result : ParseResult) (key fallback : bytes) : bytes :=
  default fallback (fields result !! key).

Definition has_field (result : ParseResult) (key : bytes) : bool :=
  bool_decide (is_Some (fields result !! key)).

Definition tsFromFields (now : time) (result : ParseResult) : time :=
  let ts := parseUint64 (fieldOr result "ts" []) 0 in
  if 0 <? ts then fromUnixSeconds (i64 ts) else now.

Definition makeEvent (now : time) (result : ParseResult) (peer_ip : bytes) (a : App) : Event * App :=
  let '(id, st) := nextEventId (state_ a) in
  (mkEvent id now (pr_type result) Info peer_ip (raw result) (fields result), a <| state_ := st |>).

(** *** One handler per message type; [event] has its identifier and time. *)

Definition netdev_device (result : ParseResult) (ts : time) : DeviceState :=
  default_DeviceState
    <| mac := fieldOr result "mac" [] |>
    <| ip := fieldOr result "ip" [] |>
    <| hostname := fieldOr result "hostname" (fieldOr result "host" []) |>
    <| interface_name := fieldOr result "interface" (fieldOr result "if" []) |>
    <| neigh_state := fieldOr result "neigh" [] |>
    <| source := "netdev" |>
    <| last_seen := ts |>
    <| tags := ["netdev" : bytes] |>.

Definition handle_netdev (clk : clock) (result : ParseResult) (event : Event) (a : App) : App :=
  let a := on_state (fun st => updateDevice config (later 0 clk) st (netdev_device result (ev_ts event))) a in
  let event := event <| ev_type := "device" |> <| ev_message := "Device snapshot" |> in
  let a := on_state (fun st => addEvent (later 2 clk) st event) a in
  let a := persistDevices (clk 4%nat) a in
  let a := persistEvent event a in
  publishUpdate "device_update" a.

Definition dhcp_device (result : ParseResult) (ts : time) : DeviceState :=
  default_DeviceState
    <| mac := fieldOr result "mac" [] |>
    <| ip := fieldOr result "ip" [] |>
    <| hostname := fieldOr result "hostname" [] |>
    <| interface_name := fieldOr result "interface" [] |>
    <| source := "dhcp" |>
    <| last_seen := ts |>
    <| last_dhcp := ts |>
    <| tags := ["dhcp" : bytes] |>.

Definition handle_dhcp (clk : clock) (result : ParseResult) (event : Event) (a : App) : App :=
  let a := on_state (fun st => updateDevice config (later 0 clk) st (dhcp_device result (ev_ts event))) a in
  let event := event <| ev_type := "dhcp" |> <| ev_message := fieldOr result "event" "DHCP event" |> in
  let a := on_state (fun st => addEvent (later 2 clk) st event) a in
  let a := persistDevices (clk 4%nat) a in
  let a := persistEvent event a in
  publishUpdate "device_update" a.

Definition handle_nettraffic (clk : clock) (result : ParseResult) (event : Event) (a : App) : App :=
  let '(event, a) :=
    if has_field result "rx_bytes" && has_field result "tx_bytes" then
      let snapshot := mkTrafficSnapshot (fieldOr result "mac" []) (fieldOr result "ip" []) (ev_ts event)
                        (parseUint64 (fieldOr result "rx_bytes" []) 0)
                        (parseUint64 (fieldOr result "tx_bytes" []) 0) in
      let a := on_state (fun st => updateTraffic config (later 0 clk) st snapshot) a in
      let a := persistTraffic snapshot a in
      let a := persistDevices (clk 2%nat) a in
      (event <| ev_type := "traffic" |> <| ev_message := "Traffic snapshot" |>, a)
    else (event <| ev_type := "traffic" |> <| ev_message := "Traffic CSV snapshot" |>, a) in
  let a := on_state (fun st => addEvent (later 3 clk) st event) a in
  let a := persistEvent event a in
  publishUpdate "traffic_update" a.

Definition handle_netiface (clk : clock) (result : ParseResult) (event : Event) (a : App) : App :=
  if has_field result "rx_bytes" && has_field result "tx_bytes" then
    let snapshot := mkInterfaceSnapshot
                      (fieldOr result "interface" (fieldOr result "if" (fieldOr result "iface" [])))
                      (ev_ts event)
                      (parseUint64 (fieldOr result "rx_bytes" []) 0)
                      (parseUint64 (fieldOr result "tx_bytes" []) 0) in
    let a := on_state (fun st => updateInterface (later 0 clk) st snapshot) a in
    publishUpdate "summary_update" a
  else a.

Definition wan_attack_of (result : ParseResult) (ts : time) : WANAttackEvent :=
  mkWANAttackEvent ts (fieldOr result "in_if" []) (fieldOr result "src_ip" [])
    (fieldOr result "dst_ip" []) (fieldOr result "src_port" []) (fieldOr result "dst_port" [])
    (fieldOr result "proto" []) (fieldOr result "len" []) (raw result).

Definition handle_wan_attack (clk : clock) (result : ParseResult) (event : Event) (a : App) : App :=
  let attack := wan_attack_of result (ev_ts event) in
  let a := on_state (fun st => addWANAttack (later 0 clk) st attack) a in
  let a := on_stats recordWANAttack a in
  let event := event <| ev_severity := Critical |> <| ev_message := "WAN attack/firewall drop" |> in
  let a := on_state (fun st => addEvent (later 3 clk) st event) a in
  let a := persistWANAttack attack a in
  let a := persistEvent event a in
  publishUpdate "wan_attack" a.

Definition handle_wan (clk : clock) (result : ParseResult) (event : Event) (a : App) : App :=
  let event := event <| ev_type := "wan" |> <| ev_message := fieldOr result "message" (raw result) |> in
  let event := if decide (fieldOr result "state" [] = "down")
               then event <| ev_severity := Warning |> else event in
  let a := on_state (fun st => addEvent (later 0 clk) st event) a in
  let a := persistEvent event a in
  publishUpdate "event" a.

Definition wifi_disconnected (result : ParseResult) : bool :=
  bool_decide (fieldOr result "event" [] = "wifi_disconnected").

Definition wifi_device (result : ParseResult) (ts : time) : DeviceState :=
  let device := default_DeviceState
    <| mac := fieldOr result "mac" [] |> <| source := "wifi" |> <| last_seen := ts |>
    <| tags := ["wifi" : bytes] |> in
  if wifi_disconnected result then device <| status := Offline |> else device.

Definition handle_wifi (clk : clock) (result : ParseResult) (event : Event) (a : App) : App :=
  let event := if wifi_disconnected result then event <| ev_severity := Warning |> else event in
  let a := on_state (fun st => updateDevice config (later 0 clk) st (wifi_device result (ev_ts event))) a in
  let event := event <| ev_type := "device" |>
                     <| ev_message := fieldOr result "event" "WiFi client event" |> in
  let a := on_state (fun st => addEvent (later 2 clk) st event) a in
  let a := persistDevices (clk 4%nat) a in
  let a := persistEvent event a in
  publishUpdate "device_update" a.

Definition handle_other (clk : clock) (event : Event) (a : App) : App :=
  let a := on_state (fun st => addEvent (later 0 clk) st event) a in
  let a := persistEvent event a in
  publishUpdate "event" a.

Definition applyParseResult (clk : clock) (result : ParseResult) (peer_ip : bytes) (a : App) : App :=
  let '(event, a) := makeEvent (clk 0%nat) result peer_ip a in
  let event := event <| ev_ts := tsFromFields (clk 1%nat) result |> in
  let clk := later 2 clk in
  if decide (pr_type result = "netdev") then handle_netdev clk result event a
  else if decide (pr_type result = "dhcp") then handle_dhcp clk result event a
  else if decide (pr_type result = "nettraffic") then handle_nettraffic clk result event a
  else if decide (pr_type result = "netiface") then handle_netiface clk result event a
  else if decide (pr_type result = "wan_attack") then handle_wan_attack clk result event a
  else if decide (pr_type result = "wan") then handle_wan clk result event a
  else if decide (pr_type result = "wifi") then handle_wifi clk result event a
  else handle_other clk event a.

(** The branch for a line no recogniser matched. *)
Definition handle_raw (clk : clock) (result : ParseResult) (line peer_ip : bytes) (a : App) : App :=
  let a := on_stats (recordSyslogMessage "raw") a in
  let a := on_stats recordParseError a in
  let result := result <| pr_type := "raw" |> <| raw := line |> in
  let '(event, a) := makeEvent (clk 0%nat) result peer_ip a in
  let event := event <| ev_source := peer_ip |> <| ev_message := line |>
                     <| ev_fields := <[("raw" : bytes) := line]> (ev_fields event) |> in
  let a := on_state (fun st => addEvent (later 1 clk) st event) a in
  let a := persistEvent event a in
  publishUpdate "event" a.

Definition handleLog (clk : clock) (line peer_ip : bytes) (a : App) : App :=
  let result := parse line in
  if negb (matched result) then handle_raw clk result line peer_ip a
  else
    let a := on_stats (recordSyslogMessage (pr_type result)) a in
    applyParseResult clk result peer_ip a.

(** One round of [runCleanupLoop], after its minute of sleep. *)
Definition cleanup_round (clk : clock) (a : App) : App :=
  let a := on_state (cleanup config (later 2 clk) (clk 0%nat)) a in
  let a := persistDevices (clk 1%nat) a in
  let a := persistRecentEvents a in
  let a := if sqlite_enabled a then emit ApplyRetention a else a in
  publishUpdate "summary_update" a.

End Handlers.
