(* ===== verification/AppTheorems.v ===== *)
(** * What the application does with a line

    Claims on app.cpp: what is written to storage is bounded and clean, the handlers keep
    the invariant of the store, count every line once, write nothing to storage in memory
    mode, and a telemetry line ends up in the device it names. *)

From S2P Require Import Prelude Utils RingBuffer Double Types Config LogParser.
From S2P Require Import RuntimeStats StateStore StoreCleanup StoreInvariant StoreUpdates.
From S2P Require Import StoreQueries App.

(** ** Stored values *)

Lemma space_printable : is_printable c_space = true.
Proof. done. Qed.

Lemma clean_loop_spec max_length value out :
  0 < max_length -> Z.of_nat (length out) < max_length ->
  Forall (fun c => is_printable c = true) out ->
  Z.of_nat (length (clean_loop max_length value out)) <= max_length /\
  Forall (fun c => is_printable c = true) (clean_loop max_length value out).
Proof.
  intros Hmax. revert out. induction value as [|ch value IH]; intros out Hlen Hout.
  { split; [simpl; lia|done]. }
  cbn [clean_loop]. set (out' := if is_blank_control ch then _ else _).
  assert (H : Z.of_nat (length out') <= max_length /\ Forall (fun c => is_printable c = true) out').
  { unfold out'. destruct (is_blank_control ch); [|destruct (is_printable ch) eqn:E];
      rewrite ?length_app; simpl; (split; [lia|]); try done; apply Forall_app; auto using space_printable. }
  destruct H. destruct (max_length <=? Z.of_nat (length out')) eqn:E; [done|]. apply IH; [blia|done].
Qed.

Lemma resize_length n s : length (resize n s) = n.
Proof. unfold resize. rewrite length_app, length_take, length_replicate. lia. Qed.

Lemma cleanStorageValue_length value max_length :
  3 <= max_length < two64 -> Z.of_nat (length (cleanStorageValue value max_length)) <= max_length.
Proof.
  intros Hmax. unfold cleanStorageValue.
  destruct (clean_loop_spec max_length value [] ltac:(lia) ltac:(simpl; lia) ltac:(constructor)) as [Hlen _].
  pose proof (trim_length (clean_loop max_length value [])) as Ht.
  destruct (_ && _); [|lia]. rewrite length_app, resize_length, u64_small by lia. simpl. lia.
Qed.

(** what is stored of a value never exceeds its limit, and of a value within the limit
    it holds only printable characters. *)
Theorem cleanStorageValue_safe value max_length :
  3 <= max_length < two64 ->
  Z.of_nat (length (cleanStorageValue value max_length)) <= max_length /\
  (Z.of_nat (length value) <= max_length ->
   Forall (fun c => is_printable c = true) (cleanStorageValue value max_length)).
Proof.
  intros Hmax. split; [by apply cleanStorageValue_length|]. intros Hlen. unfold cleanStorageValue.
  replace (max_length <? _) with false by (symmetry; apply Z.ltb_ge; lia). simpl.
  apply trim_Forall, clean_loop_spec; [lia|simpl; lia|constructor].
Qed.

Lemma cleanStorageValue_safe_witness :
  Z.of_nat (length (cleanStorageValue "a b" 16)) <= 16.
Proof. apply (cleanStorageValue_safe "a b" 16). words. Defined.

(** of a value above the limit it can hold NUL characters: the trimmed text is
    extended with them to the limit before the dots are appended. *)
Theorem cleanStorageValue_pads_with_nul :
  cleanStorageValue (("abc" : bytes) ++ replicate 300 c_space) 240 =
  ("abc" : bytes) ++ replicate 234 c_nul ++ ("..." : bytes) /\ is_printable c_nul = false.
Proof. split; vm_compute; reflexivity. Qed.

(** ** Stored events *)

(** The keys a stored event can have. *)
Definition storage_keys : list bytes :=
  common_fields ++ ["tos" : bytes; "ttl" : bytes; "out_if" : bytes; "raw_preview" : bytes;
                    "raw_len" : bytes; "csv_preview" : bytes; "csv_len" : bytes].

(** A stored field: a known key; text of at most 180 characters (the lengths of previewed
    payloads apart); MAC addresses in lower case. *)
Definition stored_field_ok (k v : bytes) : Prop :=
  k ∈ storage_keys /\
  (k <> "raw_len" -> k <> "csv_len" -> Z.of_nat (length v) <= 180) /\
  (k = "mac" -> lower v = v).

Lemma storageFieldAllowed_keys type k :
  storageFieldAllowed type k = true -> k ∈ storage_keys.
Proof.
  unfold storageFieldAllowed, storage_keys. rewrite orb_true_iff, andb_true_iff, !orb_true_iff.
  rewrite !bool_decide_eq_true. rewrite elem_of_app. intros [?|[_ [[->| ->]| ->]]]; [by left|right..];
    apply (bool_decide_unpack _); vm_compute; exact I.
Qed.

Lemma clean_180 v : Z.of_nat (length (cleanStorageValue v 180)) <= 180.
Proof. apply cleanStorageValue_length. words. Qed.

Lemma preview_ok (k v : bytes) :
  k = "raw" \/ k = "csv" -> stored_field_ok (k ++ ("_preview" : bytes)) (cleanStorageValue v 180).
Proof.
  intros [->| ->]; (split; [apply (bool_decide_unpack _); vm_compute; exact I|]);
    split; done || (intros; apply clean_180).
Qed.

Lemma payload_len_ok (k v : bytes) : k = "raw" \/ k = "csv" -> stored_field_ok (k ++ ("_len" : bytes)) v.
Proof.
  intros [->| ->]; (split; [apply (bool_decide_unpack _); vm_compute; exact I|]); by split.
Qed.

Lemma allowed_ok (type k v : bytes) :
  storageFieldAllowed type k = true ->
  stored_field_ok k (if decide (k = "mac") then lower (cleanStorageValue v 96)
                     else cleanStorageValue v 180).
Proof.
  intros Hk. split; [by eapply storageFieldAllowed_keys|]. case_decide as Hm; split.
  - intros _ _. rewrite lower_length. pose proof (cleanStorageValue_length v 96). words.
  - intros _. apply lower_idemp.
  - intros _ _. apply clean_180.
  - done.
Qed.

Lemma stored_size (m : gmap bytes bytes) : map_Forall stored_field_ok m -> (size m <= 28)%nat.
Proof.
  intros Hm. rewrite <- size_dom.
  assert (Hs : dom m ⊆ (list_to_set storage_keys : gset bytes)).
  { intros k Hk. apply elem_of_dom in Hk as [v Hv]. apply elem_of_list_to_set. by apply (Hm k v). }
  apply subseteq_size in Hs. rewrite size_list_to_set in Hs; [done|].
  apply (bool_decide_unpack _). vm_compute. exact I.
Qed.

Lemma clean_fields_ok type l m :
  map_Forall stored_field_ok m -> map_Forall stored_field_ok (clean_fields type l m).
Proof.
  revert m. induction l as [|[k v] l IH]; intros m Hm; [done|]. cbn [clean_fields].
  case_decide; [by apply IH|]. case_decide as Hraw.
  { apply IH, map_Forall_insert_2; [by apply payload_len_ok|].
    apply map_Forall_insert_2; [by apply preview_ok|done]. }
  destruct (negb _) eqn:Ha; [by apply IH|]. b2p.
  pose proof (map_Forall_insert_2 _ _ _ _ (allowed_ok type _ v Ha) Hm) as Hm'.
  destruct (_ <=? _)%nat; [done|]. by apply IH.
Qed.

(** No allowed field is lost: the cut at 40 fields is never reached. *)
Lemma clean_fields_complete type l m k :
  map_Forall stored_field_ok m ->
  k ∈ dom m \/ (exists k0 v, (k0, v) ∈ l /\ lower (cleanStorageValue k0 48) = k /\
                storageFieldAllowed type k = true) ->
  k ∈ dom (clean_fields type l m).
Proof.
  revert m. induction l as [|[k0 v] l IH]; intros m Hm Hk; [set_solver|]. cbn [clean_fields].
  assert (Hnil : storageFieldAllowed type [] = false) by (unfold storageFieldAllowed; by destruct (bool_decide (type = _))).
  assert (Hpay : forall p : bytes, p = "raw" \/ p = "csv" -> storageFieldAllowed type p = false)
    by (intros p [->| ->]; unfold storageFieldAllowed; by destruct (bool_decide (type = _))).
  case_decide as E1.
  { apply IH; [done|]. destruct Hk as [?|(k1 & v1 & [[= -> ->]|?]%elem_of_cons & E & Ha)]; [by left| |right; eauto].
    rewrite E1 in E. subst k. congruence. }
  case_decide as E2.
  { apply IH; [apply map_Forall_insert_2; [by apply payload_len_ok|];
      apply map_Forall_insert_2; [by apply preview_ok|done]|].
    destruct Hk as [?|(k1 & v1 & [[= -> ->]|?]%elem_of_cons & E & Ha)]; [left; set_solver| |right; eauto].
    rewrite <- E in Ha. rewrite Hpay in Ha by done. done. }
  destruct (negb _) eqn:Ea; b2p.
  { apply IH; [done|]. destruct Hk as [?|(k1 & v1 & [[= -> ->]|?]%elem_of_cons & E & Ha)]; [by left|congruence|right; eauto]. }
  pose proof (map_Forall_insert_2 _ _ _ _ (allowed_ok type _ v Ea) Hm) as Hm'.
  replace (_ <=? _)%nat with false by (symmetry; apply Nat.leb_gt; apply stored_size in Hm'; lia).
  apply IH; [done|]. destruct Hk as [?|(k1 & v1 & [[= -> ->]|?]%elem_of_cons & E & Ha)];
    [left; set_solver|left; set_solver|right; eauto].
Qed.

(** an event as it is stored: at most 28 fields, all with known keys, with bounded text
    and MAC addresses in lower case; every allowed field of the event is kept; the text of
    unparsed lines is not stored as the message.  This holds for every order in which the
    fields are visited, so the cut at 40 fields never drops one. *)
Theorem stored_event_fields `{HashOrder} e :
  let e' := preprocessEventForStorage e in
  map_Forall stored_field_ok (ev_fields e') /\
  (size (ev_fields e') <= 28)%nat /\
  (forall k v, ev_fields e !! k = Some v ->
     let k' := lower (cleanStorageValue k 48) in
     storageFieldAllowed (ev_type e) k' = true -> is_Some (ev_fields e' !! k')) /\
  Z.of_nat (length (ev_source e')) <= 80 /\ Z.of_nat (length (ev_message e')) <= 240 /\
  (ev_type e = "raw" -> ev_message e' = "Unparsed syslog line").
Proof.
  intros e'. assert (H0 : map_Forall stored_field_ok (∅ : gmap bytes bytes)) by apply map_Forall_empty.
  assert (Hok : map_Forall stored_field_ok (ev_fields e')) by by apply clean_fields_ok.
  split_and!; [done|by apply stored_size| | | |].
  - intros k v Hk k' Ha. apply elem_of_dom. apply clean_fields_complete; [done|].
    right. exists k, v. by rewrite elem_of_iter_order.
  - apply cleanStorageValue_length. words.
  - simpl. case_decide; [vm_compute; discriminate|]. apply cleanStorageValue_length. words.
  - simpl. intros ->. by rewrite decide_True.
Qed.

(** ** The handlers *)

Create HintDb app.

Section Handlers.
Context (config : Config) {HO : HashOrder}.
Implicit Types (a b : App).

(** *** The state of the store only moves by its own operations *)

Definition app_steps a b : Prop := rtc (store_step config any_event) (state_ a) (state_ b).

Lemma app_steps_refl a : app_steps a a.
Proof. apply rtc_refl. Qed.

Lemma app_steps_on_state a b f :
  app_steps a b -> store_step config any_event (state_ b) (f (state_ b)) -> app_steps a (on_state f b).
Proof. intros Hab Hf. by eapply rtc_r. Qed.

Lemma app_steps_on_stats a b f : app_steps a b -> app_steps a (on_stats f b).
Proof. done. Qed.

Lemma app_steps_emit a b e : app_steps a b -> app_steps a (emit e b).
Proof. done. Qed.

Lemma app_steps_publish a b t : app_steps a b -> app_steps a (publishUpdate t b).
Proof. unfold publishUpdate. by destruct (web_running b). Qed.

Lemma app_steps_persistDevices a b now : app_steps a b -> app_steps a (persistDevices config now b).
Proof. unfold persistDevices. by destruct (sqlite_enabled b). Qed.

Lemma app_steps_persistEvent a b e : app_steps a b -> app_steps a (persistEvent e b).
Proof. unfold persistEvent. by destruct (sqlite_enabled b). Qed.

Lemma app_steps_persistTraffic a b s : app_steps a b -> app_steps a (persistTraffic s b).
Proof. unfold persistTraffic. by destruct (sqlite_enabled b). Qed.

Lemma app_steps_persistWANAttack a b e : app_steps a b -> app_steps a (persistWANAttack e b).
Proof. unfold persistWANAttack. by destruct (sqlite_enabled b). Qed.

Lemma emit_events_state (l : list Event) b :
  state_ (fold_left (fun a e => emit (InsertEvent (preprocessEventForStorage e)) a) l b) = state_ b.
Proof. revert b. induction l as [|e l IH]; intros b; simpl; [done|]. by rewrite IH. Qed.

Lemma app_steps_persistRecentEvents a b : app_steps a b -> app_steps a (persistRecentEvents config b).
Proof.
  unfold persistRecentEvents. destruct (sqlite_enabled b); [|done].
  unfold app_steps. by rewrite emit_events_state.
Qed.

Lemma app_steps_makeEvent a b now r p e b' :
  app_steps a b -> makeEvent now r p b = (e, b') -> app_steps a b'.
Proof.
  unfold makeEvent. simpl. intros Hab [= _ <-]. unfold app_steps in *. simpl.
  eapply rtc_r; [done|]. apply (step_nextEventId config any_event (state_ b)).
Qed.

Lemma step_any_event clk st e : store_step config any_event st (addEvent clk st e).
Proof. by apply step_addEvent. Qed.

Lemma step_device clk st d :
  rx_rate_bps d = d_zero -> tx_rate_bps d = d_zero ->
  store_step config any_event st (updateDevice config clk st d).
Proof. intros H1 H2. apply step_updateDevice. split; [by rewrite H1|by rewrite H2]. Qed.

Hint Resolve app_steps_refl app_steps_on_state app_steps_on_stats app_steps_emit app_steps_publish
  app_steps_persistDevices app_steps_persistEvent app_steps_persistTraffic
  app_steps_persistWANAttack app_steps_persistRecentEvents step_any_event step_device
  step_updateTraffic step_updateInterface step_addWANAttack step_cleanup : app.

Lemma wifi_device_rates r ts :
  rx_rate_bps (wifi_device r ts) = d_zero /\ tx_rate_bps (wifi_device r ts) = d_zero.
Proof. unfold wifi_device. by destruct (wifi_disconnected r). Qed.

Lemma applyParseResult_steps clk r p a : app_steps a (applyParseResult config clk r p a).
Proof.
  unfold applyParseResult. destruct (makeEvent _ r p a) as [e b] eqn:E.
  pose proof (app_steps_makeEvent a a _ _ _ _ _ (app_steps_refl a) E) as Hb. clear E.
  destruct (wifi_device_rates r (tsFromFields (clk 1%nat) r)) as [Hw1 Hw2].
  repeat case_decide; cbv zeta.
  - unfold handle_netdev. eauto 10 with app.
  - unfold handle_dhcp. eauto 10 with app.
  - unfold handle_nettraffic. destruct (_ && _); eauto 10 with app.
  - unfold handle_netiface. destruct (_ && _); eauto 10 with app.
  - unfold handle_wan_attack. eauto 10 with app.
  - unfold handle_wan. eauto 10 with app.
  - unfold handle_wifi. destruct (wifi_disconnected r); eauto 10 with app.
  - unfold handle_other. eauto 10 with app.
Qed.

Lemma handleLog_steps clk line p a : app_steps a (handleLog config clk line p a).
Proof.
  unfold handleLog. destruct (negb _).
  - unfold handle_raw. destruct (makeEvent _ _ _ _) as [e b] eqn:E.
    pose proof (app_steps_makeEvent a _ _ _ _ _ _ (app_steps_on_stats a _ recordParseError
      (app_steps_on_stats a a (recordSyslogMessage "raw") (app_steps_refl a))) E). eauto 10 with app.
  - exact (applyParseResult_steps clk (parse line) p (on_stats (recordSyslogMessage _) a)).
Qed.

Lemma cleanup_round_steps clk a : app_steps a (cleanup_round config clk a).
Proof.
  unfold cleanup_round. destruct (sqlite_enabled _); eauto 10 with app.
Qed.

(** The runs of the application: lines handled and cleanup rounds, after a start that
    brought back any reachable state of the store. *)
Inductive app_step : App -> App -> Prop :=
  | app_line clk line p a : app_step a (handleLog config clk line p a)
  | app_cleanup clk a : app_step a (cleanup_round config clk a).

(** whatever lines arrive from whatever peers, with cleanup rounds anywhere between
    them, the store of the application keeps its invariant. *)
Theorem app_keeps_store_invariant a a' :
  sizes_ok config -> reachable config (state_ a) -> rtc app_step a a' ->
  store_ok config (state_ a').
Proof.
  intros Hs Hr Hsteps. eapply reachable_store_ok; [done|].
  induction Hsteps as [|a b c Hab _ IH]; [done|]. apply IH. unfold reachable in *.
  etransitivity; [exact Hr|]. destruct Hab; [apply handleLog_steps|apply cleanup_round_steps].
Qed.

(** *** What each call of a handler touches *)

(** The events handed to storage, and all calls to storage. *)
Definition inserted (l : list Effect) : list Event :=
  omap (fun e => match e with InsertEvent ev => Some ev | _ => None end) l.

Definition is_storage (e : Effect) : Prop := match e with Broadcast _ => False | _ => True end.

#[local] Instance is_storage_dec e : Decision (is_storage e).
Proof. destruct e; apply _. Defined.

Definition storage_calls (l : list Effect) : list Effect := filter is_storage l.

Lemma inserted_snoc l e :
  inserted (l ++ [e]) = inserted l ++ match e with InsertEvent ev => [ev] | _ => [] end.
Proof. unfold inserted. rewrite omap_app. by destruct e. Qed.

Lemma storage_calls_snoc l e : ~ is_storage e -> storage_calls (l ++ [e]) = storage_calls l.
Proof. intros He. unfold storage_calls. by rewrite filter_app, filter_cons_False, app_nil_r. Qed.

(** A call that changes nothing but the trace, to which it adds no event, and nothing
    but broadcasts when there is no storage. *)
Record trace_only a b : Prop := {
  to_state : state_ b = state_ a;
  to_stats : stats_ b = stats_ a;
  to_sqlite : sqlite_enabled b = sqlite_enabled a;
  to_inserted : inserted (effects b) = inserted (effects a);
  to_storage : sqlite_enabled a = false -> storage_calls (effects b) = storage_calls (effects a)
}.

Lemma emit_trace_only a e :
  match e with InsertEvent _ => False | Broadcast _ => True | _ => sqlite_enabled a = true end ->
  trace_only a (emit e a).
Proof.
  intros He. split; try done; simpl.
  - rewrite inserted_snoc. destruct e; try done; by rewrite app_nil_r.
  - intros Hs. apply storage_calls_snoc. destruct e; simpl; congruence || tauto.
Qed.

Lemma trace_only_refl a : trace_only a a.
Proof. by split. Qed.

Lemma publish_trace a t : trace_only a (publishUpdate t a).
Proof.
  unfold publishUpdate. destruct (web_running a); [by apply emit_trace_only|apply trace_only_refl].
Qed.

Lemma persistDevices_trace a now : trace_only a (persistDevices config now a).
Proof.
  unfold persistDevices. destruct (sqlite_enabled a) eqn:E; [by apply emit_trace_only|apply trace_only_refl].
Qed.

Lemma persistTraffic_trace a s : trace_only a (persistTraffic s a).
Proof.
  unfold persistTraffic. destruct (sqlite_enabled a) eqn:E; [by apply emit_trace_only|apply trace_only_refl].
Qed.

Lemma persistWANAttack_trace a e : trace_only a (persistWANAttack e a).
Proof.
  unfold persistWANAttack. destruct (sqlite_enabled a) eqn:E; [by apply emit_trace_only|apply trace_only_refl].
Qed.

(** *** The outcome of a handler *)

(** The message counters, with [attack] more attack. *)
Definition counted (attack : bool) (s s' : RuntimeStats) : Prop :=
  s' = if attack then recordWANAttack s else s.

(** From [a] to [b]: events and event numbers are left alone, no event is stored. *)
Record unlogged (attack : bool) a b : Prop := {
  un_events : same_events (state_ a) (state_ b);
  un_stats : counted attack (stats_ a) (stats_ b);
  un_sqlite : sqlite_enabled b = sqlite_enabled a;
  un_inserted : inserted (effects b) = inserted (effects a);
  un_storage : sqlite_enabled a = false -> storage_calls (effects b) = storage_calls (effects a)
}.

(** The event as [addEvent] keeps it. *)
Definition stamped (clk : clock) (e : Event) : Event :=
  if ev_ts e =? 0 then e <| ev_ts := clk 0%nat |> else e.

Lemma addEvent_stamped clk st e :
  ev_id e <> [] ->
  events_ (addEvent clk st e) = rb_push (events_ st) (stamped clk e) /\
  event_seq_ (addEvent clk st e) = event_seq_ st /\
  devices_by_key_ (addEvent clk st e) = devices_by_key_ st /\
  ip_to_key_ (addEvent clk st e) = ip_to_key_ st.
Proof.
  intros He. unfold addEvent, pushEventLocked. rewrite decide_False by done.
  unfold touchLastLogLocked, stamped. cbv zeta. by destruct (ev_ts e =? 0), (_ || _).
Qed.

(** From [a] to [b]: the event [e] was added to the buffer and, in sqlite mode, stored. *)
Record logged (attack : bool) (e : Event) a b : Prop := {
  lg_events : exists clk, events_ (state_ b) = rb_push (events_ (state_ a)) (stamped clk e);
  lg_stats : counted attack (stats_ a) (stats_ b);
  lg_sqlite : sqlite_enabled b = sqlite_enabled a;
  lg_inserted : inserted (effects b) =
    inserted (effects a) ++ if sqlite_enabled a then [preprocessEventForStorage e] else [];
  lg_storage : sqlite_enabled a = false -> storage_calls (effects b) = storage_calls (effects a)
}.

Lemma unlogged_refl a : unlogged false a a.
Proof. by split. Qed.

Lemma unlogged_state a f :
  same_events (state_ a) (f (state_ a)) -> unlogged false a (on_state f a).
Proof. intros H. by split. Qed.

Lemma unlogged_attack a f :
  same_events (state_ a) (f (state_ a)) ->
  unlogged true a (on_stats recordWANAttack (on_state f a)).
Proof. intros H. by split. Qed.

Lemma unlogged_trace w a b c : unlogged w a b -> trace_only b c -> unlogged w a c.
Proof.
  intros [] []. split; [by rewrite to_state0|by rewrite to_stats0|congruence..|].
  intros Hs. rewrite to_storage0 by congruence. auto.
Qed.

Lemma trace_only_trans a b c : trace_only a b -> trace_only b c -> trace_only a c.
Proof.
  intros [] []. split; try congruence. intros Hs. rewrite to_storage1 by congruence. auto.
Qed.

(** The shape of the handlers: some calls, the event, more calls, the stored event. *)
Lemma logged_intro w e clk a b c t :
  trace_only (on_state (fun st => addEvent clk st e) b) c -> unlogged w a b -> ev_id e <> [] ->
  logged w e a (publishUpdate t (persistEvent e c)).
Proof.
  intros [Cst Cstats Csq Cin Csto] [Hev Hst Hsq Hin Hsto] He.
  destruct (addEvent_stamped clk (state_ b) e He) as (Hpush & _).
  destruct (publish_trace (persistEvent e c) t) as [Pst Pstats Psq Pin Psto].
  assert (Hst' : state_ (persistEvent e c) = state_ c) by (unfold persistEvent; by destruct (sqlite_enabled c)).
  assert (Hstats' : stats_ (persistEvent e c) = stats_ c) by (unfold persistEvent; by destruct (sqlite_enabled c)).
  assert (Hsq' : sqlite_enabled (persistEvent e c) = sqlite_enabled a)
    by (unfold persistEvent; destruct (sqlite_enabled c) eqn:E; simpl in *; congruence).
  simpl in *. destruct Hev as [Hev _]. split.
  - exists clk. rewrite Pst, Hst', Cst, Hpush. congruence.
  - by rewrite Pstats, Hstats', Cstats.
  - congruence.
  - rewrite Pin. unfold persistEvent. rewrite Csq, Hsq. destruct (sqlite_enabled a).
    + simpl. rewrite inserted_snoc. congruence.
    + rewrite app_nil_r. congruence.
  - intros Hs. rewrite Psto by congruence. unfold persistEvent. rewrite Csq, Hsq, Hs.
    rewrite Csto by congruence. auto.
Qed.

(** The handler [h] logs one event, made from the event it is given. *)
Definition logs_one (attack : bool) (e : Event) a b : Prop :=
  exists e', ev_id e' = ev_id e /\ ev_source e' = ev_source e /\ logged attack e' a b.

(** Proves [logs_one] of an unfolded handler, from a lemma on the calls between adding and
    storing the event and one on the calls before. *)
Ltac logs_event mid pre :=
  cbv zeta; eexists; (split; [|split; [|eapply logged_intro; [mid|pre|]]]); done.

Ltac update_then l := apply unlogged_state, l.

Lemma handle_netdev_logs clk r e a :
  ev_id e <> [] -> logs_one false e a (handle_netdev config clk r e a).
Proof.
  intros He. unfold handle_netdev.
  logs_event ltac:(apply persistDevices_trace) ltac:(update_then updateDevice_events).
Qed.

Lemma handle_dhcp_logs clk r e a :
  ev_id e <> [] -> logs_one false e a (handle_dhcp config clk r e a).
Proof.
  intros He. unfold handle_dhcp.
  logs_event ltac:(apply persistDevices_trace) ltac:(update_then updateDevice_events).
Qed.

Lemma handle_nettraffic_logs clk r e a :
  ev_id e <> [] -> logs_one false e a (handle_nettraffic config clk r e a).
Proof.
  intros He. unfold handle_nettraffic. destruct (_ && _).
  - logs_event ltac:(apply trace_only_refl)
      ltac:(eapply unlogged_trace; [|apply persistDevices_trace];
            eapply unlogged_trace; [|apply persistTraffic_trace];
            update_then updateTraffic_events).
  - logs_event ltac:(apply trace_only_refl) ltac:(apply unlogged_refl).
Qed.

Lemma handle_wan_attack_logs clk r e a :
  ev_id e <> [] -> logs_one true e a (handle_wan_attack clk r e a).
Proof.
  intros He. unfold handle_wan_attack.
  logs_event ltac:(apply persistWANAttack_trace) ltac:(apply unlogged_attack, addWANAttack_events).
Qed.

Lemma handle_wan_logs clk r e a : ev_id e <> [] -> logs_one false e a (handle_wan clk r e a).
Proof.
  intros He. unfold handle_wan.
  case_decide; logs_event ltac:(apply trace_only_refl) ltac:(apply unlogged_refl).
Qed.

Lemma handle_wifi_logs clk r e a :
  ev_id e <> [] -> logs_one false e a (handle_wifi config clk r e a).
Proof.
  intros He. unfold handle_wifi. destruct (wifi_disconnected r);
    logs_event ltac:(apply persistDevices_trace) ltac:(update_then updateDevice_events).
Qed.

Lemma handle_other_logs clk e a : ev_id e <> [] -> logs_one false e a (handle_other clk e a).
Proof.
  intros He. unfold handle_other.
  logs_event ltac:(apply trace_only_refl) ltac:(apply unlogged_refl).
Qed.

Lemma handle_netiface_quiet clk r e a : unlogged false a (handle_netiface clk r e a).
Proof.
  unfold handle_netiface. destruct (_ && _); [|apply unlogged_refl]. cbv zeta.
  eapply unlogged_trace; [|apply publish_trace]. update_then updateInterface_events.
Qed.

Lemma applyParseResult_outcome clk r p a :
  let b := on_state (fun st => (nextEventId st).2) a in
  if decide (pr_type r = "netiface") then unlogged false b (applyParseResult config clk r p a)
  else exists e, ev_id e = event_id (u64 (event_seq_ (state_ a) + 1)) /\ ev_source e = p /\
       logged (bool_decide (pr_type r = "wan_attack")) e b (applyParseResult config clk r p a).
Proof.
  intros b. unfold applyParseResult, makeEvent. cbv beta iota zeta delta [nextEventId].
  fold b.
  set (e := (mkEvent _ _ _ _ _ _ _) <| ev_ts := _ |>).
  assert (He : ev_id e <> []) by done.
  change (a <| state_ := (state_ a) <| event_seq_ := u64 (event_seq_ (state_ a) + 1) |> |>) with b.
  destruct (decide (pr_type r = "netiface")) as [Hn|Hn].
  { rewrite Hn. simpl. apply handle_netiface_quiet. }
  match goal with |- exists e0, _ /\ _ /\ logged ?w e0 b ?x => change (logs_one w e b x) end.
  destruct (decide (pr_type r = "wan_attack")) as [Hwa|Hwa].
  { rewrite bool_decide_eq_true_2 by done. rewrite !decide_False by (by rewrite Hwa).
    by apply handle_wan_attack_logs. }
  rewrite bool_decide_eq_false_2 by done.
  case_decide; [by apply handle_netdev_logs|]. case_decide; [by apply handle_dhcp_logs|].
  case_decide; [by apply handle_nettraffic_logs|].
  case_decide; [by apply handle_wan_logs|]. case_decide; [by apply handle_wifi_logs|].
  by apply handle_other_logs.
Qed.

(** What [handleLog] counts. *)
Definition line_counts (r : ParseResult) (s : RuntimeStats) : RuntimeStats :=
  if matched r then
    (if decide (pr_type r = "wan_attack") then recordWANAttack else id)
      (recordSyslogMessage (pr_type r) s)
  else recordParseError (recordSyslogMessage "raw" s).

(** The outcome of a line, from the moment it was counted and its event numbered. *)
Lemma handleLog_outcome clk line p a :
  let r := parse line in
  let a' := handleLog config clk line p a in
  exists b,
    same_events ((nextEventId (state_ a)).2) (state_ b) /\
    sqlite_enabled b = sqlite_enabled a /\ effects b = effects a /\
    if decide (matched r = true /\ pr_type r = "netiface")
    then stats_ b = recordSyslogMessage (pr_type r) (stats_ a) /\ unlogged false b a'
    else
      stats_ b = (if matched r then recordSyslogMessage (pr_type r) (stats_ a)
                  else recordParseError (recordSyslogMessage "raw" (stats_ a))) /\
      exists e, ev_id e = event_id (u64 (event_seq_ (state_ a) + 1)) /\ ev_source e = p /\
        logged (matched r && bool_decide (pr_type r = "wan_attack")) e b a'.
Proof.
  intros r a'. unfold a', handleLog. fold r. destruct (matched r) eqn:Em; simpl negb; cbv iota.
  - exists (on_state (fun st => (nextEventId st).2) (on_stats (recordSyslogMessage (pr_type r)) a)).
    pose proof (applyParseResult_outcome clk r p (on_stats (recordSyslogMessage (pr_type r)) a)) as H.
    cbv zeta in H. split_and!; try done. destruct (decide (pr_type r = "netiface")) as [Hn|Hn].
    + by rewrite decide_True.
    + by rewrite decide_False by tauto.
  - exists (on_stats recordParseError (on_stats (recordSyslogMessage "raw")
      (on_state (fun st => (nextEventId st).2) a))).
    split_and!; try done. rewrite decide_False by (by intros [? _]). split; [done|].
    change (logs_one false (mkEvent (event_id (u64 (event_seq_ (state_ a) + 1))) (clk 0%nat) "raw" Info p line
        (<[("raw" : bytes) := line]> (fields r)))
      (on_stats recordParseError (on_stats (recordSyslogMessage "raw") (on_state (fun st => (nextEventId st).2) a)))
      (handle_raw clk r line p a)).
    unfold handle_raw, makeEvent. cbv beta iota delta [nextEventId].
    logs_event ltac:(apply trace_only_refl) ltac:(apply unlogged_refl).
Qed.

(** C2: a line becomes exactly one event, unless it is interface telemetry, which becomes
    none: the event has the next number of the store and the peer as its source, it is
    pushed into the buffer and, in sqlite mode, stored once in its sanitised form.  Every
    line is counted once under its type, and as an error exactly when nothing matched. *)
Theorem handleLog_one_event clk line p a :
  let r := parse line in
  let a' := handleLog config clk line p a in
  stats_ a' = line_counts r (stats_ a) /\
  if decide (matched r = true /\ pr_type r = "netiface") then
    events_ (state_ a') = events_ (state_ a) /\ inserted (effects a') = inserted (effects a)
  else exists e clk',
    ev_id e = event_id (u64 (event_seq_ (state_ a) + 1)) /\ ev_source e = p /\
    events_ (state_ a') = rb_push (events_ (state_ a)) (stamped clk' e) /\
    inserted (effects a') =
      inserted (effects a) ++ if sqlite_enabled a then [preprocessEventForStorage e] else [].
Proof.
  intros r a'. destruct (handleLog_outcome clk line p a) as (b & [Hev _] & Hsq & Heff & H).
  fold r in H. fold a' in H. simpl in Hev. unfold line_counts.
  destruct (decide (matched r = true /\ pr_type r = "netiface")) as [[Hm Hn]|Hno].
  - destruct H as [Hsb [[Hev' _] Hst _ Hin _]]. rewrite Hm, Hn. rewrite Hn in Hsb.
    split_and!; [by rewrite Hst|congruence|congruence].
  - destruct H as (Hsb & e & Hid & Hsrc & [[clk' Hev'] Hst _ Hin _]). split.
    + rewrite Hst, Hsb. destruct (matched r); [|done]. case_decide as Hw.
      * by rewrite bool_decide_eq_true_2.
      * by rewrite bool_decide_eq_false_2.
    + exists e, clk'. rewrite Hsq in Hin. split_and!; congruence.
Qed.

Lemma handleLog_storage clk line p a :
  sqlite_enabled a = false ->
  sqlite_enabled (handleLog config clk line p a) = false /\
  storage_calls (effects (handleLog config clk line p a)) = storage_calls (effects a).
Proof.
  intros Hs. destruct (handleLog_outcome clk line p a) as (b & _ & Hsq & Heff & H).
  rewrite <- Heff. rewrite Hs in Hsq.
  case_decide; [destruct H as [_ []]|destruct H as (_ & e & _ & _ & [])];
    (split; [congruence|auto]).
Qed.

Lemma cleanup_round_storage clk a :
  sqlite_enabled a = false ->
  sqlite_enabled (cleanup_round config clk a) = false /\
  storage_calls (effects (cleanup_round config clk a)) = storage_calls (effects a).
Proof.
  intros Hs. unfold cleanup_round, persistRecentEvents, persistDevices. cbv zeta.
  set (b := on_state _ a). assert (Hb : sqlite_enabled b = false) by done.
  do 3 (rewrite Hb; cbv iota).
  destruct (publish_trace b "summary_update") as [_ _ Hsq _ Hsto].
  split; [by rewrite Hsq|]. by apply Hsto.
Qed.

(** in memory mode the application never calls storage, whatever it handles. *)
Theorem memory_mode_stores_nothing a a' :
  sqlite_enabled a = false -> rtc app_step a a' ->
  storage_calls (effects a') = storage_calls (effects a).
Proof.
  intros Hs Hsteps. revert Hs. induction Hsteps as [|a b c Hab _ IH]; intros Hs; [done|].
  assert (H : sqlite_enabled b = false /\ storage_calls (effects b) = storage_calls (effects a)).
  { destruct Hab; [by apply handleLog_storage|by apply cleanup_round_storage]. }
  destruct H as [Hb <-]. by apply IH.
Qed.

(** *** Lines that report a device *)

(** The store after a handler that updates [d] and adds an event, as far as the device
    table is concerned. *)
Definition device_reported (clk : clock) (d : DeviceState) (st st' : StateStore) : Prop :=
  devices_by_key_ st' = devices_by_key_ (updateDevice config clk st d) /\
  ip_to_key_ st' = ip_to_key_ (updateDevice config clk st d).

Lemma handler_reports clk clk' d e now t b :
  ev_id e <> [] ->
  device_reported clk d (state_ b)
    (state_ (publishUpdate t (persistEvent e (persistDevices config now
      (on_state (fun st => addEvent clk' st e)
        (on_state (fun st => updateDevice config clk st d) b)))))).
Proof.
  intros He. rewrite (to_state _ _ (publish_trace _ _)).
  match goal with |- context [persistEvent e ?c] =>
    replace (state_ (persistEvent e c)) with (state_ c)
      by (unfold persistEvent; by destruct (sqlite_enabled c)) end.
  rewrite (to_state _ _ (persistDevices_trace _ _)). simpl.
  destruct (addEvent_stamped clk' (updateDevice config clk (state_ b) d) e He) as (_ & _ & H1 & H2).
  by split.
Qed.

Lemma find_reported clk d st st' m i :
  device_reported clk d st st' ->
  findKeyLocked st' m i = findKeyLocked (updateDevice config clk st d) m i.
Proof. intros [H1 H2]. unfold findKeyLocked. by rewrite H1, H2. Qed.

Lemma add_tags_mem t ts l : t ∈ ts \/ t ∈ l -> t ∈ fold_left add_tag ts l.
Proof.
  revert l. induction ts as [|t' ts IH]; intros l H; simpl; [set_solver|]. apply IH.
  unfold add_tag, hasTag. case_bool_decide; set_solver.
Qed.

Lemma merge_fields cur d now :
  let merged := mergeDeviceLocked config cur d now in
  mac merged = setIfNotEmpty (mac cur) (lower (mac d)) /\
  ip merged = setIfNotEmpty (ip cur) (ip d) /\
  hostname merged = setIfNotEmpty (hostname cur) (hostname d) /\
  source merged = setIfNotEmpty (source cur) (source d) /\
  tags merged = fold_left add_tag (tags d) (tags cur).
Proof. done. Qed.

(** What the status of a merged record depends on. *)
Lemma merge_status cur d now :
  let merged := mergeDeviceLocked config cur d now in
  (status d = Offline -> status merged = Offline) /\
  neigh_state merged = setIfNotEmpty (neigh_state cur) (neigh_state d) /\
  (last_seen d <> 0 -> last_seen cur <= last_seen d -> last_seen merged = last_seen d).
Proof.
  unfold mergeDeviceLocked. simpl. split_and!; [by intros ->|done|].
  intros Hd Hle. destruct (last_seen d =? 0) eqn:E0; [blia|].
  destruct ((last_seen cur =? 0) || _) eqn:E; [done|blia].
Qed.

Lemma statusFor_wifi_online d now :
  sane_time (last_seen d) -> sane_time now -> isFailedNeighbour (neigh_state d) = false ->
  source d = "wifi" ->
  now - last_seen d <= device_online_ttl_seconds config * ns_per_s ->
  now - last_seen d <= device_idle_ttl_seconds config * ns_per_s ->
  statusFor config d now = Online.
Proof.
  intros Hs Hn Hf Hsrc Hon Hid. unfold statusFor, seconds. rewrite tsub_sane by done.
  destruct (last_seen d =? 0) eqn:E; [unfold sane_time in *; blia|]. rewrite Hf, Hsrc.
  replace (_ <? now - last_seen d) with false by (symmetry; apply Z.ltb_ge; lia).
  replace (now - last_seen d <=? _) with true by (symmetry; apply Z.leb_le; lia).
  rewrite (bool_decide_eq_true_2 (("wifi" : bytes) = "wifi")) by done. by rewrite !orb_true_r.
Qed.

Lemma device_at_ext st st' m i :
  devices_by_key_ st' = devices_by_key_ st -> ip_to_key_ st' = ip_to_key_ st ->
  device_at st' (keyFor st' m i) = device_at st (keyFor st m i).
Proof. intros H1 H2. unfold device_at, keyFor, findKeyLocked. by rewrite H1, H2. Qed.

Lemma handleLog_netdev_reports clk line p a :
  matched (parse line) = true -> pr_type (parse line) = "netdev" ->
  device_reported (later 2 clk) (netdev_device (parse line) (tsFromFields (clk 1%nat) (parse line)))
    ((nextEventId (state_ a)).2) (state_ (handleLog config clk line p a)).
Proof.
  intros Hm Ht. unfold handleLog. rewrite Hm. simpl negb. cbv iota zeta.
  unfold applyParseResult, makeEvent. cbv beta iota zeta delta [nextEventId]. rewrite decide_True by done.
  unfold handle_netdev. cbv zeta.
  match goal with |- context [on_state (fun st => addEvent ?k st ?e) (on_state _ ?b)] =>
    exact (handler_reports (later 2 clk) k
      (netdev_device (parse line) (tsFromFields (clk 1%nat) (parse line))) e _ _ b ltac:(done)) end.
Qed.

(** C4: device telemetry ends up where it belongs.  After a [NETDEV] line with any fields a
    collector can write was handled, the MAC address and address of the line lead to a
    record that carries them, in lower case, with the host name of the line, the source
    and the tag of this telemetry. *)
Theorem netdev_line_reaches_device clk l p a :
  sizes_ok config -> reachable config (state_ a) ->
  l <> [] -> Forall field_ok l -> quiet ["WAN_ATTACK:" : bytes] (telemetry_text "NETDEV" l) ->
  let m := insert_fields ∅ l in
  let line_mac := lower (default [] (m !! ("mac" : bytes))) in
  let line_ip := default [] (m !! ("ip" : bytes)) in
  line_mac <> [] \/ line_ip <> [] ->
  let st' := state_ (handleLog config clk (telemetry_line "NETDEV" l) p a) in
  exists d, devices_by_key_ st' !! findKeyLocked st' line_mac line_ip = Some d /\
    (informative line_mac -> mac d = line_mac) /\
    (informative line_ip -> ip d = line_ip) /\
    (forall h, m !! ("host" : bytes) = Some h -> informative h -> hostname d = h) /\
    source d = "netdev" /\ ("netdev" : bytes) ∈ tags d.
Proof.
  intros Hs Hr Hl Hok Hq m line_mac line_ip Hne st'.
  destruct (telemetry_netdev l Hl Hok Hq) as (Hm & Ht & Hf). fold m in Hf.
  pose proof (handleLog_netdev_reports clk (telemetry_line "NETDEV" l) p a Hm Ht) as Hrep.
  fold st' in Hrep. set (r := parse (telemetry_line "NETDEV" l)) in *.
  set (d0 := netdev_device r _) in Hrep. set (st := (nextEventId (state_ a)).2) in Hrep.
  assert (Hst : store_ok config st) by (apply nextEventId_ok; by eapply reachable_store_ok).
  assert (Emac : mac d0 = line_mac).
  { unfold d0, netdev_device, fieldOr. simpl. rewrite Hf. unfold netdev_field, line_mac. simpl.
    by destruct (m !! _). }
  assert (Eip : ip d0 = line_ip).
  { unfold d0, netdev_device, fieldOr. simpl. by rewrite Hf. }
  pose proof (updateDevice_merges config (later 2 clk) st d0 Hst ltac:(done)) as Hmerge.
  rewrite Emac, Eip in Hmerge. destruct (Hmerge Hne) as [Hlook _].
  rewrite (find_reported _ _ _ _ _ _ Hrep). destruct Hrep as [-> _].
  destruct (merge_fields (device_at st (keyFor st line_mac line_ip)) d0 (later 2 clk 0%nat))
    as (Fmac & Fip & Fhost & Fsrc & Ftags).
  eexists. split; [exact Hlook|]. rewrite Fmac, Fip, Fhost, Fsrc, Ftags, Emac, Eip. split_and!.
  - intros Hi. unfold line_mac in *. rewrite lower_idemp. by apply setIfNotEmpty_informative.
  - intros Hi. by apply setIfNotEmpty_informative.
  - intros h Hh Hi. replace (hostname d0) with h; [by apply setIfNotEmpty_informative|].
    change (hostname d0) with (fieldOr r "hostname" (fieldOr r "host" [])).
    unfold fieldOr at 1. rewrite Hf. unfold netdev_field. rewrite decide_True by done. by rewrite Hh.
  - done.
  - apply add_tags_mem. left. change (tags d0) with ["netdev" : bytes]. by apply list_elem_of_singleton.
Qed.

(** *** A client that leaves the WiFi *)

Lemma handleLog_wifi_reports clk line p a :
  matched (parse line) = true -> pr_type (parse line) = "wifi" ->
  device_reported (later 2 clk) (wifi_device (parse line) (tsFromFields (clk 1%nat) (parse line)))
    ((nextEventId (state_ a)).2) (state_ (handleLog config clk line p a)).
Proof.
  intros Hm Ht. unfold handleLog. rewrite Hm. simpl negb. cbv iota zeta.
  unfold applyParseResult, makeEvent. cbv beta iota zeta delta [nextEventId].
  rewrite !decide_False by (by rewrite Ht). rewrite decide_True by done.
  unfold handle_wifi. cbv zeta. destruct (wifi_disconnected (parse line));
  match goal with |- context [on_state (fun st => addEvent ?k st ?e) (on_state _ ?b)] =>
    exact (handler_reports (later 2 clk) k
      (wifi_device (parse line) (tsFromFields (clk 1%nat) (parse line))) e _ _ b ltac:(done)) end.
Qed.

(** a client that disconnects from the WiFi is shown as online.  The line is a sign of
    life like any other: the record is marked offline, but the device list and the summary
    recompute the status from the time last seen, which the line has just renewed, so the
    device counts as online for the whole online time that follows. *)
Theorem wifi_disconnect_shows_online clk line p a now :
  let r := parse line in
  let ts := tsFromFields (clk 1%nat) r in
  let client := fieldOr r "mac" [] in
  let old := device_at (state_ a) (keyFor (state_ a) client []) in
  sizes_ok config -> reachable config (state_ a) ->
  matched r = true -> pr_type r = "wifi" -> wifi_disconnected r = true -> client <> [] ->
  isFailedNeighbour (neigh_state old) = false ->
  sane_time ts -> sane_time now -> last_seen old <= ts <= now ->
  now - ts <= device_online_ttl_seconds config * ns_per_s ->
  now - ts <= device_idle_ttl_seconds config * ns_per_s ->
  let st' := state_ (handleLog config clk line p a) in
  exists d, devices_by_key_ st' !! findKeyLocked st' client [] = Some d /\
    status d = Offline /\ statusFor config d now = Online.
Proof.
  intros r ts client old Hs Hr Hm Ht Hdis Hc Hfail Hts Hnow Hseen Hon Hidle st'.
  pose proof (handleLog_wifi_reports clk line p a Hm Ht) as Hrep. fold r ts st' in Hrep.
  set (st := (nextEventId (state_ a)).2) in Hrep.
  assert (Hst : store_ok config st) by (apply nextEventId_ok; by eapply reachable_store_ok).
  assert (Hd : wifi_device r ts = default_DeviceState <| mac := client |> <| source := "wifi" |>
    <| last_seen := ts |> <| tags := ["wifi" : bytes] |> <| status := Offline |>).
  { unfold wifi_device. by rewrite Hdis. }
  rewrite Hd in Hrep. rewrite (find_reported _ _ _ _ _ _ Hrep). destruct Hrep as [-> _].
  match goal with |- context [updateDevice config _ st ?d] =>
    destruct (updateDevice_merges config (later 2 clk) st d Hst ltac:(done) ltac:(by left)) as [Hlook _] end.
  change (mac (_ <| status := Offline |>)) with client in Hlook.
  change (ip (_ <| status := Offline |>)) with ([] : bytes) in Hlook.
  rewrite (device_at_ext (state_ a) st) in Hlook by done. fold old in Hlook.
  match type of Hlook with _ = Some (mergeDeviceLocked config old ?d ?t) =>
    destruct (merge_status old d t) as (Hstat & Hneigh & Hlast);
    destruct (merge_fields old d t) as (_ & _ & _ & Hsrc & _) end.
  eexists. split; [exact Hlook|]. split; [by apply Hstat|].
  assert (Hl : last_seen (wifi_device r ts) = ts) by (by rewrite Hd).
  apply statusFor_wifi_online; rewrite ?Hlast, ?Hneigh, ?Hsrc; try done;
    simpl; unfold sane_time in *; lia.
Qed.

End Handlers.

(** ** Events that were read back *)

(** an event read back from the database carries its stored fields as one text, under a
    key that is not stored: written again, by the next cleanup round, it has no fields. *)
Theorem reloaded_event_loses_fields `{HashOrder} e json :
  ev_fields e = {[ ("fields_json" : bytes) := json ]} ->
  ev_id (preprocessEventForStorage e) = ev_id e /\ ev_fields (preprocessEventForStorage e) = ∅.
Proof.
  intros He. split; [done|]. simpl. rewrite He.
  assert (Hperm : iter_order ({[ ("fields_json" : bytes) := json ]} : gmap bytes bytes)
    = [("fields_json" : bytes, json)]).
  { apply Permutation_singleton_r. by rewrite iter_order_perm, map_to_list_singleton. }
  rewrite Hperm. cbn [clean_fields].
  change (lower (cleanStorageValue "fields_json" 48)) with ("fields_json" : bytes).
  rewrite !decide_False by (done || by intros [?|?]).
  replace (storageFieldAllowed (ev_type e) "fields_json") with false; [done|].
  unfold storageFieldAllowed. by destruct (bool_decide (ev_type e = _)).
Qed.

(** A telemetry time stamp of ten digits can be beyond what a time point holds: its
    nanoseconds overflow the 64-bit count, and here it lands before the epoch. *)
Theorem timestamp_overflow :
  parseUint64 "9223372037" 0 = 9223372037 /\ fromUnixSeconds 9223372037 < 0.
Proof. split; vm_compute; reflexivity. Qed.

(** ** The claims on a small network *)

Definition demo_app (sqlite : bool) : App := mkApp demo_store new_RuntimeStats sqlite true [].

Definition demo_fields : list (bytes * bytes) :=
  [("mac" : bytes, "AA:BB:CC:DD:EE:07" : bytes); ("ip" : bytes, "192.168.1.17" : bytes);
   ("host" : bytes, "printer" : bytes)].

Definition demo_leave : bytes := "hostapd: phy0-ap0: AP-STA-DISCONNECTED aa:bb:cc:dd:ee:01".

Lemma app_keeps_store_invariant_witness :
  store_ok default_Config (state_ (@handleLog default_Config canonical_order demo_clock
    "unparsed" "192.168.1.1" (demo_app true))).
Proof.
  apply (@app_keeps_store_invariant default_Config canonical_order (demo_app true));
    [apply demo_sizes|apply demo_reachable|apply rtc_once, app_line].
Defined.

Lemma memory_mode_stores_nothing_witness :
  storage_calls (effects (@cleanup_round default_Config canonical_order demo_clock (demo_app false))) = [].
Proof.
  apply (@memory_mode_stores_nothing default_Config canonical_order (demo_app false));
    [done|apply rtc_once, app_cleanup].
Defined.

Lemma netdev_line_reaches_device_witness :
  let st' := state_ (@handleLog default_Config canonical_order demo_clock
    (telemetry_line "NETDEV" demo_fields) "192.168.1.1" (demo_app true)) in
  exists d, devices_by_key_ st' !! findKeyLocked st' "aa:bb:cc:dd:ee:07" "192.168.1.17" = Some d /\
            source d = "netdev".
Proof.
  intros st'.
  destruct (@netdev_line_reaches_device default_Config canonical_order demo_clock demo_fields
    "192.168.1.1" (demo_app true) demo_sizes demo_reachable) as (d & Hd & _ & _ & _ & Hs & _).
  - done.
  - apply (bool_decide_unpack _). vm_compute. exact I.
  - apply (bool_decide_unpack _). vm_compute. exact I.
  - by left.
  - exists d. split; [exact Hd|exact Hs].
Defined.

Lemma wifi_disconnect_shows_online_witness :
  let st' := state_ (@handleLog default_Config canonical_order demo_clock demo_leave "192.168.1.1"
    (demo_app true)) in
  exists d, devices_by_key_ st' !! findKeyLocked st' "aa:bb:cc:dd:ee:01" [] = Some d /\
    status d = Offline /\ statusFor default_Config d (demo_time + 60 * ns_per_s) = Online.
Proof.
  apply (@wifi_disconnect_shows_online default_Config canonical_order demo_clock demo_leave
    "192.168.1.1" (demo_app true) (demo_time + 60 * ns_per_s) demo_sizes demo_reachable);
    vm_compute; try done; split; done.
Defined.

Lemma reloaded_event_loses_fields_witness :
  ev_fields (@preprocessEventForStorage canonical_order
    (mkEvent "evt-1" demo_time "dhcp" Info "192.168.1.1" "lease"
      {[ ("fields_json" : bytes) := ("{}" : bytes) ]})) = ∅.
Proof.
  exact (proj2 (@reloaded_event_loses_fields canonical_order
    (mkEvent "evt-1" demo_time "dhcp" Info "192.168.1.1" "lease"
      {[ ("fields_json" : bytes) := ("{}" : bytes) ]}) "{}" eq_refl)).
Defined.
