(* ===== verification/CleanupLoop.v ===== *)
(** * The cleanup thread of src/src/app.cpp

    [App::runCleanupLoop] as a function of what its reads of the flag [running_] return, in
    order: when it sleeps, when it runs a round ([App.cleanup_round]) and when it ends. *)

From S2P Require Import Prelude.

Section Loop.
Context (running : nat -> bool).   (* what the n-th read of the flag returns *)

(** [for (i = 0; i < 60 && running; ++i) sleep]: the reads and the seconds of sleep so far,
    before and after. *)
Fixpoint sleep_loop (n : nat) (reads slept : nat) : nat * nat :=
  match n with
  | O => (reads, slept)
  | S n => if running reads then sleep_loop n (S reads) (S slept) else (S reads, slept)
  end.

(** The seconds of sleep before each round, and all of them; nothing when [fuel] runs out. *)
Fixpoint runCleanupLoop (fuel reads slept : nat) : option (list nat * nat) :=
  match fuel with
  | O => None
  | S fuel =>
      if running reads then
        let '(reads, slept) := sleep_loop 60 (S reads) slept in
        if running reads then
          '(rounds, total) ← runCleanupLoop fuel (S reads) slept; Some (slept :: rounds, total)
        else Some ([], slept)
      else Some ([], slept)
  end.

(** The flag is set for [n] reads from now on, and cleared for good after them. *)
Definition cleared_after (n reads : nat) : Prop := forall k, running (reads + k)%nat = (k <? n)%nat.

Lemma cleared_next n reads m :
  cleared_after n reads -> (m <= n)%nat -> cleared_after (n - m) (reads + m).
Proof.
  intros H Hm k. rewrite <- Nat.add_assoc, H. destruct (Nat.ltb_spec (m + k) n), (Nat.ltb_spec k (n - m)); lia || done.
Qed.

Lemma cleared_now n reads : cleared_after n reads -> running reads = (0 <? n)%nat.
Proof. intros H. rewrite <- (H 0%nat). by rewrite Nat.add_0_r. Qed.

Lemma cleared_S n reads : cleared_after (S n) reads -> cleared_after n (S reads).
Proof. intros H. apply (cleared_next _ _ 1) in H; [|lia]. by rewrite Nat.add_1_r, Nat.sub_1_r in H. Qed.

Lemma sleep_loop_cleared m n reads slept :
  cleared_after n reads ->
  sleep_loop m reads slept = if (m <=? n)%nat then ((reads + m)%nat, (slept + m)%nat) else (S (reads + n), (slept + n)%nat).
Proof.
  revert n reads slept. induction m as [|m IH]; intros n reads slept H; [simpl; f_equal; lia|].
  cbn [sleep_loop]. rewrite (cleared_now _ _ H). destruct n as [|n].
  - simpl. f_equal; lia.
  - simpl (0 <? S n)%nat. cbv iota. rewrite (IH n) by (by apply cleared_S). simpl (S m <=? S n)%nat.
    destruct (m <=? n)%nat; f_equal; lia.
Qed.

(** The rounds of [q] full minutes. *)
Definition minutes (slept q : nat) : list nat := (fun i => slept + 60 * i)%nat <$> seq 1 q.

Lemma minutes_S slept q : minutes slept (S q) = (slept + 60)%nat :: minutes (slept + 60) q.
Proof.
  unfold minutes. rewrite <- cons_seq, fmap_cons. f_equal. rewrite <- (fmap_S_seq 1 q), <- list_fmap_compose.
  apply list_fmap_ext. intros i x _. simpl. lia.
Qed.

Lemma cleanup_loop_spec q r reads slept fuel :
  (r < 62)%nat -> (q < fuel)%nat -> cleared_after (62 * q + r) reads ->
  runCleanupLoop fuel reads slept = Some (minutes slept q, (slept + 60 * q + (r - 1))%nat).
Proof.
  intros Hr. revert reads slept fuel. induction q as [|q IH]; intros reads slept fuel Hfuel H;
    (destruct fuel as [|fuel]; [lia|]); cbn [runCleanupLoop]; rewrite (cleared_now _ _ H).
  - rewrite Nat.mul_0_r, Nat.add_0_l in *. destruct r as [|r]; [simpl; do 2 f_equal; lia|].
    simpl (0 <? S r)%nat. cbv iota. apply cleared_S in H. rewrite (sleep_loop_cleared 60 r) by done.
    destruct (60 <=? r)%nat eqn:E; [apply Nat.leb_le in E|apply Nat.leb_gt in E].
    + assert (r = 60%nat) as -> by lia. rewrite (cleared_now (60 - 60)%nat) by (by apply cleared_next). simpl. do 2 f_equal. lia.
    + assert (Hf : running (S (S reads + r)) = false).
      { replace (S (S reads + r)) with (S reads + S r)%nat by lia. rewrite H. apply Nat.ltb_ge. lia. }
      rewrite Hf. simpl. do 2 f_equal. lia.
  - replace (62 * S q + r)%nat with (S (61 + (62 * q + r))) in * by lia. simpl (0 <? S _)%nat. cbv iota.
    apply cleared_S in H. rewrite (sleep_loop_cleared 60 (61 + (62 * q + r))) by done.
    rewrite (proj2 (Nat.leb_le _ _)) by lia. rewrite (cleared_now (61 + (62 * q + r) - 60)) by (apply cleared_next; [done|lia]).
    rewrite (proj2 (Nat.ltb_lt _ _)) by lia. rewrite IH.
    + rewrite minutes_S. simpl. do 2 f_equal. lia.
    + lia.
    + replace (S (S reads + 60)) with (S reads + 61)%nat by lia.
      replace (62 * q + r)%nat with (61 + (62 * q + r) - 61)%nat by lia. apply cleared_next; [done|lia].
Qed.

(** as long as the flag is set a round runs after every sixty seconds of sleep; once it is
    cleared, after [n] reads, the loop sleeps no second and runs no round more: [fuel] for
    the full minutes is enough for it to end. *)
Theorem cleanup_loop_paces n :
  cleared_after n 0 ->
  runCleanupLoop (S (n / 62)) 0 0 =
    Some ((fun i => 60 * i)%nat <$> seq 1 (n / 62), (60 * (n / 62) + (n mod 62 - 1))%nat).
Proof.
  intros H. pose proof (Nat.div_mod_eq n 62) as E. rewrite E in H.
  rewrite (cleanup_loop_spec (n / 62) (n mod 62)); [done| |lia|done]. apply Nat.mod_upper_bound. lia.
Qed.

End Loop.

Lemma cleanup_loop_paces_witness :
  runCleanupLoop (fun k => (k <? 130)%nat) 3 0 0 = Some ([60; 120]%nat, 125%nat).
Proof. apply (cleanup_loop_paces (fun k => (k <? 130)%nat) 130). intros k. done. Defined.
