(* ===== verification/Prometheus.v ===== *)
(** * src/src/prometheus_exporter.cpp: the metrics text

    The text of [renderPrometheusMetrics], with its label escaping, the hashed device labels
    and the printing of rates with three decimals.  The uptime is an argument (a monotonic
    clock), and so is the time at which the store is read. *)

From S2P Require Import Prelude Utils RingBuffer Double DoubleText Types Config RuntimeStats StateStore.

Definition labelEscape_char (ch : ascii) : bytes :=
  if bool_decide (ch = c_backslash) then [c_backslash; c_backslash]
  else if bool_decide (ch = c_dquote) then [c_backslash; c_dquote]
  else if bool_decide (ch = c_nl) then [c_backslash; "n"%char]
  else [ch].

Definition labelEscape (value : bytes) : bytes := value ≫= labelEscape_char.

(** [out << s << '\n'] *)
Definition line_out (s : bytes) : bytes := s ++ [c_nl].

Definition help_line (name help : bytes) : bytes := ("# HELP " : bytes) ++ name ++ c_space :: help.
Definition type_line (name type : bytes) : bytes := ("# TYPE " : bytes) ++ name ++ c_space :: type.

(** ** Device labels *)

Definition fnv1a (value : bytes) : Z :=
  fold_left (fun hash ch => u64 (Z.lxor hash (code ch) * 1099511628211)) value 1469598103934665603.

(** [setw(16)], [setfill('0')], [hex]: sixteen digits, the most significant first. *)
Fixpoint hex_digits (n : nat) (z : Z) (acc : bytes) : bytes :=
  match n with
  | O => acc
  | S n' => hex_digits n' (z / 16) (hexdigit (z mod 16) :: acc)
  end.

Definition fnv1aHex (value : bytes) : bytes := hex_digits 16 (fnv1a value) [].

Definition deviceLabel (config : Config) (device : DeviceState) : bytes :=
  if decide (prometheus_device_label_mode config = "raw_mac" /\ mac device <> []) then mac device
  else
    let stable_id := if decide (mac device <> []) then mac device else ip device in
    if decide (stable_id = []) then "unknown" else fnv1aHex stable_id.

(** ** Numbers *)

Definition pad3 (n : Z) : bytes :=
  [chr (48 + n / 100 mod 10); chr (48 + n / 10 mod 10); chr (48 + n mod 10)].

(** [std::fixed] with [precision(3)]: the exact value rounded to thousandths. *)
Definition d_fixed3 (x : double) : bytes :=
  let sign (s : bool) : bytes := if s then "-" else [] in
  match x with
  | SpecFloat.S754_zero s => sign s ++ ("0.000" : bytes)
  | SpecFloat.S754_infinity s => sign s ++ ("inf" : bytes)
  | SpecFloat.S754_nan => "nan"
  | SpecFloat.S754_finite s m e =>
      let thousandths :=
        if 0 <=? e then Z.pos m * 2 ^ e * 1000
        else round_half_even (Z.pos m * 1000) (2 ^ (- e)) in
      sign s ++ to_string (thousandths / 1000) ++ "."%char :: pad3 (thousandths mod 1000)
  end.

(** ** The text *)

(** [name{key="value"}] with the value escaped. *)
Definition label (key value : bytes) : bytes :=
  key ++ "="%char :: c_dquote :: labelEscape value ++ [c_dquote].

Definition sample (name : bytes) (labels : list bytes) (value : bytes) : bytes :=
  name ++ (if decide (labels = []) then [] else "{"%char :: join ","%char labels ++ ["}"%char])
  ++ c_space :: value.

Section Render.
Context (config : Config) {HO : HashOrder}.

Definition metric (name help type : bytes) (samples : list bytes) : list bytes :=
  [help_line name help; type_line name type] ++ samples.

Definition device_sample (name : bytes) (rate : DeviceState -> double) (device : DeviceState) : bytes :=
  sample name [label "device" (deviceLabel config device); label "status" (status_toString (status device))]
    (d_fixed3 (rate device)).

(** The lines in the order they are written, from what the calls into the store and the
    statistics returned. *)
Definition metrics_lines (s : Summary) (runtime : RuntimeStats) (uptime buffer_size : Z)
    (ds : list DeviceState) : list bytes :=
  metric "openwrt_netmon_up" "Whether the netmon service is running." "gauge"
    [sample "openwrt_netmon_up" [] "1"]
  ++ metric "openwrt_netmon_uptime_seconds" "Netmon service uptime in seconds." "counter"
    [sample "openwrt_netmon_uptime_seconds" [] (to_string uptime)]
  ++ metric "openwrt_netmon_syslog_messages_total" "Syslog messages received by parsed type." "counter"
    (sample "openwrt_netmon_syslog_messages_total" [label "type" "all"]
       (to_string (syslog_messages_total_ runtime))
     :: ((fun entry => sample "openwrt_netmon_syslog_messages_total" [label "type" entry.1] (to_string entry.2))
         <$> map_in_order (syslog_messages_by_type_ runtime)))
  ++ metric "openwrt_netmon_parse_errors_total"
       "Syslog messages that could not be parsed into a known event." "counter"
    [sample "openwrt_netmon_parse_errors_total" [] (to_string (parse_errors_total_ runtime))]
  ++ metric "openwrt_netmon_devices" "Number of devices by current status." "gauge"
    [sample "openwrt_netmon_devices" [label "status" "online"] (to_string (active_devices s));
     sample "openwrt_netmon_devices" [label "status" "idle"] (to_string (idle_devices s));
     sample "openwrt_netmon_devices" [label "status" "offline"] (to_string (offline_devices s));
     sample "openwrt_netmon_devices" [label "status" "unknown"] (to_string (unknown_devices s))]
  ++ metric "openwrt_netmon_rx_rate_bps" "Current aggregate receive rate in bits per second." "gauge"
    [sample "openwrt_netmon_rx_rate_bps" [] (d_fixed3 (sm_rx_rate_bps s))]
  ++ metric "openwrt_netmon_tx_rate_bps" "Current aggregate transmit rate in bits per second." "gauge"
    [sample "openwrt_netmon_tx_rate_bps" [] (d_fixed3 (sm_tx_rate_bps s))]
  ++ metric "openwrt_netmon_wan_attacks_total" "WAN attack or firewall drop events observed." "counter"
    [sample "openwrt_netmon_wan_attacks_total" [] (to_string (wan_attacks_total_ runtime))]
  ++ metric "openwrt_netmon_wan_attacks_5m"
       "WAN attack or firewall drop events in the last five minutes." "gauge"
    [sample "openwrt_netmon_wan_attacks_5m" [] (to_string (wan_attack_5m s))]
  ++ metric "openwrt_netmon_event_buffer_size" "Current in-memory event buffer size." "gauge"
    [sample "openwrt_netmon_event_buffer_size" [] (to_string buffer_size)]
  ++ (if prometheus_include_device_labels config then
        metric "openwrt_netmon_device_rx_rate_bps" "Current per-device receive rate in bits per second." "gauge"
          (device_sample "openwrt_netmon_device_rx_rate_bps" rx_rate_bps <$> ds)
        ++ metric "openwrt_netmon_device_tx_rate_bps" "Current per-device transmit rate in bits per second." "gauge"
          (device_sample "openwrt_netmon_device_tx_rate_bps" tx_rate_bps <$> ds)
      else []).

(** [summary()], [snapshot()], [eventBufferSize()] and [devices()] are separate calls, each
    under its own lock, between which other threads may change the state: the calls read
    [st1], [(r1, r2)], [st2] and [st3], the first and the last at the times [now1] and [now2]. *)
Definition renderPrometheusMetrics (now1 now2 : time) (st1 st2 st3 : StateStore)
    (r1 r2 : RuntimeStats) (uptime : Z) : bytes :=
  metrics_lines (summary config now1 st1) (stats_snapshot r1 r2) uptime (eventBufferSize st2)
    (devices config now2 st3) ≫= line_out.

End Render.

(** ** The scraper's side *)

(** A quoted label value is read up to the first quote that no backslash protects. *)
Fixpoint read_quoted (t : bytes) : option (bytes * bytes) :=
  match t with
  | [] => None
  | c :: t1 =>
      if bool_decide (c = c_dquote) then Some ([], t1)
      else if bool_decide (c = c_backslash) then
        match t1 with
        | [] => None
        | e :: t2 =>
            if bool_decide (e = "n"%char) then prod_map (cons c_nl) id <$> read_quoted t2
            else if bool_decide (e = c_backslash \/ e = c_dquote) then
              prod_map (cons e) id <$> read_quoted t2
            else None
        end
      else prod_map (cons c) id <$> read_quoted t1
  end.

(** [t] is read as the value [v] and leaves [rest]. *)
Definition reads (t v rest : bytes) : Prop := read_quoted t = Some (v, rest).

Definition is_hex (c : ascii) : Prop := 48 <= code c <= 57 \/ 97 <= code c <= 102.

Definition hash_digits_value (s : bytes) : Z :=
  fold_left (fun n c => n * 16 + (if code c <? 97 then code c - 48 else code c - 87)) s 0.

(** A text without a line break. *)
Definition plain (l : bytes) : Prop := c_nl ∉ l.

(** A line of the text is a comment or a sample of this service, and is one line. *)
Definition line_ok (l : bytes) : Prop :=
  plain l /\ (("# " : bytes) `prefix_of` l \/ ("openwrt_netmon_" : bytes) `prefix_of` l).

(** ** Labels *)

Lemma read_quoted_char c t :
  read_quoted (labelEscape_char c ++ t) = prod_map (cons c) id <$> read_quoted t.
Proof.
  unfold labelEscape_char. repeat case_bool_decide; subst; try done.
  cbn [app read_quoted]. by rewrite !bool_decide_false by done.
Qed.

Lemma read_quoted_escape v t :
  read_quoted (labelEscape v ++ c_dquote :: t) = Some (v, t).
Proof.
  induction v as [|c v IH]; [done|].
  change (labelEscape (c :: v)) with (labelEscape_char c ++ labelEscape v).
  by rewrite <- app_assoc, read_quoted_char, IH.
Qed.

Lemma labelEscape_no_newline v : c_nl ∉ labelEscape v.
Proof.
  unfold labelEscape. intros (c & Hc & _)%list_elem_of_bind. revert Hc.
  unfold labelEscape_char. repeat case_bool_decide; subst; rewrite ?elem_of_cons; intros Hc; 
    destruct_or?; try done; try set_solver.
Qed.

(** whatever bytes a device label holds, the sample written for a device reads back as
    its label and its status, each up to the quote that closes it, followed by the rate: no
    label value can end its own quotes or add a label. *)
Theorem device_sample_reads_back config name rate d :
  exists t1 t2,
    device_sample config name rate d =
      name ++ ("{device=" : bytes) ++ c_dquote :: t1 /\
    reads t1 (deviceLabel config d) (",status=" ++ c_dquote :: t2) /\
    reads t2 (status_toString (status d)) (("} " : bytes) ++ d_fixed3 (rate d)).
Proof.
  set (l1 := deviceLabel config d). set (l2 := status_toString (status d)). set (v := d_fixed3 (rate d)).
  exists (labelEscape l1 ++ c_dquote :: (",status=" ++ c_dquote :: labelEscape l2 ++ c_dquote :: ("} " : bytes) ++ v)),
    (labelEscape l2 ++ c_dquote :: ("} " : bytes) ++ v).
  split; [|split; apply read_quoted_escape].
  unfold device_sample, sample, label. rewrite decide_False by done. fold l1 l2 v.
  clearbody l1 l2 v. cbn -[labelEscape c_dquote c_space].
  repeat (rewrite <- app_assoc; cbn -[labelEscape c_dquote c_space]). reflexivity.
Qed.

(** ** Hashed labels *)

Lemma hex_digit_ok n :
  0 <= n < 16 ->
  is_hex (hexdigit n) /\
  (if code (hexdigit n) <? 97 then code (hexdigit n) - 48 else code (hexdigit n) - 87) = n.
Proof.
  intros Hn. unfold hexdigit, is_hex. destruct (n <? 10) eqn:E; b2p; rewrite code_chr by lia.
  - rewrite (proj2 (Z.ltb_lt _ _)) by lia. lia.
  - rewrite (proj2 (Z.ltb_ge _ _)) by lia. lia.
Qed.

Lemma hash_digits_value_snoc s c :
  hash_digits_value (s ++ [c]) = hash_digits_value s * 16 + (if code c <? 97 then code c - 48 else code c - 87).
Proof. unfold hash_digits_value. by rewrite fold_left_app. Qed.

Lemma hex_digits_spec n z acc :
  0 <= z ->
  exists ds, hex_digits n z acc = ds ++ acc /\ length ds = n /\ Forall is_hex ds /\
    hash_digits_value ds = z mod 16 ^ Z.of_nat n.
Proof.
  revert z acc. induction n as [|n IH]; intros z acc Hz.
  { exists []. by rewrite Z.mod_1_r. }
  pose proof (Z.mod_pos_bound z 16 eq_refl) as Hm. destruct (hex_digit_ok _ Hm) as [Hh Hv].
  destruct (IH (z / 16) (hexdigit (z mod 16) :: acc)) as (ds & E & Hl & Hf & Hval).
  { by apply Z.div_pos. }
  exists (ds ++ [hexdigit (z mod 16)]). cbn [hex_digits]. rewrite E, <- app_assoc.
  split; [done|]. split; [rewrite length_app; simpl; lia|]. split; [by apply Forall_app; auto|].
  rewrite hash_digits_value_snoc, Hv, Hval, Nat2Z.inj_succ, Z.pow_succ_r by lia.
  rewrite Z.rem_mul_r by lia. lia.
Qed.

Lemma fnv1a_range value : 0 <= fnv1a value < two64.
Proof.
  unfold fnv1a. assert (H : 0 <= 1469598103934665603 < two64) by (by vm_compute).
  revert H. generalize 1469598103934665603. induction value as [|c value IH]; intros z H; [done|].
  apply IH. unfold u64. by apply Z.mod_pos_bound.
Qed.

Lemma fnv1aHex_spec value :
  length (fnv1aHex value) = 16%nat /\ Forall is_hex (fnv1aHex value) /\
  hash_digits_value (fnv1aHex value) = fnv1a value.
Proof.
  pose proof (fnv1a_range value) as H. unfold fnv1aHex.
  destruct (hex_digits_spec 16 (fnv1a value) []) as (ds & -> & Hl & Hf & Hv); [lia|].
  rewrite app_nil_r. split; [done|]. split; [done|]. rewrite Hv. apply Z.mod_small. done.
Qed.

(** unless the configuration asks for raw MAC addresses, a device label shows no address:
    it is the word [unknown] for a device without identifiers and otherwise the sixteen
    hexadecimal digits of the hash of its MAC address, or of its IP address if it has no MAC
    address. *)
Theorem deviceLabel_hides_address config d :
  prometheus_device_label_mode config <> "raw_mac" ->
  (mac d = [] /\ ip d = [] /\ deviceLabel config d = "unknown") \/
  (length (deviceLabel config d) = 16%nat /\ Forall is_hex (deviceLabel config d) /\
   hash_digits_value (deviceLabel config d) = fnv1a (if decide (mac d = []) then ip d else mac d)).
Proof.
  intros Hmode. unfold deviceLabel. rewrite decide_False by (by intros [? _]).
  repeat case_decide; try done; (by left) || (right; apply fnv1aHex_spec).
Qed.

Lemma deviceLabel_hides_address_witness :
  prometheus_device_label_mode default_Config <> "raw_mac" /\
  length (deviceLabel default_Config (default_DeviceState <| mac := "aa:bb:cc:dd:ee:ff" |>)) = 16%nat.
Proof.
  assert (H : prometheus_device_label_mode default_Config <> "raw_mac") by (by vm_compute).
  split; [exact H|].
  destruct (deviceLabel_hides_address default_Config
    (default_DeviceState <| mac := "aa:bb:cc:dd:ee:ff" |>) H) as [(E & _)|(E & _)].
  - vm_compute in E. discriminate.
  - exact E.
Defined.

(** ** Lines *)

(** Solves [plain l] for a literal. *)
Ltac plain_lit := unfold plain; apply (bool_decide_eq_false_1 (c_nl ∈ _)); by vm_compute.

Lemma plain_app a b : plain a -> plain b -> plain (a ++ b).
Proof. unfold plain. set_solver. Qed.

Lemma plain_cons c b : c <> c_nl -> plain b -> plain (c :: b).
Proof. unfold plain. set_solver. Qed.

Lemma plain_nil : plain [].
Proof. unfold plain. set_solver. Qed.

Lemma digits_plain s : all_digits s -> plain s.
Proof.
  intros H Hin. unfold all_digits in H. rewrite Forall_forall in H. by specialize (H _ Hin).
Qed.

Lemma dec_aux_digits fuel n acc : all_digits acc -> all_digits (dec_aux fuel n acc).
Proof.
  revert n acc. induction fuel as [|fuel IH]; intros n acc H; [done|]. cbn [dec_aux].
  assert (all_digits (chr (48 + n mod 10) :: acc)).
  { constructor; [|done]. apply isdigit_chr. by apply Z.mod_pos_bound. }
  destruct (n / 10 =? 0); [done|by apply IH].
Qed.

Lemma to_string_plain n : plain (to_string n).
Proof. apply digits_plain, dec_aux_digits. by constructor. Qed.

Lemma pad3_plain n : plain (pad3 n).
Proof.
  apply digits_plain. repeat constructor; apply isdigit_chr; by apply Z.mod_pos_bound.
Qed.

Lemma labelEscape_plain v : plain (labelEscape v).
Proof. apply labelEscape_no_newline. Qed.

Lemma sign_plain (s : bool) : plain (if s then "-" else []).
Proof. destruct s; plain_lit. Qed.

Create HintDb metrics.
#[export] Hint Resolve plain_app plain_cons plain_nil sign_plain to_string_plain pad3_plain labelEscape_plain : metrics.
#[export] Hint Extern 3 (plain _) => plain_lit : metrics.
#[export] Hint Extern 3 (_ <> c_nl) => discriminate : metrics.

Lemma d_fixed3_plain x : plain (d_fixed3 x).
Proof. destruct x; cbn [d_fixed3]; auto 6 with metrics. Qed.

Lemma label_plain key value : plain key -> plain (label key value).
Proof. unfold label. auto 8 with metrics. Qed.

Lemma join_plain d ls : d <> c_nl -> Forall plain ls -> plain (join d ls).
Proof.
  intros Hd H. induction H as [|l ls Hl Hls IH]; [plain_lit|].
  destruct ls as [|l' ls]; [done|]. rewrite join_cons by done. auto with metrics.
Qed.

Lemma sample_ok name labels value :
  ("openwrt_netmon_" : bytes) `prefix_of` name -> plain name -> Forall plain labels -> plain value ->
  line_ok (sample name labels value).
Proof.
  intros Hp Hn Hl Hv. unfold sample. split; [|right; by apply prefix_app_r].
  apply plain_app; [done|]. apply plain_app; [|by auto with metrics].
  case_decide; [plain_lit|]. pose proof (join_plain ","%char _ ltac:(done) Hl). auto with metrics.
Qed.

Lemma metric_ok name help type samples :
  plain name -> plain help -> plain type -> Forall line_ok samples ->
  Forall line_ok (metric name help type samples).
Proof.
  intros Hn Hh Ht Hs. unfold metric. apply Forall_app. split; [|done].
  unfold help_line, type_line.
  repeat constructor; try (apply prefix_app_r; apply (bool_decide_unpack _); by vm_compute); auto 6 with metrics.
Qed.

Lemma device_sample_ok config name rate d :
  ("openwrt_netmon_" : bytes) `prefix_of` name -> plain name -> line_ok (device_sample config name rate d).
Proof.
  intros Hp Hn. apply sample_ok; auto using d_fixed3_plain.
  repeat constructor; apply label_plain; plain_lit.
Qed.

Lemma simple_sample_ok rest labels value :
  plain rest -> Forall plain labels -> plain value ->
  line_ok (sample (("openwrt_netmon_" : bytes) ++ rest) labels value).
Proof.
  intros. apply sample_ok; [by apply prefix_app_r|apply plain_app; [plain_lit|done]|done|done].
Qed.

(** A sample whose name, up to computation, starts with the prefix of this service. *)
Ltac sample_line :=
  match goal with
  | |- line_ok (sample ?n ?ls ?v) =>
      let rest := eval vm_compute in (drop 15 n) in
      apply (simple_sample_ok rest ls v);
      [plain_lit
      |repeat constructor; apply label_plain; plain_lit
      |first [apply to_string_plain|apply d_fixed3_plain|plain_lit]]
  end.

(** Every line of the text is one comment or one sample. *)
Lemma metrics_lines_ok config s runtime uptime buffer ds :
  Forall line_ok (metrics_lines config s runtime uptime buffer ds).
Proof.
  unfold metrics_lines.
  repeat (apply Forall_app_2); try (apply metric_ok; [plain_lit|plain_lit|plain_lit|]).
  all: try (repeat apply Forall_cons_2; try apply Forall_nil_2; sample_line).
  - apply Forall_cons_2; [sample_line|]. apply Forall_fmap, Forall_true. intros [k v].
    cbn [compose fst snd]. sample_line.
  - destruct (prometheus_include_device_labels config); [|constructor].
    apply Forall_app_2; (apply metric_ok; [plain_lit|plain_lit|plain_lit|]);
      apply Forall_fmap, Forall_true; intros d;
      (apply device_sample_ok; [apply (bool_decide_unpack _); by vm_compute|plain_lit]).
Qed.

Lemma lines_out_join ls : ls ≫= line_out = join c_nl (ls ++ [[]]).
Proof.
  induction ls as [|l ls IH]; [done|].
  change ((l :: ls) ++ [[]]) with (l :: ls ++ [[]]). rewrite join_cons by by destruct ls.
  cbn [mbind list_bind]. rewrite IH. unfold line_out. by rewrite <- app_assoc.
Qed.

(** C40: the text of the metrics, cut at its line breaks, is exactly the list of its lines and
    a last empty piece, whatever the store, the statistics and the device names hold: each
    line is one comment or one sample of this service, so a name with a line break in it
    cannot add a line. *)
Theorem metrics_text_lines {HO : HashOrder} config now1 now2 st1 st2 st3 r1 r2 uptime :
  exists lines,
    split (renderPrometheusMetrics config now1 now2 st1 st2 st3 r1 r2 uptime) c_nl = lines ++ [[]] /\
    lines = metrics_lines config (summary config now1 st1) (stats_snapshot r1 r2) uptime
      (eventBufferSize st2) (devices config now2 st3) /\
    Forall line_ok lines.
Proof.
  eexists. split; [|split; [reflexivity|apply metrics_lines_ok]].
  unfold renderPrometheusMetrics. rewrite lines_out_join. apply split_of_join; [by destruct metrics_lines|].
  apply Forall_app_2; [|repeat constructor; set_solver].
  eapply Forall_impl; [apply metrics_lines_ok|]. by intros l [Hl _].
Qed.
