(* ===== verification/Sqlite.v ===== *)
(** * src/src/sqlite_store.cpp: the persistent store

    The conversions between the records of the program and the rows of the database, and
    every operation of the store as the sequence of calls it makes into libsqlite3.  The
    library is loaded at run time and is a parameter, [SqliteApi]: a statement may fail to
    prepare, a step may fail, and the rows of a query are what the library returns.  What the
    SQL texts of the source mean is written out as functions on [Tables]; [SqliteSpec] is the
    promise that the library does what the SQL says and that nothing fails. *)

From S2P Require Import Prelude Utils RingBuffer Double Types Config StateStore.

(** ** Conversions *)

Definition unixSeconds (tp : time) : Z := if tp =? 0 then 0 else Z.quot tp ns_per_s.

Definition timeFromColumn (seconds : Z) : time := if seconds <=? 0 then epoch else fromUnixSeconds seconds.

Definition parseStatus (value : bytes) : DeviceStatus :=
  let normalized := lower value in
  if decide (normalized = "online") then Online
  else if decide (normalized = "idle") then Idle
  else if decide (normalized = "offline") then Offline
  else Unknown.

Definition parseSeverity (value : bytes) : EventSeverity :=
  let normalized := lower value in
  if decide (normalized = "warning") then Warning
  else if decide (normalized = "critical") then Critical
  else Info.

Definition c_comma : ascii := ",".

Definition tagsText (tags : list bytes) : bytes := join c_comma tags.

Definition parseTags (value : bytes) : list bytes :=
  List.filter (fun item => negb (bool_decide (item = []))) (trim <$> split value c_comma).

(** The keys in order, each followed by its value, both as JSON strings. *)
Definition fieldsJson (fields : gmap bytes bytes) : bytes :=
  "{"%char :: join c_comma ((fun entry => jsonQuote entry.1 ++ ":"%char :: jsonQuote entry.2)
                              <$> map_in_order fields) ++ ["}"%char].

Definition deviceKey (device : DeviceState) : bytes :=
  let m := lower (mac device) in
  if decide (m <> []) then mac_key m
  else if decide (ip device <> []) then ip_key (ip device)
  else [].

(** ** Rows *)

Record DeviceRow := mkDeviceRow {
  dr_mac : bytes;
  dr_ip : bytes;
  dr_hostname : bytes;
  dr_interface_name : bytes;
  dr_source : bytes;
  dr_neigh_state : bytes;
  dr_status : bytes;
  dr_first_seen : Z;
  dr_last_seen : Z;
  dr_last_dhcp : Z;
  dr_last_traffic : Z;
  dr_last_rate : Z;
  dr_rx_bytes_total : Z;
  dr_tx_bytes_total : Z;
  dr_rx_rate_bps : double;
  dr_tx_rate_bps : double;
  dr_tags : bytes;
  dr_updated_at : Z
}.

Record TrafficRow := mkTrafficRow {
  tr_mac : bytes;
  tr_ip : bytes;
  tr_ts : Z;
  tr_rx_bytes : Z;
  tr_tx_bytes : Z
}.

Record EventRow := mkEventRow {
  er_id : bytes;
  er_ts : Z;
  er_type : bytes;
  er_severity : bytes;
  er_source : bytes;
  er_message : bytes;
  er_fields_json : bytes
}.

Record AttackRow := mkAttackRow {
  ar_ts : Z;
  ar_in_if : bytes;
  ar_src_ip : bytes;
  ar_dst_ip : bytes;
  ar_src_port : bytes;
  ar_dst_port : bytes;
  ar_proto : bytes;
  ar_length : bytes;
  ar_raw : bytes
}.

(** A row of the query of [deviceTrafficTotals]. *)
Record TotalsRow := mkTotalsRow {
  sr_mac : bytes;
  sr_ip : bytes;
  sr_hostname : bytes;
  sr_ts : Z;
  sr_rx_bytes : Z;
  sr_tx_bytes : Z
}.

(** [bindText] passes [value.c_str()] with length -1: the text up to the first NUL. *)
Definition c_str (value : bytes) : bytes := take_while (fun ch => negb (bool_decide (ch = c_nul))) value.

(** A REAL column: SQLite has no NaN (it stores NULL, which reads as 0) and no negative zero. *)
Definition sql_real (x : double) : double :=
  match x with
  | SpecFloat.S754_nan => d_zero
  | SpecFloat.S754_zero _ => d_zero
  | _ => x
  end.

Definition device_row (now : time) (device : DeviceState) : DeviceRow :=
  mkDeviceRow (c_str (lower (mac device))) (c_str (ip device)) (c_str (hostname device))
    (c_str (interface_name device)) (c_str (source device)) (c_str (neigh_state device))
    (c_str (status_toString (status device)))
    (unixSeconds (first_seen device)) (unixSeconds (last_seen device)) (unixSeconds (last_dhcp device))
    (unixSeconds (last_traffic device)) (unixSeconds (last_rate device))
    (i64 (rx_bytes_total device)) (i64 (tx_bytes_total device))
    (sql_real (rx_rate_bps device)) (sql_real (tx_rate_bps device))
    (c_str (tagsText (tags device))) (unixSeconds now).

Definition traffic_row (snapshot : TrafficSnapshot) : TrafficRow :=
  mkTrafficRow (c_str (lower (ts_mac snapshot))) (c_str (ts_ip snapshot)) (unixSeconds (ts_ts snapshot))
    (i64 (ts_rx_bytes snapshot)) (i64 (ts_tx_bytes snapshot)).

Definition event_row (event : Event) : EventRow :=
  mkEventRow (c_str (ev_id event)) (unixSeconds (ev_ts event)) (c_str (ev_type event))
    (c_str (severity_toString (ev_severity event))) (c_str (ev_source event)) (c_str (ev_message event))
    (c_str (fieldsJson (ev_fields event))).

Definition attack_row (event : WANAttackEvent) : AttackRow :=
  mkAttackRow (unixSeconds (wa_ts event)) (c_str (wa_in_if event)) (c_str (wa_src_ip event))
    (c_str (wa_dst_ip event)) (c_str (wa_src_port event)) (c_str (wa_dst_port event))
    (c_str (wa_proto event)) (c_str (wa_length event)) (c_str (wa_raw event)).

Definition deviceFromStatement (row : DeviceRow) : DeviceState :=
  mkDeviceState (dr_mac row) (dr_ip row) (dr_hostname row) (dr_interface_name row) (dr_source row)
    (dr_neigh_state row) (parseStatus (dr_status row))
    (timeFromColumn (dr_first_seen row)) (timeFromColumn (dr_last_seen row))
    (timeFromColumn (dr_last_dhcp row)) (timeFromColumn (dr_last_traffic row))
    (timeFromColumn (dr_last_rate row))
    (u64 (dr_rx_bytes_total row)) (u64 (dr_tx_bytes_total row))
    (dr_rx_rate_bps row) (dr_tx_rate_bps row) (parseTags (dr_tags row)).

Definition eventFromStatement (row : EventRow) : Event :=
  mkEvent (er_id row) (timeFromColumn (er_ts row)) (er_type row) (parseSeverity (er_severity row))
    (er_source row) (er_message row)
    (if decide (er_fields_json row = []) then ∅
     else <[("fields_json" : bytes) := er_fields_json row]> ∅).

Definition wanAttackFromStatement (row : AttackRow) : WANAttackEvent :=
  mkWANAttackEvent (timeFromColumn (ar_ts row)) (ar_in_if row) (ar_src_ip row) (ar_dst_ip row)
    (ar_src_port row) (ar_dst_port row) (ar_proto row) (ar_length row) (ar_raw row).

(** ** The tables and the SQL of the source *)

Record Tables := mkTables {
  t_devices : gmap bytes DeviceRow;     (* by device_key *)
  t_traffic : gmap Z TrafficRow;        (* by id, AUTOINCREMENT *)
  t_traffic_seq : Z;                    (* the greatest id ever given out *)
  t_events : gmap bytes EventRow;       (* by id *)
  t_attacks : gmap Z AttackRow;         (* by id, AUTOINCREMENT *)
  t_attacks_seq : Z
}.

#[export] Instance Tables_eta : Eta Tables := fun t =>
  mkTables (t_devices t) (t_traffic t) (t_traffic_seq t) (t_events t) (t_attacks t) (t_attacks_seq t).

Definition empty_Tables : Tables := mkTables ∅ ∅ 0 ∅ ∅ 0.

(** The tables with a column [ts]. *)
Inductive Table : Type := EventsTable | WanAttacksTable | TrafficSamplesTable.

(** [LIMIT n]: a negative limit is none. *)
Definition sql_limit {A} (n : Z) (l : list A) : list A := if n <? 0 then l else take (Z.to_nat n) l.

(** [ORDER BY ts DESC, id DESC] and [ORDER BY ts ASC, id ASC] over a table with a key. *)
Section Ordered.
Context {K R : Type} (key_le : K -> K -> Prop) `{!RelDecision key_le} (ts : R -> Z).

Definition older (a b : K * R) : Prop :=
  ts a.2 < ts b.2 \/ (ts a.2 = ts b.2 /\ key_le a.1 b.1).

#[export] Instance older_dec : RelDecision older.
Proof using All. intros a b. unfold older. apply _. Defined.

Definition newer (a b : K * R) : Prop := older b a.

#[export] Instance newer_dec : RelDecision newer.
Proof using All. intros a b. unfold newer. apply _. Defined.

Definition oldest_first (l : list (K * R)) : list (K * R) := merge_sort older l.
Definition newest_first (l : list (K * R)) : list (K * R) := merge_sort newer l.

Context `{Countable K}.

(** [DELETE ... WHERE id IN (...)] *)
Definition delete_ids (ids : list K) (m : gmap K R) : gmap K R := filter (fun entry => entry.1 ∉ ids) m.

(** [DELETE ... WHERE ts < cutoff] *)
Definition delete_older (cutoff : Z) (m : gmap K R) : gmap K R :=
  filter (fun entry => cutoff <= ts entry.2) m.

(** [... WHERE id IN (SELECT id ... ORDER BY ts DESC, id DESC LIMIT -1 OFFSET n)] *)
Definition delete_beyond (n : Z) (m : gmap K R) : gmap K R :=
  delete_ids (drop (Z.to_nat n) (newest_first (map_to_list m))).*1 m.

(** [... WHERE id IN (SELECT id ... ORDER BY ts ASC, id ASC LIMIT n)] *)
Definition delete_oldest (n : Z) (m : gmap K R) : gmap K R :=
  delete_ids (sql_limit n (oldest_first (map_to_list m))).*1 m.

End Ordered.

(** [CASE WHEN mac IS NOT NULL AND mac != '' THEN mac ELSE ip END] *)
Definition traffic_partition (row : TrafficRow) : bytes :=
  if decide (tr_mac row <> []) then tr_mac row else tr_ip row.

(** [... WHEN ... THEN 'mac:' || lower(mac) ELSE 'ip:' || ip END] *)
Definition traffic_device_key (row : TrafficRow) : bytes :=
  if decide (tr_mac row <> []) then mac_key (lower (tr_mac row)) else ip_key (tr_ip row).

Definition in_partition (p : bytes) (entry : Z * TrafficRow) : Prop := traffic_partition entry.2 = p.

#[export] Instance in_partition_dec p entry : Decision (in_partition p entry).
Proof. unfold in_partition. apply _. Defined.

(** [ROW_NUMBER() OVER (PARTITION BY ... ORDER BY ts DESC, id DESC)] of a row: one more than
    the number of rows of its partition that come before it. *)
Definition row_number (m : gmap Z TrafficRow) (entry : Z * TrafficRow) : Z :=
  1 + Z.of_nat (length (filter (fun e => newer Z.le tr_ts e entry /\ e.1 <> entry.1)
                  (filter (in_partition (traffic_partition entry.2)) (map_to_list m)))).

Definition delete_traffic_beyond (n : Z) (m : gmap Z TrafficRow) : gmap Z TrafficRow :=
  delete_ids (filter (fun entry => n < row_number m entry) (map_to_list m)).*1 m.

(** The statements that change the tables, with the values bound to their parameters. *)
Inductive Command : Type :=
  | UpsertDevice (device_key : bytes) (row : DeviceRow)
  | InsertTrafficRow (row : TrafficRow)
  | ReplaceEvent (row : EventRow)
  | InsertAttackRow (row : AttackRow)
  | DeleteOlderThan (table : Table) (cutoff : Z)
  | DeleteBeyondLimit (table : Table) (limit : Z)
  | DeleteTrafficBeyondLimit (limit : Z)
  | PruneOldRows (table : Table) (limit : Z).

Definition run_command (cmd : Command) (t : Tables) : Tables :=
  match cmd with
  | UpsertDevice key row => t <| t_devices := <[key := row]> (t_devices t) |>
  | InsertTrafficRow row =>
      t <| t_traffic := <[t_traffic_seq t + 1 := row]> (t_traffic t) |>
        <| t_traffic_seq := t_traffic_seq t + 1 |>
  | ReplaceEvent row => t <| t_events := <[er_id row := row]> (t_events t) |>
  | InsertAttackRow row =>
      t <| t_attacks := <[t_attacks_seq t + 1 := row]> (t_attacks t) |>
        <| t_attacks_seq := t_attacks_seq t + 1 |>
  | DeleteOlderThan EventsTable cutoff => t <| t_events := delete_older er_ts cutoff (t_events t) |>
  | DeleteOlderThan WanAttacksTable cutoff => t <| t_attacks := delete_older ar_ts cutoff (t_attacks t) |>
  | DeleteOlderThan TrafficSamplesTable cutoff => t <| t_traffic := delete_older tr_ts cutoff (t_traffic t) |>
  | DeleteBeyondLimit EventsTable n => t <| t_events := delete_beyond bytes_le er_ts n (t_events t) |>
  | DeleteBeyondLimit WanAttacksTable n => t <| t_attacks := delete_beyond Z.le ar_ts n (t_attacks t) |>
  | DeleteBeyondLimit TrafficSamplesTable n => t <| t_traffic := delete_beyond Z.le tr_ts n (t_traffic t) |>
  | DeleteTrafficBeyondLimit n => t <| t_traffic := delete_traffic_beyond n (t_traffic t) |>
  | PruneOldRows EventsTable n => t <| t_events := delete_oldest bytes_le er_ts n (t_events t) |>
  | PruneOldRows WanAttacksTable n => t <| t_attacks := delete_oldest Z.le ar_ts n (t_attacks t) |>
  | PruneOldRows TrafficSamplesTable n => t <| t_traffic := delete_oldest Z.le tr_ts n (t_traffic t) |>
  end.

(** The statements that return rows, with the type of their rows. *)
Inductive Query : Type -> Type :=
  | SelectDevicesForLoad : Query DeviceRow
  | SelectDevices (limit : Z) : Query DeviceRow
  | SelectEventsForLoad (limit : Z) : Query EventRow
  | SelectEvents (limit : Z) : Query EventRow
  | SelectAttacksForLoad (limit : Z) : Query AttackRow
  | SelectAttacks (limit : Z) : Query AttackRow
  | SelectTraffic (limit : Z) : Query TrafficRow
  | SelectTotals (cutoff : Z) : Query TotalsRow
  | SelectInteger (sql : bytes) : Query Z.

(** [rows] is [all] in the order [ORDER BY ts DESC LIMIT n]: rows of one second come in any order. *)
Definition newest_rows {R} (ts : R -> Z) (n : Z) (all rows : list R) : Prop :=
  exists sorted, sorted ≡ₚ all /\ StronglySorted (fun a b => ts b <= ts a) sorted /\
    rows = sql_limit n sorted.

(** The same rows, [ORDER BY ts ASC] again. *)
Definition newest_rows_in_order {R} (ts : R -> Z) (n : Z) (all rows : list R) : Prop :=
  exists top, newest_rows ts n all top /\ rows ≡ₚ top /\ StronglySorted (fun a b => ts a <= ts b) rows.

Definition values {K} `{Countable K} {R} (m : gmap K R) : list R := (map_to_list m).*2.

(** The [LEFT JOIN] of a sample with its device. *)
Definition totals_row (ds : gmap bytes DeviceRow) (row : TrafficRow) : TotalsRow :=
  let d := ds !! traffic_device_key row in
  mkTotalsRow (tr_mac row)
    (if decide (tr_ip row <> []) then tr_ip row else default [] (dr_ip <$> d))
    (default [] (dr_hostname <$> d)) (tr_ts row) (tr_rx_bytes row) (tr_tx_bytes row).

(** [ORDER BY <device key>, ts ASC, id ASC] *)
Definition totals_before (a b : Z * TrafficRow) : Prop :=
  (traffic_device_key a.2 <> traffic_device_key b.2 /\ bytes_le (traffic_device_key a.2) (traffic_device_key b.2))
  \/ (traffic_device_key a.2 = traffic_device_key b.2 /\ older Z.le tr_ts a b).

#[export] Instance totals_before_dec : RelDecision totals_before.
Proof. intros a b. unfold totals_before. apply _. Defined.

(** The answers SQL allows. *)
Definition answers {R} (q : Query R) (t : Tables) : list R -> Prop :=
  match q in Query R return list R -> Prop with
  | SelectDevicesForLoad => fun rows =>
      rows ≡ₚ values (t_devices t) /\ StronglySorted (fun a b => dr_last_seen a <= dr_last_seen b) rows
  | SelectDevices n => newest_rows dr_last_seen n (values (t_devices t))
  | SelectEventsForLoad n => newest_rows_in_order er_ts n (values (t_events t))
  | SelectEvents n => newest_rows er_ts n (values (t_events t))
  | SelectAttacksForLoad n => newest_rows_in_order ar_ts n (values (t_attacks t))
  | SelectAttacks n => newest_rows ar_ts n (values (t_attacks t))
  | SelectTraffic n => fun rows =>
      rows = (oldest_first Z.le tr_ts (sql_limit n (newest_first Z.le tr_ts (map_to_list (t_traffic t))))).*2
  | SelectTotals cutoff => fun rows =>
      rows = totals_row (t_devices t) <$>
        (merge_sort totals_before (filter (fun e => cutoff <= tr_ts e.2) (map_to_list (t_traffic t)))).*2
  | SelectInteger _ => fun rows => length rows = 1%nat
  end.

(** ** libsqlite3 *)

(** A statement without its parameters, as [prepare] sees it. *)
Inductive Statement : Type :=
  | StmtUpsertDevice | StmtInsertTraffic | StmtReplaceEvent | StmtInsertAttack
  | StmtDeleteOlderThan (table : Table) | StmtDeleteBeyondLimit (table : Table)
  | StmtDeleteTrafficBeyondLimit | StmtPruneOldRows (table : Table)
  | StmtSelectDevicesForLoad | StmtSelectDevices | StmtSelectEventsForLoad | StmtSelectEvents
  | StmtSelectAttacksForLoad | StmtSelectAttacks | StmtSelectTraffic | StmtSelectTotals
  | StmtSelectInteger (sql : bytes).

Definition statement_of {R} (q : Query R) : Statement :=
  match q with
  | SelectDevicesForLoad => StmtSelectDevicesForLoad
  | SelectDevices _ => StmtSelectDevices
  | SelectEventsForLoad _ => StmtSelectEventsForLoad
  | SelectEvents _ => StmtSelectEvents
  | SelectAttacksForLoad _ => StmtSelectAttacksForLoad
  | SelectAttacks _ => StmtSelectAttacks
  | SelectTraffic _ => StmtSelectTraffic
  | SelectTotals _ => StmtSelectTotals
  | SelectInteger sql => StmtSelectInteger sql
  end.

(** The functions the source loads with [dlsym], on a connection. *)
Class SqliteApi := {
  conn : Type;
  open_v2 : bytes -> option conn;                  (* with the loading of the library *)
  exec_sql : conn -> bytes -> bool * conn;         (* whether the code is SQLITE_OK *)
  prepare_v2 : conn -> Statement -> bool;          (* whether the code is SQLITE_OK *)
  step_command : conn -> Command -> bool * conn;   (* whether the code is SQLITE_DONE *)
  step_rows : forall {R : Type}, conn -> Query R -> list R  (* the rows until a code that is not SQLITE_ROW *)
}.

(** ** The results of the two aggregations (sqlite_store.hpp) *)

Record TrafficHistoryPoint := mkTrafficHistoryPoint {
  tp_ts : time;
  tp_rx_rate_bps : double;
  tp_tx_rate_bps : double;
  tp_samples : Z
}.

Record DeviceTrafficTotal := mkDeviceTrafficTotal {
  dt_mac : bytes;
  dt_ip : bytes;
  dt_hostname : bytes;
  dt_first_ts : time;
  dt_last_ts : time;
  dt_rx_bytes : Z;
  dt_tx_bytes : Z;
  dt_samples : Z
}.

#[export] Instance DeviceTrafficTotal_eta : Eta DeviceTrafficTotal := fun t =>
  mkDeviceTrafficTotal (dt_mac t) (dt_ip t) (dt_hostname t) (dt_first_ts t) (dt_last_ts t)
    (dt_rx_bytes t) (dt_tx_bytes t) (dt_samples t).

Definition default_DeviceTrafficTotal : DeviceTrafficTotal :=
  mkDeviceTrafficTotal [] [] [] epoch epoch 0 0 0.

(** *** [trafficHistory] *)

Record PreviousSample := mkPreviousSample { ps_ts : time; ps_rx_bytes : Z; ps_tx_bytes : Z }.
Record Bucket := mkBucket { bk_rx_rate_bps : double; bk_tx_rate_bps : double; bk_samples : Z }.

Definition default_Bucket : Bucket := mkBucket d_zero d_zero 0.

(** The body of the loop over the rows: the previous samples and the buckets. *)
Definition history_step (acc : gmap bytes PreviousSample * gmap Z Bucket) (row : TrafficRow)
    : gmap bytes PreviousSample * gmap Z Bucket :=
  let '(previous_by_device, buckets) := acc in
  let ts_seconds := tr_ts row in
  let rx_bytes := u64 (tr_rx_bytes row) in
  let tx_bytes := u64 (tr_tx_bytes row) in
  let key := if decide (tr_mac row <> []) then mac_key (lower (tr_mac row)) else ip_key (tr_ip row) in
  if decide (key = "ip:") then acc
  else
    let ts := fromUnixSeconds ts_seconds in
    let buckets :=
      match previous_by_device !! key with
      | None => buckets
      | Some previous =>
          let dt := d_seconds (tsub ts (ps_ts previous)) in
          let reset := (rx_bytes <? ps_rx_bytes previous) || (tx_bytes <? ps_tx_bytes previous) in
          if dltb d_zero dt && negb reset then
            let bucket_ts := ts_seconds - Z.rem ts_seconds 5 in
            let bucket := default default_Bucket (buckets !! bucket_ts) in
            <[bucket_ts := mkBucket
                (dadd (bk_rx_rate_bps bucket) (rate_bps (u64 (rx_bytes - ps_rx_bytes previous)) dt))
                (dadd (bk_tx_rate_bps bucket) (rate_bps (u64 (tx_bytes - ps_tx_bytes previous)) dt))
                (bk_samples bucket + 1)]> buckets
          else buckets
      end in
    (<[key := mkPreviousSample ts rx_bytes tx_bytes]> previous_by_device, buckets).

Definition bucket_before (a b : Z * Bucket) : Prop := a.1 <= b.1.

#[export] Instance bucket_before_dec : RelDecision bucket_before.
Proof. intros a b. unfold bucket_before. apply _. Defined.

Definition history_points (buckets : gmap Z Bucket) : list TrafficHistoryPoint :=
  (fun entry => mkTrafficHistoryPoint (fromUnixSeconds entry.1) (bk_rx_rate_bps entry.2)
                  (bk_tx_rate_bps entry.2) (bk_samples entry.2))
    <$> merge_sort bucket_before (map_to_list buckets).

Definition history_wanted (limit : Z) : Z := if limit =? 0 then 180 else Z.min limit 720.

Definition history_of_rows (limit : Z) (rows : list TrafficRow) : list TrafficHistoryPoint :=
  let out := history_points (fold_left history_step rows (∅, ∅)).2 in
  let wanted := history_wanted limit in
  if wanted <? Z.of_nat (length out) then lastn (Z.to_nat wanted) out else out.

(** *** [deviceTrafficTotals] *)

Record Accumulator := mkAccumulator {
  acc_total : DeviceTrafficTotal;
  acc_previous_rx : Z;
  acc_previous_tx : Z;
  acc_has_previous : bool
}.

Definition default_Accumulator : Accumulator := mkAccumulator default_DeviceTrafficTotal 0 0 false.

(** What a counter adds since the previous sample: after a reset, all of it. *)
Definition counted_since (current previous : Z) : Z :=
  if previous <=? current then u64 (current - previous) else current.

Definition totals_step (by_device : gmap bytes Accumulator) (row : TotalsRow) : gmap bytes Accumulator :=
  let m := lower (sr_mac row) in
  let i := sr_ip row in
  let key := if decide (m <> []) then mac_key m else ip_key i in
  if decide (key = "ip:") then by_device
  else
    let ts := timeFromColumn (sr_ts row) in
    let rx_bytes := u64 (sr_rx_bytes row) in
    let tx_bytes := u64 (sr_tx_bytes row) in
    let acc := default default_Accumulator (by_device !! key) in
    let total := acc_total acc in
    let total :=
      if dt_samples total =? 0 then
        total <| dt_mac := m |> <| dt_ip := i |> <| dt_hostname := sr_hostname row |> <| dt_first_ts := ts |>
      else if acc_has_previous acc then
        total <| dt_rx_bytes := u64 (dt_rx_bytes total + counted_since rx_bytes (acc_previous_rx acc)) |>
              <| dt_tx_bytes := u64 (dt_tx_bytes total + counted_since tx_bytes (acc_previous_tx acc)) |>
      else total in
    let total := total <| dt_last_ts := ts |> <| dt_samples := dt_samples total + 1 |> in
    <[key := mkAccumulator total rx_bytes tx_bytes true]> by_device.

Definition total_bytes (t : DeviceTrafficTotal) : Z := u64 (dt_rx_bytes t + dt_tx_bytes t).

(** Not later in the order of the comparator. *)
Definition total_before (lhs rhs : DeviceTrafficTotal) : Prop :=
  total_bytes rhs < total_bytes lhs \/
  (total_bytes lhs = total_bytes rhs /\ dt_last_ts rhs <= dt_last_ts lhs).

#[export] Instance total_before_dec : RelDecision total_before.
Proof. intros a b. unfold total_before. apply _. Defined.

Definition totals_of_rows {HO : HashOrder} (limit : Z) (rows : list TotalsRow) : list DeviceTrafficTotal :=
  let by_device := fold_left totals_step rows ∅ in
  let out := merge_sort total_before ((fun entry => acc_total entry.2) <$> iter_order by_device) in
  if (0 <? limit) && (limit <? Z.of_nat (length out)) then take (Z.to_nat limit) out else out.

(** ** The operations *)

Definition hours (n : Z) : Z := n * 3600 * ns_per_s.

Definition begin_sql : bytes := "BEGIN IMMEDIATE;".
Definition commit_sql : bytes := "COMMIT;".
Definition rollback_sql : bytes := "ROLLBACK;".

Section Operations.
Context (config : Config) {API : SqliteApi} {HO : HashOrder}.

Definition execLog (sql : bytes) (c : conn) : conn := (exec_sql c sql).2.

(** [None] is the exception. *)
Definition execRequired (c : conn) (sql : bytes) : option conn :=
  let '(ok, c) := exec_sql c sql in if ok then Some c else None.

(** [prepare], [bind], [step], [finalize] of a statement that returns no rows. *)
Definition run_statement (stmt : Statement) (cmd : Command) (c : conn) : conn :=
  if prepare_v2 c stmt then (step_command c cmd).2 else c.

(** [prepare], [bind] and the loop over the rows. *)
Definition query_rows {R : Type} (q : Query R) (c : conn) : list R :=
  if prepare_v2 c (statement_of q) then step_rows c q else [].

(** *** Writing *)

(** [clk] gives the readings of [nowSystem()], one for every row bound. *)
Fixpoint upsert_rows (clk : clock) (ds : list DeviceState) (c : conn) : conn :=
  match ds with
  | [] => c
  | device :: rest =>
      let key := deviceKey device in
      if decide (key = []) then upsert_rows clk rest c
      else
        let c := (step_command c (UpsertDevice (c_str key) (device_row (clk 0%nat) device))).2 in
        upsert_rows (fun i => clk (S i)) rest c
  end.

Definition upsertDevices (clk : clock) (ds : list DeviceState) (c : conn) : conn :=
  if decide (ds = []) then c
  else
    let c := execLog begin_sql c in
    if prepare_v2 c StmtUpsertDevice then execLog commit_sql (upsert_rows clk ds c)
    else execLog rollback_sql c.

Definition insertTraffic (snapshot : TrafficSnapshot) : conn -> conn :=
  run_statement StmtInsertTraffic (InsertTrafficRow (traffic_row snapshot)).

Definition insertEvent (event : Event) : conn -> conn :=
  run_statement StmtReplaceEvent (ReplaceEvent (event_row event)).

Definition insertWANAttack (event : WANAttackEvent) : conn -> conn :=
  run_statement StmtInsertAttack (InsertAttackRow (attack_row event)).

(** *** Reading *)

(** [clk n] are the readings of [nowSystem()] inside the call for the row number [n]. *)
Definition loadDevices (clk : nat -> clock) (c : conn) (state : StateStore) : StateStore :=
  fold_left (fun st entry => updateDevice config (clk entry.1) st (deviceFromStatement entry.2))
    (imap pair (query_rows SelectDevicesForLoad c)) state.

Definition loadEvents (clk : nat -> clock) (c : conn) (state : StateStore) : StateStore :=
  fold_left (fun st entry => addEvent (clk entry.1) st (eventFromStatement entry.2))
    (imap pair (query_rows (SelectEventsForLoad (i64 (max_events config))) c)) state.

Definition loadWANAttacks (clk : nat -> clock) (c : conn) (state : StateStore) : StateStore :=
  fold_left (fun st entry => addWANAttack (clk entry.1) st (wanAttackFromStatement entry.2))
    (imap pair (query_rows (SelectAttacksForLoad (i64 (max_attack_events config))) c)) state.

Definition loadInto (clk_devices clk_events clk_attacks : nat -> clock) (c : conn)
    (state : StateStore) : StateStore :=
  loadWANAttacks clk_attacks c (loadEvents clk_events c (loadDevices clk_devices c state)).

Definition db_devices (limit : Z) (c : conn) : list DeviceState :=
  deviceFromStatement <$> query_rows (SelectDevices (i64 (if limit =? 0 then 1000 else limit))) c.

Definition db_recentEvents (limit : Z) (c : conn) : list Event :=
  eventFromStatement <$> query_rows (SelectEvents (i64 (if limit =? 0 then 100 else limit))) c.

Definition db_recentWANAttacks (limit : Z) (c : conn) : list WANAttackEvent :=
  wanAttackFromStatement <$> query_rows (SelectAttacks (i64 (if limit =? 0 then 100 else limit))) c.

Definition trafficHistory (limit : Z) (c : conn) : list TrafficHistoryPoint :=
  let wanted := history_wanted limit in
  let row_limit := Z.max (wanted * 12) wanted in
  history_of_rows limit (query_rows (SelectTraffic row_limit) c).

Definition deviceTrafficTotals (now : time) (window limit : Z) (c : conn) : list DeviceTrafficTotal :=
  let cutoff := i64 (now - i64 (hours window)) in
  totals_of_rows limit (query_rows (SelectTotals (unixSeconds cutoff)) c).

Definition queryInt (sql : bytes) (c : conn) : Z := default 0 (head (query_rows (SelectInteger sql) c)).

(** *** Retention *)

Definition deleteOlderThan (table : Table) (cutoff : Z) : conn -> conn :=
  run_statement (StmtDeleteOlderThan table) (DeleteOlderThan table cutoff).

Definition deleteBeyondLimit (table : Table) (limit : Z) : conn -> conn :=
  run_statement (StmtDeleteBeyondLimit table) (DeleteBeyondLimit table (i64 limit)).

Definition deleteTrafficBeyondDeviceLimit (limit : Z) : conn -> conn :=
  run_statement StmtDeleteTrafficBeyondLimit (DeleteTrafficBeyondLimit (i64 limit)).

Definition databaseBytes (c : conn) : Z * conn :=
  let c := execLog "PRAGMA wal_checkpoint(PASSIVE);" c in
  (i64 (queryInt "PRAGMA page_count;" c * queryInt "PRAGMA page_size;" c), c).

Definition pruneOldRows (table : Table) (limit : Z) : conn -> conn :=
  run_statement (StmtPruneOldRows table) (PruneOldRows table (i64 limit)).

(** The body of the loop of [enforceSizeLimit]. *)
Definition size_round (c : conn) : conn :=
  let c := execLog begin_sql c in
  let c := pruneOldRows TrafficSamplesTable 1000 c in
  let c := pruneOldRows EventsTable 250 c in
  let c := pruneOldRows WanAttacksTable 250 c in
  let c := execLog commit_sql c in
  execLog "PRAGMA incremental_vacuum(256);" c.

(** [for (round = 0; round < 12 && databaseBytes() > max_bytes; ++round)], with the rounds left. *)
Fixpoint size_loop (rounds : nat) (max_bytes : Z) (c : conn) : conn :=
  match rounds with
  | O => c
  | S rounds =>
      let '(n, c) := databaseBytes c in
      if max_bytes <? n then size_loop rounds max_bytes (size_round c) else c
  end.

Definition enforceSizeLimit (c : conn) : conn :=
  let max_bytes := Z.max 1 (sqlite_max_db_mb config) * 1024 * 1024 in
  let '(n, c) := databaseBytes c in
  if n <=? max_bytes then c
  else
    let c := execLog "PRAGMA wal_checkpoint(TRUNCATE);" c in
    let c := size_loop 12 max_bytes c in
    (databaseBytes c).2.

(** [nowSystem() - hours(24 * retention_days)]: an [int] product, then 64-bit nanoseconds. *)
Definition retention_cutoff (now : time) : Z :=
  let retention_days := Z.max 1 (sqlite_retention_days config) in
  unixSeconds (i64 (now - i64 (hours (i32 (24 * retention_days))))).

(** The transaction of [applyRetention]. *)
Definition retention_transaction (now : time) (c : conn) : conn :=
  let cutoff_seconds := retention_cutoff now in
  let c := execLog begin_sql c in
  let c := deleteOlderThan EventsTable cutoff_seconds c in
  let c := deleteOlderThan WanAttacksTable cutoff_seconds c in
  let c := deleteOlderThan TrafficSamplesTable cutoff_seconds c in
  let c := deleteBeyondLimit EventsTable (Z.max 1 (sqlite_max_events config)) c in
  let c := deleteBeyondLimit WanAttacksTable (Z.max 1 (max_attack_events config)) c in
  let c := deleteTrafficBeyondDeviceLimit (Z.max 1 (sqlite_max_traffic_points_per_device config)) c in
  execLog commit_sql c.

Definition applyRetention (now : time) (c : conn) : conn := enforceSizeLimit (retention_transaction now c).

(** *** Opening *)

Definition schema_sql : bytes := "
CREATE TABLE IF NOT EXISTS schema_migrations(
  version INTEGER PRIMARY KEY,
  applied_at INTEGER NOT NULL
);
CREATE TABLE IF NOT EXISTS devices(
  device_key TEXT PRIMARY KEY,
  mac TEXT,
  ip TEXT,
  hostname TEXT,
  interface_name TEXT,
  source TEXT,
  neigh_state TEXT,
  status TEXT,
  first_seen INTEGER,
  last_seen INTEGER,
  last_dhcp INTEGER,
  last_traffic INTEGER,
  last_rate INTEGER,
  rx_bytes_total INTEGER,
  tx_bytes_total INTEGER,
  rx_rate_bps REAL,
  tx_rate_bps REAL,
  tags TEXT,
  updated_at INTEGER
);
CREATE TABLE IF NOT EXISTS traffic_samples(
  id INTEGER PRIMARY KEY AUTOINCREMENT,
  mac TEXT,
  ip TEXT,
  ts INTEGER NOT NULL,
  rx_bytes INTEGER NOT NULL,
  tx_bytes INTEGER NOT NULL,
  rx_rate_bps REAL DEFAULT 0,
  tx_rate_bps REAL DEFAULT 0
);
CREATE INDEX IF NOT EXISTS idx_traffic_samples_device_ts ON traffic_samples(mac, ip, ts);
CREATE TABLE IF NOT EXISTS events(
  id TEXT PRIMARY KEY,
  ts INTEGER NOT NULL,
  type TEXT,
  severity TEXT,
  source TEXT,
  message TEXT,
  fields_json TEXT
);
CREATE INDEX IF NOT EXISTS idx_events_ts ON events(ts);
CREATE TABLE IF NOT EXISTS wan_attacks(
  id INTEGER PRIMARY KEY AUTOINCREMENT,
  ts INTEGER NOT NULL,
  in_if TEXT,
  src_ip TEXT,
  dst_ip TEXT,
  src_port TEXT,
  dst_port TEXT,
  proto TEXT,
  length TEXT,
  raw TEXT
);
CREATE INDEX IF NOT EXISTS idx_wan_attacks_ts ON wan_attacks(ts);
INSERT OR IGNORE INTO schema_migrations(version, applied_at) VALUES(1, strftime('%s','now'));
".

Definition schema_statements : list bytes :=
  ["PRAGMA journal_mode=WAL;" : bytes; "PRAGMA synchronous=NORMAL;" : bytes;
   "PRAGMA busy_timeout=250;" : bytes; "PRAGMA auto_vacuum=INCREMENTAL;" : bytes; schema_sql].

Definition initializeSchema (c : conn) : option conn :=
  foldl (fun oc sql => c ← oc; execRequired c sql) (Some c) schema_statements.

(** The store: the connection of an enabled one. *)
Definition SqliteStore : Type := option conn.

Definition enabled (s : SqliteStore) : bool := bool_decide (is_Some s).

(** The constructor; the outer [None] is an exception. *)
Definition new_SqliteStore (now : time) : option SqliteStore :=
  if decide (lower (storage_mode config) <> "sqlite") then Some None
  else
    c ← open_v2 (sqlite_path config);
    c ← initializeSchema c;
    let c := applyRetention now c in
    let c := if sqlite_vacuum_on_start config then execLog "PRAGMA incremental_vacuum;" c else c in
    Some (Some c).

(** The members of [SqliteStore]: every call on a store that is not enabled does nothing or
    returns nothing. *)
Definition writing (f : conn -> conn) (s : SqliteStore) : SqliteStore := f <$> s.
Definition reading {A} (f : conn -> list A) (s : SqliteStore) : list A := default [] (f <$> s).

Definition store_upsertDevices (clk : clock) (ds : list DeviceState) := writing (upsertDevices clk ds).
Definition store_insertTraffic (snapshot : TrafficSnapshot) := writing (insertTraffic snapshot).
Definition store_insertEvent (event : Event) := writing (insertEvent event).
Definition store_insertWANAttack (event : WANAttackEvent) := writing (insertWANAttack event).
Definition store_applyRetention (now : time) := writing (applyRetention now).

Definition store_loadInto (clk_devices clk_events clk_attacks : nat -> clock) (s : SqliteStore)
    (state : StateStore) : StateStore :=
  match s with Some c => loadInto clk_devices clk_events clk_attacks c state | None => state end.

Definition store_devices (limit : Z) := reading (db_devices limit).
Definition store_recentEvents (limit : Z) := reading (db_recentEvents limit).
Definition store_recentWANAttacks (limit : Z) := reading (db_recentWANAttacks limit).
Definition store_trafficHistory (limit : Z) := reading (trafficHistory limit).
Definition store_deviceTrafficTotals (now : time) (window limit : Z) :=
  reading (deviceTrafficTotals now window limit).

End Operations.

(** ** What libsqlite3 promises

    A connection holds tables ([view]).  No call fails; a statement has the effect its SQL
    says, a query returns rows its SQL allows; the scripts the source runs outside of the
    parameterised statements leave the rows alone. *)

Definition neutral_sql : list bytes :=
  [begin_sql; commit_sql; "PRAGMA wal_checkpoint(PASSIVE);" : bytes;
   "PRAGMA wal_checkpoint(TRUNCATE);" : bytes; "PRAGMA incremental_vacuum(256);" : bytes;
   "PRAGMA incremental_vacuum;" : bytes; "PRAGMA journal_mode=WAL;" : bytes;
   "PRAGMA synchronous=NORMAL;" : bytes; "PRAGMA busy_timeout=250;" : bytes;
   "PRAGMA auto_vacuum=INCREMENTAL;" : bytes; schema_sql].

Class SqliteSpec (API : SqliteApi) := {
  view : conn -> Tables;
  prepare_ok : forall c stmt, prepare_v2 c stmt = true;
  step_command_ok : forall c cmd, (step_command c cmd).1 = true;
  step_command_view : forall c cmd, view (step_command c cmd).2 = run_command cmd (view c);
  step_rows_answers : forall R c (q : Query R), answers q (view c) (step_rows c q);
  exec_ok : forall c sql, sql ∈ neutral_sql -> (exec_sql c sql).1 = true;
  exec_view : forall c sql, sql ∈ neutral_sql -> view (exec_sql c sql).2 = view c
}.
