(* ===== verification/SqliteEngine.v ===== *)
(** * Calls into libsqlite3, and a library that keeps the promise of [SqliteSpec]

    What a call does to the tables under [SqliteSpec].  Then the tables themselves as
    connections, sorted by time where SQL leaves the order of rows of one second open: this
    shows that the promise can be kept, and runs the model on concrete data. *)

From S2P Require Import Prelude Utils RingBuffer Double Types Config StateStore Sqlite.

(** Solves [sql ∈ neutral_sql] for a literal. *)
Ltac neutral := apply (bool_decide_unpack _); by vm_compute.

(** ** Calls *)

Section Calls.
Context {API : SqliteApi} {SPEC : SqliteSpec API}.
Implicit Types c : conn.

Lemma run_statement_view stmt cmd c : view (run_statement stmt cmd c) = run_command cmd (view c).
Proof. unfold run_statement. by rewrite prepare_ok, step_command_view. Qed.

Lemma query_rows_answers {R} (q : Query R) c : answers q (view c) (query_rows q c).
Proof. unfold query_rows. rewrite prepare_ok. apply step_rows_answers. Qed.

Lemma execLog_view sql c : sql ∈ neutral_sql -> view (execLog sql c) = view c.
Proof. apply exec_view. Qed.

End Calls.

(** ** An admissible library *)

Section By.
Context {R : Type} (ts : R -> Z).

Definition by_ts_asc (a b : R) : Prop := ts a <= ts b.
Definition by_ts_desc (a b : R) : Prop := ts b <= ts a.

#[export] Instance by_ts_asc_dec : RelDecision by_ts_asc.
Proof. intros a b. unfold by_ts_asc. apply _. Defined.
#[export] Instance by_ts_desc_dec : RelDecision by_ts_desc.
Proof. intros a b. unfold by_ts_desc. apply _. Defined.
#[export] Instance by_ts_asc_trans : Transitive by_ts_asc.
Proof. intros a b c. unfold by_ts_asc. lia. Qed.
#[export] Instance by_ts_desc_trans : Transitive by_ts_desc.
Proof. intros a b c. unfold by_ts_desc. lia. Qed.
#[export] Instance by_ts_asc_total : Total by_ts_asc.
Proof. intros a b. unfold by_ts_asc. lia. Qed.
#[export] Instance by_ts_desc_total : Total by_ts_desc.
Proof. intros a b. unfold by_ts_desc. lia. Qed.

Definition select_newest (n : Z) (l : list R) : list R := sql_limit n (merge_sort by_ts_desc l).
Definition select_newest_in_order (n : Z) (l : list R) : list R :=
  merge_sort by_ts_asc (select_newest n l).

Lemma select_newest_ok n l : newest_rows ts n l (select_newest n l).
Proof.
  exists (merge_sort by_ts_desc l). split; [apply merge_sort_Permutation|].
  split; [|done]. apply (StronglySorted_merge_sort by_ts_desc).
Qed.

Lemma select_newest_in_order_ok n l : newest_rows_in_order ts n l (select_newest_in_order n l).
Proof.
  exists (select_newest n l). split; [apply select_newest_ok|].
  split; [apply merge_sort_Permutation|]. apply (StronglySorted_merge_sort by_ts_asc).
Qed.

End By.

Definition answer (t : Tables) {R} (q : Query R) : list R :=
  match q in Query R return list R with
  | SelectDevicesForLoad => merge_sort (by_ts_asc dr_last_seen) (values (t_devices t))
  | SelectDevices n => select_newest dr_last_seen n (values (t_devices t))
  | SelectEventsForLoad n => select_newest_in_order er_ts n (values (t_events t))
  | SelectEvents n => select_newest er_ts n (values (t_events t))
  | SelectAttacksForLoad n => select_newest_in_order ar_ts n (values (t_attacks t))
  | SelectAttacks n => select_newest ar_ts n (values (t_attacks t))
  | SelectTraffic n =>
      (oldest_first Z.le tr_ts (sql_limit n (newest_first Z.le tr_ts (map_to_list (t_traffic t))))).*2
  | SelectTotals cutoff =>
      totals_row (t_devices t) <$>
        (merge_sort totals_before (filter (fun e => cutoff <= tr_ts e.2) (map_to_list (t_traffic t)))).*2
  | SelectInteger _ => [0]
  end.

#[export] Instance memory_api : SqliteApi := {|
  conn := Tables;
  open_v2 := fun _ => Some empty_Tables;
  exec_sql := fun c _ => (true, c);
  prepare_v2 := fun _ _ => true;
  step_command := fun c cmd => (true, run_command cmd c);
  step_rows := fun R c q => answer c q
|}.

Lemma answer_ok R t (q : Query R) : answers q t (answer t q).
Proof.
  destruct q; simpl; auto using select_newest_ok, select_newest_in_order_ok.
  split; [apply merge_sort_Permutation|]. apply (StronglySorted_merge_sort (by_ts_asc dr_last_seen)).
Qed.

#[export] Instance memory_spec : SqliteSpec memory_api := {|
  view := (fun c => c) : @conn memory_api -> Tables;
  prepare_ok := fun _ _ => eq_refl;
  step_command_ok := fun _ _ => eq_refl;
  step_command_view := fun _ _ => eq_refl;
  step_rows_answers := fun R c q => answer_ok R c q;
  exec_ok := fun _ _ _ => eq_refl;
  exec_view := fun _ _ _ => eq_refl
|}.
