(* ===== verification/SqliteLoad.v ===== *)
(** * src/src/sqlite_store.cpp: loading libsqlite3 and opening the database

    The constructor and the destructor of [SqliteStore::Impl], down to the calls of [dlopen],
    [dlsym], [sqlite3_open_v2] and [sqlite3_exec] and their failures, with the text of every
    exception.  [Sqlite] takes the connection that comes out of this as given
    ([open_v2] of [SqliteApi]); [constructor_refines_store] says that it is the same
    constructor.  What the loader and the library answer are parameters. *)

From S2P Require Import Prelude Utils Config StateStore Sqlite SqliteEngine.

(** The symbols of [Impl::Api], in the order of [loadApi]. *)
Definition symbol_names : list bytes :=
  ["sqlite3_open_v2" : bytes; "sqlite3_close" : bytes; "sqlite3_exec" : bytes; "sqlite3_errmsg" : bytes;
   "sqlite3_free" : bytes; "sqlite3_prepare_v2" : bytes; "sqlite3_step" : bytes; "sqlite3_reset" : bytes;
   "sqlite3_clear_bindings" : bytes; "sqlite3_finalize" : bytes; "sqlite3_bind_text" : bytes;
   "sqlite3_bind_int64" : bytes; "sqlite3_bind_double" : bytes; "sqlite3_column_text" : bytes;
   "sqlite3_column_int64" : bytes; "sqlite3_column_double" : bytes].

Definition library_names : list bytes := ["libsqlite3.so.0" : bytes; "libsqlite3.so" : bytes].

Section Loading.
Context (config : Config) {API : SqliteApi}.
(** What the dynamic loader answers: is there such a library, has the library such a symbol. *)
Context (dlopen : bytes -> bool) (dlsym : bytes -> bytes -> bool).
(** [sqlite3_open_v2]: a connection; or an error, with the text of [sqlite3_errmsg] when the
    library made a handle nevertheless. *)
Context (open_call : bytes -> conn + option bytes).
(** The text of a failed [sqlite3_exec], if it sets one; the text of [sqlite3_errmsg]. *)
Context (exec_error : conn -> bytes -> option bytes) (errmsg : conn -> bytes).

(** [db]: null, a connection, or the handle of an [open_v2] that failed. *)
Inductive Database : Type := DbNull | DbOpen (c : conn) | DbFailed.

Record Impl := mkImpl {
  api_handle : option bytes;      (* the library that is loaded *)
  api_symbols : list bytes;       (* the function pointers that are set *)
  db : Database;
  im_enabled : bool
}.

#[export] Instance Impl_eta : Eta Impl := fun i => mkImpl (api_handle i) (api_symbols i) (db i) (im_enabled i).

Definition blank_Impl : Impl := mkImpl None [] DbNull false.

(** A call returns or throws; the members keep what was assigned before. *)
Definition Result : Type := option bytes * Impl.
Definition returned (i : Impl) : Result := (None, i).
Definition thrown (message : bytes) (i : Impl) : Result := (Some message, i).
Definition and_then (r : Result) (k : Impl -> Result) : Result :=
  match r with (None, i) => k i | (Some message, i) => (Some message, i) end.

(** [loadSymbol] from the library [lib]. *)
Definition loadSymbol (lib : bytes) (i : Impl) (name : bytes) : Result :=
  if dlsym lib name then returned (i <| api_symbols := api_symbols i ++ [name] |>)
  else thrown (("sqlite: missing symbol " : bytes) ++ name) i.

Fixpoint load_symbols (lib : bytes) (names : list bytes) (i : Impl) : Result :=
  match names with
  | [] => returned i
  | name :: names => and_then (loadSymbol lib i name) (load_symbols lib names)
  end.

Definition loadApi (i : Impl) : Result :=
  match List.find dlopen library_names with
  | None => thrown "storage.mode=sqlite requires libsqlite3 at runtime" i
  | Some lib => load_symbols lib symbol_names (i <| api_handle := Some lib |>)
  end.

Definition openDatabase (i : Impl) : Result :=
  match open_call (sqlite_path config) with
  | inl c => returned (i <| db := DbOpen c |>)
  | inr message =>
      thrown (("sqlite: could not open " : bytes) ++ sqlite_path config ++ (": " : bytes)
              ++ default ("unknown error" : bytes) message)
        (i <| db := match message with Some _ => DbFailed | None => DbNull end |>)
  end.

(** [execRequired] on an open database: the text of the error, or of [lastError]. *)
Definition exec_required (c : conn) (sql : bytes) (i : Impl) : Result :=
  let '(ok, c') := exec_sql c sql in
  let i := i <| db := DbOpen c' |> in
  if ok then returned i
  else thrown (("sqlite: " : bytes) ++ default (errmsg c') (exec_error c sql)) i.

Fixpoint exec_schema (sqls : list bytes) (i : Impl) : Result :=
  match sqls, db i with
  | sql :: sqls, DbOpen c => and_then (exec_required c sql i) (exec_schema sqls)
  | _, _ => returned i
  end.

(** [applyRetention] and [PRAGMA incremental_vacuum] throw nothing. *)
Definition finish_opening (now : time) (i : Impl) : Impl :=
  match db i with
  | DbOpen c =>
      let c := applyRetention config now c in
      let c := if sqlite_vacuum_on_start config then execLog "PRAGMA incremental_vacuum;" c else c in
      i <| db := DbOpen c |> <| im_enabled := true |>
  | _ => i
  end.

(** The constructor. *)
Definition construct (now : time) : Result :=
  if decide (lower (storage_mode config) <> "sqlite") then returned blank_Impl
  else and_then (loadApi blank_Impl) (fun i => and_then (openDatabase i) (fun i =>
         and_then (exec_schema schema_statements i) (fun i => returned (finish_opening now i)))).

(** The destructor; it closes what is open. *)
Definition destroy (i : Impl) : Impl :=
  let i := match db i with
           | DbNull => i
           | _ => if decide (("sqlite3_close" : bytes) ∈ api_symbols i) then i <| db := DbNull |> else i
           end in
  i <| api_handle := None |>.

(** What is open: a library, a handle of the database. *)
Definition holds_nothing (i : Impl) : Prop := api_handle i = None /\ db i = DbNull.

(** What happens to the members in the life of a [SqliteStore]: C++ runs the destructor of an
    object only when its constructor returned. *)
Definition life_of_store (now : time) : option bytes * Impl :=
  match construct now with
  | (None, i) => (None, destroy i)
  | (Some message, i) => (Some message, i)
  end.

(** ** Loading *)

Definition missing_symbol (lib : bytes) : option bytes := List.find (fun name => negb (dlsym lib name)) symbol_names.

Lemma load_symbols_spec lib names i :
  load_symbols lib names i =
    match List.find (fun name => negb (dlsym lib name)) names with
    | None => returned (i <| api_symbols := api_symbols i ++ names |>)
    | Some name =>
        thrown (("sqlite: missing symbol " : bytes) ++ name) (i <| api_symbols := api_symbols i ++ take_while (dlsym lib) names |>)
    end.
Proof.
  revert i. induction names as [|name names IH]; intros i; [destruct i; unfold returned; simpl; by rewrite app_nil_r|].
  cbn [load_symbols List.find take_while]. unfold loadSymbol. destruct (dlsym lib name); simpl.
  - rewrite IH. destruct (List.find _ names); simpl; by rewrite <- app_assoc.
  - unfold thrown. destruct i; simpl. by rewrite app_nil_r.
Qed.

(** The connection, when the library is found, complete, and opens the database. *)
Definition loaded_open (path : bytes) : option conn :=
  match List.find dlopen library_names with
  | None => None
  | Some lib => match missing_symbol lib, open_call path with None, inl c => Some c | _, _ => None end
  end.

(** ** The schema *)

Lemma foldl_none sqls : foldl (fun (oc : option conn) sql => c ← oc; execRequired c sql) None sqls = None.
Proof. by induction sqls. Qed.

(** The connection after some statements that must succeed. *)
Definition exec_all (c : conn) (sqls : list bytes) : option conn := foldl (fun oc sql => c ← oc; execRequired c sql) (Some c) sqls.

(** The statements before [sql] succeed, it fails, and [message] is the text of the error. *)
Definition first_failure (sqls : list bytes) (c : conn) (message : bytes) (c2 : conn) : Prop :=
  exists before sql after c1,
    sqls = before ++ sql :: after /\ exec_all c before = Some c1 /\ exec_sql c1 sql = (false, c2) /\
    message = ("sqlite: " : bytes) ++ default (errmsg c2) (exec_error c1 sql).

Lemma exec_schema_spec sqls c i :
  db i = DbOpen c ->
  match exec_all c sqls with
  | Some c' => exec_schema sqls i = returned (i <| db := DbOpen c' |>)
  | None => exists message c', first_failure sqls c message c' /\ exec_schema sqls i = thrown message (i <| db := DbOpen c' |>)
  end.
Proof.
  unfold exec_all. revert c i. induction sqls as [|sql sqls IH]; intros c i Hi.
  { simpl. unfold returned. destruct i; simpl in *. by rewrite Hi. }
  cbn [exec_schema foldl]. rewrite Hi. change (Some c ≫= (fun c0 => execRequired c0 sql)) with (execRequired c sql).
  unfold exec_required. unfold execRequired at 2. destruct (exec_sql c sql) as [ok c1] eqn:Ec. destruct ok; simpl.
  - specialize (IH c1 (i <| db := DbOpen c1 |>) eq_refl). destruct (foldl _ _ _); [done|].
    destruct IH as (message & c' & (before & sql' & after & c2 & -> & Hb & Hs & Hm) & IH). exists message, c'. split; [|done].
    exists (sql :: before), sql', after, c2. split_and!; [done| |done..]. unfold exec_all in *. simpl. unfold execRequired at 2. by rewrite Ec.
  - rewrite foldl_none. eexists _, c1. split; [|done]. by exists [], sql, sqls, c.
Qed.

(** ** The constructor *)

(** The members after the constructor, when it returns with a database. *)
Definition opened_Impl (lib : bytes) (c : conn) : Impl := mkImpl (Some lib) symbol_names (DbOpen c) true.

Definition vacuumed (now : time) (c : conn) : conn :=
  let c := applyRetention config now c in
  if sqlite_vacuum_on_start config then execLog "PRAGMA incremental_vacuum;" c else c.

Lemma construct_spec now :
  lower (storage_mode config) = "sqlite" ->
  match List.find dlopen library_names with
  | None => construct now = thrown "storage.mode=sqlite requires libsqlite3 at runtime" blank_Impl
  | Some lib =>
      match missing_symbol lib with
      | Some name => exists i, construct now = thrown (("sqlite: missing symbol " : bytes) ++ name) i /\
                               api_handle i = Some lib /\ db i = DbNull
      | None =>
          match open_call (sqlite_path config) with
          | inr message =>
              exists i, construct now =
                thrown (("sqlite: could not open " : bytes) ++ sqlite_path config ++ (": " : bytes)
                        ++ default ("unknown error" : bytes) message) i /\
                api_handle i = Some lib /\ (db i = DbNull <-> message = None)
          | inl c =>
              match initializeSchema c with
              | Some c' => construct now = returned (opened_Impl lib (vacuumed now c'))
              | None => exists message c2 i, first_failure schema_statements c message c2 /\
                          construct now = thrown message i /\ api_handle i = Some lib /\ db i <> DbNull
              end
          end
      end
  end.
Proof.
  intros Hmode. unfold construct. rewrite decide_False by (by intros []). unfold loadApi.
  destruct (List.find dlopen library_names) as [lib|]; [|done]. rewrite load_symbols_spec. fold (missing_symbol lib).
  destruct (missing_symbol lib) as [name|]; [by eexists|]. cbn [and_then returned]. unfold openDatabase.
  destruct (open_call (sqlite_path config)) as [c|message]; cbn [and_then returned thrown].
  - set (i := _ <| db := DbOpen c |>). pose proof (exec_schema_spec schema_statements c i eq_refl) as H. change (exec_all c schema_statements) with (initializeSchema c) in H.
    destruct (initializeSchema c) as [c'|].
    + rewrite H. reflexivity.
    + destruct H as (message & c' & Hf & ->). by eexists message, c', _.
  - eexists. split; [done|]. split; [done|]. by destruct message.
Qed.

(** C19: with sqlite configured the constructor throws, with a text that says why, when no
    library is found, when the library lacks a symbol (the first one is named), when the
    database cannot be opened (with the library's message) or when a statement of the schema
    fails (with the library's text for the first one that does); otherwise it returns an enabled store with every function pointer set.  In memory
    mode it neither loads nor opens anything. *)
Theorem opening_fails_with_a_reason now :
  (lower (storage_mode config) <> "sqlite" -> construct now = (None, blank_Impl)) /\
  (lower (storage_mode config) = "sqlite" ->
   (List.find dlopen library_names = None ->
      (construct now).1 = Some ("storage.mode=sqlite requires libsqlite3 at runtime" : bytes)) /\
   forall lib, List.find dlopen library_names = Some lib ->
     (forall name, missing_symbol lib = Some name -> (construct now).1 = Some (("sqlite: missing symbol " : bytes) ++ name)) /\
     (missing_symbol lib = None ->
        (forall message, open_call (sqlite_path config) = inr message ->
           (construct now).1 = Some (("sqlite: could not open " : bytes) ++ sqlite_path config ++ (": " : bytes)
                                     ++ default ("unknown error" : bytes) message)) /\
        forall c, open_call (sqlite_path config) = inl c ->
          match initializeSchema c with
          | Some c' => construct now = (None, opened_Impl lib (vacuumed now c'))
          | None => exists message c2, first_failure schema_statements c message c2 /\ (construct now).1 = Some message
          end)).
Proof.
  split; [intros Hmode; unfold construct; by rewrite decide_True|]. intros Hmode.
  pose proof (construct_spec now Hmode) as H. split; [intros E; by rewrite E in H; rewrite H|].
  intros lib E. rewrite E in H. split; [|split].
  - intros name En. rewrite En in H. by destruct H as (i & -> & _).
  - intros message Em. rewrite H0, Em in H. by destruct H as (i & -> & _).
  - intros c Ec. rewrite H0, Ec in H. destruct (initializeSchema c); [done|]. destruct H as (m & c2 & i & Hf & -> & _). by exists m, c2.
Qed.

(** an object whose constructor throws is never destroyed: the library stays loaded, and an
    opened database, or the handle that a failed [open_v2] leaves, is never closed.  An object
    whose constructor returns closes both at its end. *)
Theorem throwing_constructor_leaks now :
  match life_of_store now with
  | (None, i) => holds_nothing i
  | (Some _, i) =>
      (List.find dlopen library_names <> None -> api_handle i <> None) /\
      (loaded_open (sqlite_path config) <> None -> db i <> DbNull)
  end.
Proof.
  destruct (decide (lower (storage_mode config) = "sqlite")) as [Hmode|Hmode].
  - pose proof (construct_spec now Hmode) as H. unfold life_of_store, loaded_open.
    destruct (List.find dlopen library_names) as [lib|]; [|by rewrite H].
    destruct (missing_symbol lib) as [name|]; [by destruct H as (i & -> & Ei & _); simpl; rewrite Ei|].
    destruct (open_call (sqlite_path config)) as [c|message].
    + destruct (initializeSchema c) as [c'|]; [by rewrite H|]. by destruct H as (m & c2 & i & _ & -> & Ei & ?); simpl; rewrite Ei.
    + by destruct H as (i & -> & Ei & _); simpl; rewrite Ei.
  - unfold life_of_store, construct. by rewrite decide_True.
Qed.

End Loading.

(** ** The same constructor *)

(** The connection of the members, as [Sqlite] keeps it. *)
Definition store_of {API : SqliteApi} (i : Impl) : option conn :=
  if im_enabled i then match db i with DbOpen c => Some c | _ => None end else None.

(** the constructor of [Sqlite], where [open_v2] is this loading and opening, is this
    constructor: an exception is an exception, and what it returns is the same store. *)
Theorem constructor_refines_store config (API : SqliteApi) dlopen dlsym open_call exec_error errmsg now :
  open_v2 (sqlite_path config) = loaded_open dlopen dlsym open_call (sqlite_path config) ->
  new_SqliteStore config now =
  match construct config dlopen dlsym open_call exec_error errmsg now with
  | (None, i) => Some (store_of i)
  | (Some _, _) => None
  end.
Proof.
  intros Hopen. unfold new_SqliteStore. case_decide as Hmode; [unfold construct; by rewrite decide_True|].
  pose proof (construct_spec config dlopen dlsym open_call exec_error errmsg now Hmode) as H.
  rewrite Hopen. unfold loaded_open. destruct (List.find dlopen library_names) as [lib|]; [|by rewrite H].
  destruct (missing_symbol dlsym lib) as [name|]; [by destruct H as (i & -> & _)|].
  destruct (open_call (sqlite_path config)) as [c|message]; [|by destruct H as (i & -> & _)].
  cbn [mbind option_bind]. destruct (initializeSchema c) as [c1|].
  - by rewrite H.
  - by destruct H as (m & c2 & i & _ & -> & _).
Qed.

(** ** A machine with the library under its second name *)

Definition demo_dlopen (name : bytes) : bool := bool_decide (name = "libsqlite3.so").
(** ... that lacks a symbol. *)
Definition demo_dlsym (_ name : bytes) : bool := negb (bool_decide (name = "sqlite3_reset")).
Definition demo_exec_error (_ : Tables) (_ : bytes) : option bytes := None.
Definition demo_errmsg (_ : Tables) : bytes := [].
Definition sqlite_config : Config := default_Config <| storage_mode := "sqlite" |>.

Lemma demo_library : List.find demo_dlopen library_names = Some ("libsqlite3.so" : bytes).
Proof. vm_compute. reflexivity. Qed.

Lemma demo_missing : missing_symbol demo_dlsym "libsqlite3.so" = Some ("sqlite3_reset" : bytes).
Proof. vm_compute. reflexivity. Qed.

Lemma sqlite_mode : lower (storage_mode sqlite_config) = "sqlite".
Proof. vm_compute. reflexivity. Qed.

Lemma opening_fails_with_a_reason_witness :
  (@construct sqlite_config memory_api demo_dlopen demo_dlsym
     (fun _ => inl empty_Tables) demo_exec_error demo_errmsg 0).1
  = Some (("sqlite: missing symbol " : bytes) ++ ("sqlite3_reset" : bytes)).
Proof.
  destruct (@opening_fails_with_a_reason sqlite_config memory_api demo_dlopen demo_dlsym
    (fun _ => inl empty_Tables) demo_exec_error demo_errmsg 0) as [_ H].
  destruct (H sqlite_mode) as [_ H']. destruct (H' "libsqlite3.so" demo_library) as [H'' _].
  exact (H'' "sqlite3_reset" demo_missing).
Defined.

Lemma constructor_refines_store_witness :
  @new_SqliteStore sqlite_config memory_api 0 =
  match @construct sqlite_config memory_api demo_dlopen (fun _ _ => true) (fun _ => inl empty_Tables) demo_exec_error demo_errmsg 0 with
  | (None, i) => Some (store_of i)
  | (Some _, _) => None
  end.
Proof.
  apply (constructor_refines_store sqlite_config memory_api demo_dlopen (fun _ _ => true)
    (fun _ => inl empty_Tables) demo_exec_error demo_errmsg 0).
  vm_compute. reflexivity.
Defined.
