(* ===== verification/SqliteRetention.v ===== *)
(** * What the retention of sqlite_store.cpp keeps

    Lemmas on deletion by rank in a table with a key and a time, and the theorems on
    [applyRetention] and [enforceSizeLimit]: the newest rows are kept, per table and for the
    traffic samples per device, and the size limit only deletes the oldest rows. *)

From S2P Require Import Prelude Utils RingBuffer Double Types Config StateStore.
From S2P Require Import Sqlite SqliteEngine.

(** ** Deleting by rank *)

#[local] Set Default Proof Using "All".

Lemma filter_all {A} (P : A -> Prop) `{!forall x, Decision (P x)} (l : list A) :
  (forall x, x ∈ l -> P x) -> filter P l = l.
Proof.
  induction l as [|x l IH]; intros Hl; [done|]. rewrite filter_cons_True by (apply Hl; set_solver).
  f_equal. apply IH. set_solver.
Qed.

Lemma filter_none {A} (P : A -> Prop) `{!forall x, Decision (P x)} (l : list A) :
  (forall x, x ∈ l -> ~ P x) -> filter P l = [].
Proof.
  induction l as [|x l IH]; intros Hl; [done|]. rewrite filter_cons_False by (apply Hl; set_solver).
  apply IH. set_solver.
Qed.

Section Keyed.
Context {K R : Type} `{!EqDecision K, !Countable K}.

(** Rows of one table are determined by their keys. *)
Definition keyed (l : list (K * R)) : Prop := NoDup l.*1.

Lemma keyed_map (m : gmap K R) : keyed (map_to_list m).
Proof. apply NoDup_fst_map_to_list. Qed.

Lemma keyed_perm l l' : l ≡ₚ l' -> keyed l -> keyed l'.
Proof. unfold keyed. by intros ->. Qed.

Lemma keyed_inj l a b : keyed l -> a ∈ l -> b ∈ l -> a.1 = b.1 -> a = b.
Proof.
  intros Hl Ha Hb Hab. destruct a as [k x], b as [k' y]. simpl in Hab. subst k'.
  apply elem_of_list_to_map in Ha; [|done]. apply elem_of_list_to_map in Hb; [|done]. congruence.
Qed.

Lemma delete_ids_perm (m : gmap K R) l1 l2 :
  map_to_list m ≡ₚ l1 ++ l2 -> map_to_list (delete_ids l1.*1 m) ≡ₚ l2.
Proof.
  intros Hm. pose proof (keyed_perm _ _ Hm (keyed_map m)) as Hk.
  unfold keyed in Hk. rewrite fmap_app in Hk. apply NoDup_app in Hk as (_ & Hdisj & H2).
  apply NoDup_Permutation.
  - apply NoDup_map_to_list.
  - by eapply NoDup_fmap_1.
  - intros [k r]. rewrite elem_of_map_to_list. unfold delete_ids. rewrite map_lookup_filter_Some.
    rewrite <- elem_of_map_to_list, Hm, elem_of_app. simpl. split.
    + intros [[Hin|Hin] Hno]; [|done]. exfalso. apply Hno. apply list_elem_of_fmap. by exists (k, r).
    + intros Hin. split; [by right|]. intros Hk1. apply (Hdisj k Hk1).
      apply list_elem_of_fmap. by exists (k, r).
Qed.

Lemma sorted_unique (rel : K * R -> K * R -> Prop) `{!RelDecision rel, !Transitive rel, !Total rel} l l' :
  (forall a b, rel a b -> rel b a -> a.1 = b.1) ->
  keyed l -> StronglySorted rel l -> l ≡ₚ l' -> merge_sort rel l' = l.
Proof.
  intros Hanti Hk Hl Hp. apply (StronglySorted_unique_strong rel); [|apply StronglySorted_merge_sort; apply _|done|].
  - intros a b Ha Hb Hab Hba. rewrite merge_sort_Permutation, <- Hp in Ha.
    apply (keyed_inj l); auto.
  - by rewrite merge_sort_Permutation, Hp.
Qed.

Lemma StronglySorted_drop (rel : K * R -> K * R -> Prop) n l :
  StronglySorted rel l -> StronglySorted rel (drop n l).
Proof.
  rewrite <- (take_drop n l) at 1. apply StronglySorted_app_1_r.
Qed.

Lemma delete_older_perm (ts : R -> Z) cutoff (m : gmap K R) :
  map_to_list (delete_older ts cutoff m) ≡ₚ filter (fun e => cutoff <= ts e.2) (map_to_list m).
Proof.
  apply NoDup_Permutation; [apply NoDup_map_to_list|apply NoDup_filter, NoDup_map_to_list|].
  intros [k r]. rewrite list_elem_of_filter, !elem_of_map_to_list.
  unfold delete_older. rewrite map_lookup_filter_Some. tauto.
Qed.

End Keyed.

Section Rank.
Context {K R : Type} `{!EqDecision K, !Countable K} (key_le : K -> K -> Prop) `{!RelDecision key_le}.
Context `{!Transitive key_le, !Total key_le}.
Context (key_le_antisym : forall a b, key_le a b -> key_le b a -> a = b) (ts : R -> Z).

#[local] Instance older_trans : Transitive (older key_le ts).
Proof.
  intros a b c. unfold older. intros [?|[? ?]] [?|[? ?]]; try (left; lia).
  right. split; [lia|]. by transitivity b.1.
Qed.

#[local] Instance older_total : Total (older key_le ts).
Proof.
  intros a b. unfold older. destruct (Z.lt_total (ts a.2) (ts b.2)) as [?|[E|?]]; [tauto| |tauto].
  destruct (total key_le a.1 b.1); [left|right]; right; split; auto; lia.
Qed.

#[local] Instance newer_trans : Transitive (newer key_le ts).
Proof. intros a b c ? ?. unfold newer in *. by transitivity b. Qed.

#[local] Instance newer_total : Total (newer key_le ts).
Proof. intros a b. unfold newer. destruct (total (older key_le ts) a b); tauto. Qed.

Lemma older_key_eq a b : older key_le ts a b -> older key_le ts b a -> a.1 = b.1.
Proof. unfold older. intros [?|[? ?]] [?|[? ?]]; try lia. auto. Qed.

Lemma oldest_first_unique l l' :
  keyed l -> StronglySorted (older key_le ts) l -> l ≡ₚ l' -> oldest_first key_le ts l' = l.
Proof. apply sorted_unique; [apply _..|]. intros a b. apply older_key_eq. Qed.

Lemma newest_first_sorted l : StronglySorted (newer key_le ts) (newest_first key_le ts l).
Proof. apply StronglySorted_merge_sort; apply _. Qed.

Lemma oldest_first_sorted l : StronglySorted (older key_le ts) (oldest_first key_le ts l).
Proof. apply StronglySorted_merge_sort; apply _. Qed.

(** Everything beyond the first [n] newest rows is deleted. *)
Lemma delete_beyond_perm n (m : gmap K R) :
  map_to_list (delete_beyond key_le ts n m) ≡ₚ
  take (Z.to_nat n) (newest_first key_le ts (map_to_list m)).
Proof.
  apply delete_ids_perm. rewrite (Permutation_app_comm (drop _ _)), take_drop.
  symmetry. apply merge_sort_Permutation.
Qed.

(** The first [n] oldest rows are deleted, and the others keep their order. *)
Lemma delete_oldest_drop n (m : gmap K R) :
  0 <= n ->
  oldest_first key_le ts (map_to_list (delete_oldest key_le ts n m)) =
  drop (Z.to_nat n) (oldest_first key_le ts (map_to_list m)).
Proof.
  intros Hn. apply oldest_first_unique.
  - eapply keyed_perm; [apply delete_ids_perm|apply keyed_map].
    rewrite <- (merge_sort_Permutation (older key_le ts) (map_to_list m)) at 1.
    rewrite <- (take_drop (Z.to_nat n) (merge_sort _ _)). reflexivity.
  - apply StronglySorted_drop, oldest_first_sorted.
  - symmetry. apply delete_ids_perm. unfold sql_limit. rewrite (proj2 (Z.ltb_ge _ _)) by lia.
    rewrite take_drop. symmetry. apply merge_sort_Permutation.
Qed.

Lemma newest_first_perm l l' :
  keyed l -> l ≡ₚ l' -> newest_first key_le ts l = newest_first key_le ts l'.
Proof.
  intros Hk Hp. symmetry. apply (sorted_unique (newer key_le ts)).
  - intros a b Hab Hba. by apply older_key_eq.
  - eapply keyed_perm; [|exact Hk]. symmetry. apply merge_sort_Permutation.
  - apply newest_first_sorted.
  - rewrite <- Hp. apply merge_sort_Permutation.
Qed.

End Rank.

(** ** Deleting by rank within a partition *)

#[export] Instance Z_le_total : Total Z.le.
Proof. intros a b. lia. Qed.

Section Partitions.
Implicit Types (m : gmap Z TrafficRow) (e : Z * TrafficRow).

Definition partition_rows (p : bytes) (m : gmap Z TrafficRow) : list (Z * TrafficRow) :=
  newest_first Z.le tr_ts (filter (in_partition p) (map_to_list m)).

Lemma partition_rows_perm p m : partition_rows p m ≡ₚ filter (in_partition p) (map_to_list m).
Proof. apply merge_sort_Permutation. Qed.

Lemma keyed_filter (P : Z * TrafficRow -> Prop) `{!forall e, Decision (P e)} m :
  keyed (filter P (map_to_list m)).
Proof.
  unfold keyed. apply NoDup_fmap_fst.
  - intros k r1 r2. rewrite !list_elem_of_filter, !elem_of_map_to_list. naive_solver.
  - apply NoDup_filter, NoDup_map_to_list.
Qed.

Lemma partition_rows_keyed p m : keyed (partition_rows p m).
Proof. eapply keyed_perm; [symmetry; apply partition_rows_perm|apply keyed_filter]. Qed.

Lemma partition_rows_sorted p m : StronglySorted (newer Z.le tr_ts) (partition_rows p m).
Proof. apply newest_first_sorted; [apply _..|]. intros a b. lia. Qed.

(** Counting the rows before a row of a sorted list. *)
Lemma rank_in_sorted l i e :
  keyed l -> StronglySorted (newer Z.le tr_ts) l -> l !! i = Some e ->
  length (filter (fun x => newer Z.le tr_ts x e /\ x.1 <> e.1) l) = i.
Proof.
  intros Hk Hs Hi. pose proof (take_drop_middle _ _ _ Hi) as Hl. rewrite <- Hl in Hk, Hs |- *.
  apply StronglySorted_app in Hs as (Hbefore & _ & Hs).
  apply StronglySorted_cons in Hs as [Hafter _]. rewrite Forall_forall in Hafter.
  unfold keyed in Hk. rewrite fmap_app, fmap_cons in Hk. apply NoDup_app in Hk as (_ & Hd & [He _]%NoDup_cons).
  rewrite filter_app, length_app, filter_cons_False by tauto. rewrite filter_all, filter_none.
  - rewrite length_take. apply lookup_lt_Some in Hi. simpl. lia.
  - intros x Hx [Hn _]. apply He. specialize (Hafter x Hx).
    rewrite <- (older_key_eq Z.le ltac:(lia) tr_ts x e Hafter Hn). by apply list_elem_of_fmap_2.
  - intros x Hx. split; [apply Hbefore; set_solver|]. intros E.
    apply (Hd x.1); [by apply list_elem_of_fmap_2|]. rewrite E. set_solver.
Qed.

Lemma row_number_rank p m i e :
  partition_rows p m !! i = Some e -> row_number m e = 1 + Z.of_nat i.
Proof.
  intros Hi. pose proof (list_elem_of_lookup_2 _ _ _ Hi) as He.
  rewrite partition_rows_perm, list_elem_of_filter in He. destruct He as [Hp _].
  unfold row_number. unfold in_partition in Hp at 1. rewrite Hp. f_equal. f_equal.
  rewrite <- (partition_rows_perm p m).
  apply rank_in_sorted; [apply partition_rows_keyed|apply partition_rows_sorted|done].
Qed.

(** The rows of a partition that stay are its [n] newest. *)
Lemma delete_traffic_beyond_perm n p m :
  filter (in_partition p) (map_to_list (delete_traffic_beyond n m)) ≡ₚ
  take (Z.to_nat n) (partition_rows p m).
Proof.
  apply NoDup_Permutation.
  - apply NoDup_filter, NoDup_map_to_list.
  - eapply sublist_NoDup; [|apply sublist_take]. eapply NoDup_fmap_1, partition_rows_keyed.
  - intros [k r]. rewrite list_elem_of_filter, elem_of_map_to_list.
    unfold delete_traffic_beyond, delete_ids. rewrite map_lookup_filter_Some. cbn [fst].
    split.
    + intros (Hp & Hm & Hno).
      assert (Hin : (k, r) ∈ partition_rows p m).
      { rewrite partition_rows_perm, list_elem_of_filter, elem_of_map_to_list. done. }
      apply list_elem_of_lookup in Hin as [i Hi]. pose proof (row_number_rank _ _ _ _ Hi) as Hr.
      apply list_elem_of_lookup. exists i. rewrite lookup_take_lt; [done|].
      assert (~ n < row_number m (k, r)); [|lia]. intros Hn. apply Hno. apply list_elem_of_fmap.
      exists (k, r). split; [done|]. by rewrite list_elem_of_filter, elem_of_map_to_list.
    + intros [i Hi]%list_elem_of_lookup. apply lookup_take_Some in Hi as [Hi Hlt].
      pose proof (row_number_rank _ _ _ _ Hi) as Hr.
      apply list_elem_of_lookup_2 in Hi. rewrite partition_rows_perm, list_elem_of_filter, elem_of_map_to_list in Hi.
      destruct Hi as [Hp Hm]. split_and!; [done|done|].
      intros ([k' r'] & E & Hk')%list_elem_of_fmap. simpl in E. subst k'.
      rewrite list_elem_of_filter, elem_of_map_to_list in Hk'. destruct Hk' as [Hn Hm'].
      assert (r' = r) by congruence. subst r'. lia.
Qed.

End Partitions.

(** ** Retention *)

#[local] Set Default Proof Using "Type".

Lemma size_take_perm {A K R} `{Countable K} (m : gmap K R) (l : list A) (f : A -> K * R) n :
  map_to_list m ≡ₚ f <$> take n l -> (size m <= n)%nat.
Proof. intros Hp. rewrite <- length_map_to_list, Hp, length_fmap, length_take. lia. Qed.

Section Spec.
Context (config : Config) {API : SqliteApi} {SPEC : SqliteSpec API}.
Implicit Types c : conn.

(** The rows of a table that are at most as old as the cutoff, newest first. *)
Definition recent {K R} (key_le : K -> K -> Prop) `{!RelDecision key_le} (ts : R -> Z) (cutoff : Z)
    (l : list (K * R)) : list (K * R) :=
  newest_first key_le ts (filter (fun e => cutoff <= ts e.2) l).

(** The limits of the tables, as the code passes them. *)
Definition event_limit : Z := Z.max 1 (sqlite_max_events config).
Definition attack_limit : Z := Z.max 1 (max_attack_events config).
Definition device_limit : Z := Z.max 1 (sqlite_max_traffic_points_per_device config).

Definition limits_ok : Prop := event_limit < two63 /\ attack_limit < two63 /\ device_limit < two63.

Lemma retention_transaction_view now c :
  view (retention_transaction config now c) =
  foldl (fun t cmd => run_command cmd t) (view c)
    [DeleteOlderThan EventsTable (retention_cutoff config now);
     DeleteOlderThan WanAttacksTable (retention_cutoff config now);
     DeleteOlderThan TrafficSamplesTable (retention_cutoff config now);
     DeleteBeyondLimit EventsTable (i64 event_limit);
     DeleteBeyondLimit WanAttacksTable (i64 attack_limit);
     DeleteTrafficBeyondLimit (i64 device_limit)].
Proof.
  unfold retention_transaction. rewrite execLog_view by neutral.
  unfold deleteTrafficBeyondDeviceLimit, deleteBeyondLimit, deleteOlderThan.
  rewrite !run_statement_view. rewrite execLog_view by neutral. done.
Qed.

Lemma bytes_le_anti a b : bytes_le a b -> bytes_le b a -> a = b.
Proof. apply bytes_le_antisym. Qed.

Lemma retention_cutoff_exact now :
  sqlite_retention_days config <= 100000 -> sane_time now ->
  retention_cutoff config now = unixSeconds (now - Z.max 1 (sqlite_retention_days config) * 86400 * ns_per_s).
Proof.
  intros Hd Hn. unfold retention_cutoff, hours, sane_time in *.
  set (days := Z.max 1 (sqlite_retention_days config)). assert (1 <= days <= 100000) by lia.
  assert (Hi : i32 (24 * days) = 24 * days).
  { unfold i32. change (two32 / 2) with 2147483648. unfold two32. rewrite Z.mod_small by lia. lia. }
  change (two63 / 2) with 4611686018427387904 in Hn.
  rewrite Hi. rewrite (i64_small (24 * days * 3600 * ns_per_s)) by words.
  rewrite i64_small by words. f_equal. lia.
Qed.

Lemma recent_rows {K R} `{Countable K} (key_le : K -> K -> Prop) `{!RelDecision key_le, !Transitive key_le, !Total key_le}
    (ts : R -> Z) cutoff n (m : gmap K R) :
  (forall a b, key_le a b -> key_le b a -> a = b) ->
  map_to_list (delete_beyond key_le ts n (delete_older ts cutoff m)) ≡ₚ
  take (Z.to_nat n) (recent key_le ts cutoff (map_to_list m)).
Proof.
  intros Hanti. rewrite (delete_beyond_perm key_le Hanti ts). unfold recent.
  rewrite (newest_first_perm key_le Hanti ts _ _ (keyed_map _) (delete_older_perm ts cutoff m)). done.
Qed.

Lemma recent_partition cutoff n p m :
  filter (in_partition p) (map_to_list (delete_traffic_beyond n (delete_older tr_ts cutoff m))) ≡ₚ
  take (Z.to_nat n) (recent Z.le tr_ts cutoff (filter (in_partition p) (map_to_list m))).
Proof.
  rewrite delete_traffic_beyond_perm. unfold partition_rows, recent.
  erewrite (newest_first_perm Z.le ltac:(lia) tr_ts); [reflexivity|apply keyed_filter|].
  rewrite delete_older_perm, !list_filter_filter.
  apply NoDup_Permutation; [apply NoDup_filter, NoDup_map_to_list..|].
  intros e. rewrite !list_elem_of_filter. tauto.
Qed.

(** C18: the retention transaction keeps, of the events and of the attacks, exactly the newest
    rows up to the limit among those not older than the cutoff, and of the traffic samples the
    same for every device on its own; it leaves the devices alone.  The cutoff is the given
    number of days, and at least one, before now, for up to 100000 days. *)
Theorem retention_keeps_newest now c :
  limits_ok ->
  let t := view c in
  let t1 := view (retention_transaction config now c) in
  let cutoff := retention_cutoff config now in
  map_to_list (t_events t1) ≡ₚ
    take (Z.to_nat event_limit) (recent bytes_le er_ts cutoff (map_to_list (t_events t))) /\
  map_to_list (t_attacks t1) ≡ₚ
    take (Z.to_nat attack_limit) (recent Z.le ar_ts cutoff (map_to_list (t_attacks t))) /\
  (forall p, filter (in_partition p) (map_to_list (t_traffic t1)) ≡ₚ
    take (Z.to_nat device_limit)
      (recent Z.le tr_ts cutoff (filter (in_partition p) (map_to_list (t_traffic t))))) /\
  t_devices t1 = t_devices t /\
  (sqlite_retention_days config <= 100000 -> sane_time now ->
   cutoff = unixSeconds (now - Z.max 1 (sqlite_retention_days config) * 86400 * ns_per_s)).
Proof.
  intros (He & Ha & Hd) t t1 cutoff. unfold t1. rewrite retention_transaction_view. fold t cutoff.
  unfold event_limit, attack_limit, device_limit in *. rewrite !i64_small by words. cbn.
  split_and!; [by apply (recent_rows bytes_le), bytes_le_anti|by apply (recent_rows Z.le); intros a b; lia|intros p; apply recent_partition|done|].
  apply retention_cutoff_exact.
Qed.

(** *** The size limit *)

Lemma databaseBytes_view c : view (databaseBytes c).2 = view c.
Proof. unfold databaseBytes. simpl. apply execLog_view. neutral. Qed.

(** What one round deletes. *)
Definition prune_tables (t : Tables) : Tables :=
  run_command (PruneOldRows WanAttacksTable 250)
    (run_command (PruneOldRows EventsTable 250) (run_command (PruneOldRows TrafficSamplesTable 1000) t)).

Lemma size_round_view c : view (size_round c) = prune_tables (view c).
Proof.
  unfold size_round, pruneOldRows. rewrite !execLog_view by neutral. rewrite !run_statement_view.
  rewrite execLog_view by neutral. done.
Qed.

Lemma size_loop_view rounds max_bytes c :
  exists j, (j <= rounds)%nat /\ view (size_loop rounds max_bytes c) = Nat.iter j prune_tables (view c) /\
    ((j < rounds)%nat -> exists c1, view c1 = Nat.iter j prune_tables (view c) /\ (databaseBytes c1).1 <= max_bytes).
Proof.
  revert c. induction rounds as [|rounds IH]; intros c.
  { exists 0%nat. split_and!; [done|done|lia]. }
  cbn [size_loop]. destruct (databaseBytes c) as [n c'] eqn:E.
  pose proof (databaseBytes_view c) as Hv. rewrite E in Hv. simpl in Hv.
  destruct (max_bytes <? n) eqn:Hn; b2p.
  - destruct (IH (size_round c')) as (j & Hj & Hjv & Hlt). rewrite size_round_view, Hv in Hjv, Hlt.
    exists (S j). rewrite !Nat.iter_succ_r. split_and!; [lia|done|]. intros ?. apply Hlt. lia.
  - exists 0%nat. split_and!; [lia|done|]. intros _. exists c. split; [done|]. by rewrite E.
Qed.

Lemma prune_iter_oldest {K R} `{Countable K} (key_le : K -> K -> Prop) `{!RelDecision key_le, !Transitive key_le, !Total key_le}
    (ts : R -> Z) (get : Tables -> gmap K R) n t j :
  (forall a b, key_le a b -> key_le b a -> a = b) ->
  0 <= n -> (forall t, get (prune_tables t) = delete_oldest key_le ts n (get t)) ->
  oldest_first key_le ts (map_to_list (get (Nat.iter j prune_tables t))) =
  drop (j * Z.to_nat n) (oldest_first key_le ts (map_to_list (get t))).
Proof.
  intros Hanti Hn Hget. induction j as [|j IH]; [done|].
  rewrite Nat.iter_succ, Hget, delete_oldest_drop by done. rewrite IH, drop_drop.
  f_equal. lia.
Qed.

Definition size_cap : Z := Z.max 1 (sqlite_max_db_mb config) * 1024 * 1024.

Lemma prune_iter_devices t j : t_devices (Nat.iter j prune_tables t) = t_devices t.
Proof. induction j as [|j IH]; [done|]. by rewrite Nat.iter_succ. Qed.

(** C27: the loop of the size limit ends after at most twelve rounds, whatever sizes the library
    reports.  Every round deletes the 1000 oldest traffic samples, the 250 oldest events and
    the 250 oldest attacks and nothing else; no round runs when the database is small enough,
    and fewer than twelve run only if a measurement found it small enough. *)
Theorem size_limit_prunes_oldest c :
  exists j, (j <= 12)%nat /\
    let t := view c in
    let t1 := view (enforceSizeLimit config c) in
    oldest_first Z.le tr_ts (map_to_list (t_traffic t1)) =
      drop (j * 1000) (oldest_first Z.le tr_ts (map_to_list (t_traffic t))) /\
    oldest_first bytes_le er_ts (map_to_list (t_events t1)) =
      drop (j * 250) (oldest_first bytes_le er_ts (map_to_list (t_events t))) /\
    oldest_first Z.le ar_ts (map_to_list (t_attacks t1)) =
      drop (j * 250) (oldest_first Z.le ar_ts (map_to_list (t_attacks t))) /\
    t_devices t1 = t_devices t /\
    ((databaseBytes c).1 <= size_cap -> j = 0%nat) /\
    ((j < 12)%nat -> exists c1, view c1 = t1 /\ (databaseBytes c1).1 <= size_cap).
Proof.
  assert (H : exists j, (j <= 12)%nat /\ view (enforceSizeLimit config c) = Nat.iter j prune_tables (view c) /\
    ((databaseBytes c).1 <= size_cap -> j = 0%nat) /\
    ((j < 12)%nat -> exists c1, view c1 = Nat.iter j prune_tables (view c) /\ (databaseBytes c1).1 <= size_cap)).
  { unfold enforceSizeLimit. fold size_cap. destruct (databaseBytes c) as [n c'] eqn:E.
    pose proof (databaseBytes_view c) as Hv. rewrite E in Hv. simpl in Hv.
    destruct (n <=? size_cap) eqn:Hn; b2p.
    - exists 0%nat. split_and!; [lia|done|done|]. intros _. exists c. by rewrite E.
    - destruct (size_loop_view 12 size_cap (execLog "PRAGMA wal_checkpoint(TRUNCATE);" c')) as (j & Hj & Hjv & Hlt).
      assert (Hv' : view (execLog "PRAGMA wal_checkpoint(TRUNCATE);" c') = view c)
        by (rewrite execLog_view by neutral; done).
      rewrite Hv' in Hjv, Hlt.
      exists j. rewrite databaseBytes_view. split_and!; [done|done|simpl; lia|done]. }
  destruct H as (j & Hj & Hv & H0 & Hlt). exists j. split; [done|]. cbv zeta. rewrite Hv.
  split_and!; [| | |apply prune_iter_devices|done|done].
  - by apply (prune_iter_oldest Z.le tr_ts t_traffic 1000); [lia|..].
  - by apply (prune_iter_oldest bytes_le er_ts t_events 250); [apply bytes_le_anti|..].
  - by apply (prune_iter_oldest Z.le ar_ts t_attacks 250); [lia|..].
Qed.

(** *** A retention time that wraps around *)

(** [sqlite_retention_days] of 200000 is accepted by the loader, but its nanoseconds wrap
    around in 64 bits: the cutoff lies in the future, and retention deletes every event up to
    now, and so every event there is. *)
Theorem huge_retention_deletes_everything now c :
  sqlite_retention_days config = 200000 -> sane_time now ->
  (forall k r, t_events (view c) !! k = Some r -> er_ts r <= unixSeconds now) ->
  t_events (view (retention_transaction config now c)) = ∅.
Proof.
  intros Hd Hn Hall.
  assert (Hc : unixSeconds now < retention_cutoff config now).
  { unfold retention_cutoff. rewrite Hd. unfold sane_time in Hn.
    change (two63 / 2) with 4611686018427387904 in Hn.
    replace (i64 (hours (i32 (24 * Z.max 1 200000)))) with (-1166744073709551616) by (by vm_compute).
    rewrite i64_small by words. unfold unixSeconds.
    rewrite !(proj2 (Z.eqb_neq _ _)) by lia. rewrite !Z.quot_div_nonneg by words.
    apply Z.div_lt_upper_bound; [done|].
    pose proof (Z.div_mod (now - -1166744073709551616) ns_per_s ltac:(done)).
    pose proof (Z.mod_pos_bound (now - -1166744073709551616) ns_per_s ltac:(done)). words. }
  rewrite retention_transaction_view. cbn.
  replace (delete_older er_ts (retention_cutoff config now) (t_events (view c))) with (∅ : gmap bytes EventRow).
  - by vm_compute.
  - symmetry. apply map_empty. intros k. apply map_lookup_filter_None. right.
    intros r Hk. simpl. specialize (Hall k r Hk). lia.
Qed.

End Spec.

(** ** Concrete inputs *)

Definition demo_sqlite_config : Config :=
  default_Config <| storage_mode := "sqlite" |> <| sqlite_max_events := 2 |> <| sqlite_retention_days := 1 |>.

Definition demo_now : time := 1700000000 * ns_per_s.

Definition demo_row (id : bytes) (ts : Z) : EventRow := mkEventRow id ts "device" "info" "192.168.1.1" "Device snapshot" "{}".

(** One event of last week and three of the last minutes. *)
Definition demo_tables : Tables :=
  empty_Tables <| t_events :=
    list_to_map [("evt-1" : bytes, demo_row "evt-1" 1699300000); ("evt-2" : bytes, demo_row "evt-2" 1699999900);
                 ("evt-3" : bytes, demo_row "evt-3" 1699999950); ("evt-4" : bytes, demo_row "evt-4" 1699999990)] |>.

Lemma retention_keeps_newest_witness :
  dom (t_events (@view _ memory_spec (retention_transaction demo_sqlite_config demo_now demo_tables))) ≡
  {["evt-3" : bytes; "evt-4" : bytes]}.
Proof.
  assert (H : limits_ok demo_sqlite_config) by (by vm_compute).
  destruct (@retention_keeps_newest demo_sqlite_config _ memory_spec demo_now demo_tables H) as (Hp & _).
  intros k. rewrite elem_of_dom. split.
  - intros [r Hr]. apply elem_of_map_to_list in Hr. rewrite Hp in Hr. revert Hr.
    match goal with |- _ ∈ ?l -> _ => let l' := eval vm_compute in l in replace l with l' by (by vm_compute) end.
    rewrite !elem_of_cons, elem_of_nil. set_solver.
  - intros Hk. assert (Hin : k ∈ (map_to_list (t_events (@view _ memory_spec
      (retention_transaction demo_sqlite_config demo_now demo_tables)))).*1).
    { rewrite Hp. match goal with |- _ ∈ ?l => let l' := eval vm_compute in l in replace l with l' by (by vm_compute) end. set_solver. }
    apply list_elem_of_fmap in Hin as ([k' r] & -> & Hin). apply elem_of_map_to_list in Hin. by exists r.
Defined.

Lemma huge_retention_deletes_everything_witness :
  t_events (@view _ memory_spec (retention_transaction
    (demo_sqlite_config <| sqlite_retention_days := 200000 |>) demo_now demo_tables)) = ∅.
Proof.
  apply (@huge_retention_deletes_everything _ _ memory_spec); [reflexivity|by vm_compute|].
  intros k r Hk. apply elem_of_map_to_list in Hk. revert Hk.
  match goal with |- _ ∈ ?l -> _ => let l' := eval vm_compute in l in replace l with l' by (by vm_compute) end.
  rewrite !elem_of_cons, elem_of_nil. intros [[= -> ->]|[[= -> ->]|[[= -> ->]|[[= -> ->]|[]]]]]; by vm_compute.
Defined.

Lemma size_limit_prunes_oldest_witness :
  oldest_first bytes_le er_ts (map_to_list (t_events
    (@view _ memory_spec (enforceSizeLimit demo_sqlite_config demo_tables)))) =
  oldest_first bytes_le er_ts (map_to_list (t_events demo_tables)).
Proof.
  destruct (@size_limit_prunes_oldest demo_sqlite_config _ memory_spec demo_tables)
    as (j & _ & _ & He & _ & _ & H0 & _).
  rewrite H0 in He by (by vm_compute). exact He.
Defined.
