(* ===== verification/SqliteAggregates.v ===== *)
(** * The two aggregations of sqlite_store.cpp

    [deviceTrafficTotals] and [trafficHistory] run over the rows with hash maps of the state of
    each device.  Both are shown equal to definitions without that state: the totals are the sums
    of the increments of each device's own samples, and a bucket of the history is the sum of the
    rates between each sample and the latest earlier sample of the same device. *)

From S2P Require Import Prelude Utils RingBuffer Double Types Config RuntimeStats StateStore.
From S2P Require Import Sqlite SqliteEngine.

(** ** Totals *)

Definition totals_key (row : TotalsRow) : bytes :=
  let m := lower (sr_mac row) in if decide (m <> []) then mac_key m else ip_key (sr_ip row).

(** The samples of one device, in order. *)
Definition group (k : bytes) (rows : list TotalsRow) : list TotalsRow := filter (fun r => totals_key r = k) rows.

(** The sum of what each sample adds to the one before it. *)
Fixpoint increments (l : list Z) : Z :=
  match l with
  | a :: (b :: _) as t => counted_since b a + increments t
  | _ => 0
  end.

Definition summarize (rows : list TotalsRow) : DeviceTrafficTotal :=
  match rows with
  | [] => default_DeviceTrafficTotal
  | r0 :: _ =>
      mkDeviceTrafficTotal (lower (sr_mac r0)) (sr_ip r0) (sr_hostname r0)
        (timeFromColumn (sr_ts r0)) (default epoch (timeFromColumn ∘ sr_ts <$> last rows))
        (u64 (increments (u64 ∘ sr_rx_bytes <$> rows))) (u64 (increments (u64 ∘ sr_tx_bytes <$> rows)))
        (Z.of_nat (length rows))
  end.

Lemma increments_snoc l p x : increments (l ++ [p; x]) = increments (l ++ [p]) + counted_since x p.
Proof.
  induction l as [|a l IH]; [simpl; lia|]. destruct l as [|b l]; [simpl; lia|].
  cbn [app increments] in *. rewrite IH. lia.
Qed.

Lemma increments_monotone l a z :
  StronglySorted Z.le (a :: l) -> Forall (fun n => 0 <= n < two64) (a :: l) -> last (a :: l) = Some z ->
  increments (a :: l) = z - a.
Proof.
  revert a. induction l as [|b l IH]; intros a Hs Hr Hz; [injection Hz as ->; simpl; lia|].
  apply StronglySorted_cons in Hs as [Ha Hs]. rewrite Forall_cons in Ha. rewrite !Forall_cons in Hr.
  destruct Ha as [Hab _]. destruct Hr as (? & ? & ?). change (last (a :: b :: l)) with (last (b :: l)) in Hz.
  change (increments (a :: b :: l)) with (counted_since b a + increments (b :: l)).
  rewrite (IH b Hs) by (done || by constructor). unfold counted_since.
  rewrite (proj2 (Z.leb_le _ _)) by lia. rewrite u64_small by lia. lia.
Qed.

(** What [totals_step] holds for a device after some rows. *)
Definition accumulator_of (rows : list TotalsRow) : option Accumulator :=
  match last rows with
  | None => None
  | Some r => Some (mkAccumulator (summarize rows) (u64 (sr_rx_bytes r)) (u64 (sr_tx_bytes r)) true)
  end.

Lemma group_snoc k rows r :
  group k (rows ++ [r]) = group k rows ++ (if decide (totals_key r = k) then [r] else []).
Proof.
  unfold group. rewrite filter_app. by f_equal.
Qed.

(** One more sample of a device. *)
Lemma summarize_snoc rows p r :
  last rows = Some p ->
  summarize (rows ++ [r]) =
  (summarize rows)
    <| dt_rx_bytes := u64 (dt_rx_bytes (summarize rows) + counted_since (u64 (sr_rx_bytes r)) (u64 (sr_rx_bytes p))) |>
    <| dt_tx_bytes := u64 (dt_tx_bytes (summarize rows) + counted_since (u64 (sr_tx_bytes r)) (u64 (sr_tx_bytes p))) |>
    <| dt_last_ts := timeFromColumn (sr_ts r) |>
    <| dt_samples := dt_samples (summarize rows) + 1 |>.
Proof.
  intros Hp. apply last_Some in Hp as [l ->]. destruct l as [|r0 l]; cbn.
  - rewrite !(u64_small 0), !Z.add_0_l, !Z.add_0_r by words. done.
  - rewrite !last_cons, !last_snoc. rewrite <- !app_assoc. cbn [app].
    rewrite !fmap_app. cbn [fmap list_fmap]. 
    pose proof (increments_snoc (u64 ∘ sr_rx_bytes <$> r0 :: l) (u64 (sr_rx_bytes p)) (u64 (sr_rx_bytes r))) as Hrx.
    pose proof (increments_snoc (u64 ∘ sr_tx_bytes <$> r0 :: l) (u64 (sr_tx_bytes p)) (u64 (sr_tx_bytes r))) as Htx.
    cbn in Hrx, Htx. cbn. rewrite Hrx, Htx, !u64_add_l, !length_app.
    f_equal. simpl. lia.
Qed.

Lemma summarize_samples rows : dt_samples (summarize rows) = Z.of_nat (length rows).
Proof. by destruct rows. Qed.

Definition counted_key (k : bytes) : Prop := k <> "ip:".

(** The hash map after the rows holds for every device what its own samples say. *)
Lemma totals_fold rows k :
  fold_left totals_step rows ∅ !! k =
  if decide (counted_key k) then accumulator_of (group k rows) else None.
Proof.
  induction rows as [|r rows IH] using rev_ind.
  { cbn [fold_left]. rewrite lookup_empty. by case_decide. }
  rewrite fold_left_app, group_snoc. cbn [fold_left].
  set (m := fold_left totals_step rows ∅) in *. unfold totals_step. fold (totals_key r).
  destruct (decide (totals_key r = "ip:")) as [Hr|Hr].
  { rewrite IH. case_decide as Hk; [|done]. rewrite decide_False by congruence. by rewrite app_nil_r. }
  destruct (decide (totals_key r = k)) as [<-|Hne].
  2:{ rewrite lookup_insert_ne by done. by rewrite IH, app_nil_r. }
  rewrite lookup_insert_eq. rewrite decide_True in IH |- * by done.
  unfold accumulator_of in *. rewrite last_snoc. rewrite IH.
  destruct (last (group (totals_key r) rows)) as [p|] eqn:Hp; f_equal.
  - rewrite (summarize_snoc _ p r Hp). cbn [from_option id acc_total acc_previous_rx acc_previous_tx acc_has_previous].
    rewrite summarize_samples. destruct (group (totals_key r) rows) as [|x l] eqn:Hg; [done|].
    cbn [length]. rewrite (proj2 (Z.eqb_neq (Z.of_nat (S (length l))) 0)) by lia. done.
  - apply last_None in Hp. by rewrite Hp.
Qed.

#[export] Instance total_before_trans : Transitive total_before.
Proof. intros a b c. unfold total_before. lia. Qed.

#[export] Instance total_before_total : Total total_before.
Proof. intros a b. unfold total_before. lia. Qed.

Lemma accumulator_of_total rows acc : accumulator_of rows = Some acc -> acc_total acc = summarize rows /\ rows <> [].
Proof. unfold accumulator_of. destruct (last rows) eqn:E; [|done]. intros [= <-]. split; [done|]. by destruct rows. Qed.

Lemma accumulator_of_None rows : accumulator_of rows = None <-> rows = [].
Proof.
  unfold accumulator_of. rewrite <- last_None. by destruct (last rows).
Qed.

(** The cut at the limit; 0 is no limit. *)
Definition cut {A} (limit : Z) (l : list A) : list A := if 0 <? limit then take (Z.to_nat limit) l else l.

Lemma totals_of_rows_spec {HO : HashOrder} limit rows :
  exists keys all,
    NoDup keys /\ (forall k, k ∈ keys <-> counted_key k /\ group k rows <> []) /\
    all ≡ₚ (fun k => summarize (group k rows)) <$> keys /\ StronglySorted total_before all /\
    totals_of_rows limit rows = cut limit all.
Proof.
  set (m := fold_left totals_step rows ∅).
  exists (iter_order m).*1, (merge_sort total_before ((fun entry => acc_total entry.2) <$> iter_order m)).
  split_and!.
  - apply NoDup_iter_order_keys.
  - intros k. rewrite iter_order_perm, list_elem_of_fmap. unfold m. split.
    + intros ([k' acc] & -> & Hin%elem_of_map_to_list). rewrite totals_fold in Hin. simpl.
      case_decide; [|done]. split; [done|]. by apply accumulator_of_total in Hin as [_ ?].
    + intros [Hk Hg]. destruct (accumulator_of (group k rows)) as [acc|] eqn:E.
      * exists (k, acc). split; [done|]. apply elem_of_map_to_list. rewrite totals_fold. by rewrite decide_True.
      * by apply accumulator_of_None in E.
  - rewrite merge_sort_Permutation, <- list_fmap_compose. 
    erewrite list_fmap_ext; [reflexivity|]. intros i [k acc] Hi. simpl.
    apply list_elem_of_lookup_2, elem_of_iter_order in Hi. unfold m in Hi. rewrite totals_fold in Hi.
    case_decide; [|done]. by apply accumulator_of_total in Hi as [-> _].
  - apply (StronglySorted_merge_sort total_before).
  - unfold totals_of_rows, cut. fold m. destruct (0 <? limit) eqn:E; [|done]. b2p. simpl.
    destruct (limit <? _) eqn:Hl; [done|]. b2p. rewrite take_ge; [done|]. lia.
Qed.

#[export] Instance totals_before_total : Total totals_before.
Proof.
  intros a b. unfold totals_before, older.
  destruct (decide (traffic_device_key a.2 = traffic_device_key b.2)) as [E|E].
  - destruct (Z.lt_total (tr_ts a.2) (tr_ts b.2)) as [?|[?|?]];
      [left; right; split; [congruence|by left]| |right; right; split; [congruence|left; lia]].
    destruct (Z.le_ge_cases a.1 b.1); [left|right]; right; (split; [congruence|right; lia]).
  - destruct (total bytes_le (traffic_device_key a.2) (traffic_device_key b.2)); [left|right]; left; auto.
Qed.

#[export] Instance totals_before_trans : Transitive totals_before.
Proof.
  intros a b c. unfold totals_before, older.
  intros [[N1 L1]|[E1 O1]] [[N2 L2]|[E2 O2]].
  - left. split; [|by etrans]. intros E. apply N1. rewrite E in L1 |- *. by apply bytes_le_antisym.
  - left. by rewrite <- E2.
  - left. by rewrite E1.
  - right. split; [congruence|]. lia.
Qed.

(** C23: the totals of the last hours are, for every device with a sample since the cutoff, the
    sums of what each of its own samples adds to the one before it in the order of time (all of
    a counter that went back, the difference otherwise, modulo 2^64), with its first and last
    time and the number of samples; every device appears once, the largest first, cut at the
    limit.  Without resets a sum is the last counter less the first. *)
Theorem totals_are_sums_of_increments {API : SqliteApi} {SPEC : SqliteSpec API} {HO : HashOrder}
    now window limit (c : conn) :
  let cutoff := unixSeconds (i64 (now - i64 (hours window))) in
  exists samples keys all,
    samples ≡ₚ filter (fun e => cutoff <= tr_ts e.2) (map_to_list (t_traffic (view c))) /\
    StronglySorted totals_before samples /\
    let rows := totals_row (t_devices (view c)) <$> samples.*2 in
    NoDup keys /\ (forall k, k ∈ keys <-> counted_key k /\ group k rows <> []) /\
    all ≡ₚ (fun k => summarize (group k rows)) <$> keys /\ StronglySorted total_before all /\
    deviceTrafficTotals now window limit c = cut limit all /\
    (forall k z, let counters := u64 ∘ sr_rx_bytes <$> group k rows in
       StronglySorted Z.le counters -> last counters = Some z ->
       dt_rx_bytes (summarize (group k rows)) = z - default 0 (head counters)).
Proof.
  intros cutoff. pose proof (query_rows_answers (SelectTotals cutoff) c) as Hq. simpl in Hq.
  set (samples := merge_sort totals_before (filter (fun e => cutoff <= tr_ts e.2) (map_to_list (t_traffic (view c))))) in *.
  destruct (totals_of_rows_spec limit (totals_row (t_devices (view c)) <$> samples.*2)) as (keys & all & H).
  exists samples, keys, all. split; [apply merge_sort_Permutation|].
  split; [apply (StronglySorted_merge_sort totals_before)|]. cbv zeta.
  destruct H as (H1 & H2 & H3 & H4 & H5). split_and!; [done..|by unfold deviceTrafficTotals; fold cutoff; rewrite Hq|].
  intros k z Hs Hz. destruct (group k _) as [|r0 l]; [done|]. cbn [summarize dt_rx_bytes].
  cbn [fmap list_fmap] in Hs, Hz |- *. 
  assert (Hr : Forall (fun n => 0 <= n < two64) (u64 (sr_rx_bytes r0) :: (u64 ∘ sr_rx_bytes <$> l))).
  { constructor; [apply u64_range|]. apply Forall_fmap, Forall_true. intros r. apply u64_range. }
  rewrite (increments_monotone _ _ z Hs Hr Hz). cbn [head default from_option id]. apply u64_small.
  apply last_Some_elem_of in Hz. rewrite Forall_forall in Hr. pose proof (Hr z Hz).
  apply StronglySorted_cons in Hs as [Hs _]. rewrite Forall_forall in Hs.
  apply elem_of_cons in Hz as [->|Hz]; [words|]. specialize (Hs z Hz). pose proof (u64_range (sr_rx_bytes r0)).
  unfold compose in *. words.
Qed.

(** ** History *)

(** The samples of one device among [rows]. *)
Definition same_device (k : bytes) (rows : list TrafficRow) : list TrafficRow :=
  filter (fun r => traffic_device_key r = k) rows.

(** What a sample adds, given the samples before it: its bucket and its two rates since the
    latest earlier sample of its device. *)
Definition contribution (seen : list TrafficRow) (row : TrafficRow) : option (Z * double * double) :=
  if decide (traffic_device_key row = "ip:") then None
  else
    match last (same_device (traffic_device_key row) seen) with
    | None => None
    | Some p =>
        let dt := d_seconds (tsub (fromUnixSeconds (tr_ts row)) (fromUnixSeconds (tr_ts p))) in
        let rx := u64 (tr_rx_bytes row) in
        let tx := u64 (tr_tx_bytes row) in
        if dltb d_zero dt && negb ((rx <? u64 (tr_rx_bytes p)) || (tx <? u64 (tr_tx_bytes p))) then
          Some (tr_ts row - Z.rem (tr_ts row) 5,
                rate_bps (u64 (rx - u64 (tr_rx_bytes p))) dt, rate_bps (u64 (tx - u64 (tr_tx_bytes p))) dt)
        else None
    end.

(** The contributions of all samples, in their order. *)
Fixpoint contributions (seen rows : list TrafficRow) : list (Z * double * double) :=
  match rows with
  | [] => []
  | row :: rest => option_list (contribution seen row) ++ contributions (seen ++ [row]) rest
  end.

Definition in_bucket (b : Z) (x : Z * double * double) : Prop := x.1.1 = b.

#[export] Instance in_bucket_dec b x : Decision (in_bucket b x).
Proof. unfold in_bucket. apply _. Defined.

Definition add_to_bucket (bucket : Bucket) (x : Z * double * double) : Bucket :=
  mkBucket (dadd (bk_rx_rate_bps bucket) x.1.2) (dadd (bk_tx_rate_bps bucket) x.2) (bk_samples bucket + 1).

(** The bucket of some contributions, if there are any. *)
Definition bucket_of (l : list (Z * double * double)) : option Bucket :=
  match l with [] => None | _ => Some (fold_left add_to_bucket l default_Bucket) end.

Lemma contributions_snoc seen rows row :
  contributions seen (rows ++ [row]) = contributions seen rows ++ option_list (contribution (seen ++ rows) row).
Proof.
  revert seen. induction rows as [|r rows IH]; intros seen; cbn [app contributions].
  - by rewrite !app_nil_r.
  - rewrite IH, <- app_assoc. by rewrite <- app_assoc.
Qed.

Lemma bucket_of_snoc l x : bucket_of (l ++ [x]) = Some (add_to_bucket (default default_Bucket (bucket_of l)) x).
Proof. destruct l as [|y l]; [done|]. simpl. by rewrite fold_left_app. Qed.

(** The hash map of previous samples and the map of buckets, after some rows. *)
Lemma history_fold rows :
  let '(previous, buckets) := fold_left history_step rows (∅, ∅) in
  (forall k : bytes, previous !! k =
     if decide (k = "ip:") then None
     else (fun p => mkPreviousSample (fromUnixSeconds (tr_ts p)) (u64 (tr_rx_bytes p)) (u64 (tr_tx_bytes p)))
            <$> last (same_device k rows)) /\
  (forall b, buckets !! b = bucket_of (filter (in_bucket b) (contributions [] rows))).
Proof.
  induction rows as [|row rows IH] using rev_ind.
  { cbn. split; intros k; rewrite lookup_empty; [by case_decide|done]. }
  rewrite fold_left_app, contributions_snoc. cbn [fold_left app].
  destruct (fold_left history_step rows (∅, ∅)) as [previous buckets]. destruct IH as [Hp Hb].
  unfold history_step. fold (traffic_device_key row).
  unfold contribution. destruct (decide (traffic_device_key row = "ip:")) as [Hk|Hk].
  { cbn [option_list]. rewrite app_nil_r. split; [|done]. intros k. rewrite Hp. case_decide; [done|].
    unfold same_device. rewrite filter_app, filter_cons_False by congruence. by rewrite app_nil_r. }
  rewrite (Hp (traffic_device_key row)), decide_False by done. split.
  - intros k. unfold same_device. rewrite filter_app.
    destruct (decide (k = "ip:")) as [->|Hne].
    + rewrite lookup_insert_ne by done. by rewrite Hp, decide_True.
    + destruct (decide (traffic_device_key row = k)) as [<-|Hno].
      * rewrite lookup_insert_eq, filter_cons_True, filter_nil by done. by rewrite last_snoc.
      * rewrite lookup_insert_ne, filter_cons_False, filter_nil by done.
        rewrite app_nil_r, Hp, decide_False by done. done.
  - intros b. rewrite filter_app.
    destruct (last (same_device (traffic_device_key row) rows)) as [p|]; cbn [fmap option_fmap option_map ps_ts ps_rx_bytes ps_tx_bytes].
    2:{ cbn [option_list]. by rewrite app_nil_r, Hb. }
    destruct (dltb _ _ && _); unfold option_list; cbn [option_rect from_option]; [|by rewrite app_nil_r, Hb].
    destruct (decide (tr_ts row - Z.rem (tr_ts row) 5 = b)) as [<-|Hno].
    + rewrite lookup_insert_eq, filter_cons_True, filter_nil by done. rewrite bucket_of_snoc, Hb. done.
    + rewrite lookup_insert_ne, filter_cons_False, filter_nil by done. by rewrite app_nil_r, Hb.
Qed.

#[export] Instance bucket_before_trans : Transitive bucket_before.
Proof. intros a b c. unfold bucket_before. lia. Qed.
#[export] Instance bucket_before_total : Total bucket_before.
Proof. intros a b. unfold bucket_before. lia. Qed.

Definition bucket_point (b : Z) (bucket : Bucket) : TrafficHistoryPoint :=
  mkTrafficHistoryPoint (fromUnixSeconds b) (bk_rx_rate_bps bucket) (bk_tx_rate_bps bucket) (bk_samples bucket).

(** A point of the history is well formed: a five-second bucket with at least one pair of
    samples and rates that are neither negative nor NaN. *)
Definition bucket_ok (b : Z) (bucket : Bucket) : Prop :=
  Z.rem b 5 = 0 /\ 1 <= bk_samples bucket /\ d_nonneg (bk_rx_rate_bps bucket) /\ d_nonneg (bk_tx_rate_bps bucket).

Definition contribution_ok (x : Z * double * double) : Prop :=
  Z.rem x.1.1 5 = 0 /\ d_nonneg x.1.2 /\ d_nonneg x.2.

Lemma contribution_good seen row x : contribution seen row = Some x -> contribution_ok x.
Proof.
  unfold contribution. case_decide; [done|]. destruct (last _) as [p|]; [|done].
  destruct (dltb _ _ && _) eqn:E; [|done]. b2p. intros [= <-]. unfold contribution_ok. simpl.
  split_and!; [|apply rate_bps_nonneg; auto using u64_range..].
  set (t := tr_ts row). pose proof (Z.quot_rem' t 5) as Hq. 
  replace (t - Z.rem t 5) with (Z.quot t 5 * 5) by lia. apply Z.rem_mul. done.
Qed.

Lemma contributions_good seen rows : Forall contribution_ok (contributions seen rows).
Proof.
  revert seen. induction rows as [|r rows IH]; intros seen; [constructor|]. cbn [contributions].
  apply Forall_app_2; [|apply IH]. destruct (contribution seen r) eqn:E; repeat constructor.
  all: by apply contribution_good in E as (? & ? & ?).
Qed.

Lemma bucket_good b l bucket :
  Forall contribution_ok l -> Forall (in_bucket b) l -> bucket_of l = Some bucket -> bucket_ok b bucket.
Proof.
  intros Hl Hb. destruct l as [|x l]; [done|]. unfold bucket_of. intros [= <-].
  assert (H : forall l acc, Forall contribution_ok l -> 0 <= bk_samples acc ->
    d_nonneg (bk_rx_rate_bps acc) -> d_nonneg (bk_tx_rate_bps acc) ->
    let r := fold_left add_to_bucket l acc in
    bk_samples acc + Z.of_nat (length l) = bk_samples r /\ d_nonneg (bk_rx_rate_bps r) /\ d_nonneg (bk_tx_rate_bps r)).
  { clear. induction l as [|x l IH]; intros acc Hl Hs Hr Ht; [simpl; split_and!; auto; lia|].
    apply Forall_cons in Hl as [(_ & ? & ?) Hl]. cbn [fold_left].
    destruct (IH (add_to_bucket acc x) Hl) as (? & ? & ?); simpl; auto using dadd_nonneg; [lia|].
    split_and!; auto. simpl in *. lia. }
  destruct (H (x :: l) default_Bucket Hl) as (Hn & Hrx & Htx); [done..|].
  apply Forall_cons in Hl as [(Hrem & _) _]. apply Forall_cons in Hb as [Hb _].
  unfold in_bucket in Hb. rewrite Hb in Hrem. cbn [fold_left length] in *.
  split_and!; [done| |done|done]. simpl in Hn |- *. lia.
Qed.

Lemma sorted_strictly (l : list (Z * Bucket)) :
  StronglySorted bucket_before l -> NoDup l.*1 -> StronglySorted (fun a b => a.1 < b.1) l.
Proof.
  induction 1 as [|x l Hl IH Hx]; intros Hd; [constructor|].
  cbn [fmap list_fmap] in Hd. apply NoDup_cons in Hd as [Hno Hd]. constructor; [by apply IH|].
  rewrite Forall_forall in Hx |- *. intros y Hy. specialize (Hx y Hy). unfold bucket_before in Hx.
  assert (y.1 ∈ l.*1) by (by apply list_elem_of_fmap_2). assert (x.1 <> y.1) by congruence. lia.
Qed.

(** C24: the history is, for the newest twelve samples per wanted point in the order of time,
    one point for every five-second bucket in which some sample follows an earlier one of its
    device without a reset: the sum of their rates and their number.  The points come in
    strictly increasing order, at most as many as wanted and never more than 720, with rates
    that are never negative or NaN. *)
Theorem history_is_sum_of_rates {API : SqliteApi} {SPEC : SqliteSpec API} limit (c : conn) :
  let wanted := history_wanted limit in
  let rows := (oldest_first Z.le tr_ts (sql_limit (Z.max (wanted * 12) wanted)
                 (newest_first Z.le tr_ts (map_to_list (t_traffic (view c)))))).*2 in
  exists points : list (Z * Bucket),
    StronglySorted (fun a b => a.1 < b.1) points /\
    (forall b bucket, (b, bucket) ∈ points <->
       bucket_of (filter (in_bucket b) (contributions [] rows)) = Some bucket) /\
    Forall (fun p => bucket_ok p.1 p.2) points /\
    trafficHistory limit c = lastn (Z.to_nat wanted) ((fun p => bucket_point p.1 p.2) <$> points) /\
    (length (trafficHistory limit c) <= 720)%nat.
Proof.
  intros wanted rows. pose proof (query_rows_answers (SelectTraffic (Z.max (wanted * 12) wanted)) c) as Hq.
  simpl in Hq. fold rows in Hq. pose proof (history_fold rows) as Hf.
  destruct (fold_left history_step rows (∅, ∅)) as [previous buckets] eqn:Efold. destruct Hf as [_ Hb].
  set (points := merge_sort bucket_before (map_to_list buckets)).
  assert (Hin : forall b bucket, (b, bucket) ∈ points <->
       bucket_of (filter (in_bucket b) (contributions [] rows)) = Some bucket).
  { intros b bucket. unfold points. rewrite merge_sort_Permutation, elem_of_map_to_list. by rewrite Hb. }
  assert (Hh : trafficHistory limit c = lastn (Z.to_nat wanted) ((fun p => bucket_point p.1 p.2) <$> points)).
  { unfold trafficHistory, history_of_rows. fold wanted. rewrite Hq, Efold. simpl.
    change (history_points buckets) with ((fun p => bucket_point p.1 p.2) <$> points).
    destruct (wanted <? _) eqn:E; [done|]. b2p. rewrite lastn_all; [done|]. lia. }
  exists points. split_and!; [|exact Hin| |exact Hh|].
  - apply sorted_strictly; [apply (StronglySorted_merge_sort bucket_before)|].
    unfold points. rewrite merge_sort_Permutation. apply NoDup_fst_map_to_list.
  - apply Forall_forall. intros [b bucket] Hp%Hin. simpl. eapply bucket_good; [|  |exact Hp].
    + apply Forall_forall. intros x [_ Hx]%list_elem_of_filter. revert x Hx. apply Forall_forall, contributions_good.
    + apply Forall_forall. by intros x [Hx _]%list_elem_of_filter.
  - rewrite Hh, lastn_length. unfold wanted, history_wanted. destruct (limit =? 0); lia.
Qed.

(** ** Concrete inputs *)

(** Two samples of one device, ten seconds and 1250 and 0 bytes apart, and one of another. *)
Definition demo_samples : Tables :=
  empty_Tables <| t_traffic := list_to_map
    [(1, mkTrafficRow "aa:bb:cc:dd:ee:01" "10.0.0.5" 1700000000 1000 500);
     (2, mkTrafficRow "aa:bb:cc:dd:ee:01" "10.0.0.5" 1700000010 2250 500);
     (3, mkTrafficRow [] "10.0.0.6" 1700000004 70 80)] |> <| t_traffic_seq := 3 |>.

Lemma totals_are_sums_of_increments_witness :
  exists all, StronglySorted total_before all /\
    @deviceTrafficTotals memory_api canonical_order (1700000020 * ns_per_s) 24 50 demo_samples = cut 50 all /\
    dt_rx_bytes <$> cut 50 all = [1250; 0].
Proof.
  destruct (@totals_are_sums_of_increments memory_api memory_spec canonical_order
    (1700000020 * ns_per_s) 24 50 demo_samples) as (samples & keys & all & _ & _ & _ & _ & _ & Hs & Hcut & _).
  exists all. split; [exact Hs|]. split; [exact Hcut|]. rewrite <- Hcut. vm_compute. reflexivity.
Defined.

Lemma history_is_sum_of_rates_witness :
  exists points, Forall (fun p => bucket_ok p.1 p.2) points /\
    @trafficHistory memory_api 0 demo_samples = lastn 180 ((fun p => bucket_point p.1 p.2) <$> points) /\
    tp_ts <$> @trafficHistory memory_api 0 demo_samples = [1700000010 * ns_per_s].
Proof.
  destruct (@history_is_sum_of_rates memory_api memory_spec 0 demo_samples) as (points & _ & _ & Hok & Hh & _).
  exists points. split; [exact Hok|]. split; [exact Hh|]. vm_compute. reflexivity.
Defined.
