(* ===== verification/AppStorage.v ===== *)
(** * The application and its database together

    [loadInto] fills the store at the start; [perform] carries out the storage calls that the
    handlers of app.cpp record as effects.  The theorems: a handled line reaches the table of
    events; what the table holds comes back after a restart; loading keeps the invariant of
    the state store. *)

From S2P Require Import Prelude Utils RingBuffer Double Types Config LogParser RuntimeStats.
From S2P Require Import StateStore StoreInvariant StoreUpdates App AppTheorems.
From S2P Require Import Sqlite SqliteEngine SqliteTheorems.

(** ** Loading *)

Section Load.
Context (config : Config) {API : SqliteApi} {SPEC : SqliteSpec API}.
Implicit Types (c : conn) (st : StateStore).

(** Rows as this program writes them: device rates are finite and never negative, events have an
    identifier, and events and attacks a time after the epoch that fits a time point. *)
Definition rows_ok (t : Tables) : Prop :=
  (forall k r, t_devices t !! k = Some r -> d_rate (dr_rx_rate_bps r) /\ d_rate (dr_tx_rate_bps r)) /\
  (forall k r, t_events t !! k = Some r -> er_id r <> [] /\ 0 < er_ts r <= 9223372036) /\
  (forall k r, t_attacks t !! k = Some r -> 0 < ar_ts r <= 9223372036).

Lemma values_elem {K} `{Countable K} {R} (m : gmap K R) r : r ∈ values m -> exists k, m !! k = Some r.
Proof. intros ([k v] & -> & Hk)%list_elem_of_fmap. exists k. by apply elem_of_map_to_list in Hk. Qed.

Lemma timeFromColumn_positive s : 0 < s <= 9223372036 -> 0 < timeFromColumn s.
Proof.
  intros Hs. unfold timeFromColumn, fromUnixSeconds. rewrite (proj2 (Z.leb_gt _ _)) by lia.
  rewrite i64_small by words. words.
Qed.

Lemma imap_pair_snd {A} (l : list A) : (imap pair l).*2 = l.
Proof.
  assert (H : forall f : nat -> nat, (imap (fun i x => (f i, x)) l).*2 = l); [|exact (H id)].
  induction l as [|x l IH]; intros f; [done|]. simpl. f_equal. apply (IH (f ∘ S)).
Qed.

Definition load_device (clk : nat -> clock) (st : StateStore) (entry : nat * DeviceRow) : StateStore :=
  updateDevice config (clk entry.1) st (deviceFromStatement entry.2).

Definition load_event (clk : nat -> clock) (st : StateStore) (entry : nat * EventRow) : StateStore :=
  addEvent (clk entry.1) st (eventFromStatement entry.2).

Definition load_attack (clk : nat -> clock) (st : StateStore) (entry : nat * AttackRow) : StateStore :=
  addWANAttack (clk entry.1) st (wanAttackFromStatement entry.2).

Lemma updateDevice_buffers clk st d :
  events_ (updateDevice config clk st d) = events_ st /\ wan_attacks_ (updateDevice config clk st d) = wan_attacks_ st.
Proof.
  unfold updateDevice. case_decide; [done|].
  assert (HR : forall m k dk, events_ (rekey st m k dk).2 = events_ st /\ wan_attacks_ (rekey st m k dk).2 = wan_attacks_ st).
  { intros m k dk. unfold rekey. case_decide; [|done]. by destruct (devices_by_key_ st !! k). }
  specialize (HR (mac d) (keyFor st (mac d) (ip d)) (makeKey (mac d) (ip d))).
  destruct (rekey _ _ _ _) as [key st']. simpl in HR. unfold touchLastLogLocked, index_ip.
  by repeat (case_decide || case_match); simpl.
Qed.

Lemma load_devices_buffers clk l st :
  events_ (fold_left (load_device clk) l st) = events_ st /\ wan_attacks_ (fold_left (load_device clk) l st) = wan_attacks_ st.
Proof.
  revert st. induction l as [|e l IH]; intros st; [done|]. cbn [fold_left].
  destruct (IH (load_device clk st e)) as [-> ->]. apply updateDevice_buffers.
Qed.

Lemma touch_buffers now ts st :
  events_ (touchLastLogLocked now ts st) = events_ st /\ wan_attacks_ (touchLastLogLocked now ts st) = wan_attacks_ st.
Proof. unfold touchLastLogLocked. by case_match. Qed.

Lemma load_events_represents clk l st history :
  Forall (fun r => er_id r <> [] /\ 0 < er_ts r <= 9223372036) l.*2 ->
  rb_represents (events_ st) history ->
  let st' := fold_left (load_event clk) l st in
  rb_represents (events_ st') (history ++ (eventFromStatement <$> l.*2)) /\ wan_attacks_ st' = wan_attacks_ st.
Proof.
  revert st history. induction l as [|e l IH]; intros st history Hl Hr; [by rewrite app_nil_r|].
  cbn [fmap list_fmap] in Hl |- *. apply Forall_cons in Hl as [[Hid Hts] Hl]. cbn [fold_left].
  pose proof (timeFromColumn_positive _ Hts) as Hpos.
  destruct (addEvent_stamped (clk e.1) st (eventFromStatement e.2) Hid) as (He & _).
  assert (Hst : stamped (clk e.1) (eventFromStatement e.2) = eventFromStatement e.2).
  { unfold stamped. simpl. rewrite (proj2 (Z.eqb_neq _ _)) by lia. done. }
  rewrite Hst in He. change (eventFromStatement e.2 :: (eventFromStatement <$> l.*2)) with
    ([eventFromStatement e.2] ++ (eventFromStatement <$> l.*2)). rewrite app_assoc.
  destruct (IH (load_event clk st e) (history ++ [eventFromStatement e.2]) Hl) as [H1 H2].
  { unfold load_event. rewrite He. by apply rb_push_represents. }
  split; [exact H1|]. rewrite H2. unfold load_event, addEvent, pushEventLocked.
  rewrite decide_False by done. by rewrite (proj2 (touch_buffers _ _ _)).
Qed.

Lemma load_attacks_represents clk l st history :
  Forall (fun r => 0 < ar_ts r <= 9223372036) l.*2 ->
  rb_represents (wan_attacks_ st) history ->
  let st' := fold_left (load_attack clk) l st in
  rb_represents (wan_attacks_ st') (history ++ (wanAttackFromStatement <$> l.*2)) /\ events_ st' = events_ st.
Proof.
  revert st history. induction l as [|e l IH]; intros st history Hl Hr; [by rewrite app_nil_r|].
  cbn [fmap list_fmap] in Hl |- *. apply Forall_cons in Hl as [Hts Hl]. cbn [fold_left].
  pose proof (timeFromColumn_positive _ Hts) as Hpos.
  assert (He : wan_attacks_ (load_attack clk st e) = rb_push (wan_attacks_ st) (wanAttackFromStatement e.2)).
  { unfold load_attack, addWANAttack. simpl. rewrite (proj2 (Z.eqb_neq _ _)) by lia.
    by rewrite (proj2 (touch_buffers _ _ _)). }
  change (wanAttackFromStatement e.2 :: (wanAttackFromStatement <$> l.*2)) with
    ([wanAttackFromStatement e.2] ++ (wanAttackFromStatement <$> l.*2)). rewrite app_assoc.
  destruct (IH (load_attack clk st e) (history ++ [wanAttackFromStatement e.2]) Hl) as [H1 H2].
  { rewrite He. by apply rb_push_represents. }
  split; [exact H1|]. rewrite H2. unfold load_attack, addWANAttack. by rewrite (proj1 (touch_buffers _ _ _)).
Qed.

Lemma load_devices_ok clk l st :
  sizes_ok config -> Forall (fun r => d_rate (dr_rx_rate_bps r) /\ d_rate (dr_tx_rate_bps r)) l.*2 ->
  store_ok config st -> store_ok config (fold_left (load_device clk) l st).
Proof.
  intros Hs. revert st. induction l as [|e l IH]; intros st Hl Hst; [done|].
  cbn [fmap list_fmap] in Hl. apply Forall_cons in Hl as [He Hl]. apply IH; [done|].
  apply updateDevice_ok; auto.
Qed.

Lemma load_events_ok clk l st : store_ok config st -> store_ok config (fold_left (load_event clk) l st).
Proof. revert st. induction l as [|e l IH]; intros st Hst; [done|]. by apply IH, addEvent_ok. Qed.

Lemma load_attacks_ok clk l st : store_ok config st -> store_ok config (fold_left (load_attack clk) l st).
Proof. revert st. induction l as [|e l IH]; intros st Hst; [done|]. by apply IH, addWANAttack_ok. Qed.

Lemma Forall_values {K} `{Countable K} {R} (P : R -> Prop) (m : gmap K R) rows :
  (forall k r, m !! k = Some r -> P r) -> (forall r, r ∈ rows -> r ∈ values m) -> Forall P rows.
Proof.
  intros Hm Hrows. apply Forall_forall. intros r Hr. destruct (values_elem m r (Hrows r Hr)) as [k Hk]. eauto.
Qed.

Lemma newest_in_order_sub {R} (ts : R -> Z) n all rows r :
  newest_rows_in_order ts n all rows -> r ∈ rows -> r ∈ all.
Proof.
  intros (top & (sorted & Hp & _ & ->) & Ht & _) Hr. rewrite Ht in Hr. rewrite <- Hp.
  unfold sql_limit in Hr. case_match; [done|]. by eapply subseteq_take.
Qed.

Lemma newest_in_order_length {R} (ts : R -> Z) n (all rows : list R) :
  0 <= n -> newest_rows_in_order ts n all rows -> (length rows <= Z.to_nat n)%nat.
Proof.
  intros Hn (top & (sorted & _ & _ & ->) & Ht & _). rewrite Ht. unfold sql_limit.
  rewrite (proj2 (Z.ltb_ge _ _)) by lia. rewrite length_take. lia.
Qed.

(** C17: a new store loaded from the database satisfies the invariant of the state store, and
    its two buffers hold exactly what the newest rows of the tables say, up to the capacities
    of the buffers, oldest first. *)
Theorem loading_restores_newest_rows clk1 clk2 clk3 c :
  sizes_ok config -> max_events config < two63 -> max_attack_events config < two63 -> rows_ok (view c) ->
  let st := store_loadInto config clk1 clk2 clk3 (Some c) (new_StateStore config) in
  store_ok config st /\
  (exists events, newest_rows_in_order er_ts (max_events config) (values (t_events (view c))) events /\
     items_ (events_ st) = eventFromStatement <$> events) /\
  (exists attacks, newest_rows_in_order ar_ts (max_attack_events config) (values (t_attacks (view c))) attacks /\
     items_ (wan_attacks_ st) = wanAttackFromStatement <$> attacks).
Proof.
  intros Hsizes He63 Ha63 (Hd & He & Ha) st. pose proof Hsizes as (He0 & Ha0 & _).
  unfold st, store_loadInto, loadInto, loadWANAttacks, loadEvents, loadDevices.
  rewrite !i64_small by words.
  pose proof (query_rows_answers SelectDevicesForLoad c) as [Qd _].
  pose proof (query_rows_answers (SelectEventsForLoad (max_events config)) c) as Qe.
  pose proof (query_rows_answers (SelectAttacksForLoad (max_attack_events config)) c) as Qa.
  set (rd := query_rows SelectDevicesForLoad c) in *.
  set (re := query_rows (SelectEventsForLoad (max_events config)) c) in *.
  set (ra := query_rows (SelectAttacksForLoad (max_attack_events config)) c) in *.
  simpl in Qe, Qa. fold (load_device clk1) (load_event clk2) (load_attack clk3).
  set (st1 := fold_left (load_device clk1) (imap pair rd) (new_StateStore config)).
  destruct (load_devices_buffers clk1 (imap pair rd) (new_StateStore config)) as [Bd1 Bd2]. fold st1 in Bd1, Bd2.
  set (st2 := fold_left (load_event clk2) (imap pair re) st1).
  destruct (load_events_represents clk2 (imap pair re) st1 []) as [Re Be].
  { rewrite imap_pair_snd. eapply Forall_values; [exact He|]. intros r. by eapply newest_in_order_sub. }
  { rewrite Bd1. by apply rb_new_represents. }
  fold st2 in Re, Be. rewrite imap_pair_snd in Re.
  destruct (load_attacks_represents clk3 (imap pair ra) st2 []) as [Ra Ba].
  { rewrite imap_pair_snd. eapply Forall_values; [exact Ha|]. intros r. by eapply newest_in_order_sub. }
  { rewrite Be, Bd2. by apply rb_new_represents. }
  rewrite imap_pair_snd in Ra. 
  assert (Hok : store_ok config (fold_left (load_attack clk3) (imap pair ra) st2)).
  { apply load_attacks_ok, load_events_ok, load_devices_ok; [done| |by apply new_store_ok].
    rewrite imap_pair_snd. eapply Forall_values; [exact Hd|]. intros r. by rewrite Qd. }
  split; [exact Hok|]. destruct Hok as [_ _ _ _ [_ Ce] [_ Ca] _]. split.
  - exists re. split; [exact Qe|]. rewrite Ba in Ce |- *. destruct Re as [_ ->]. rewrite Ce.
    apply lastn_all. rewrite length_fmap. by eapply newest_in_order_length.
  - exists ra. split; [exact Qa|]. destruct Ra as [_ ->]. rewrite Ca.
    apply lastn_all. rewrite length_fmap. by eapply newest_in_order_length.
Qed.

End Load.

(** ** Carrying out the effects *)

Section Database.
Context (config : Config) {API : SqliteApi} {SPEC : SqliteSpec API} {HO : HashOrder}.
Implicit Types (c : conn) (a b : App).

(** A storage call of the application; a broadcast does not concern the database. *)
Definition perform (clk : clock) (e : Effect) (s : SqliteStore) : SqliteStore :=
  match e with
  | UpsertDevices ds => store_upsertDevices clk ds s
  | InsertEvent event => store_insertEvent event s
  | InsertTraffic snapshot => store_insertTraffic snapshot s
  | InsertWANAttack event => store_insertWANAttack event s
  | ApplyRetention => store_applyRetention config (clk 0%nat) s
  | Broadcast _ => s
  end.

Definition perform_all (clks : nat -> clock) (l : list Effect) (s : SqliteStore) : SqliteStore :=
  fold_left (fun s entry => perform (clks entry.1) entry.2 s) (imap pair l) s.

(** The effects of one step. *)
Definition new_effects a b : list Effect := drop (length (effects a)) (effects b).

(** From [a] to [b] effects were only appended, and none of them is the retention. *)
Definition appended a b : Prop := exists l, effects b = effects a ++ l /\ ApplyRetention ∉ l.

Lemma appended_refl a : appended a a.
Proof. exists []. split; [by rewrite app_nil_r|set_solver]. Qed.

Lemma appended_on_state a b f : appended a b -> appended a (on_state f b).
Proof. done. Qed.

Lemma appended_on_stats a b f : appended a b -> appended a (on_stats f b).
Proof. done. Qed.

Lemma appended_emit a b e : appended a b -> e <> ApplyRetention -> appended a (emit e b).
Proof.
  intros (l & Hl & Hno) He. exists (l ++ [e]). simpl. rewrite Hl, <- app_assoc. split; [done|set_solver].
Qed.

Lemma appended_publish a b t : appended a b -> appended a (publishUpdate t b).
Proof. intros H. unfold publishUpdate. case_match; [|done]. by apply appended_emit. Qed.

Lemma appended_persistDevices a b now : appended a b -> appended a (persistDevices config now b).
Proof. intros H. unfold persistDevices. case_match; [|done]. by apply appended_emit. Qed.

Lemma appended_persistEvent a b e : appended a b -> appended a (persistEvent e b).
Proof. intros H. unfold persistEvent. case_match; [|done]. by apply appended_emit. Qed.

Lemma appended_persistTraffic a b s : appended a b -> appended a (persistTraffic s b).
Proof. intros H. unfold persistTraffic. case_match; [|done]. by apply appended_emit. Qed.

Lemma appended_persistWANAttack a b e : appended a b -> appended a (persistWANAttack e b).
Proof. intros H. unfold persistWANAttack. case_match; [|done]. by apply appended_emit. Qed.

Create HintDb effects.
#[local] Hint Resolve appended_refl appended_on_state appended_on_stats appended_publish
  appended_persistDevices appended_persistEvent appended_persistTraffic appended_persistWANAttack : effects.

Lemma appended_makeEvent a b now r p e b' : appended a b -> makeEvent now r p b = (e, b') -> appended a b'.
Proof. intros H [= _ <-]. exact H. Qed.

Lemma applyParseResult_appended clk r p a b : appended a b -> appended a (applyParseResult config clk r p b).
Proof.
  intros Hb. unfold applyParseResult. destruct (makeEvent _ r p b) as [e b'] eqn:E.
  pose proof (appended_makeEvent a b _ _ _ _ _ Hb E) as Hb'. clear E.
  repeat case_decide; cbv zeta;
    [unfold handle_netdev|unfold handle_dhcp|unfold handle_nettraffic; destruct (_ && _)
    |unfold handle_netiface; destruct (_ && _)|unfold handle_wan_attack|unfold handle_wan
    |unfold handle_wifi; destruct (wifi_disconnected r)|unfold handle_other];
    eauto 12 with effects.
Qed.

Lemma handleLog_appended clk line p a : appended a (handleLog config clk line p a).
Proof.
  unfold handleLog. destruct (negb _).
  - unfold handle_raw. destruct (makeEvent _ _ _ _) as [e b] eqn:E.
    pose proof (appended_makeEvent a _ _ _ _ _ _ (appended_on_stats a _ recordParseError
      (appended_on_stats a a (recordSyslogMessage "raw") (appended_refl a))) E). eauto 10 with effects.
  - apply applyParseResult_appended. apply appended_on_stats, appended_refl.
Qed.

(** What an effect other than the retention does to the table of events. *)
Lemma perform_events clk e c :
  e <> ApplyRetention ->
  exists c', perform clk e (Some c) = Some c' /\
    t_events (view c') =
      match e with
      | InsertEvent event => <[er_id (event_row event) := event_row event]> (t_events (view c))
      | _ => t_events (view c)
      end.
Proof.
  intros He. destruct e as [ds|event|s|w| |m]; try done; eexists; (split; [reflexivity|]).
  - destruct (upsertDevices_view clk ds c) as (c0 & H0 & ->). by rewrite upsert_rows_view, <- H0.
  - unfold insertEvent. by rewrite run_statement_view.
  - unfold insertTraffic. by rewrite run_statement_view.
  - unfold insertWANAttack. by rewrite run_statement_view.
  - done.
Qed.

Lemma perform_all_events (clks : nat -> clock) (l : list (nat * Effect)) c :
  ApplyRetention ∉ l.*2 ->
  exists c', fold_left (fun s entry => perform (clks entry.1) entry.2 s) l (Some c) = Some c' /\
    t_events (view c') =
      fold_left (fun m event => <[er_id (event_row event) := event_row event]> m) (inserted l.*2) (t_events (view c)).
Proof.
  revert c. induction l as [|[n e] l IH]; intros c Hl; [by exists c|].
  cbn [fold_left fst snd fmap list_fmap] in Hl |- *.
  destruct (perform_events (clks n) e c) as (c1 & -> & H1); [set_solver|].
  destruct (IH c1) as (c' & -> & H'); [set_solver|]. exists c'. split; [done|]. rewrite H', H1.
  by destruct e.
Qed.

Lemma inserted_app l1 l2 : inserted (l1 ++ l2) = inserted l1 ++ inserted l2.
Proof. unfold inserted. apply omap_app. Qed.

(** C6: in sqlite mode, once the storage calls of a handled line have been carried out, the
    table of events holds the sanitised row of the very event that was pushed into the buffer,
    under its number, and is otherwise as before; interface telemetry leaves it alone. *)
Theorem handled_event_reaches_database clk clks line p a c :
  sqlite_enabled a = true ->
  let a' := handleLog config clk line p a in
  exists c', perform_all clks (new_effects a a') (Some c) = Some c' /\
    if decide (matched (parse line) = true /\ pr_type (parse line) = "netiface") then
      t_events (view c') = t_events (view c)
    else exists e clk',
      ev_id e = event_id (u64 (event_seq_ (state_ a) + 1)) /\ ev_source e = p /\
      events_ (state_ a') = rb_push (events_ (state_ a)) (stamped clk' e) /\
      t_events (view c') =
        <[c_str (ev_id e) := event_row (preprocessEventForStorage e)]> (t_events (view c)).
Proof.
  intros Hs a'. destruct (handleLog_appended clk line p a) as (l & Hl & Hno). fold a' in Hl.
  unfold perform_all, new_effects. rewrite Hl, drop_app_length.
  destruct (perform_all_events clks (imap pair l) c) as (c' & Hc & Hv); [by rewrite imap_pair_snd|].
  exists c'. split; [exact Hc|]. rewrite imap_pair_snd in Hv.
  destruct (handleLog_outcome config clk line p a) as (b & [Hev _] & Hsq & Heff & H). fold a' in H. simpl in Hev.
  destruct (decide _) as [Hn|Hn].
  - destruct H as [_ [_ _ _ Hin _]]. rewrite Heff, Hl, inserted_app in Hin.
    replace (inserted l) with (@nil Event) in Hv; [done|].
    symmetry. apply (app_inv_head (inserted (effects a))). by rewrite app_nil_r.
  - destruct H as (_ & e & Hid & Hsrc & [[clk' Hev'] _ _ Hin _]). exists e, clk'.
    rewrite Heff, Hl, inserted_app, Hsq, Hs in Hin. apply app_inv_head in Hin.
    split_and!; [done|done|congruence|]. by rewrite Hv, Hin.
Qed.

End Database.

(** ** Concrete inputs *)

Definition demo_attack_row : AttackRow :=
  mkAttackRow 1700000000 "wan" "203.0.113.9" "198.51.100.2" "4711" "22" "TCP" "60" "WAN_DROP".

(** A database with an attack in it, and the state after a start from it. *)
Definition demo_database : Tables := empty_Tables <| t_attacks := {[1 := demo_attack_row]} |> <| t_attacks_seq := 1 |>.

Lemma loading_restores_newest_rows_witness :
  wa_src_ip <$> items_ (wan_attacks_ (@store_loadInto default_Config memory_api (fun _ => demo_clock)
    (fun _ => demo_clock) (fun _ => demo_clock) (Some demo_database) (new_StateStore default_Config)))
  = ["203.0.113.9" : bytes].
Proof.
  destruct (@loading_restores_newest_rows default_Config memory_api memory_spec (fun _ => demo_clock)
    (fun _ => demo_clock) (fun _ => demo_clock) demo_database) as (_ & _ & attacks & (top & Htop & Hp & _) & Hi).
  - by vm_compute.
  - by vm_compute.
  - by vm_compute.
  - change (rows_ok demo_database). split_and!; intros k r Hk; simpl in Hk; [by rewrite lookup_empty in Hk..|].
    apply lookup_singleton_Some in Hk as [_ <-]. by vm_compute.
  - refine (eq_trans (f_equal (fmap wa_src_ip) Hi) _). clear Hi.
    destruct Htop as (sorted & Hs & _ & ->).
    replace (values (t_attacks (@view _ memory_spec demo_database))) with [demo_attack_row] in Hs by (by vm_compute).
    apply Permutation_singleton_r in Hs as ->. 
    replace (sql_limit (max_attack_events default_Config) [demo_attack_row]) with [demo_attack_row] in Hp by (by vm_compute).
    apply Permutation_singleton_r in Hp as ->. reflexivity.
Defined.

Lemma handled_event_reaches_database_witness :
  let a' := @handleLog default_Config canonical_order demo_clock "unparsed" "192.168.1.1" (demo_app true) in
  exists c' : Tables,
    @perform_all default_Config memory_api (fun _ => demo_clock) (new_effects (demo_app true) a') (Some empty_Tables)
      = Some c' /\ size (t_events c') = 1%nat.
Proof.
  destruct (@handled_event_reaches_database default_Config memory_api memory_spec canonical_order demo_clock
    (fun _ => demo_clock) "unparsed" "192.168.1.1" (demo_app true) empty_Tables) as (c' & Hc & H); [reflexivity|].
  exists c'. split; [exact Hc|]. rewrite decide_False in H by (intros [Hm _]; vm_compute in Hm; discriminate).
  destruct H as (e & clk' & _ & _ & _ & Hv).
  assert (Hv' : t_events (c' : Tables) = <[c_str (ev_id e) := event_row (preprocessEventForStorage e)]> ∅) by exact Hv.
  by rewrite Hv', insert_empty, map_size_singleton.
Defined.
