(* ===== verification/AppThreads.v ===== *)
(** * The threads that run the handlers of src/src/app.cpp

    [App::handleLog] runs in the UDP thread and in one thread per TCP connection at once, and
    [runCleanupLoop] in a thread of its own.  No lock spans a handler: only each call into the
    store, the statistics, the database and the web server is atomic.  Here the handlers are
    programs ([Prog]), sequences of such calls, and the application is a pool of threads whose
    calls interleave in any order ([pool_step]).  A program that runs alone does what the
    function of [App] says ([handlers_alone]). *)

From S2P Require Import Prelude Utils RingBuffer Types Config LogParser RuntimeStats StateStore App.

(** A program is done, or makes an atomic call, which changes the shared state and decides how
    the program goes on.  A call reads the clock as often as it likes; [n] readings separate it
    from the next call when the program runs alone. *)
Inductive Prog : Type :=
  | Done
  | Act (n : nat) (effect : clock -> App -> App) (next : clock -> App -> Prog).

(** A call that only changes the shared state, a call with a result, and a reading of the clock. *)
Definition call_ (n : nat) (g : clock -> App -> App) (k : Prog) : Prog := Act n g (fun _ _ => k).

Definition ask_ {X} (n : nat) (g : clock -> App -> X * App) (k : X -> Prog) : Prog :=
  Act n (fun clk a => (g clk a).2) (fun clk a => k (g clk a).1).

Definition now_ (k : time -> Prog) : Prog := ask_ 1 (fun clk a => (clk 0%nat, a)) k.

Declare Scope prog_scope.
Delimit Scope prog_scope with prog.
Notation "p ;; k" := (p k) (at level 100, right associativity, only parsing) : prog_scope.
Notation "x <- p ;; k" := (p (fun x => k)) (at level 100, p at next level, right associativity, only parsing) : prog_scope.

(** A program that runs alone. *)
Fixpoint run_alone (p : Prog) (clk : clock) (a : App) : App :=
  match p with
  | Done => a
  | Act n effect next => run_alone (next clk a) (later n clk) (effect clk a)
  end.

Section Programs.
Context (config : Config) {HO : HashOrder}.
Open Scope prog_scope.

(** ** The calls *)

Definition store_call (n : nat) (g : clock -> StateStore -> StateStore) : Prog -> Prog :=
  call_ n (fun clk => on_state (g clk)).

Definition stats_call (g : RuntimeStats -> RuntimeStats) : Prog -> Prog := call_ 0 (fun _ => on_stats g).

(** [recordSyslogMessage]: two atomic increments. *)
Definition record_message (type : bytes) (k : Prog) : Prog := stats_call bump_total ;; stats_call (bump_type type) ;; k.

Definition take_number : (bytes -> Prog) -> Prog :=
  ask_ 0 (fun _ a => let '(id, st) := nextEventId (state_ a) in (id, a <| state_ := st |>)).

Definition publish (type : bytes) : Prog -> Prog := call_ 0 (fun _ => publishUpdate type).
Definition persist_event (event : Event) : Prog -> Prog := call_ 0 (fun _ => persistEvent event).
Definition persist_traffic (snapshot : TrafficSnapshot) : Prog -> Prog := call_ 0 (fun _ => persistTraffic snapshot).
Definition persist_attack (attack : WANAttackEvent) : Prog -> Prog := call_ 0 (fun _ => persistWANAttack attack).

(** [persistDevices]: the devices are read from the store, and written in a second call. *)
Definition persist_devices (k : Prog) : Prog :=
  ds <- ask_ 1 (fun clk a => (if sqlite_enabled a then Some (devices config (clk 0%nat) (state_ a)) else None, a)) ;;
  match ds with Some ds => call_ 0 (fun _ => emit (UpsertDevices ds)) ;; k | None => k end.

(** [persistRecentEvents]: the events are read, and written one by one. *)
Definition persist_recent (k : Prog) : Prog :=
  events <- ask_ 0 (fun _ a => (if sqlite_enabled a then recentEvents (state_ a) (max_events config) else [], a)) ;;
  foldr (fun event k => call_ 0 (fun _ => emit (InsertEvent (preprocessEventForStorage event))) k) k events.

(** ** The handlers *)

Definition make_event (result : ParseResult) (peer_ip : bytes) (k : Event -> Prog) : Prog :=
  id <- take_number ;; now <- now_ ;;
  k (mkEvent id now (pr_type result) Info peer_ip (raw result) (fields result)).

Definition netdev_prog (result : ParseResult) (event : Event) : Prog :=
  store_call 2 (fun clk st => updateDevice config clk st (netdev_device result (ev_ts event))) ;;
  let event := event <| ev_type := "device" |> <| ev_message := "Device snapshot" |> in
  store_call 2 (fun clk st => addEvent clk st event) ;;
  persist_devices ;; persist_event event ;; publish "device_update" ;; Done.

Definition dhcp_prog (result : ParseResult) (event : Event) : Prog :=
  store_call 2 (fun clk st => updateDevice config clk st (dhcp_device result (ev_ts event))) ;;
  let event := event <| ev_type := "dhcp" |> <| ev_message := fieldOr result "event" "DHCP event" |> in
  store_call 2 (fun clk st => addEvent clk st event) ;;
  persist_devices ;; persist_event event ;; publish "device_update" ;; Done.

Definition nettraffic_prog (result : ParseResult) (event : Event) : Prog :=
  let finish event n :=
    store_call 0 (fun clk st => addEvent (later n clk) st event) ;;
    persist_event event ;; publish "traffic_update" ;; Done in
  if has_field result "rx_bytes" && has_field result "tx_bytes" then
    let snapshot := mkTrafficSnapshot (fieldOr result "mac" []) (fieldOr result "ip" []) (ev_ts event)
                      (parseUint64 (fieldOr result "rx_bytes" []) 0)
                      (parseUint64 (fieldOr result "tx_bytes" []) 0) in
    store_call 2 (fun clk st => updateTraffic config clk st snapshot) ;;
    persist_traffic snapshot ;; persist_devices ;;
    finish (event <| ev_type := "traffic" |> <| ev_message := "Traffic snapshot" |>) 0%nat
  else finish (event <| ev_type := "traffic" |> <| ev_message := "Traffic CSV snapshot" |>) 3%nat.

Definition netiface_prog (result : ParseResult) (event : Event) : Prog :=
  if has_field result "rx_bytes" && has_field result "tx_bytes" then
    let snapshot := mkInterfaceSnapshot
                      (fieldOr result "interface" (fieldOr result "if" (fieldOr result "iface" [])))
                      (ev_ts event)
                      (parseUint64 (fieldOr result "rx_bytes" []) 0)
                      (parseUint64 (fieldOr result "tx_bytes" []) 0) in
    store_call 0 (fun clk st => updateInterface clk st snapshot) ;;
    publish "summary_update" ;; Done
  else Done.

Definition wan_attack_prog (result : ParseResult) (event : Event) : Prog :=
  let attack := wan_attack_of result (ev_ts event) in
  store_call 3 (fun clk st => addWANAttack clk st attack) ;;
  stats_call recordWANAttack ;;
  let event := event <| ev_severity := Critical |> <| ev_message := "WAN attack/firewall drop" |> in
  store_call 0 (fun clk st => addEvent clk st event) ;;
  persist_attack attack ;; persist_event event ;; publish "wan_attack" ;; Done.

Definition wan_prog (result : ParseResult) (event : Event) : Prog :=
  let event := event <| ev_type := "wan" |> <| ev_message := fieldOr result "message" (raw result) |> in
  let event := if decide (fieldOr result "state" [] = "down")
               then event <| ev_severity := Warning |> else event in
  store_call 0 (fun clk st => addEvent clk st event) ;;
  persist_event event ;; publish "event" ;; Done.

Definition wifi_prog (result : ParseResult) (event : Event) : Prog :=
  let event := if wifi_disconnected result then event <| ev_severity := Warning |> else event in
  store_call 2 (fun clk st => updateDevice config clk st (wifi_device result (ev_ts event))) ;;
  let event := event <| ev_type := "device" |> <| ev_message := fieldOr result "event" "WiFi client event" |> in
  store_call 2 (fun clk st => addEvent clk st event) ;;
  persist_devices ;; persist_event event ;; publish "device_update" ;; Done.

Definition other_prog (event : Event) : Prog :=
  store_call 0 (fun clk st => addEvent clk st event) ;;
  persist_event event ;; publish "event" ;; Done.

Definition apply_prog (result : ParseResult) (peer_ip : bytes) : Prog :=
  event <- make_event result peer_ip ;;
  now <- now_ ;;
  let event := event <| ev_ts := tsFromFields now result |> in
  if decide (pr_type result = "netdev") then netdev_prog result event
  else if decide (pr_type result = "dhcp") then dhcp_prog result event
  else if decide (pr_type result = "nettraffic") then nettraffic_prog result event
  else if decide (pr_type result = "netiface") then netiface_prog result event
  else if decide (pr_type result = "wan_attack") then wan_attack_prog result event
  else if decide (pr_type result = "wan") then wan_prog result event
  else if decide (pr_type result = "wifi") then wifi_prog result event
  else other_prog event.

Definition raw_prog (result : ParseResult) (line peer_ip : bytes) : Prog :=
  record_message "raw" ;; stats_call recordParseError ;;
  let result := result <| pr_type := "raw" |> <| raw := line |> in
  event <- make_event result peer_ip ;;
  let event := event <| ev_source := peer_ip |> <| ev_message := line |>
                     <| ev_fields := <[("raw" : bytes) := line]> (ev_fields event) |> in
  store_call 0 (fun clk st => addEvent clk st event) ;;
  persist_event event ;; publish "event" ;; Done.

(** [handleLog] *)
Definition line_prog (line peer_ip : bytes) : Prog :=
  let result := parse line in
  if negb (matched result) then raw_prog result line peer_ip
  else record_message (pr_type result) ;; apply_prog result peer_ip.

(** One round of [runCleanupLoop]. *)
Definition cleanup_prog : Prog :=
  now <- now_ ;;
  store_call 0 (fun clk => cleanup config (later 1 clk) now) ;;
  persist_devices ;; persist_recent ;;
  call_ 0 (fun _ a => if sqlite_enabled a then emit ApplyRetention a else a) ;;
  publish "summary_update" ;; Done.

(** ** Programs that run alone *)

Lemma alone_persist_devices k clk a :
  run_alone (persist_devices k) clk a = run_alone k (later 1 clk) (persistDevices config (clk 0%nat) a).
Proof. unfold persist_devices, ask_, persistDevices. simpl. by destruct (sqlite_enabled a). Qed.

Lemma alone_persist_recent k clk a : run_alone (persist_recent k) clk a = run_alone k clk (persistRecentEvents config a).
Proof.
  unfold persist_recent, ask_, persistRecentEvents. simpl. change (later 0 clk) with clk.
  destruct (sqlite_enabled a); [|done]. generalize (recentEvents (state_ a) (max_events config)). intros events.
  revert a. induction events as [|e events IH]; intros a; [done|]. apply IH.
Qed.

Ltac alone :=
  cbn [run_alone store_call stats_call call_ publish persist_event persist_attack persist_traffic];
  rewrite ?alone_persist_devices; reflexivity.

Lemma alone_netdev r e clk a : run_alone (netdev_prog r e) clk a = handle_netdev config clk r e a.
Proof. unfold netdev_prog, handle_netdev. alone. Qed.

Lemma alone_dhcp r e clk a : run_alone (dhcp_prog r e) clk a = handle_dhcp config clk r e a.
Proof. unfold dhcp_prog, handle_dhcp. alone. Qed.

Lemma alone_nettraffic r e clk a : run_alone (nettraffic_prog r e) clk a = handle_nettraffic config clk r e a.
Proof. unfold nettraffic_prog, handle_nettraffic. destruct (_ && _); alone. Qed.

Lemma alone_netiface r e clk a : run_alone (netiface_prog r e) clk a = handle_netiface clk r e a.
Proof. unfold netiface_prog, handle_netiface. destruct (_ && _); alone. Qed.

Lemma alone_wan_attack r e clk a : run_alone (wan_attack_prog r e) clk a = handle_wan_attack clk r e a.
Proof. unfold wan_attack_prog, handle_wan_attack. alone. Qed.

Lemma alone_wan r e clk a : run_alone (wan_prog r e) clk a = handle_wan clk r e a.
Proof. unfold wan_prog, handle_wan. alone. Qed.

Lemma alone_wifi r e clk a : run_alone (wifi_prog r e) clk a = handle_wifi config clk r e a.
Proof. unfold wifi_prog, handle_wifi. alone. Qed.

Lemma alone_other e clk a : run_alone (other_prog e) clk a = handle_other clk e a.
Proof. unfold other_prog, handle_other. alone. Qed.

Lemma alone_apply result peer_ip clk a :
  run_alone (apply_prog result peer_ip) clk a = applyParseResult config clk result peer_ip a.
Proof.
  unfold apply_prog, applyParseResult, make_event, take_number, now_, ask_, makeEvent. cbn [run_alone fst snd nextEventId].
  set (e := (mkEvent _ _ _ _ _ _ _) <| ev_ts := _ |>). set (b := a <| state_ := _ |>).
  repeat (case_decide; [by rewrite ?alone_netdev, ?alone_dhcp, ?alone_nettraffic, ?alone_netiface, ?alone_wan_attack, ?alone_wan, ?alone_wifi|]).
  by rewrite alone_other.
Qed.

Lemma alone_line line peer_ip clk a : run_alone (line_prog line peer_ip) clk a = handleLog config clk line peer_ip a.
Proof.
  unfold line_prog, handleLog. destruct (negb _).
  - unfold raw_prog, handle_raw. reflexivity.
  - change (run_alone (record_message ?t ?k) clk a) with (run_alone k clk (on_stats (recordSyslogMessage t) a)).
    apply alone_apply.
Qed.

Lemma alone_cleanup clk a : run_alone cleanup_prog clk a = cleanup_round config clk a.
Proof.
  unfold cleanup_prog, cleanup_round. cbn [run_alone now_ ask_ store_call call_ fst snd].
  rewrite alone_persist_devices, alone_persist_recent. reflexivity.
Qed.

(** a handler whose calls are not interrupted by those of another thread does exactly what
    the function [handleLog] says, and a round of the cleanup thread what [cleanup_round] says:
    what is proved of these functions holds of the threads when they do not overlap. *)
Theorem handlers_alone :
  (forall line peer_ip clk a, run_alone (line_prog line peer_ip) clk a = handleLog config clk line peer_ip a) /\
  (forall clk a, run_alone cleanup_prog clk a = cleanup_round config clk a).
Proof. split; [apply alone_line|apply alone_cleanup]. Qed.

(** ** The pool *)

Record Pool := mkPool {
  shared : App;
  threads : list Prog;
  lines : list (bytes * bytes)      (* the lines that were given to a handler, in order *)
}.

(** A thread makes its next call; a thread that has nothing to do is given a line or the round
    of the cleanup thread; a thread is started. *)
Inductive pool_step : Pool -> Pool -> Prop :=
  | pool_call i n effect next clk a ts ls :
      ts !! i = Some (Act n effect next) ->
      pool_step (mkPool a ts ls) (mkPool (effect clk a) (<[i := next clk a]> ts) ls)
  | pool_line i line peer_ip a ts ls :
      ts !! i = Some Done ->
      pool_step (mkPool a ts ls) (mkPool a (<[i := line_prog line peer_ip]> ts) (ls ++ [(line, peer_ip)]))
  | pool_cleanup i a ts ls :
      ts !! i = Some Done -> pool_step (mkPool a ts ls) (mkPool a (<[i := cleanup_prog]> ts) ls)
  | pool_spawn a ts ls : pool_step (mkPool a ts ls) (mkPool a (ts ++ [Done]) ls).

(** No handler is running. *)
Definition quiet (p : Pool) : Prop := Forall (fun t => t = Done) (threads p).

End Programs.
