(* ===== verification/AppInterleavings.v ===== *)
(** * Theorems about handlers that overlap

    What holds of the application in every interleaving of the calls of its threads
    ([AppThreads]): unique event numbers, exact counters, one event per line; and what does not:
    the rows of the database can be older than the store. *)

From S2P Require Import Prelude Utils RingBuffer Double Types Config LogParser RuntimeStats.
From S2P Require Import StateStore StoreCleanup StoreInvariant StoreUpdates App AppTheorems AppThreads.
From S2P Require Import Sqlite SqliteEngine AppStorage.

(** ** Counters *)

Inductive Label : Type := LMessages | LErrors | LAttacks | LType (type : bytes).

#[export] Instance Label_eq_dec : EqDecision Label.
Proof. solve_decision. Defined.

Definition count_of (s : RuntimeStats) (l : Label) : Z :=
  match l with
  | LMessages => syslog_messages_total_ s
  | LErrors => parse_errors_total_ s
  | LAttacks => wan_attacks_total_ s
  | LType type => default 0 (syslog_messages_by_type_ s !! type)
  end.

Definition counts_one (l : Label) (f : RuntimeStats -> RuntimeStats) : Prop :=
  forall s l', count_of (f s) l' = if decide (l' = l) then u64 (count_of s l' + 1) else count_of s l'.

Lemma bump_total_counts : counts_one LMessages bump_total.
Proof. intros s [| | |t]; done. Qed.

Lemma parse_error_counts : counts_one LErrors recordParseError.
Proof. intros s [| | |t]; done. Qed.

Lemma attack_counts : counts_one LAttacks recordWANAttack.
Proof. intros s [| | |t]; done. Qed.

Lemma bump_type_counts type : counts_one (LType (type_label type)) (bump_type type).
Proof.
  intros s [| | |t]; try done. simpl. case_decide as E.
  - injection E as ->. by rewrite lookup_insert_eq.
  - rewrite lookup_insert_ne; [done|congruence].
Qed.

(** How often a label occurs. *)
Definition occ (l : Label) (ls : list Label) : Z := Z.of_nat (length (filter (fun x => x = l) ls)).

Lemma occ_app l xs ys : occ l (xs ++ ys) = occ l xs + occ l ys.
Proof. unfold occ. rewrite filter_app, length_app. lia. Qed.

Lemma occ_cons l x ls : occ l (x :: ls) = (if decide (l = x) then 1 else 0) + occ l ls.
Proof. unfold occ. rewrite filter_cons. do 2 case_decide; subst; simpl; done || lia. Qed.

#[export] Instance occ_perm l : Proper ((≡ₚ) ==> (=)) (occ l).
Proof. intros xs ys H. unfold occ. by rewrite H. Qed.

(** ** What a line owes

    What the handler of a line counts, and the sender under which it adds its event. *)
Definition line_labels (line : bytes) : list Label :=
  let result := parse line in
  if matched result
  then LMessages :: LType (type_label (pr_type result))
         :: (if decide (pr_type result = "wan_attack") then [LAttacks] else [])
  else [LMessages; LType "raw"; LErrors].

Definition line_event (line peer_ip : bytes) : list bytes :=
  if decide (matched (parse line) = true /\ pr_type (parse line) = "netiface") then [] else [peer_ip].

(** What a thread has taken and not used yet: event numbers; and what it still has to do:
    events to add, counters to increment. *)
Record Local := mkLocal { held : list Z; owed : list bytes; due : list Label }.

Section Interleavings.
Context (config : Config) {HO : HashOrder}.
Implicit Types (a b : App) (x : Local) (xs : list Local).

Inductive move : App -> Local -> App -> Local -> Prop :=
  | move_take a h o d :
      move a (mkLocal h o d) (a <| state_ := (nextEventId (state_ a)).2 |>)
        (mkLocal (u64 (event_seq_ (state_ a) + 1) :: h) o d)
  | move_event clk e n p a h o d :
      ev_id e = event_id n -> ev_source e = p ->
      move a (mkLocal (n :: h) (p :: o) d) (on_state (fun st => addEvent clk st e) a) (mkLocal h o d)
  | move_store st a x : store_step config (fun _ => False) (state_ a) st -> move a x (a <| state_ := st |>) x
  | move_count l f a h o d : counts_one l f -> move a (mkLocal h o (l :: d)) (on_stats f a) (mkLocal h o d)
  | move_trace a b x : state_ b = state_ a -> stats_ b = stats_ a -> move a x b x.

(** The program makes only such moves, whatever other threads do between its calls, and at
    its end nothing is owed. *)
Fixpoint follows (p : Prog) x : Prop :=
  match p with
  | Done => owed x = [] /\ due x = []
  | Act n effect next => forall clk a, exists x', move a x (effect clk a) x' /\ follows (next clk a) x'
  end.

Lemma follows_store n g k x :
  (forall clk st, store_step config (fun _ => False) st (g clk st)) -> follows k x -> follows (store_call n g k) x.
Proof. intros Hg Hk clk a. exists x. split; [by apply move_store|done]. Qed.

Lemma follows_event n g e k h o d num p :
  (forall clk st, exists clk', g clk st = addEvent clk' st e) -> ev_id e = event_id num -> ev_source e = p ->
  follows k (mkLocal h o d) -> follows (store_call n g k) (mkLocal (num :: h) (p :: o) d).
Proof.
  intros Hg He Hp Hk clk a. exists (mkLocal h o d). split; [|done].
  destruct (Hg clk (state_ a)) as [clk' E].
  replace (on_state (g clk) a) with (on_state (fun st => addEvent clk' st e) a) by (unfold on_state; by rewrite E).
  by apply move_event.
Qed.

Lemma follows_stats f l k h o d :
  counts_one l f -> follows k (mkLocal h o d) -> follows (stats_call f k) (mkLocal h o (l :: d)).
Proof. intros Hf Hk clk a. exists (mkLocal h o d). split; [by apply move_count|done]. Qed.

Lemma follows_now k x : (forall now, follows (k now) x) -> follows (now_ k) x.
Proof. intros Hk clk a. exists x. split; [by apply move_trace|apply Hk]. Qed.

Lemma follows_take k h o d :
  (forall num, follows (k (event_id num)) (mkLocal (num :: h) o d)) -> follows (take_number k) (mkLocal h o d).
Proof.
  intros Hk clk a. exists (mkLocal (u64 (event_seq_ (state_ a) + 1) :: h) o d). split; [apply move_take|].
  simpl. apply Hk.
Qed.

(** Calls into the database and the web server. *)
Lemma follows_trace n g k x :
  (forall clk a, state_ (g clk a) = state_ a /\ stats_ (g clk a) = stats_ a) -> follows k x -> follows (call_ n g k) x.
Proof. intros Hg Hk clk a. exists x. split; [by apply move_trace; apply Hg|done]. Qed.

Lemma follows_publish t k x : follows k x -> follows (publish t k) x.
Proof. apply follows_trace. intros _ a. unfold publishUpdate. by destruct (web_running a). Qed.

Lemma follows_persist_event e k x : follows k x -> follows (persist_event e k) x.
Proof. apply follows_trace. intros _ a. unfold persistEvent. by destruct (sqlite_enabled a). Qed.

Lemma follows_persist_traffic s k x : follows k x -> follows (persist_traffic s k) x.
Proof. apply follows_trace. intros _ a. unfold persistTraffic. by destruct (sqlite_enabled a). Qed.

Lemma follows_persist_attack e k x : follows k x -> follows (persist_attack e k) x.
Proof. apply follows_trace. intros _ a. unfold persistWANAttack. by destruct (sqlite_enabled a). Qed.

Lemma follows_persist_devices k x : follows k x -> follows (persist_devices config k) x.
Proof.
  intros Hk clk a. exists x. split; [by apply move_trace|]. simpl. destruct (sqlite_enabled a); [|done].
  by apply follows_trace.
Qed.

Lemma follows_persist_recent k x : follows k x -> follows (persist_recent config k) x.
Proof.
  intros Hk clk a. exists x. split; [by apply move_trace|]. simpl.
  generalize (if sqlite_enabled a then recentEvents (state_ a) (max_events config) else []). intros events.
  induction events as [|e events IH]; [done|]. by apply follows_trace.
Qed.

Lemma device_step clk st d :
  rx_rate_bps d = d_zero -> tx_rate_bps d = d_zero -> store_step config (fun _ => False) st (updateDevice config clk st d).
Proof. intros H1 H2. apply step_updateDevice. split; [by rewrite H1|by rewrite H2]. Qed.

Lemma follows_end h : follows Done (mkLocal h [] []).
Proof. done. Qed.

Create HintDb follows.

#[local] Hint Resolve follows_publish follows_persist_event follows_persist_traffic follows_persist_attack
  follows_persist_devices follows_persist_recent follows_end step_updateTraffic step_updateInterface
  step_addWANAttack step_cleanup device_step : follows.

(** The event that a handler adds. *)
Ltac follows_event := eapply follows_event; [intros clk st; by eexists|done|done|].

(** What the type of the line owes, once the type is known. *)
Ltac known_type E :=
  rewrite E;
  match goal with |- follows _ (mkLocal _ ?o ?d) =>
    let o' := eval vm_compute in o in let d' := eval vm_compute in d in
    change o with o'; change d with d' end.

Lemma apply_follows result p h :
  follows (apply_prog config result p)
    (mkLocal h (if decide (pr_type result = "netiface") then [] else [p])
       (if decide (pr_type result = "wan_attack") then [LAttacks] else [])).
Proof.
  unfold apply_prog, make_event. apply follows_take. intros num. apply follows_now. intros now1. apply follows_now. intros now2.
  cbv zeta. destruct (wifi_device_rates result (tsFromFields now2 result)) as [Hw1 Hw2].
  destruct (decide (pr_type result = "netdev")) as [E|_].
  { known_type E. unfold netdev_prog. apply follows_store; [auto with follows|]. follows_event. auto 10 with follows. }
  destruct (decide (pr_type result = "dhcp")) as [E|_].
  { known_type E. unfold dhcp_prog. apply follows_store; [auto with follows|]. follows_event. auto 10 with follows. }
  destruct (decide (pr_type result = "nettraffic")) as [E|_].
  { known_type E. unfold nettraffic_prog. destruct (_ && _).
    - apply follows_store; [auto with follows|]. apply follows_persist_traffic, follows_persist_devices. follows_event. auto 10 with follows.
    - follows_event. auto 10 with follows. }
  destruct (decide (pr_type result = "netiface")) as [E|_].
  { known_type E. unfold netiface_prog. destruct (_ && _); [|done]. apply follows_store; auto with follows. }
  destruct (decide (pr_type result = "wan_attack")) as [E|_].
  { unfold wan_attack_prog. apply follows_store; [auto with follows|]. apply follows_stats; [apply attack_counts|]. follows_event. auto 10 with follows. }
  case_decide; [|case_decide].
  - unfold wan_prog. cbv zeta. case_decide; follows_event; auto 10 with follows.
  - unfold wifi_prog. cbv zeta. destruct (wifi_disconnected result); (apply follows_store; [auto with follows|]); follows_event; auto 10 with follows.
  - unfold other_prog. follows_event. auto 10 with follows.
Qed.

Lemma follows_message t k h o d :
  follows k (mkLocal h o d) -> follows (record_message t k) (mkLocal h o (LMessages :: LType (type_label t) :: d)).
Proof. intros Hk. apply follows_stats; [apply bump_total_counts|]. apply follows_stats; [apply bump_type_counts|done]. Qed.

(** Every handler does what its line owes. *)
Lemma line_follows line p h : follows (line_prog config line p) (mkLocal h (line_event line p) (line_labels line)).
Proof.
  unfold line_prog, line_event, line_labels. destruct (matched (parse line)); cbn [negb]; cbv zeta.
  - apply follows_message. rewrite (decide_ext _ (pr_type (parse line) = "netiface")) by tauto. apply apply_follows.
  - rewrite decide_False by (by intros []). apply (follows_message "raw"). apply follows_stats; [apply parse_error_counts|].
    apply follows_take. intros num. apply follows_now. intros now. follows_event. auto 10 with follows.
Qed.

Lemma cleanup_follows h : follows (cleanup_prog config) (mkLocal h [] []).
Proof.
  apply follows_now. intros now. apply follows_store; [auto with follows|].
  apply follows_persist_devices, follows_persist_recent, follows_trace; [|auto with follows].
  intros _ a. by destruct (sqlite_enabled a).
Qed.

(** ** Runs of the pool

    Every thread keeps following its program, whatever the others do; the [xs] are what
    the threads hold and owe. *)
Definition idle : Local := mkLocal [] [] [].

Inductive ghost_step : Pool * list Local -> Pool * list Local -> Prop :=
  | ghost_call i a b x x' ts ts' ls xs :
      xs !! i = Some x -> move a x b x' ->
      ghost_step (mkPool a ts ls, xs) (mkPool b ts' ls, <[i := x']> xs)
  | ghost_line i line p a x ts ts' ls xs :
      xs !! i = Some x -> owed x = [] -> due x = [] ->
      ghost_step (mkPool a ts ls, xs)
        (mkPool a ts' (ls ++ [(line, p)]), <[i := mkLocal (held x) (line_event line p) (line_labels line)]> xs)
  | ghost_spawn a ts ts' ls xs : ghost_step (mkPool a ts ls, xs) (mkPool a ts' ls, xs ++ [idle])
  | ghost_same a ts ts' ls xs : ghost_step (mkPool a ts ls, xs) (mkPool a ts' ls, xs).

Definition tracked (p : Pool) xs : Prop := Forall2 follows (threads p) xs.

Lemma tracked_step p p' xs :
  pool_step config p p' -> tracked p xs -> exists xs', tracked p' xs' /\ ghost_step (p, xs) (p', xs').
Proof.
  unfold tracked. intros [i n effect next clk a ts ls Hi|i line pe a ts ls Hi|i a ts ls Hi|a ts ls] Ht; simpl in *.
  - destruct (Forall2_lookup_l _ _ _ _ _ Ht Hi) as (x & Hx & Hf). destruct (Hf clk a) as (x' & Hm & Hf').
    exists (<[i := x']> xs). split; [by apply Forall2_insert|by eapply ghost_call].
  - destruct (Forall2_lookup_l _ _ _ _ _ Ht Hi) as (x & Hx & Ho & Hd).
    eexists. split; [|by eapply ghost_line]. apply Forall2_insert; [done|apply line_follows].
  - destruct (Forall2_lookup_l _ _ _ _ _ Ht Hi) as ([h o d] & Hx & Ho & Hd). simpl in Ho, Hd. subst o d.
    exists xs. split; [|apply ghost_same]. rewrite <- (list_insert_id xs i _ Hx).
    apply Forall2_insert; [done|apply cleanup_follows].
  - exists (xs ++ [idle]). split; [|apply ghost_spawn]. apply Forall2_app; [done|]. by repeat constructor.
Qed.

(** An invariant of the pool and of what its threads owe, under a condition [C] that the
    states passed have, holds at the end of a run. *)
Lemma run_invariant (C : Pool -> Prop) (I : Pool * list Local -> Prop) p p' :
  (forall q xs q' xs', C q -> I (q, xs) -> ghost_step (q, xs) (q', xs') -> I (q', xs')) ->
  rtc (fun q q' => C q /\ pool_step config q q') p p' ->
  threads p = [] -> I (p, []) -> exists xs, tracked p' xs /\ I (p', xs).
Proof.
  intros Hstep Hrun Hnone HI.
  assert (Ht : tracked p []) by (unfold tracked; by rewrite Hnone).
  revert Ht HI. generalize (@nil Local). clear Hnone. induction Hrun as [q|q q1 q2 [HC Hs] _ IH]; intros xs Ht HI; [eauto|].
  destruct (tracked_step _ _ _ Hs Ht) as (xs1 & Ht1 & Hg). eauto.
Qed.

Lemma run_unconditional p p' : rtc (pool_step config) p p' -> rtc (fun q q' => True /\ pool_step config q q') p p'.
Proof. intros H. induction H; [done|]. by eapply rtc_l. Qed.

Lemma total_spawn {X} (f : Local -> list X) xs : f idle = [] -> (xs ++ [idle]) ≫= f = xs ≫= f.
Proof. intros Hf. rewrite bind_app, bind_cons, Hf. simpl. by rewrite app_nil_r. Qed.

Lemma quiet_owes p xs : quiet p -> tracked p xs -> (xs ≫= owed) = [] /\ (xs ≫= due) = [].
Proof.
  unfold quiet, tracked. generalize (threads p). intros ts Hq Ht. induction Ht as [|t x ts xs Hx _ IH]; [done|].
  apply Forall_cons in Hq as [-> Hq]. destruct Hx as [Ho Hd]. destruct (IH Hq) as [IH1 IH2].
  rewrite !bind_cons, Ho, Hd. done.
Qed.

(** ** Event numbers *)

Lemma numbered_ok_perm st taken taken' : taken ≡ₚ taken' -> numbered_ok (st, taken) -> numbered_ok (st, taken').
Proof. intros Hp [H0 H]. split; [done|]. simpl in *. unfold ids_of in *. by rewrite <- Hp. Qed.

Lemma move_numbered a h1 b h2 l1 l2 :
  move a h1 b h2 -> numbers_left (state_ a) ->
  numbered_ok (state_ a, l1 ++ held h1 ++ l2) -> numbered_ok (state_ b, l1 ++ held h2 ++ l2).
Proof.
  intros Hm Hroom. destruct Hm as [a h o d|clk e n p a h o d He _|st a y Hs|l f a h o d _|a b y E _]; simpl; intros Hok.
  - eapply numbered_ok_perm; [|eapply numbered_step_ok; [apply (numbered_take config); exact Hroom|exact Hok]].
    apply Permutation_middle.
  - eapply numbered_step_ok; [|exact Hok].
    exact (numbered_add config clk (state_ a) e n l1 (h ++ l2) He).
  - eapply numbered_step_ok; [|exact Hok]. by apply (numbered_other config).
  - done.
  - by rewrite E.
Qed.

Lemma ghost_numbered q xs q' xs' :
  numbers_left (state_ (shared q)) -> numbered_ok (state_ (shared q), xs ≫= held) ->
  ghost_step (q, xs) (q', xs') -> numbered_ok (state_ (shared q'), xs' ≫= held).
Proof.
  intros Hroom Hok Hg. inversion Hg as [i a b x x' ts ts' ls ys Hi Hm|i line p a x ts ts' ls ys Hi Ho Hd|a ts ts' ls ys|a ts ts' ls ys]; subst; simpl in *.
  - destruct (bind_insert held _ _ _ x' Hi) as (l1 & l2 & E1 & ->). rewrite E1 in Hok. by eapply move_numbered.
  - destruct (bind_insert held _ _ _ (mkLocal (held x) (line_event line p) (line_labels line)) Hi) as (l1 & l2 & E1 & ->).
    by rewrite E1 in Hok.
  - by rewrite total_spawn.
  - done.
Qed.

(** C8: the numbers of events are unique although a handler takes its number in one call and
    adds the event in a later one, with any calls of other threads between: in a process whose
    store started empty and that has not used up its 64-bit numbers, no two events in the
    buffer have the same identifier.  (The store of a process that read events back from its
    database starts with their identifiers and counts from zero:
    [reloaded_event_id_collision].) *)
Theorem concurrent_event_ids_unique p p' :
  state_ (shared p) = new_StateStore config -> threads p = [] ->
  rtc (fun q q' => numbers_left (state_ (shared q)) /\ pool_step config q q') p p' ->
  NoDup (ev_id <$> items_ (events_ (state_ (shared p')))).
Proof.
  intros Hst Hnone Hrun.
  destruct (run_invariant (fun q => numbers_left (state_ (shared q)))
    (fun s => numbered_ok (state_ (shared s.1), s.2 ≫= held)) _ _
    (fun q xs q' xs' HC HI Hg => ghost_numbered q xs q' xs' HC HI Hg) Hrun Hnone) as (xs & _ & _ & [Hnd _]).
  - simpl. rewrite Hst. split; simpl; [lia|]. split; [apply NoDup_nil_2|set_solver].
  - unfold ids_of in Hnd. by apply NoDup_app in Hnd as [? _].
Qed.

(** ** What the lines left behind *)

Definition offline_report (e : Event) : Prop := ev_source e = "state" /\ ev_message e = "Device offline".

Lemma offline_events_reports now seq l : Forall offline_report (offline_events config now seq l).
Proof.
  revert seq. induction l as [|[k d] l IH]; intros seq; [done|]. simpl.
  destruct (goes_offline config now d); [|done]. by constructor.
Qed.

Lemma pushes_represent rb history (l : list Event) :
  rb_represents rb history -> rb_represents (fold_left rb_push l rb) (history ++ l).
Proof.
  revert rb history. induction l as [|e l IH]; intros rb history H; [by rewrite app_nil_r|].
  rewrite (app_assoc history [e] l : history ++ e :: l = _). by apply IH, rb_push_represents.
Qed.

(** Only [addEvent] and [cleanup] write events. *)
Lemma other_step_events st st' :
  store_step config (fun _ => False) st st' ->
  exists l, events_ st' = fold_left rb_push l (events_ st) /\ Forall offline_report l.
Proof.
  intros Hs. assert (Hsame : same_events st st' -> exists l, events_ st' = fold_left rb_push l (events_ st) /\ Forall offline_report l).
  { intros [-> _]. by exists []. }
  destruct Hs as [clk st d _|clk st s|clk st s|clk st e []|clk st e|st|clk now st].
  - apply Hsame, updateDevice_events.
  - apply Hsame, updateTraffic_events.
  - apply Hsame, updateInterface_events.
  - apply Hsame, addWANAttack_events.
  - by exists [].
  - rewrite (cl_events _ _ _ _ (cleanup_cleaned config now clk st)). eexists. split; [done|]. apply offline_events_reports.
Qed.

(** What was counted, with what the threads still have to count, is what the lines owe. *)
Definition counts_kept (s : Pool * list Local) : Prop :=
  exists counted, counted ++ (s.2 ≫= due) ≡ₚ (lines s.1 ≫= fun l => line_labels l.1) /\
    forall l, count_of (stats_ (shared s.1)) l = u64 (occ l counted).

(** The events since the start: one per line with the peer as its source, those apart that
    threads still have to add, and the reports of the cleanup thread. *)
Definition events_kept (before : list Event) (s : Pool * list Local) : Prop :=
  exists since own offline,
    rb_represents (events_ (state_ (shared s.1))) (before ++ since) /\
    since ≡ₚ own ++ offline /\ Forall offline_report offline /\
    (ev_source <$> own) ++ (s.2 ≫= owed) ≡ₚ (lines s.1 ≫= fun l => line_event l.1 l.2).

Lemma u64_add_1 n : u64 (u64 n + 1) = u64 (n + 1).
Proof. unfold u64. by rewrite Zplus_mod_idemp_l. Qed.

Lemma move_counts a x b x' l1 l2 counted :
  move a x b x' -> (forall l, count_of (stats_ a) l = u64 (occ l counted)) ->
  exists counted', counted' ++ l1 ++ due x' ++ l2 ≡ₚ counted ++ l1 ++ due x ++ l2 /\
    forall l, count_of (stats_ b) l = u64 (occ l counted').
Proof.
  intros [a0 h o d|clk e n p a0 h o d _ _|st a0 y _|l f a0 h o d Hf|a0 b0 y _ E] Hc; simpl; try by exists counted.
  - exists (l :: counted). split; [solve_Permutation|]. intros l'. rewrite Hf, Hc, occ_cons.
    case_decide; [|done]. rewrite u64_add_1. f_equal. lia.
  - exists counted. by rewrite E.
Qed.

Lemma ghost_counts q xs q' xs' : counts_kept (q, xs) -> ghost_step (q, xs) (q', xs') -> counts_kept (q', xs').
Proof.
  unfold counts_kept. intros (counted & Hp & Hc) Hg. simpl in *.
  inversion Hg as [i a b x x' ts ts' ls ys Hi Hm|i line p a x ts ts' ls ys Hi Ho Hd|a ts ts' ls ys|a ts ts' ls ys]; subst; simpl in *.
  - destruct (bind_insert due _ _ _ x' Hi) as (l1 & l2 & E1 & ->). rewrite E1 in Hp.
    destruct (move_counts _ _ _ _ l1 l2 _ Hm Hc) as (counted' & Hp' & Hc'). exists counted'. by rewrite Hp'.
  - destruct (bind_insert due _ _ _ (mkLocal (held x) (line_event line p) (line_labels line)) Hi) as (l1 & l2 & E1 & ->).
    exists counted. split; [|done]. rewrite bind_app, bind_cons. simpl. rewrite app_nil_r, <- Hp, E1, Hd. solve_Permutation.
  - rewrite total_spawn by done. by exists counted.
  - by exists counted.
Qed.

Lemma move_events before a x b x' l1 l2 since own offline :
  move a x b x' -> rb_represents (events_ (state_ a)) (before ++ since) ->
  since ≡ₚ own ++ offline -> Forall offline_report offline ->
  exists since' own' offline', rb_represents (events_ (state_ b)) (before ++ since') /\
    since' ≡ₚ own' ++ offline' /\ Forall offline_report offline' /\
    (ev_source <$> own') ++ l1 ++ owed x' ++ l2 ≡ₚ (ev_source <$> own) ++ l1 ++ owed x ++ l2.
Proof.
  intros [a0 h o d|clk e n p a0 h o d He Hs|st a0 y Hs|l f a0 h o d Hf|a0 b0 y E _] Hr Hp Hoff; simpl;
    try by exists since, own, offline.
  - exists (since ++ [stamped clk e]), (stamped clk e :: own), offline. split_and!; [|by rewrite Hp; solve_Permutation|done|].
    + rewrite app_assoc. destruct (addEvent_stamped clk (state_ a0) e) as [-> _]; [by rewrite He|]. by apply rb_push_represents.
    + rewrite fmap_cons. replace (ev_source (stamped clk e)) with p; [solve_Permutation|].
      rewrite <- Hs. unfold stamped. by destruct (ev_ts e =? 0).
  - destruct (other_step_events _ _ Hs) as (l & El & Hl). exists (since ++ l), own, (offline ++ l). split_and!; [|by rewrite Hp; solve_Permutation| |done].
    + rewrite app_assoc, El. by apply pushes_represent.
    + by apply Forall_app.
  - rewrite E. by exists since, own, offline.
Qed.

Lemma ghost_events before q xs q' xs' :
  events_kept before (q, xs) -> ghost_step (q, xs) (q', xs') -> events_kept before (q', xs').
Proof.
  unfold events_kept. intros (since & own & offline & Hr & Hp & Hoff & Hk) Hg. simpl in *.
  inversion Hg as [i a b x x' ts ts' ls ys Hi Hm|i line p a x ts ts' ls ys Hi Ho Hd|a ts ts' ls ys|a ts ts' ls ys]; subst; simpl in *.
  - destruct (bind_insert owed _ _ _ x' Hi) as (l1 & l2 & E1 & ->). rewrite E1 in Hk.
    destruct (move_events before _ _ _ _ l1 l2 _ _ _ Hm Hr Hp Hoff) as (since' & own' & offline' & Hr' & Hp' & Hoff' & Hk').
    exists since', own', offline'. by rewrite Hk'.
  - destruct (bind_insert owed _ _ _ (mkLocal (held x) (line_event line p) (line_labels line)) Hi) as (l1 & l2 & E1 & ->).
    exists since, own, offline. split_and!; try done. rewrite bind_app, bind_cons. simpl. rewrite app_nil_r, <- Hk, E1, Ho. solve_Permutation.
  - rewrite total_spawn by done. by exists since, own, offline.
  - by exists since, own, offline.
Qed.

(** C3: when no handler is running any more, every line was counted once under its type, as an
    error exactly when nothing matched and as an attack when it was one, and every line has
    left one event with its peer as the source, except interface telemetry (type
    [netiface]), which leaves none; the only other events
    are the reports of the cleanup thread.  Nothing is lost and nothing doubled, in any
    interleaving. *)
Theorem concurrent_lines_counted p p' before :
  threads p = [] -> lines p = [] -> stats_ (shared p) = new_RuntimeStats ->
  rb_represents (events_ (state_ (shared p))) before ->
  rtc (pool_step config) p p' -> quiet p' ->
  (forall l, count_of (stats_ (shared p')) l = u64 (occ l (lines p' ≫= fun l => line_labels l.1))) /\
  exists since own offline,
    rb_represents (events_ (state_ (shared p'))) (before ++ since) /\
    since ≡ₚ own ++ offline /\ Forall offline_report offline /\
    ev_source <$> own ≡ₚ (lines p' ≫= fun l => line_event l.1 l.2).
Proof.
  intros Hnone Hl Hst Hev Hrun%run_unconditional Hq.
  destruct (run_invariant _ (fun s => counts_kept s /\ events_kept before s) _ _
    (fun q xs q' xs' _ HI Hg => conj (ghost_counts q xs q' xs' (proj1 HI) Hg) (ghost_events before q xs q' xs' (proj2 HI) Hg))
    Hrun Hnone) as (xs & Ht & (counted & Hp & Hc) & since & own & offline & Hr & Hs & Hoff & Hk).
  - split; [exists []|exists [], [], []]; simpl; rewrite ?Hst, ?Hl, ?app_nil_r; split_and!; try done. by intros [].
  - destruct (quiet_owes _ _ Hq Ht) as [Ho Hd]. simpl in *. rewrite Ho, app_nil_r in Hk. rewrite Hd, app_nil_r in Hp.
    split; [intros l; by rewrite Hc, Hp|]. by exists since, own, offline.
Qed.

(** ** Schedules

    A run given by its commands; a command that does not apply does nothing. *)
Inductive Command : Type := Spawn | Line (i : nat) (line peer_ip : bytes) | Round (i : nat) | Call (i : nat).

Definition exec (clk : clock) (c : Command) (p : Pool) : Pool :=
  match c with
  | Spawn => mkPool (shared p) (threads p ++ [Done]) (lines p)
  | Line i line peer_ip =>
      match threads p !! i with
      | Some Done => mkPool (shared p) (<[i := line_prog config line peer_ip]> (threads p)) (lines p ++ [(line, peer_ip)])
      | _ => p
      end
  | Round i =>
      match threads p !! i with
      | Some Done => mkPool (shared p) (<[i := cleanup_prog config]> (threads p)) (lines p)
      | _ => p
      end
  | Call i =>
      match threads p !! i with
      | Some (Act n effect next) =>
          mkPool (effect clk (shared p)) (<[i := next clk (shared p)]> (threads p)) (lines p)
      | _ => p
      end
  end.

(** The commands are carried out while the states have [C]. *)
Fixpoint exec_while (C : Pool -> Prop) `{forall p, Decision (C p)} (clk : clock) (cs : list Command) (p : Pool) : Pool :=
  match cs with
  | [] => p
  | c :: cs => if decide (C p) then exec_while C clk cs (exec clk c p) else p
  end.

Lemma exec_steps clk c p : exec clk c p = p \/ pool_step config p (exec clk c p).
Proof.
  destruct p as [a ts ls], c as [|i line pe|i|i]; simpl.
  - right. apply pool_spawn.
  - destruct (ts !! i) as [[|n effect next]|] eqn:E; auto. right. by apply pool_line.
  - destruct (ts !! i) as [[|n effect next]|] eqn:E; auto. right. by apply pool_cleanup.
  - destruct (ts !! i) as [[|n effect next]|] eqn:E; auto. right. by eapply pool_call.
Qed.

Lemma exec_while_runs C `{forall p, Decision (C p)} clk cs p :
  rtc (fun q q' => C q /\ pool_step config q q') p (exec_while C clk cs p).
Proof.
  revert p. induction cs as [|c cs IH]; intros p; [done|]. simpl. case_decide; [|done].
  destruct (exec_steps clk c p) as [->|Hs]; [apply IH|]. eapply rtc_l; [|apply IH]. done.
Qed.

Definition no_condition (_ : Pool) : Prop := True.

#[export] Instance no_condition_dec p : Decision (no_condition p) := left I.

Lemma exec_runs clk cs p : rtc (pool_step config) p (exec_while no_condition clk cs p).
Proof.
  assert (H : forall q, rtc (fun q q' => no_condition q /\ pool_step config q q') p q -> rtc (pool_step config) p q).
  { intros q Hr. induction Hr as [|a b c [_ ?] _ IH]; [done|]. by eapply rtc_l. }
  apply H, exec_while_runs.
Qed.

End Interleavings.

(** ** Concrete schedules *)

Definition fresh_pool : Pool := mkPool ((new_App default_Config) <| sqlite_enabled := true |>) [] [].

(** Two reports of one device, the second twenty seconds later. *)
Definition report_line (ts hostname : bytes) : bytes :=
  telemetry_line "NETDEV" [("ts" : bytes, ts); ("mac" : bytes, "aa:bb:cc:dd:ee:01" : bytes);
    ("ip" : bytes, "192.168.1.10" : bytes); ("hostname" : bytes, hostname)].

Definition overtaken : list Command :=
  [Spawn; Spawn; Line 0 (report_line "1700000000" "old") "192.168.1.1"; Line 1 (report_line "1700000020" "new") "192.168.1.1"]
  ++ replicate 8 (Call 0) ++ replicate 12 (Call 1) ++ replicate 4 (Call 0).

Definition overtaken_pool : Pool :=
  @exec_while default_Config canonical_order no_condition _ demo_clock overtaken fresh_pool.

(** [persistDevices] reads the devices in one call and writes them in another.  A handler that
    is overtaken between the two writes what another has already written in a newer version:
    when all handlers are done, the database has the older report of the device and the
    store the newer one, until the next line or cleanup round writes the devices again. *)
Theorem database_can_fall_behind :
  rtc (@pool_step default_Config canonical_order) fresh_pool overtaken_pool /\ quiet overtaken_pool /\
  (fun e => (e.1, last_seen e.2)) <$> map_to_list (devices_by_key_ (state_ (shared overtaken_pool)))
    = [(mac_key "aa:bb:cc:dd:ee:01", fromUnixSeconds 1700000020)] /\
  (fun t : Tables => (fun e => (e.1, dr_last_seen e.2)) <$> map_to_list (t_devices t))
    <$> @perform_all default_Config memory_api (fun _ => demo_clock) (effects (shared overtaken_pool)) (Some empty_Tables)
    = Some [(mac_key "aa:bb:cc:dd:ee:01", 1700000000)].
Proof.
  split; [apply exec_runs|]. split; [|split; vm_compute; reflexivity].
  unfold quiet. replace (threads overtaken_pool) with [Done; Done] by (vm_compute; reflexivity). by repeat constructor.
Qed.

(** Two lines in two threads whose calls alternate, one of them not understood, and a round
    of the cleanup thread. *)
Definition alternating : list Command :=
  [Spawn; Spawn; Spawn; Line 0 (report_line "1700000000" "old") "192.168.1.1"; Line 1 "unparsed" "192.168.1.2"; Round 2]
  ++ mjoin (replicate 14 [Call 0; Call 1; Call 2]).

Definition alternating_pool : Pool :=
  @exec_while default_Config canonical_order no_condition _ demo_clock alternating fresh_pool.

Lemma concurrent_event_ids_unique_witness :
  NoDup (ev_id <$> items_ (events_ (state_ (shared
    (@exec_while default_Config canonical_order (fun q => numbers_left (state_ (shared q))) _ demo_clock alternating fresh_pool))))).
Proof.
  apply (@concurrent_event_ids_unique default_Config canonical_order fresh_pool);
    [reflexivity|reflexivity|apply exec_while_runs].
Defined.

Lemma concurrent_lines_counted_witness :
  count_of (stats_ (shared alternating_pool)) LMessages = 2 /\
  count_of (stats_ (shared alternating_pool)) LErrors = 1.
Proof.
  destruct (@concurrent_lines_counted default_Config canonical_order fresh_pool alternating_pool []) as [H _].
  - reflexivity.
  - reflexivity.
  - reflexivity.
  - by apply rb_new_represents.
  - apply exec_runs.
  - unfold quiet. replace (threads alternating_pool) with [Done; Done; Done] by (vm_compute; reflexivity). by repeat constructor.
  - split; [refine (eq_trans (H LMessages) _)|refine (eq_trans (H LErrors) _)]; vm_compute; reflexivity.
Defined.
