(* ===== verification/WebJson.v ===== *)
(** * The JSON texts of src/src/web_server.cpp

    One function per [...Json] function of the anonymous namespace, on the text constructors of
    [Json], and the value each text stands for. *)

From S2P Require Import Prelude Utils TimeFormat Json Double DoubleText Types Sqlite.

(** ** The texts *)

(** [out << value] of a signed integer; unsigned ones are printed by [to_string]. *)
Definition int_text (z : Z) : bytes := if z <? 0 then "-"%char :: to_string (- z) else to_string z.

Definition jsonFields (fields : gmap bytes bytes) : bytes :=
  braces ((fun entry => member entry.1 (jsonQuote entry.2)) <$> map_in_order fields).

Definition tagsJson (tags : list bytes) : bytes := brackets (jsonQuote <$> tags).

Definition statsByTypeJson (values : gmap bytes Z) : bytes :=
  braces ((fun entry => member entry.1 (to_string entry.2)) <$> map_in_order values).

Definition deviceJson (device : DeviceState) : bytes :=
  braces
    [member "mac" (jsonQuote (mac device));
     member "ip" (jsonQuote (ip device));
     member "hostname" (jsonQuote (hostname device));
     member "interface_name" (jsonQuote (interface_name device));
     member "source" (jsonQuote (source device));
     member "neigh_state" (jsonQuote (neigh_state device));
     member "status" (jsonQuote (status_toString (status device)));
     member "first_seen" (jsonQuote (formatIso8601 (first_seen device)));
     member "last_seen" (jsonQuote (formatIso8601 (last_seen device)));
     member "last_dhcp" (jsonQuote (formatIso8601 (last_dhcp device)));
     member "last_traffic" (jsonQuote (formatIso8601 (last_traffic device)));
     member "last_rate" (jsonQuote (formatIso8601 (last_rate device)));
     member "rx_bytes_total" (to_string (rx_bytes_total device));
     member "tx_bytes_total" (to_string (tx_bytes_total device));
     member "rx_rate_bps" (d_default (rx_rate_bps device));
     member "tx_rate_bps" (d_default (tx_rate_bps device));
     member "tags" (tagsJson (tags device))].

Definition eventJson (event : Event) : bytes :=
  braces
    [member "id" (jsonQuote (ev_id event));
     member "ts" (jsonQuote (formatIso8601 (ev_ts event)));
     member "type" (jsonQuote (ev_type event));
     member "severity" (jsonQuote (severity_toString (ev_severity event)));
     member "source" (jsonQuote (ev_source event));
     member "message" (jsonQuote (ev_message event));
     member "fields" (jsonFields (ev_fields event))].

Definition wanAttackJson (event : WANAttackEvent) : bytes :=
  braces
    [member "ts" (jsonQuote (formatIso8601 (wa_ts event)));
     member "in_if" (jsonQuote (wa_in_if event));
     member "src_ip" (jsonQuote (wa_src_ip event));
     member "dst_ip" (jsonQuote (wa_dst_ip event));
     member "src_port" (jsonQuote (wa_src_port event));
     member "dst_port" (jsonQuote (wa_dst_port event));
     member "proto" (jsonQuote (wa_proto event));
     member "length" (jsonQuote (wa_length event));
     member "raw" (jsonQuote (wa_raw event))].

Definition trafficPointJson (point : TrafficHistoryPoint) : bytes :=
  braces
    [member "ts" (jsonQuote (formatIso8601 (tp_ts point)));
     member "rx_rate_bps" (d_default (tp_rx_rate_bps point));
     member "tx_rate_bps" (d_default (tp_tx_rate_bps point));
     member "samples" (to_string (tp_samples point))].

Definition deviceTrafficTotalJson (total : DeviceTrafficTotal) : bytes :=
  braces
    [member "mac" (jsonQuote (dt_mac total));
     member "ip" (jsonQuote (dt_ip total));
     member "hostname" (jsonQuote (dt_hostname total));
     member "first_ts" (jsonQuote (formatIso8601 (dt_first_ts total)));
     member "last_ts" (jsonQuote (formatIso8601 (dt_last_ts total)));
     member "rx_bytes" (to_string (dt_rx_bytes total));
     member "tx_bytes" (to_string (dt_tx_bytes total));
     member "total_bytes" (to_string (u64 (dt_rx_bytes total + dt_tx_bytes total)));
     member "samples" (to_string (dt_samples total))].

(** ** The values they stand for *)

Definition time_value (t : time) : json := JStr (formatIso8601 t).
Definition count_value (n : Z) : json := JNum (to_string n).
Definition rate_value (x : double) : json := JNum (d_default x).

Definition fields_value (fields : gmap bytes bytes) : json :=
  JObj (map (fun entry => (entry.1, JStr entry.2)) (map_in_order fields)).

Definition tags_value (tags : list bytes) : json := JArr (map JStr tags).

Definition stats_value (values : gmap bytes Z) : json :=
  JObj (map (fun entry => (entry.1, count_value entry.2)) (map_in_order values)).

Definition device_value (d : DeviceState) : json :=
  JObj [("mac" : bytes, JStr (mac d)); ("ip" : bytes, JStr (ip d)); ("hostname" : bytes, JStr (hostname d));
        ("interface_name" : bytes, JStr (interface_name d)); ("source" : bytes, JStr (source d));
        ("neigh_state" : bytes, JStr (neigh_state d)); ("status" : bytes, JStr (status_toString (status d)));
        ("first_seen" : bytes, time_value (first_seen d)); ("last_seen" : bytes, time_value (last_seen d));
        ("last_dhcp" : bytes, time_value (last_dhcp d)); ("last_traffic" : bytes, time_value (last_traffic d));
        ("last_rate" : bytes, time_value (last_rate d)); ("rx_bytes_total" : bytes, count_value (rx_bytes_total d));
        ("tx_bytes_total" : bytes, count_value (tx_bytes_total d)); ("rx_rate_bps" : bytes, rate_value (rx_rate_bps d));
        ("tx_rate_bps" : bytes, rate_value (tx_rate_bps d)); ("tags" : bytes, tags_value (tags d))].

Definition event_value (e : Event) : json :=
  JObj [("id" : bytes, JStr (ev_id e)); ("ts" : bytes, time_value (ev_ts e)); ("type" : bytes, JStr (ev_type e));
        ("severity" : bytes, JStr (severity_toString (ev_severity e))); ("source" : bytes, JStr (ev_source e));
        ("message" : bytes, JStr (ev_message e)); ("fields" : bytes, fields_value (ev_fields e))].

Definition attack_value (a : WANAttackEvent) : json :=
  JObj [("ts" : bytes, time_value (wa_ts a)); ("in_if" : bytes, JStr (wa_in_if a)); ("src_ip" : bytes, JStr (wa_src_ip a));
        ("dst_ip" : bytes, JStr (wa_dst_ip a)); ("src_port" : bytes, JStr (wa_src_port a));
        ("dst_port" : bytes, JStr (wa_dst_port a)); ("proto" : bytes, JStr (wa_proto a));
        ("length" : bytes, JStr (wa_length a)); ("raw" : bytes, JStr (wa_raw a))].

Definition point_value (p : TrafficHistoryPoint) : json :=
  JObj [("ts" : bytes, time_value (tp_ts p)); ("rx_rate_bps" : bytes, rate_value (tp_rx_rate_bps p));
        ("tx_rate_bps" : bytes, rate_value (tp_tx_rate_bps p)); ("samples" : bytes, count_value (tp_samples p))].

Definition total_value (t : DeviceTrafficTotal) : json :=
  JObj [("mac" : bytes, JStr (dt_mac t)); ("ip" : bytes, JStr (dt_ip t)); ("hostname" : bytes, JStr (dt_hostname t));
        ("first_ts" : bytes, time_value (dt_first_ts t)); ("last_ts" : bytes, time_value (dt_last_ts t));
        ("rx_bytes" : bytes, count_value (dt_rx_bytes t)); ("tx_bytes" : bytes, count_value (dt_tx_bytes t));
        ("total_bytes" : bytes, count_value (u64 (dt_rx_bytes t + dt_tx_bytes t)));
        ("samples" : bytes, count_value (dt_samples t))].

Lemma jsonFields_value fields : jsonFields fields = render (fields_value fields).
Proof. unfold jsonFields, fields_value. cbn [render]. by rewrite map_map. Qed.

Lemma tagsJson_value l : tagsJson l = render (tags_value l).
Proof. unfold tagsJson, tags_value. cbn [render]. by rewrite map_map. Qed.

Lemma statsByTypeJson_value values : statsByTypeJson values = render (stats_value values).
Proof. unfold statsByTypeJson, stats_value. cbn [render]. by rewrite map_map. Qed.

Lemma deviceJson_value d : deviceJson d = render (device_value d).
Proof. unfold deviceJson. by rewrite tagsJson_value. Qed.

Lemma eventJson_value e : eventJson e = render (event_value e).
Proof. unfold eventJson. by rewrite jsonFields_value. Qed.

Lemma wanAttackJson_value a : wanAttackJson a = render (attack_value a).
Proof. done. Qed.

Lemma trafficPointJson_value p : trafficPointJson p = render (point_value p).
Proof. done. Qed.

Lemma deviceTrafficTotalJson_value t : deviceTrafficTotalJson t = render (total_value t).
Proof. done. Qed.

(** ** Which are valid *)

(** A natural number has no leading zero. *)
Lemma to_string_json n : json_number (to_string n) = true.
Proof.
  destruct (Z.lt_trichotomy n 0) as [Hn|[->|Hn]]; [|done|].
  - unfold to_string. rewrite Z.log2_nonpos by lia. cbn [Z.to_nat dec_aux].
    destruct (isdigit_chr (n mod 10)) as [Hd _]; [by apply Z.mod_pos_bound|].
    assert (E : json_number [chr (48 + n mod 10)] = true); [|by destruct (_ =? _)].
    unfold json_number. rewrite decide_False by (intros Hc; rewrite Hc in Hd; done).
    rewrite Hd. by case_decide.
  - destruct (to_string_spec n) as (_ & Hd & Hv); [lia|]. destruct (to_string_size n) as (k & Hk & Hlo & _); [done|].
    pose proof (number_text_json (to_string n, [], None)) as H. 
    replace (number_text (to_string n, [], None)) with (to_string n) in H by (unfold number_text; simpl; by rewrite app_nil_r).
    apply H. split_and!; [done|constructor|right].
    destruct (to_string n) as [|c t]; [done|]. exists c, t. split; [done|]. intros ->.
    apply Forall_cons in Hd as [_ Ht]. pose proof (digits_value_bound t Ht) as Hb.
    change (digits_value ("0"%char :: t)) with (digits_value t) in Hv. cbn [length] in Hk.
    assert (length t = k) as <- by lia. lia.
Qed.

Lemma int_text_json z : json_number (int_text z) = true.
Proof.
  unfold int_text. destruct (z <? 0); [|apply to_string_json].
  pose proof (to_string_json (- z)) as H. unfold json_number in *. rewrite decide_True by done.
  destruct (to_string (- z)) as [|c t] eqn:E; [done|]. case_decide as Hc; [|exact H]. subst c. exfalso.
  clear H. destruct (Z.lt_ge_cases (- z) 0) as [Hz|Hz].
  - unfold to_string in E. rewrite Z.log2_nonpos in E by lia. cbn [Z.to_nat dec_aux] in E.
    destruct (isdigit_chr (- z mod 10)) as [Hd _]; [by apply Z.mod_pos_bound|].
    destruct (_ =? _); injection E as E _; by rewrite E in Hd.
  - destruct (to_string_spec (- z) Hz) as (_ & Hd & _). rewrite E in Hd. by apply Forall_cons in Hd as [? _].
Qed.

Lemma json_ok_obj members : json_ok (JObj members) = forallb (fun m => json_ok m.2) members.
Proof. done. Qed.

Lemma forallb_map_true {A B} (f : B -> bool) (g : A -> B) l :
  Forall (fun x => f (g x) = true) l -> forallb f (map g l) = true.
Proof. induction 1 as [|x l Hx Hl IH]; [done|]. simpl. by rewrite Hx. Qed.

Lemma fields_ok fields : json_ok (fields_value fields) = true.
Proof. apply forallb_map_true, Forall_true. done. Qed.

Lemma stats_ok values : json_ok (stats_value values) = true.
Proof. apply forallb_map_true, Forall_true. intros x. apply to_string_json. Qed.

Lemma tags_ok l : json_ok (tags_value l) = true.
Proof. apply forallb_map_true, Forall_true. done. Qed.

Definition device_rates_finite (d : DeviceState) : Prop := d_finite (rx_rate_bps d) /\ d_finite (tx_rate_bps d).

Lemma device_value_ok d : device_rates_finite d -> json_ok (device_value d) = true.
Proof.
  intros [Hr Ht]. unfold device_value. cbn [json_ok forallb snd time_value count_value rate_value].
  rewrite tags_ok, !to_string_json, (d_default_json _ Hr), (d_default_json _ Ht). done.
Qed.

Lemma event_value_ok e : json_ok (event_value e) = true.
Proof. unfold event_value. cbn [json_ok forallb snd time_value]. by rewrite fields_ok. Qed.

Lemma attack_value_ok a : json_ok (attack_value a) = true.
Proof. done. Qed.

Lemma point_value_ok p : d_finite (tp_rx_rate_bps p) -> d_finite (tp_tx_rate_bps p) -> json_ok (point_value p) = true.
Proof.
  intros Hr Ht. unfold point_value. cbn [json_ok forallb snd time_value count_value rate_value].
  by rewrite to_string_json, (d_default_json _ Hr), (d_default_json _ Ht).
Qed.

Lemma total_value_ok t : json_ok (total_value t) = true.
Proof. unfold total_value. cbn [json_ok forallb snd time_value count_value]. by rewrite !to_string_json. Qed.
