(* ===== verification/WebServer.v ===== *)
(** * src/src/web_server.cpp: the web server

    From the bytes of a connection to the bytes of the response: reading and parsing a request,
    authorisation, routing, the texts of the API, the WebSocket handshake and frames, the set of
    WebSocket clients.  Sockets are outside: received chunks and the results of [send] are
    arguments, a handler gives the actions it takes on its connection in their order.  The
    store and the statistics are read at several moments of one request, [at_ 0], [at_ 1], ...;
    other threads may have changed them in between. *)

From S2P Require Import Prelude Utils TimeFormat Json Double DoubleText Types Config LogParser.
From S2P Require Import RuntimeStats StateStore Prometheus Sqlite Sha1 WebJson.

Definition crlf : bytes := [c_cr; c_nl].
Definition header_end : bytes := crlf ++ crlf.

(** ** [sendAll] *)

(** What one call of [send] does: it takes some bytes, is interrupted, or fails. *)
Inductive SendResult : Type := SentBytes (n : positive) | Interrupted | SendFailed.

#[export] Instance SendResult_eq_dec : EqDecision SendResult.
Proof. solve_decision. Defined.

(** The bytes that went out and the value returned; [None] while the results do not end it. *)
Fixpoint sendAll (results : list SendResult) (data : bytes) : option (bytes * bool) :=
  if decide (data = []) then Some ([], true)
  else
    match results with
    | [] => None
    | SentBytes n :: rest =>
        (fun r => (take (Pos.to_nat n) data ++ r.1, r.2)) <$> sendAll rest (drop (Pos.to_nat n) data)
    | Interrupted :: rest => sendAll rest data
    | SendFailed :: _ => Some ([], false)
    end.

(** ** Requests *)

Record Request := mkRequest {
  method : bytes;
  target : bytes;
  path : bytes;
  query : bytes;
  headers : gmap bytes bytes
}.

Definition headerValue (headers : gmap bytes bytes) (key : bytes) : bytes := default [] (headers !! lower key).

(** [if (!line.empty() && line.back() == '\r') line.pop_back();] *)
Definition strip_cr (line : bytes) : bytes :=
  if decide (last line = Some c_cr) then take (length line - 1) line else line.

(** The loop over the header lines. *)
Fixpoint parse_headers (lines : list bytes) (headers : gmap bytes bytes) : gmap bytes bytes :=
  match lines with
  | [] => headers
  | line :: rest =>
      let line := strip_cr line in
      if decide (line = []) then headers
      else
        match find_char ":" line with
        | None => parse_headers rest headers
        | Some colon =>
            parse_headers rest (<[lower (trim (take colon line)) := trim (drop (S colon) line)]> headers)
        end
  end.

Definition parseRequest (raw : bytes) : option Request :=
  match getlines raw with
  | [] => None
  | line :: lines =>
      match tokens_of (strip_cr line) with
      | m :: t :: _ =>
          let query_pos := find_char "?" t in
          let p := match query_pos with None => t | Some i => take i t end in
          let q := match query_pos with None => [] | Some i => drop (S i) t end in
          Some (mkRequest m t p q (parse_headers lines ∅))
      | _ => None
      end
  end.

(** The loop around [recv] of [handleClient]; an empty chunk is a result that is not positive. *)
Fixpoint read_request (raw : bytes) (chunks : list bytes) : option bytes :=
  if contains header_end raw || (16384 <=? Z.of_nat (length raw)) then Some raw
  else
    match chunks with
    | [] => None
    | chunk :: rest => if decide (chunk = []) then None else read_request (raw ++ chunk) rest
    end.

(** The loop of [queryParam]. *)
Fixpoint find_param (parts : list bytes) (key : bytes) : bytes :=
  match parts with
  | [] => []
  | part :: rest =>
      match find_char "=" part with
      | None => find_param rest key
      | Some eq => if decide (take eq part = key) then drop (S eq) part else find_param rest key
      end
  end.

Definition queryParam (request : Request) (key : bytes) : bytes := find_param (split (query request) "&") key.

(** ** Responses *)

(** The parts of a response as [sendResponse] gets them. *)
Record Response := mkResponse {
  rs_status : Z;
  rs_status_text : bytes;
  rs_content_type : bytes;
  rs_body : bytes
}.

Definition header_line (name value : bytes) : bytes := name ++ ":"%char :: c_space :: value ++ crlf.

(** The text [sendResponse] sends. *)
Definition sendResponse (r : Response) : bytes :=
  ("HTTP/1.1 " : bytes) ++ to_string (rs_status r) ++ c_space :: rs_status_text r ++ crlf
  ++ header_line "Content-Type" (rs_content_type r)
  ++ header_line "Content-Length" (to_string (Z.of_nat (length (rs_body r))))
  ++ header_line "Connection" "close"
  ++ header_line "Cache-Control" "no-store"
  ++ header_line "X-Content-Type-Options" "nosniff"
  ++ crlf ++ rs_body r.

Definition json_type : bytes := "application/json; charset=utf-8".

Definition error_body (error : bytes) : bytes := braces [member "error" (jsonQuote error)].

Definition sendJson (body : bytes) : Response := mkResponse 200 "OK" json_type body.
Definition sendPrometheus (body : bytes) : Response :=
  mkResponse 200 "OK" "text/plain; version=0.0.4; charset=utf-8" body.
Definition sendNotFound : Response := mkResponse 404 "Not Found" json_type (error_body "not_found").
Definition sendUnauthorized : Response := mkResponse 401 "Unauthorized" json_type (error_body "unauthorized").
Definition bad_request (error : bytes) : Response :=
  mkResponse 400 "Bad Request" "application/json" (error_body error).
Definition method_not_allowed : Response :=
  mkResponse 405 "Method Not Allowed" "application/json" (error_body "method_not_allowed").

Definition contentTypeFor (path : bytes) : bytes :=
  if ends_with ".html" path then "text/html; charset=utf-8"
  else if ends_with ".css" path then "text/css; charset=utf-8"
  else if ends_with ".js" path then "application/javascript; charset=utf-8"
  else if ends_with ".svg" path then "image/svg+xml"
  else "application/octet-stream".

(** ** WebSocket frames *)

Definition byte_char (z : Z) (i : Z) : ascii := chr (byte_of z i).

Definition sendWebSocketText (message : bytes) : bytes :=
  let len := Z.of_nat (length message) in
  chr 129 ::
  (if len <? 126 then [chr len]
   else if len <=? 65535 then [chr 126; byte_char len 1; byte_char len 0]
   else chr 127 :: (chr <$> big_endian 8 len)) ++ message.

Definition handshake (key : bytes) : bytes :=
  ("HTTP/1.1 101 Switching Protocols" : bytes) ++ crlf
  ++ header_line "Upgrade" "websocket"
  ++ header_line "Connection" "Upgrade"
  ++ header_line "Sec-WebSocket-Accept" (websocketAcceptKey key) ++ crlf.

(** [{"type":"connected","payload":{}}] *)
Definition connected_message : bytes := braces [member "type" (jsonQuote "connected"); member "payload" (braces [])].

(** [broadcast] over the set of clients: who is left, given which sends succeed. *)
Definition broadcast (send_ok : Z -> bool) (ws_clients : gset Z) : gset Z :=
  filter (fun fd => send_ok fd = true) ws_clients.

(** ** The server *)

(** The state of the rest of the program at one moment. *)
Record Moment := mkMoment {
  m_now : time;
  m_uptime : Z;
  m_state : StateStore;
  m_stats : RuntimeStats
}.

(** What a handler does to its connection. *)
Inductive Action : Type :=
  | SendData (data : bytes)
  | AddClient
  | AwaitEnd     (* receives and ignores until the peer closes, an error, or [stop] *)
  | RemoveClient
  | CloseConnection.

Section Server.
Context (config : Config) {HO : HashOrder} {API : SqliteApi}.
Context (version : bytes).                      (* NETMON_VERSION *)
Context (read_file : bytes -> option bytes).    (* the file system *)
Context (sqlite_store : option SqliteStore).    (* the pointer, and the store it points to *)
Context (at_ : nat -> Moment).

Definition sqlite_available : bool := match sqlite_store with Some s => enabled s | None => false end.

Definition sqlite_db : SqliteStore := default None sqlite_store.

Definition authorized (request : Request) : bool :=
  if decide (dashboard_token config = []) then true
  else if decide (headerValue (headers request) "x-netmon-token" = dashboard_token config) then true
  else bool_decide (queryParam request "token" = dashboard_token config).

Definition readStaticFile (path : bytes) : bytes * bytes :=
  if contains ".." path then ([], [])
  else
    let relative := if decide (head path = Some "/"%char) then drop 1 path else path in
    let full_path := web_root config ++ "/"%char :: relative in
    (default [] (read_file full_path), contentTypeFor full_path).

Definition healthJson : bytes :=
  braces [member "ok" (bool_text true); member "uptime_seconds" (int_text (m_uptime (at_ 0%nat)));
          member "version" (jsonQuote version)].

Definition summary_at (i : nat) : Summary := summary config (m_now (at_ i)) (m_state (at_ i)).

Definition summaryJson : bytes :=
  let s := summary_at 0 in
  braces
    [member "active_devices" (to_string (active_devices s));
     member "idle_devices" (to_string (idle_devices s));
     member "offline_devices" (to_string (offline_devices s));
     member "unknown_devices" (to_string (unknown_devices s));
     member "wan_attack_5m" (to_string (wan_attack_5m s));
     member "rx_rate_bps" (d_default (sm_rx_rate_bps s));
     member "tx_rate_bps" (d_default (sm_tx_rate_bps s));
     member "rate_source" (jsonQuote (rate_source s));
     member "rate_interface" (jsonQuote (rate_interface s));
     member "last_interface_ts" (jsonQuote (formatIso8601 (last_interface_ts s)));
     member "last_log_ts" (jsonQuote (formatIso8601 (sm_last_log_ts s)))].

Definition integrationsJson : bytes :=
  let s := summary_at 1 in
  let runtime := stats_snapshot (m_stats (at_ 2%nat)) (m_stats (at_ 3%nat)) in
  let sqlite_enabled := bool_decide (lower (storage_mode config) = "sqlite") in
  braces
    [member "version" (jsonQuote version);
     member "uptime_seconds" (int_text (m_uptime (at_ 0%nat)));
     member "storage" (braces
       [member "mode" (jsonQuote (storage_mode config));
        member "sqlite_enabled" (bool_text sqlite_enabled);
        member "sqlite_available" (bool_text sqlite_available);
        member "sqlite_path" (jsonQuote (sqlite_path config));
        member "retention_days" (int_text (sqlite_retention_days config));
        member "max_db_mb" (int_text (sqlite_max_db_mb config));
        member "max_events" (to_string (sqlite_max_events config));
        member "max_traffic_points_per_device" (to_string (sqlite_max_traffic_points_per_device config));
        member "vacuum_on_start" (bool_text (sqlite_vacuum_on_start config))]);
     member "prometheus" (braces
       [member "enabled" (bool_text (prometheus_enabled config));
        member "path" (jsonQuote (prometheus_path config));
        member "include_device_labels" (bool_text (prometheus_include_device_labels config));
        member "device_label_mode" (jsonQuote (prometheus_device_label_mode config))]);
     member "grafana" (braces
       [member "dashboard_url" (jsonQuote "/grafana/dashboard.json");
        member "dashboard_file" (jsonQuote "deployments/grafana/openwrt-netmon-lite-dashboard.json");
        member "datasource" (jsonQuote "Prometheus")]);
     member "data_sources" (braces
       [member "default" (jsonQuote "live");
        member "sqlite_query_enabled" (bool_text sqlite_available);
        member "realtime_source" (jsonQuote "memory")]);
     member "runtime" (braces
       [member "syslog_messages_total" (to_string (syslog_messages_total_ runtime));
        member "parse_errors_total" (to_string (parse_errors_total_ runtime));
        member "wan_attacks_total" (to_string (wan_attacks_total_ runtime));
        member "syslog_messages_by_type" (statsByTypeJson (syslog_messages_by_type_ runtime));
        member "event_buffer_size" (to_string (eventBufferSize (m_state (at_ 4%nat))));
        member "wan_attack_buffer_size" (to_string (wanAttackBufferSize (m_state (at_ 5%nat))));
        member "active_devices" (to_string (active_devices s));
        member "idle_devices" (to_string (idle_devices s));
        member "offline_devices" (to_string (offline_devices s));
        member "unknown_devices" (to_string (unknown_devices s))])].

Definition useSqliteSource (request : Request) : bool :=
  bool_decide (lower (queryParam request "source") = "sqlite") && sqlite_available.

Definition sourceName (request : Request) : bytes := if useSqliteSource request then "sqlite" else "live".

(** [{"source":...,"items":[...]}] *)
Definition items_json (source : bytes) (items : list bytes) : bytes :=
  braces [member "source" (jsonQuote source); member "items" (brackets items)].

Definition devices_for (request : Request) (limit : Z) : list DeviceState :=
  let ds := if useSqliteSource request then store_devices limit sqlite_db
            else devices config (m_now (at_ 0%nat)) (m_state (at_ 0%nat)) in
  if negb (useSqliteSource request) && (0 <? limit) && (limit <? Z.of_nat (length ds))
  then take (Z.to_nat limit) ds else ds.

Definition devicesJson (request : Request) (limit : Z) : bytes :=
  items_json (sourceName request) (deviceJson <$> devices_for request limit).

Definition events_for (request : Request) (limit : Z) : list Event :=
  if useSqliteSource request then store_recentEvents limit sqlite_db
  else reverse (recentEvents (m_state (at_ 0%nat)) limit).

Definition eventsJson (request : Request) (limit : Z) : bytes :=
  items_json (sourceName request) (eventJson <$> events_for request limit).

Definition attacks_for (request : Request) (limit : Z) : list WANAttackEvent :=
  if useSqliteSource request then store_recentWANAttacks limit sqlite_db
  else reverse (recentWANAttacks (m_state (at_ 0%nat)) limit).

Definition wanAttacksJson (request : Request) (limit : Z) : bytes :=
  items_json (sourceName request) (wanAttackJson <$> attacks_for request limit).

Definition history_for (request : Request) (limit : Z) : list TrafficHistoryPoint :=
  if useSqliteSource request then store_trafficHistory limit sqlite_db else [].

Definition trafficHistoryJson (request : Request) (limit : Z) : bytes :=
  items_json (sourceName request) (trafficPointJson <$> history_for request limit).

Definition totals_for (limit : Z) : list DeviceTrafficTotal :=
  if sqlite_available then store_deviceTrafficTotals (m_now (at_ 0%nat)) 24 limit sqlite_db else [].

Definition deviceTraffic24hJson (limit : Z) : bytes :=
  braces
    [member "source" (jsonQuote (if sqlite_available then "sqlite" else "unavailable"));
     member "window_hours" (to_string 24);
     member "items" (brackets (deviceTrafficTotalJson <$> totals_for limit))].

Definition dashboard_files : list bytes :=
  ["./deployments/grafana/openwrt-netmon-lite-dashboard.json" : bytes;
   "/app/deployments/grafana/openwrt-netmon-lite-dashboard.json" : bytes;
   "../deployments/grafana/openwrt-netmon-lite-dashboard.json" : bytes].

(** The first candidate that opens. *)
Fixpoint first_file (candidates : list bytes) : bytes :=
  match candidates with
  | [] => []
  | path :: rest => match read_file path with Some body => body | None => first_file rest end
  end.

Definition grafanaDashboardJson : bytes := first_file dashboard_files.

Definition limit_of (request : Request) (fallback cap : Z) : Z :=
  Z.min (parseUint64 (queryParam request "limit") fallback) cap.

Definition metrics_text : bytes :=
  renderPrometheusMetrics config (m_now (at_ 1%nat)) (m_now (at_ 5%nat)) (m_state (at_ 1%nat)) (m_state (at_ 4%nat))
    (m_state (at_ 5%nat)) (m_stats (at_ 2%nat)) (m_stats (at_ 3%nat)) (m_uptime (at_ 0%nat)).

Definition static_paths : list bytes := ["/" : bytes; "/index.html" : bytes; "/app.js" : bytes; "/style.css" : bytes].

(** A text from a file, or not found when it is empty. *)
Definition file_response (body content_type : bytes) : Response :=
  if decide (body = []) then sendNotFound else mkResponse 200 "OK" content_type body.

(** The response [routeHttp] sends. *)
Definition routeHttp (request : Request) : Response :=
  if negb (bool_decide (method request = "GET")) then method_not_allowed
  else if starts_with "/api/" (path request) && negb (authorized request) then sendUnauthorized
  else if decide (path request = "/api/health") then sendJson healthJson
  else if decide (path request = "/api/summary") then sendJson summaryJson
  else if decide (path request = "/api/integrations") then sendJson integrationsJson
  else if decide (path request = "/api/devices") then sendJson (devicesJson request (limit_of request 1000 5000))
  else if decide (path request = "/api/events") then sendJson (eventsJson request (limit_of request 100 1000))
  else if decide (path request = "/api/wan-attacks") then sendJson (wanAttacksJson request (limit_of request 100 1000))
  else if decide (path request = "/api/traffic-history") then
    sendJson (trafficHistoryJson request (limit_of request 180 720))
  else if decide (path request = "/api/device-traffic-24h") then
    sendJson (deviceTraffic24hJson (limit_of request 50 500))
  else if decide (path request = prometheus_path config) then
    if negb (prometheus_enabled config) then sendNotFound
    else if negb (authorized request) then sendUnauthorized
    else sendPrometheus metrics_text
  else if decide (path request = "/grafana/dashboard.json"
                  \/ path request = "/grafana/openwrt-netmon-lite-dashboard.json") then
    file_response grafanaDashboardJson json_type
  else if decide (path request ∈ static_paths) then
    let '(body, content_type) :=
      readStaticFile (if decide (path request = "/") then "/index.html" else path request) in
    file_response body content_type
  else sendNotFound.

(** [handshake_sent] is the result of sending the handshake. *)
Definition handleWebSocket (handshake_sent : bool) (request : Request) : list Action :=
  if negb (authorized request) then [SendData (sendResponse sendUnauthorized); CloseConnection]
  else
    let upgrade := lower (headerValue (headers request) "upgrade") in
    let key := headerValue (headers request) "sec-websocket-key" in
    if decide (upgrade <> "websocket" \/ key = []) then
      [SendData (sendResponse (bad_request "websocket_required")); CloseConnection]
    else
      SendData (handshake key) ::
      (if handshake_sent
       then [AddClient; SendData (sendWebSocketText connected_message); AwaitEnd; RemoveClient; CloseConnection]
       else [CloseConnection]).

Definition handleClient (chunks : list bytes) (handshake_sent : bool) : list Action :=
  match read_request [] chunks with
  | None => [CloseConnection]
  | Some raw =>
      match parseRequest raw with
      | None => [SendData (sendResponse (bad_request "bad_request")); CloseConnection]
      | Some request =>
          if decide (path request = "/ws") then handleWebSocket handshake_sent request
          else [SendData (sendResponse (routeHttp request)); CloseConnection]
      end
  end.

End Server.
