(* ===== verification/WebRequests.v ===== *)
(** * Reading requests and sending responses

    The loop around [recv] and the parser of requests do not depend on how the bytes arrive; a
    request as clients write it is parsed into its parts; [sendAll] sends everything or fails. *)

From S2P Require Import Prelude Utils Types Config LogParser RuntimeStats StateStore Sqlite WebJson WebServer.
From S2P Require Import SqliteEngine.

(** ** [sendAll] *)

(** what goes out is a prefix of the data, and the result is success exactly when it is all
    of it; with no failure and enough capacity the call does succeed. *)
Theorem sendAll_sends_everything_or_fails results data :
  (forall out ok, sendAll results data = Some (out, ok) ->
     exists rest, data = out ++ rest /\ (ok = true <-> rest = [])) /\
  (SendFailed ∉ results -> (length data <= length (filter (fun r => r <> Interrupted) results))%nat ->
     sendAll results data = Some (data, true)).
Proof.
  revert data. induction results as [|r results IH]; intros data; cbn [sendAll].
  - split; [case_decide as Hd; [|done]; intros out ok [= <- <-]; by exists []|].
    intros _ Hl. destruct data; [done|]. simpl in Hl. lia.
  - case_decide as Hd; [subst; split; [intros out ok [= <- <-]; by exists []|done]|]. destruct r as [n| |].
    + destruct (IH (drop (Pos.to_nat n) data)) as [IH1 IH2]. split.
      * intros out ok ([o k] & H & [= -> ->])%fmap_Some. destruct (IH1 _ _ H) as (rest & E & Hk).
        exists rest. split; [|done]. rewrite <- app_assoc, <- E. by rewrite take_drop.
      * intros Hf Hl. rewrite filter_cons_True in Hl by done. cbn [length] in Hl.
        rewrite IH2; [simpl; by rewrite take_drop|set_solver|]. rewrite length_drop. lia.
    + destruct (IH data) as [IH1 IH2]. split; [exact IH1|]. intros Hf Hl.
      rewrite filter_cons_False in Hl by (intros H; by apply H). apply IH2; [set_solver|done].
    + split; [intros out ok [= <- <-]; exists data; split; [done|split; done]|]. set_solver.
Qed.

Lemma sendAll_sends_everything_or_fails_witness :
  sendAll [SentBytes 2; Interrupted; SentBytes 5; SentBytes 1] "abc" = Some ("abc" : bytes, true).
Proof.
  apply (sendAll_sends_everything_or_fails [SentBytes 2; Interrupted; SentBytes 5; SentBytes 1] "abc").
  - apply (bool_decide_unpack _). reflexivity.
  - simpl. lia.
Defined.

(** ** Lines *)

Lemma getlines_app a b : getlines (a ++ c_nl :: b) = split a c_nl ++ getlines b.
Proof.
  unfold getlines. rewrite split_app. pose proof (split_nonempty b c_nl) as Hb.
  generalize (split a c_nl). intros la. destruct (split b c_nl) as [|x l _] using rev_ind; [done|].
  rewrite app_assoc, !last_snoc. destruct x; [|by rewrite app_assoc].
  rewrite !(length_app _ [[]]), !Nat.add_sub, !take_app_length. done.
Qed.

Lemma getlines_nil : getlines [] = [].
Proof. done. Qed.

(** ** Headers *)

Lemma strip_cr_snoc s : strip_cr (s ++ [c_cr]) = s.
Proof.
  unfold strip_cr. rewrite last_snoc, decide_True by done. rewrite length_app. simpl.
  rewrite Nat.add_sub. by rewrite take_app_length.
Qed.

Lemma strip_cr_other s : c_cr ∉ s -> strip_cr s = s.
Proof.
  intros H. unfold strip_cr. rewrite decide_False; [done|]. intros Hl. apply H.
  apply last_Some in Hl as [l ->]. set_solver.
Qed.

Lemma parse_headers_stop l1 l2 h : parse_headers (l1 ++ [c_cr] :: l2) h = parse_headers (l1 ++ [[c_cr]]) h.
Proof.
  revert h. induction l1 as [|line l1 IH]; intros h; [done|]. cbn [app parse_headers].
  case_decide; [done|]. destruct (find_char ":" (strip_cr line)); apply IH.
Qed.

Lemma parseRequest_cut a b : parseRequest (a ++ header_end ++ b) = parseRequest (a ++ header_end).
Proof.
  assert (E : forall r, a ++ header_end ++ r = (a ++ [c_cr]) ++ c_nl :: ([c_cr] ++ c_nl :: r)).
  { intros r. by rewrite <- app_assoc. }
  rewrite E. rewrite <- (app_nil_r header_end), E. unfold parseRequest.
  rewrite !getlines_app. change (split [c_cr] c_nl) with [[c_cr]].
  pose proof (split_nonempty (a ++ [c_cr]) c_nl) as Hs. destruct (split (a ++ [c_cr]) c_nl) as [|line lines]; [done|].
  cbn [app]. by rewrite (parse_headers_stop lines (getlines b)).
Qed.

(** ** The loop around [recv] *)

Lemma contains_prefix p s t : contains p s = true -> contains p (s ++ t) = true.
Proof. rewrite !contains_spec. intros (l & r & ->). exists l, (r ++ t). by rewrite <- !app_assoc. Qed.

Lemma read_request_spec head rest raw chunks :
  Forall (fun c => c <> []) chunks -> Z.of_nat (length (head ++ header_end)) <= 16384 ->
  raw ++ concat chunks = head ++ header_end ++ rest ->
  exists raw' tail, read_request raw chunks = Some raw' /\ contains header_end raw' = true /\
    raw' ++ tail = head ++ header_end ++ rest.
Proof.
  intros Hne Hlen. revert raw. induction Hne as [|chunk chunks Hc Hne IH]; intros raw E.
  - cbn [concat] in E. rewrite app_nil_r in E. pose proof (contains_app head header_end rest) as Hc. rewrite <- E in Hc |- *.
    exists raw, []. cbn [read_request]. rewrite Hc. split; [done|]. split; [done|]. by rewrite app_nil_r.
  - cbn [read_request]. destruct (contains header_end raw) eqn:Ec.
    + exists raw, (concat (chunk :: chunks)). done.
    + assert (Hraw : (length raw < length (head ++ header_end))%nat).
      { destruct (Nat.le_gt_cases (length (head ++ header_end)) (length raw)) as [Hle|]; [|done].
        assert (Hp : take (length (head ++ header_end)) (raw ++ concat (chunk :: chunks)) = head ++ header_end).
        { rewrite E, app_assoc. apply take_app_length. }
        rewrite take_app_le in Hp by lia.
        rewrite <- (take_drop (length (head ++ header_end)) raw), Hp in Ec.
        rewrite contains_prefix in Ec; [done|]. pose proof (contains_app head header_end []) as H.
        by rewrite app_nil_r in H. }
      cbn [orb]. destruct (16384 <=? Z.of_nat (length raw)) eqn:El; [b2p; lia|].
      rewrite decide_False by done. apply IH. rewrite <- app_assoc. exact E.
Qed.

Lemma read_request_bounded raw chunks raw' :
  Forall (fun c => (length c <= 1024)%nat) chunks -> Z.of_nat (length raw) < 16384 + 1024 ->
  read_request raw chunks = Some raw' -> Z.of_nat (length raw') < 16384 + 1024.
Proof.
  intros Hc. revert raw. induction Hc as [|c chunks Hc Hcs IH]; intros raw Hr; cbn [read_request].
  - destruct (_ || _); [|done]. by intros [= <-].
  - destruct (_ || _) eqn:E; [by intros [= <-]|]. apply orb_false_elim in E as [_ E]. b2p.
    case_decide; [done|]. intros Heq. eapply IH; [|exact Heq]. rewrite length_app. lia.
Qed.

Lemma parseRequest_prefixes raw1 raw2 t1 t2 :
  contains header_end raw1 = true -> contains header_end raw2 = true ->
  raw1 ++ t1 = raw2 ++ t2 -> parseRequest raw1 = parseRequest raw2.
Proof.
  assert (H : forall raw t, contains header_end raw = true -> parseRequest (raw ++ t) = parseRequest raw).
  { intros raw t (a & b & ->)%contains_spec. rewrite <- !app_assoc. by rewrite !parseRequest_cut. }
  intros H1 H2 E. by rewrite <- (H raw1 t1), <- (H raw2 t2), E.
Qed.

Section Server.
Context (config : Config) {HO : HashOrder} {API : SqliteApi}.
Context (version : bytes) (read_file : bytes -> option bytes).
Context (sqlite_store : option SqliteStore) (at_ : nat -> Moment).

Lemma handleClient_reads head rest chunks handshake_sent :
  Forall (fun c => c <> []) chunks ->
  concat chunks = head ++ header_end ++ rest -> Z.of_nat (length (head ++ header_end)) <= 16384 ->
  (exists raw, read_request [] chunks = Some raw) /\
  handleClient config version read_file sqlite_store at_ chunks handshake_sent =
    match parseRequest (head ++ header_end) with
    | None => [SendData (sendResponse (bad_request "bad_request")); CloseConnection]
    | Some request =>
        if decide (path request = "/ws") then handleWebSocket config handshake_sent request
        else [SendData (sendResponse (routeHttp config version read_file sqlite_store at_ request)); CloseConnection]
    end.
Proof.
  intros Hc E Hlen. destruct (read_request_spec head rest [] chunks Hc Hlen E) as (raw & t & Hr & Hcr & Et).
  split; [by exists raw|]. unfold handleClient. rewrite Hr.
  rewrite (parseRequest_prefixes raw (head ++ header_end) t rest); [done|done| |].
  - pose proof (contains_app head header_end []) as H. by rewrite app_nil_r in H.
  - by rewrite <- app_assoc.
Qed.

(** C21: as long as its header is at most 16384 bytes long, a request is answered in the same
    way however its bytes are cut into chunks and whatever follows the header; and for chunks
    of the size of the buffer the server never holds 17408 bytes or more. *)
Theorem request_ignores_segmentation head rest chunks handshake_sent :
  Forall (fun c => c <> [] /\ (length c <= 1024)%nat) chunks ->
  concat chunks = head ++ header_end ++ rest -> Z.of_nat (length (head ++ header_end)) <= 16384 ->
  handleClient config version read_file sqlite_store at_ chunks handshake_sent =
    handleClient config version read_file sqlite_store at_ [head ++ header_end] handshake_sent /\
  exists raw, read_request [] chunks = Some raw /\ Z.of_nat (length raw) < 16384 + 1024.
Proof.
  intros Hc E Hlen.
  assert (Hc1 : Forall (fun c => c <> []) chunks) by (eapply Forall_impl; [exact Hc|]; intros c []; assumption).
  assert (Hc2 : Forall (fun c => (length c <= 1024)%nat) chunks) by (eapply Forall_impl; [exact Hc|]; intros c []; assumption).
  destruct (handleClient_reads head rest chunks handshake_sent Hc1 E Hlen) as [[raw Hr] ->].
  destruct (handleClient_reads head [] [head ++ header_end] handshake_sent) as [_ ->];
    [constructor; [by destruct head|constructor]|by cbn [concat]; rewrite !app_nil_r|done|].
  split; [done|]. exists raw. split; [done|]. eapply read_request_bounded; [exact Hc2| |exact Hr]. simpl. lia.
Qed.

End Server.

Definition demo_head : bytes := ("GET /api/health?token=t HTTP/1.1" : bytes) ++ crlf ++ ("Host: router" : bytes).

Lemma request_ignores_segmentation_witness :
  let moment := mkMoment 0 7 (new_StateStore default_Config) new_RuntimeStats in
  @handleClient default_Config canonical_order memory_api "0.1.0" (fun _ => None) None (fun _ => moment)
    [take 9 demo_head; drop 9 demo_head ++ [c_cr]; [c_nl]; crlf ++ ("ignored" : bytes)] true =
  [SendData (sendResponse (sendJson (WebServer.healthJson "0.1.0" (fun _ => moment)))); CloseConnection].
Proof.
  cbv zeta. etrans.
  - apply (@request_ignores_segmentation default_Config canonical_order memory_api "0.1.0" (fun _ => None) None
             _ demo_head "ignored").
    + apply (bool_decide_unpack _). by vm_compute.
    + by vm_compute.
    + by vm_compute.
  - by vm_compute.
Defined.

(** ** Requests as clients write them *)

Definition header_text (header : bytes * bytes) : bytes := header.1 ++ ":"%char :: c_space :: header.2 ++ crlf.

Definition query_text (params : list (bytes * bytes)) : bytes :=
  join "&"%char ((fun kv => kv.1 ++ "="%char :: kv.2) <$> params).

Definition request_text (method path : bytes) (params headers : list (bytes * bytes)) : bytes :=
  method ++ c_space :: path ++ "?"%char :: query_text params ++ (" HTTP/1.1" : bytes) ++ crlf
  ++ (headers ≫= header_text) ++ crlf.

Definition word (s : bytes) : Prop := s <> [] /\ Forall (fun c => isspace c = false) s.
Definition param_ok (kv : bytes * bytes) : Prop :=
  Forall (fun c => isspace c = false) kv.1 /\ Forall (fun c => isspace c = false) kv.2 /\
  "="%char ∉ kv.1 /\ "&"%char ∉ kv.1 /\ "&"%char ∉ kv.2.
Definition header_ok (header : bytes * bytes) : Prop :=
  trimmed header.1 /\ trimmed header.2 /\ ":"%char ∉ header.1 /\
  c_cr ∉ header.1 /\ c_nl ∉ header.1 /\ c_cr ∉ header.2 /\ c_nl ∉ header.2.

Fixpoint first_value (params : list (bytes * bytes)) (key : bytes) : bytes :=
  match params with
  | [] => []
  | kv :: rest => if decide (kv.1 = key) then kv.2 else first_value rest key
  end.

Definition header_map (headers : list (bytes * bytes)) : gmap bytes bytes :=
  fold_left (fun h header => <[lower header.1 := header.2]> h) headers ∅.

Lemma no_newline_of_word s : Forall (fun c => isspace c = false) s -> c_nl ∉ s /\ c_cr ∉ s /\ c_space ∉ s.
Proof. intros H. rewrite Forall_forall in H. split_and!; intros Hin; by specialize (H _ Hin). Qed.

Lemma getlines_line line rest :
  c_nl ∉ line -> getlines (line ++ crlf ++ rest) = (line ++ [c_cr]) :: getlines rest.
Proof.
  intros H. unfold crlf. replace (line ++ [c_cr; c_nl] ++ rest) with ((line ++ [c_cr]) ++ c_nl :: rest)
    by (by rewrite <- app_assoc). rewrite getlines_app.
  change (split (line ++ [c_cr]) c_nl) with (split (line ++ [c_cr]) c_nl).
  assert (E : split (line ++ [c_cr]) c_nl = [line ++ [c_cr]]).
  { pose proof (split_of_join c_nl [line ++ [c_cr]]) as Hs. apply Hs; [done|].
    repeat constructor. rewrite elem_of_app, list_elem_of_singleton. by intros [?|?]. }
  by rewrite E.
Qed.

Lemma header_text_lines header rest :
  header_ok header -> getlines (header_text header ++ rest) =
    (header.1 ++ ":"%char :: c_space :: header.2 ++ [c_cr]) :: getlines rest.
Proof.
  intros (_ & _ & _ & _ & Hn1 & _ & Hn2). unfold header_text.
  replace ((header.1 ++ ":"%char :: c_space :: header.2 ++ crlf) ++ rest)
    with ((header.1 ++ ":"%char :: c_space :: header.2) ++ crlf ++ rest).
  2: { rewrite <- !app_assoc. cbn [app]. by rewrite <- app_assoc. }
  rewrite getlines_line; [by rewrite <- app_assoc|].
  rewrite elem_of_app, !elem_of_cons. by intros [?|[?|[?|?]]].
Qed.

Lemma trim_value v : trimmed v -> trim (c_space :: v) = v.
Proof.
  intros H. pose proof (trim_app [c_space] v []) as E. rewrite app_nil_r in E. apply E; [by constructor|constructor|done].
Qed.

Lemma parse_headers_render hs h :
  Forall header_ok hs ->
  parse_headers (getlines ((hs ≫= header_text) ++ crlf)) h =
    fold_left (fun h header => <[lower header.1 := header.2]> h) hs h.
Proof.
  intros Hok. revert h. induction Hok as [|header hs Hh Hok IH]; intros h; [done|].
  rewrite bind_cons, <- app_assoc, header_text_lines by done. cbn [parse_headers fold_left].
  destruct Hh as (Ht1 & Ht2 & Hc & Hcr1 & _ & Hcr2 & _).
  replace (header.1 ++ ":"%char :: c_space :: header.2 ++ [c_cr])
    with ((header.1 ++ ":"%char :: c_space :: header.2) ++ [c_cr]) by (by rewrite <- app_assoc).
  rewrite strip_cr_snoc. rewrite decide_False by (by destruct header.1).
  rewrite find_char_app by done. rewrite take_app_length, drop_app_S_length.
  rewrite (trim_id header.1), trim_value by done. apply IH.
Qed.

Lemma tokens_word s rest :
  word s -> tokens_of (s ++ c_space :: rest) = s :: tokens_of (c_space :: rest).
Proof.
  intros [Hne Hs]. unfold tokens_of at 1. destruct s as [|c s]; [done|]. cbn [stream_tokens].
  assert (Hns : Forall (fun c => not_space c = true) (c :: s)).
  { eapply Forall_impl; [exact Hs|]. intros x. apply not_space_true. }
  assert (Ed : drop_while isspace ((c :: s) ++ c_space :: rest) = (c :: s) ++ c_space :: rest).
  { apply Forall_cons in Hs as [Hc _]. by apply drop_while_none. }
  rewrite Ed. cbn [app]. change (c :: s ++ c_space :: rest) with ((c :: s) ++ c_space :: rest).
  rewrite take_while_app_stop, drop_while_app_stop by done. f_equal.
  unfold tokens_of. apply stream_tokens_fuel; rewrite ?length_app; simpl; rewrite ?length_app; simpl; lia.
Qed.

Lemma tokens_space rest : tokens_of (c_space :: rest) = tokens_of rest.
Proof.
  unfold tokens_of. transitivity (stream_tokens (S (S (length rest))) rest); [done|].
  apply stream_tokens_fuel; lia.
Qed.

Lemma find_param_render params key :
  Forall param_ok params ->
  find_param ((fun kv => kv.1 ++ "="%char :: kv.2) <$> params) key = first_value params key.
Proof.
  induction 1 as [|kv params (_ & _ & He & _) Hok IH]; [done|]. cbn [fmap list_fmap find_param first_value].
  rewrite find_char_app by done. rewrite take_app_length, drop_app_S_length. case_decide; [done|exact IH].
Qed.

Lemma query_text_word params : Forall param_ok params -> Forall (fun c => isspace c = false) (query_text params).
Proof.
  unfold query_text. induction 1 as [|kv params (H1 & H2 & _) Hok IH]; [constructor|].
  assert (Hkv : Forall (fun c => isspace c = false) (kv.1 ++ "="%char :: kv.2)).
  { apply Forall_app_2; [done|]. by constructor. }
  cbn [fmap list_fmap]. destruct params as [|kv' params]; [exact Hkv|].
  cbn [fmap list_fmap] in IH |- *. rewrite join_cons by done. apply Forall_app_2; [done|]. by constructor.
Qed.

Lemma query_text_split params :
  params <> [] -> Forall param_ok params -> split (query_text params) "&" = (fun kv => kv.1 ++ "="%char :: kv.2) <$> params.
Proof.
  intros Hne Hok. apply split_of_join; [by destruct params|]. apply Forall_fmap.
  eapply Forall_impl; [exact Hok|]. intros kv (_ & _ & _ & H1 & H2). simpl.
  rewrite elem_of_app, elem_of_cons. by intros [?|[?|?]].
Qed.

Lemma parseRequest_text m p params hs :
  word m -> word p -> "?"%char ∉ p -> Forall param_ok params -> Forall header_ok hs ->
  parseRequest (request_text m p params hs) =
    Some (mkRequest m (p ++ "?"%char :: query_text params) p (query_text params) (header_map hs)).
Proof.
  intros Hm Hp Hq Hparams Hhs. pose proof (query_text_word params Hparams) as Hqt.
  set (t := p ++ "?"%char :: query_text params).
  assert (Ht : word t).
  { unfold t. split; [by destruct p|]. apply Forall_app_2; [apply Hp|]. by constructor. }
  assert (E : request_text m p params hs =
    (m ++ c_space :: t ++ (" HTTP/1.1" : bytes)) ++ crlf ++ ((hs ≫= header_text) ++ crlf)).
  { unfold request_text, t. by repeat (rewrite <- app_assoc || rewrite <- app_comm_cons). }
  rewrite E. unfold parseRequest. rewrite getlines_line.
  2: { destruct (no_newline_of_word m (proj2 Hm)) as (Hn1 & _ & _). destruct (no_newline_of_word t (proj2 Ht)) as (Hn2 & _ & _).
       rewrite elem_of_app, elem_of_cons, elem_of_app. intros [?|[?|[?|H]]]; [done..|].
       apply (bool_decide_pack _) in H. by vm_compute in H. }
  rewrite strip_cr_snoc, tokens_word by done. rewrite tokens_space.
  change (t ++ (" HTTP/1.1" : bytes)) with (t ++ c_space :: ("HTTP/1.1" : bytes)).
  rewrite tokens_word by done. rewrite parse_headers_render by done.
  assert (Ef : find_char "?" t = Some (length p)) by (by apply find_char_app).
  rewrite Ef. unfold t. by rewrite take_app_length, drop_app_S_length.
Qed.

(** Its text ends with an empty line. *)
Lemma request_text_ends m p params hs : exists head, request_text m p params hs = head ++ header_end.
Proof.
  unfold request_text, header_end.
  assert (H : exists l, (("HTTP/1.1" : bytes) ++ crlf ++ (hs ≫= header_text)) = l ++ crlf).
  { induction hs as [|header hs _] using rev_ind; [by eexists|]. rewrite bind_app, bind_singleton. unfold header_text.
    exists (("HTTP/1.1" : bytes) ++ crlf ++ (hs ≫= header_text) ++ header.1 ++ ":"%char :: c_space :: header.2).
    by repeat (rewrite <- app_assoc || rewrite <- app_comm_cons). }
  destruct H as [l H]. exists (m ++ c_space :: p ++ "?"%char :: query_text params ++ c_space :: l).
  repeat (rewrite <- app_assoc || rewrite <- app_comm_cons). do 5 f_equal.
  change (" HTTP/1.1" : bytes) with (c_space :: ("HTTP/1.1" : bytes)). rewrite <- app_comm_cons. f_equal.
  rewrite (app_assoc l), <- H. by rewrite <- !app_assoc.
Qed.

Lemma queryParam_text r params key :
  Forall param_ok params -> query r = query_text params -> queryParam r key = first_value params key.
Proof.
  intros Hok Hq. unfold queryParam. rewrite Hq.
  destruct (decide (params = [])) as [->|Hne]; [done|]. by rewrite query_text_split, find_param_render.
Qed.

(** C31: a request with a method, a path, parameters and headers as clients write it is parsed
    into exactly these: the parameter of a name is the first one given, the header of a name
    the last one given, whatever the case of its letters. *)
Theorem request_reads_back m p params hs :
  word m -> word p -> "?"%char ∉ p -> Forall param_ok params -> Forall header_ok hs ->
  exists r, parseRequest (request_text m p params hs) = Some r /\
    method r = m /\ path r = p /\
    (forall key, queryParam r key = first_value params key) /\
    (forall name, headerValue (headers r) name = default [] (header_map hs !! lower name)).
Proof.
  intros Hm Hp Hq Hparams Hhs. eexists. split; [by apply parseRequest_text|].
  split_and!; [done|done| |done]. intros key. by apply queryParam_text.
Qed.

Lemma request_reads_back_witness :
  exists r, parseRequest (request_text "GET" "/api/events" [("limit" : bytes, "5" : bytes); ("token" : bytes, "abc" : bytes)]
                            [("Host" : bytes, "router.lan" : bytes); ("X-Netmon-Token" : bytes, "abc" : bytes)]) = Some r /\
    queryParam r "token" = "abc" /\ headerValue (headers r) "x-netmon-token" = "abc".
Proof.
  assert (H1 : word "GET") by (split; [done|apply (bool_decide_unpack _); by vm_compute]).
  assert (H2 : word "/api/events") by (split; [done|apply (bool_decide_unpack _); by vm_compute]).
  assert (H3 : Forall param_ok [("limit" : bytes, "5" : bytes); ("token" : bytes, "abc" : bytes)])
    by (unfold param_ok; repeat constructor; apply (bool_decide_unpack _); by vm_compute).
  assert (H4 : Forall header_ok [("Host" : bytes, "router.lan" : bytes); ("X-Netmon-Token" : bytes, "abc" : bytes)]).
  { unfold header_ok. repeat constructor; cbn [fst snd];
      first [apply (bool_decide_unpack _); by vm_compute | intros c [= <-]; by vm_compute]. }
  assert (H5 : "?"%char ∉ ("/api/events" : bytes)) by (apply (bool_decide_unpack _); by vm_compute).
  destruct (request_reads_back "GET" "/api/events" _ _ H1 H2 H5 H3 H4) as (r & Hr & _ & _ & Hq & Hh).
  exists r. rewrite Hq, Hh. split; [exact Hr|]. split; by vm_compute.
Defined.
