(* ===== verification/WebResponses.v ===== *)
(** * What clients make of the responses

    A client splits every response into status, content type and body; the body of every call
    of the API is one JSON value with the data it was asked for; a WebSocket client takes the
    messages out of the frames. *)

From S2P Require Import Prelude Utils TimeFormat Json Double DoubleText Types Config LogParser RuntimeStats.
From S2P Require Import RingBuffer StateStore StoreInvariant StoreQueries Prometheus Sqlite SqliteEngine Sha1 WebJson WebServer WebRequests.

(** ** Responses *)

(** The lines up to the first empty one, and what follows it. *)
Fixpoint read_head (fuel : nat) (s : bytes) : option (list bytes * bytes) :=
  match fuel with
  | O => None
  | S fuel =>
      i ← find crlf s;
      let rest := drop (i + 2) s in
      if decide (i = 0%nat) then Some ([], rest)
      else '(lines, body) ← read_head fuel rest; Some (take i s :: lines, body)
  end.

Fixpoint header_of (lines : list bytes) (name : bytes) : option bytes :=
  match lines with
  | [] => None
  | line :: rest =>
      match find_char ":" line with
      | Some i => if decide (take i line = name) then Some (trim (drop (S i) line)) else header_of rest name
      | None => header_of rest name
      end
  end.

(** Status, content type and as many bytes of body as announced. *)
Definition read_response (s : bytes) : option (Z * bytes * bytes) :=
  '(lines, rest) ← read_head (S (length s)) s;
  match lines with
  | [] => None
  | status_line :: lines =>
      match split status_line " " with
      | version :: code :: _ =>
          content_type ← header_of lines "Content-Type";
          length_text ← header_of lines "Content-Length";
          n ← decimal_value length_text two64; status ← decimal_value code two64;
          if decide (version = "HTTP/1.1" /\ n <= Z.of_nat (length rest))
          then Some (status, content_type, take (Z.to_nat n) rest) else None
      | _ => None
      end
  end.

Definition line_free (s : bytes) : Prop := c_cr ∉ s /\ c_nl ∉ s.

#[export] Instance line_free_dec s : Decision (line_free s).
Proof. unfold line_free. apply _. Defined.

(** A response whose texts cannot break its header. *)
Definition response_ok (r : Response) : Prop :=
  0 <= rs_status r < 1000 /\ line_free (rs_status_text r) /\
  line_free (rs_content_type r) /\ trimmed (rs_content_type r).

Lemma find_crlf line rest : c_cr ∉ line -> find crlf (line ++ crlf ++ rest) = Some (length line).
Proof.
  intros H. apply find_app_first. intros j Hj. destruct (starts_with _ _) eqn:E; [|done]. exfalso.
  apply starts_with_spec in E as [t E]. apply H.
  apply list_elem_of_lookup. exists j.
  assert (Hl : (line ++ crlf ++ rest) !! j = Some c_cr).
  { rewrite <- (Nat.add_0_r j), <- lookup_drop, E. done. }
  by rewrite lookup_app_l in Hl by done.
Qed.

Lemma read_head_line fuel line s :
  line <> [] -> c_cr ∉ line ->
  read_head (S fuel) (line ++ crlf ++ s) = '(lines, body) ← read_head fuel s; Some (line :: lines, body).
Proof.
  intros Hne H. cbn [read_head]. rewrite find_crlf by done. cbn [mbind option_bind].
  rewrite decide_False by (destruct line; [done|simpl; lia]). rewrite take_app_length.
  replace (drop (length line + 2) (line ++ crlf ++ s)) with s; [done|].
  by rewrite <- drop_drop, drop_app_length.
Qed.

Lemma read_head_end fuel s : read_head (S fuel) (crlf ++ s) = Some ([], s).
Proof. done. Qed.

Lemma header_line_text name value rest :
  header_line name value ++ rest = (name ++ ":"%char :: c_space :: value) ++ crlf ++ rest.
Proof. unfold header_line. by repeat (rewrite <- app_assoc || rewrite <- app_comm_cons). Qed.

Lemma header_of_line name value lines :
  ":"%char ∉ name -> trimmed value -> header_of ((name ++ ":"%char :: c_space :: value) :: lines) name = Some value.
Proof.
  intros Hn Hv. cbn [header_of]. rewrite find_char_app by done.
  rewrite take_app_length, decide_True, drop_app_S_length by done. by rewrite trim_value.
Qed.

Lemma header_of_other name name' value lines :
  ":"%char ∉ name' -> name' <> name -> header_of ((name' ++ ":"%char :: c_space :: value) :: lines) name = header_of lines name.
Proof.
  intros Hn Hne. cbn [header_of]. rewrite find_char_app by done.
  by rewrite take_app_length, decide_False.
Qed.

Lemma digits_plain_text s : all_digits s -> line_free s /\ " "%char ∉ s /\ trimmed s.
Proof.
  intros H. assert (Hs : Forall (fun c => isspace c = false) s).
  { eapply Forall_impl; [exact H|]. intros c. apply isdigit_not_space. }
  destruct (no_newline_of_word s Hs) as (? & ? & ?). split; [done|]. split; [done|]. by apply trimmed_no_space.
Qed.

Lemma split_first a b d : d ∉ a -> split (a ++ d :: b) d = a :: split b d.
Proof.
  intros H. rewrite split_app. pose proof (split_of_join d [a]) as E. simpl in E. rewrite E; [done|done|by constructor].
Qed.

Lemma decimal_value_to_string n : 0 <= n < two64 -> decimal_value (to_string n) two64 = Some n.
Proof.
  intros Hn. destruct (to_string_spec n) as (Hne & Hd & Hv); [lia|]. unfold decimal_value.
  rewrite decide_True; [by rewrite Hv|]. rewrite Hv. split_and!; [done|done|lia].
Qed.

(** A character that does not occur in a literal. *)
Ltac absent := first [assumption | apply (bool_decide_unpack _); vm_compute; exact I].

Lemma read_response_text r :
  response_ok r -> Z.of_nat (length (rs_body r)) < two64 ->
  read_response (sendResponse r) = Some (rs_status r, rs_content_type r, rs_body r).
Proof.
  intros (Hstatus & [Hst1 Hst2] & [Hct1 Hct2] & Hct) Hlen.
  set (n := Z.of_nat (length (rs_body r))) in *.
  destruct (to_string_spec (rs_status r)) as (_ & Hd1 & _); [lia|].
  destruct (digits_plain_text _ Hd1) as ([Hs1 _] & Hsp & _).
  destruct (to_string_spec n) as (_ & Hd2 & _); [lia|].
  destruct (digits_plain_text _ Hd2) as ([Hl1 _] & _ & Hlt).
  set (status_line := ("HTTP/1.1 " : bytes) ++ to_string (rs_status r) ++ c_space :: rs_status_text r).
  set (h name value := name ++ ":"%char :: c_space :: value).
  assert (E : sendResponse r = status_line ++ crlf ++ h ("Content-Type" : bytes) (rs_content_type r) ++ crlf
    ++ h ("Content-Length" : bytes) (to_string n) ++ crlf ++ h ("Connection" : bytes) ("close" : bytes) ++ crlf
    ++ h ("Cache-Control" : bytes) ("no-store" : bytes) ++ crlf
    ++ h ("X-Content-Type-Options" : bytes) ("nosniff" : bytes) ++ crlf ++ crlf ++ rs_body r).
  { unfold sendResponse. rewrite !header_line_text. unfold status_line, h, n.
    by repeat (rewrite <- app_assoc || rewrite <- app_comm_cons). }
  assert (Hh : forall name value, c_cr ∉ name -> c_cr ∉ value -> h name value <> [] /\ c_cr ∉ h name value).
  { intros name value H1 H2. unfold h. split; [by destruct name|]. rewrite elem_of_app, !elem_of_cons.
    intros [?|[?|[?|?]]]; done. }
  assert (Hsl : c_cr ∉ status_line).
  { unfold status_line. rewrite !elem_of_app, elem_of_cons. intros [H|[?|[?|?]]]; [|done..].
    by apply (bool_decide_pack _) in H. }
  assert (HE : read_head (S (length (sendResponse r))) (sendResponse r) =
    Some ([status_line; h ("Content-Type" : bytes) (rs_content_type r); h ("Content-Length" : bytes) (to_string n);
      h ("Connection" : bytes) ("close" : bytes); h ("Cache-Control" : bytes) ("no-store" : bytes);
      h ("X-Content-Type-Options" : bytes) ("nosniff" : bytes)], rs_body r)).
  { assert (Hf : exists f, S (length (sendResponse r)) = (7 + f)%nat).
    { exists (length (sendResponse r) - 6)%nat. unfold sendResponse. rewrite length_app. simpl. lia. }
    destruct Hf as [f ->]. rewrite E. cbn [Nat.add].
    rewrite read_head_line; [|by unfold status_line|done].
    do 5 (rewrite read_head_line; [|by apply Hh; absent..]).
    by rewrite read_head_end. }
  unfold read_response. rewrite HE. cbn [mbind option_bind].
  change status_line with (("HTTP/1.1" : bytes) ++ " "%char :: to_string (rs_status r) ++ " "%char :: rs_status_text r).
  rewrite split_first by absent. rewrite split_first by done.
  unfold h. rewrite header_of_line by (done || absent). cbn [mbind option_bind].
  rewrite header_of_other by (done || absent).
  rewrite header_of_line by (done || absent). cbn [mbind option_bind].
  rewrite !decimal_value_to_string by (unfold two64 in *; lia). cbn [mbind option_bind].
  rewrite decide_True by (split; [done|unfold n; lia]). do 2 f_equal. unfold n. rewrite Nat2Z.id. by rewrite firstn_all.
Qed.

Ltac literal_ok :=
  lazymatch goal with
  | |- response_ok (mkResponse _ _ _ _) => unfold response_ok; cbn [rs_status rs_status_text rs_content_type]
  end;
  split_and!; [lia|lia|..]; first [absent | split; intros c [= <-]; by vm_compute].

Lemma sendJson_ok body : response_ok (sendJson body).
Proof. unfold sendJson. literal_ok. Qed.

Lemma sendPrometheus_ok body : response_ok (sendPrometheus body).
Proof. unfold sendPrometheus. literal_ok. Qed.

Lemma sendNotFound_ok : response_ok sendNotFound.
Proof. unfold sendNotFound. literal_ok. Qed.

Lemma sendUnauthorized_ok : response_ok sendUnauthorized.
Proof. unfold sendUnauthorized. literal_ok. Qed.

Lemma bad_request_ok e : response_ok (bad_request e).
Proof. unfold bad_request. literal_ok. Qed.

Lemma method_not_allowed_ok : response_ok method_not_allowed.
Proof. unfold method_not_allowed. literal_ok. Qed.

Lemma file_response_ok body path : response_ok (file_response body (contentTypeFor path)).
Proof.
  unfold file_response, contentTypeFor. case_decide; [apply sendNotFound_ok|].
  repeat case_match; literal_ok.
Qed.

#[export] Hint Resolve sendJson_ok sendPrometheus_ok sendNotFound_ok sendUnauthorized_ok bad_request_ok
  method_not_allowed_ok file_response_ok : netmon.

(** ** Frames *)

(** A text frame without mask, as RFC 6455 reads it. *)
Definition read_frame (s : bytes) : option (bytes * bytes) :=
  match s with
  | first :: second :: rest =>
      let n := code second in
      let '(len, rest) :=
        if n <? 126 then (n, rest)
        else if n =? 126 then (hex_of (code <$> take 2 rest), drop 2 rest)
        else (hex_of (code <$> take 8 rest), drop 8 rest) in
      if decide (code first = 129 /\ len <= Z.of_nat (length rest))
      then Some (take (Z.to_nat len) rest, drop (Z.to_nat len) rest) else None
  | _ => None
  end.

Lemma byte_char_code z i : code (byte_char z i) = byte_of z i.
Proof. apply code_chr, byte_of_range. Qed.

Lemma byte_of_div z i : 0 <= i -> byte_of z i = z / 2 ^ (8 * i) mod 256.
Proof.
  intros Hi. unfold byte_of. change 255 with (Z.ones 8). rewrite Z.land_ones, Z.shiftr_div_pow2 by lia. done.
Qed.

Lemma hex_of_snoc l x : hex_of (l ++ [x]) = hex_of l * 256 + x.
Proof. unfold hex_of. by rewrite fold_left_app. Qed.

Lemma hex_of_app_seq z n i :
  hex_of ((fun j => byte_of z (Z.of_nat j)) <$> reverse (seq i n)) = z / 2 ^ (8 * Z.of_nat i) mod 2 ^ (8 * Z.of_nat n).
Proof.
  revert i. induction n as [|n IH]; intros i; [by rewrite Z.mod_1_r|]. cbn [seq]. rewrite reverse_cons, fmap_app.
  cbn [fmap list_fmap]. rewrite hex_of_snoc, IH, byte_of_div by lia.
  replace (8 * Z.of_nat (S i)) with (8 * Z.of_nat i + 8) by lia.
  replace (8 * Z.of_nat (S n)) with (8 + 8 * Z.of_nat n) by lia.
  rewrite !Z.pow_add_r by lia. change (2 ^ 8) with 256.
  assert (0 < 2 ^ (8 * Z.of_nat i)) by (apply Z.pow_pos_nonneg; lia).
  assert (0 < 2 ^ (8 * Z.of_nat n)) by (apply Z.pow_pos_nonneg; lia).
  rewrite <- Z.div_div by lia. rewrite (Z.rem_mul_r _ 256) by lia. lia.
Qed.

Lemma hex_of_big_endian n z : 0 <= z < 2 ^ (8 * Z.of_nat n) -> hex_of (big_endian n z) = z.
Proof.
  intros Hz. unfold big_endian. rewrite hex_of_app_seq. rewrite Z.mul_0_r, Z.pow_0_r, Z.div_1_r. by apply Z.mod_small.
Qed.

Lemma code_chr_bytes l : Forall is_byte l -> code <$> (chr <$> l) = l.
Proof.
  induction 1 as [|x l Hx Hl IH]; [done|]. cbn [fmap list_fmap]. rewrite code_chr by done. by f_equal.
Qed.

(** C32: a client that reads frames finds the message of every frame the server sends, of any
    length, and the frames that follow it. *)
Theorem websocket_frame_reads_back message rest :
  Z.of_nat (length message) < two64 ->
  read_frame (sendWebSocketText message ++ rest) = Some (message, rest).
Proof.
  intros Hlen. unfold sendWebSocketText. set (len := Z.of_nat (length message)) in *.
  assert (Hfinal : forall first, code first = 129 ->
    (if decide (code first = 129 /\ len <= Z.of_nat (length (message ++ rest)))
     then Some (take (Z.to_nat len) (message ++ rest), drop (Z.to_nat len) (message ++ rest)) else None) = Some (message, rest)).
  { intros first Hf. rewrite decide_True by (split; [done|rewrite length_app; unfold len; lia]).
    unfold len. rewrite Nat2Z.id. by rewrite take_app_length, drop_app_length. }
  assert (H129 : code (chr 129) = 129) by (by vm_compute).
  destruct (len <? 126) eqn:E1; b2p.
  - cbn [app read_frame]. rewrite code_chr by (unfold len in *; lia).
    rewrite (proj2 (Z.ltb_lt _ _)) by lia. by apply Hfinal.
  - destruct (len <=? 65535) eqn:E2; b2p.
    + cbn [app read_frame]. change (code (chr 126)) with 126.
      change (126 <? 126) with false. change (126 =? 126) with true. cbv iota. cbn [take drop fmap list_fmap].
      rewrite !drop_0, !take_0, !byte_char_code. cbn [fmap list_fmap].
      replace (hex_of [byte_of len 1; byte_of len 0]) with len; [by apply Hfinal|].
      symmetry. apply (hex_of_big_endian 2). change (2 ^ (8 * Z.of_nat 2)) with 65536. lia.
    + cbn [app read_frame]. change (code (chr 127)) with 127.
      change (127 <? 126) with false. change (127 =? 126) with false. cbv iota.
      assert (Hl : length (chr <$> big_endian 8 len) = 8%nat) by (by rewrite length_fmap, big_endian_length).
      rewrite <- app_assoc, take_app_length', drop_app_length' by done.
      rewrite code_chr_bytes by apply big_endian_bytes. rewrite hex_of_big_endian; [by apply Hfinal|].
      change (2 ^ (8 * Z.of_nat 8)) with two64. lia.
Qed.

Lemma websocket_frame_reads_back_witness :
  read_frame (sendWebSocketText (replicate 300 "x"%char) ++ sendWebSocketText "next") =
    Some (replicate 300 "x"%char, sendWebSocketText "next").
Proof. apply websocket_frame_reads_back. by vm_compute. Defined.

(** ** The bodies *)

Definition items_value (source : bytes) (items : list json) : json :=
  JObj [("source" : bytes, JStr source); ("items" : bytes, JArr items)].

Lemma items_json_value {A} (text : A -> bytes) (value : A -> json) source l :
  (forall x, text x = render (value x)) -> items_json source (text <$> l) = render (items_value source (value <$> l)).
Proof.
  intros H. unfold items_json, items_value. cbn [render map fst snd]. do 3 f_equal.
  f_equal. rewrite <- list_fmap_compose. f_equal. apply list_fmap_ext. intros i x _. apply H.
Qed.

Lemma items_parse {A} (text : A -> bytes) (value : A -> json) source l :
  (forall x, text x = render (value x)) -> Forall (fun x => json_ok (value x) = true) l ->
  parse_json (items_json source (text <$> l)) = Some (items_value source (value <$> l)).
Proof.
  intros H Hok. rewrite (items_json_value text value) by done. apply parse_json_render. unfold items_value.
  change (value <$> l) with (map value l). cbn [json_ok forallb snd]. by rewrite (forallb_map_true json_ok value l Hok).
Qed.

Section Server.
Context (config : Config) {HO : HashOrder} {API : SqliteApi}.
Context (version : bytes) (read_file : bytes -> option bytes).
Context (sqlite_store : option SqliteStore) (at_ : nat -> Moment).

Definition health_value : json :=
  JObj [("ok" : bytes, JBool true); ("uptime_seconds" : bytes, JNum (int_text (m_uptime (at_ 0%nat))));
        ("version" : bytes, JStr version)].

Definition summary_value (s : Summary) : json :=
  JObj [("active_devices" : bytes, count_value (active_devices s)); ("idle_devices" : bytes, count_value (idle_devices s));
        ("offline_devices" : bytes, count_value (offline_devices s));
        ("unknown_devices" : bytes, count_value (unknown_devices s));
        ("wan_attack_5m" : bytes, count_value (wan_attack_5m s)); ("rx_rate_bps" : bytes, rate_value (sm_rx_rate_bps s));
        ("tx_rate_bps" : bytes, rate_value (sm_tx_rate_bps s)); ("rate_source" : bytes, JStr (rate_source s));
        ("rate_interface" : bytes, JStr (rate_interface s));
        ("last_interface_ts" : bytes, time_value (last_interface_ts s));
        ("last_log_ts" : bytes, time_value (sm_last_log_ts s))].

Definition totals_value (limit : Z) : json :=
  JObj [("source" : bytes, JStr (if sqlite_available sqlite_store then "sqlite" else "unavailable"));
        ("window_hours" : bytes, count_value 24);
        ("items" : bytes, JArr (total_value <$> totals_for sqlite_store at_ limit))].

(** The members of the statistics in the integrations. *)
Definition runtime_value (s : Summary) (runtime : RuntimeStats) : json :=
  JObj [("syslog_messages_total" : bytes, count_value (syslog_messages_total_ runtime));
        ("parse_errors_total" : bytes, count_value (parse_errors_total_ runtime));
        ("wan_attacks_total" : bytes, count_value (wan_attacks_total_ runtime));
        ("syslog_messages_by_type" : bytes, stats_value (syslog_messages_by_type_ runtime));
        ("event_buffer_size" : bytes, count_value (eventBufferSize (m_state (at_ 4%nat))));
        ("wan_attack_buffer_size" : bytes, count_value (wanAttackBufferSize (m_state (at_ 5%nat))));
        ("active_devices" : bytes, count_value (active_devices s)); ("idle_devices" : bytes, count_value (idle_devices s));
        ("offline_devices" : bytes, count_value (offline_devices s));
        ("unknown_devices" : bytes, count_value (unknown_devices s))].

Definition integrations_value : json :=
  JObj
    [("version" : bytes, JStr version);
     ("uptime_seconds" : bytes, JNum (int_text (m_uptime (at_ 0%nat))));
     ("storage" : bytes, JObj
       [("mode" : bytes, JStr (storage_mode config));
        ("sqlite_enabled" : bytes, JBool (bool_decide (lower (storage_mode config) = "sqlite")));
        ("sqlite_available" : bytes, JBool (sqlite_available sqlite_store));
        ("sqlite_path" : bytes, JStr (sqlite_path config));
        ("retention_days" : bytes, JNum (int_text (sqlite_retention_days config)));
        ("max_db_mb" : bytes, JNum (int_text (sqlite_max_db_mb config)));
        ("max_events" : bytes, count_value (sqlite_max_events config));
        ("max_traffic_points_per_device" : bytes, count_value (sqlite_max_traffic_points_per_device config));
        ("vacuum_on_start" : bytes, JBool (sqlite_vacuum_on_start config))]);
     ("prometheus" : bytes, JObj
       [("enabled" : bytes, JBool (prometheus_enabled config));
        ("path" : bytes, JStr (prometheus_path config));
        ("include_device_labels" : bytes, JBool (prometheus_include_device_labels config));
        ("device_label_mode" : bytes, JStr (prometheus_device_label_mode config))]);
     ("grafana" : bytes, JObj
       [("dashboard_url" : bytes, JStr "/grafana/dashboard.json");
        ("dashboard_file" : bytes, JStr "deployments/grafana/openwrt-netmon-lite-dashboard.json");
        ("datasource" : bytes, JStr "Prometheus")]);
     ("data_sources" : bytes, JObj
       [("default" : bytes, JStr "live");
        ("sqlite_query_enabled" : bytes, JBool (sqlite_available sqlite_store));
        ("realtime_source" : bytes, JStr "memory")]);
     ("runtime" : bytes, runtime_value (summary_at config at_ 1)
                           (stats_snapshot (m_stats (at_ 2%nat)) (m_stats (at_ 3%nat))))].

Lemma integrations_text : integrationsJson config version sqlite_store at_ = render integrations_value.
Proof. unfold integrationsJson. by rewrite statsByTypeJson_value. Qed.

Lemma integrations_ok : json_ok integrations_value = true.
Proof.
  unfold integrations_value, runtime_value, count_value. cbn [json_ok forallb snd].
  by rewrite !to_string_json, !int_text_json, stats_ok.
Qed.

Lemma totals_text limit : deviceTraffic24hJson sqlite_store at_ limit = render (totals_value limit).
Proof.
  unfold deviceTraffic24hJson, totals_value. cbn [render map fst snd]. do 6 f_equal.
  rewrite <- (list_fmap_compose total_value render). done.
Qed.

(** In a store that satisfies its invariant every device has finite rates, and so has the
    summary when it takes them from an interface. *)
Lemma live_devices_finite now st : store_ok config st -> Forall device_rates_finite (devices config now st).
Proof.
  intros Hst. unfold devices. rewrite merge_sort_Permutation. apply Forall_fmap, Forall_forall.
  intros [k d] Hk%elem_of_iter_order. destruct (sok_keys _ _ Hst k d Hk) as [_ Hd]. split; simpl.
  - apply d_rate_finite, (dok_rx _ _ Hd).
  - apply d_rate_finite, (dok_tx _ _ Hd).
Qed.

Lemma interface_summary_finite now st :
  store_ok config st -> rate_source (summary config now st) = "interface" ->
  d_finite (sm_rx_rate_bps (summary config now st)) /\ d_finite (sm_tx_rate_bps (summary config now st)).
Proof.
  intros Hst Hsrc. destruct (summary_rate_source config now st) as [(n & i & Hi & _ & _ & _ & _ & -> & ->)|(_ & Hno & _)].
  - destruct (sok_interfaces _ _ Hst n i Hi) as (_ & _ & Hrx & Htx). auto using d_rate_finite.
  - by rewrite Hno in Hsrc.
Qed.

Lemma devices_for_finite request limit :
  (if useSqliteSource sqlite_store request then Forall device_rates_finite (devices_for config sqlite_store at_ request limit)
   else store_ok config (m_state (at_ 0%nat))) ->
  Forall device_rates_finite (devices_for config sqlite_store at_ request limit).
Proof.
  intros H. destruct (useSqliteSource sqlite_store request) eqn:E; [done|]. unfold devices_for. rewrite E.
  pose proof (live_devices_finite (m_now (at_ 0%nat)) _ H) as Hl. cbv zeta. case_match; [by apply Forall_take|done].
Qed.

(** C20: the body of every call of the API is one JSON value with exactly the data of the
    request, every text unescaped and every number readable: the devices, events, attacks,
    history and totals in their order under [items], the summary, the integrations and the
    health.  For rates to be printed as numbers they have to be finite.  The store invariant,
    which every reachable store satisfies, gives that for the devices of the live store and for
    a summary that shows the rates of an interface; for a summary that sums over the devices,
    for devices read from the database and for the history it is a hypothesis. *)
Theorem api_bodies_are_json request limit :
  ((if useSqliteSource sqlite_store request then Forall device_rates_finite (devices_for config sqlite_store at_ request limit)
    else store_ok config (m_state (at_ 0%nat))) ->
   parse_json (devicesJson config sqlite_store at_ request limit) =
     Some (items_value (sourceName sqlite_store request) (device_value <$> devices_for config sqlite_store at_ request limit))) /\
  parse_json (eventsJson sqlite_store at_ request limit) =
    Some (items_value (sourceName sqlite_store request) (event_value <$> events_for sqlite_store at_ request limit)) /\
  parse_json (wanAttacksJson sqlite_store at_ request limit) =
    Some (items_value (sourceName sqlite_store request) (attack_value <$> attacks_for sqlite_store at_ request limit)) /\
  (Forall (fun p => d_finite (tp_rx_rate_bps p) /\ d_finite (tp_tx_rate_bps p)) (history_for sqlite_store request limit) ->
   parse_json (trafficHistoryJson sqlite_store request limit) =
     Some (items_value (sourceName sqlite_store request) (point_value <$> history_for sqlite_store request limit))) /\
  parse_json (deviceTraffic24hJson sqlite_store at_ limit) = Some (totals_value limit) /\
  ((store_ok config (m_state (at_ 0%nat)) /\ rate_source (summary_at config at_ 0) = "interface") \/
   (d_finite (sm_rx_rate_bps (summary_at config at_ 0)) /\ d_finite (sm_tx_rate_bps (summary_at config at_ 0))) ->
   parse_json (summaryJson config at_) = Some (summary_value (summary_at config at_ 0))) /\
  parse_json (integrationsJson config version sqlite_store at_) = Some integrations_value /\
  parse_json (healthJson version at_) = Some health_value.
Proof.
  split_and!.
  - intros H%devices_for_finite. apply items_parse; [apply deviceJson_value|].
    eapply Forall_impl; [exact H|]. apply device_value_ok.
  - apply items_parse; [apply eventJson_value|]. apply Forall_true, event_value_ok.
  - apply items_parse; [apply wanAttackJson_value|]. apply Forall_true, attack_value_ok.
  - intros H. apply items_parse; [apply trafficPointJson_value|]. eapply Forall_impl; [exact H|].
    intros p [? ?]. by apply point_value_ok.
  - rewrite totals_text. apply parse_json_render. unfold totals_value.
    change (total_value <$> ?l) with (map total_value l). cbn [json_ok forallb snd count_value].
    rewrite to_string_json, (forallb_map_true json_ok total_value _) by apply Forall_true, total_value_ok. done.
  - intros Hfin. assert (H : d_finite (sm_rx_rate_bps (summary_at config at_ 0)) /\ d_finite (sm_tx_rate_bps (summary_at config at_ 0))).
    { destruct Hfin as [[Hst Hsrc]|H]; [by apply interface_summary_finite|done]. }
    clear Hfin. revert H. unfold summaryJson. cbv zeta. generalize (summary_at config at_ 0). intros s [Hr Ht].
    apply (parse_json_render (summary_value s)). unfold summary_value. cbn [json_ok forallb snd count_value rate_value time_value].
    by rewrite !to_string_json, (d_default_json _ Hr), (d_default_json _ Ht).
  - rewrite integrations_text. apply parse_json_render, integrations_ok.
  - apply (parse_json_render health_value).
    unfold health_value. cbn [json_ok forallb snd]. by rewrite int_text_json.
Qed.

(** ** Every response *)

Lemma route_response_ok request :
  response_ok (routeHttp config version read_file sqlite_store at_ request).
Proof.
  unfold routeHttp.
  repeat lazymatch goal with |- response_ok (if ?b then _ else _) => destruct b end;
    try solve [auto with netmon nocore].
  - unfold file_response. destruct (decide _); [apply sendNotFound_ok|]. literal_ok.
  - unfold readStaticFile. destruct (contains _ _); [apply sendNotFound_ok|apply file_response_ok].
Qed.

(** C22: every response to a request that is not for a WebSocket is split by its client into the
    status, the content type and the body the server meant, whatever the store, the database,
    the files and the request hold: nothing of it can break the header or shift the body. *)
Theorem http_response_reads_back request :
  let r := routeHttp config version read_file sqlite_store at_ request in
  Z.of_nat (length (rs_body r)) < two64 ->
  read_response (sendResponse r) = Some (rs_status r, rs_content_type r, rs_body r).
Proof. intros r Hlen. apply read_response_text; [apply route_response_ok|exact Hlen]. Qed.

End Server.

(** ** Concrete inputs *)

Definition demo_device_state : DeviceState :=
  default_DeviceState <| mac := "aa:bb:cc:dd:ee:01" |>
    <| hostname := [c_dquote] ++ ("x" : bytes) ++ [c_nl] |> <| rx_rate_bps := d_of_Z 1234567 |>.

Definition demo_moment : Moment :=
  mkMoment (1700000000 * ns_per_s) 60
    (updateDevice default_Config (fun _ => 1700000000 * ns_per_s) (new_StateStore default_Config) demo_device_state)
    new_RuntimeStats.

Lemma demo_moment_ok : store_ok default_Config (m_state demo_moment).
Proof.
  apply updateDevice_ok; [repeat split; discriminate| |].
  - split; [|by split]. vm_compute. by repeat split.
  - apply new_store_ok. repeat split; discriminate.
Qed.

Definition demo_request (path query : bytes) : Request :=
  mkRequest "GET" (path ++ "?"%char :: query) path query ∅.

Definition demo_devices : list DeviceState :=
  @devices_for default_Config canonical_order memory_api None (fun _ => demo_moment) (demo_request "/api/devices" "limit=5") 5.

Lemma api_bodies_are_json_witness :
  parse_json (@devicesJson default_Config canonical_order memory_api None (fun _ => demo_moment)
                (demo_request "/api/devices" "limit=5") 5) =
    Some (items_value "live" (device_value <$> demo_devices)) /\
  hostname <$> demo_devices = [[c_dquote] ++ ("x" : bytes) ++ [c_nl]].
Proof.
  split; [|by vm_compute].
  apply (@api_bodies_are_json default_Config canonical_order memory_api "0.1.0" None (fun _ => demo_moment)
           (demo_request "/api/devices" "limit=5") 5).
  apply demo_moment_ok.
Defined.

Lemma http_response_reads_back_witness :
  read_response (sendResponse (@routeHttp default_Config canonical_order memory_api "0.1.0" (fun _ => None) None
    (fun _ => demo_moment) (demo_request "/missing" []))) =
  Some (404, json_type, error_body "not_found").
Proof.
  apply (@http_response_reads_back default_Config canonical_order memory_api "0.1.0" (fun _ => None) None
    (fun _ => demo_moment) (demo_request "/missing" [])). by vm_compute.
Defined.
