(* ===== verification/WebAccess.v ===== *)
(** * What requests can reach

    Without the token a client learns nothing about the network; the files a client can read
    are six fixed ones; answers hold a bounded number of items unless no limit is asked for;
    and the way of a request from its bytes to the data its client reads. *)

From S2P Require Import Prelude Utils TimeFormat Json Double DoubleText Types Config LogParser RuntimeStats.
From S2P Require Import RingBuffer StateStore Prometheus Sqlite SqliteEngine Sha1 WebJson WebServer WebRequests WebResponses.

Section Server.
Context (config : Config) {HO : HashOrder} {API : SqliteApi} (version : bytes).
Implicit Types (request : Request) (read_file : bytes -> option bytes) (sqlite_store : option SqliteStore).

(** ** The token *)

Lemma authorized_only_by_token request :
  authorized config request = true <->
  dashboard_token config = [] \/ headerValue (headers request) "x-netmon-token" = dashboard_token config \/
  queryParam request "token" = dashboard_token config.
Proof. unfold authorized. repeat case_decide; rewrite ?bool_decide_eq_true; tauto. Qed.

(** Falls through every route of the API. *)
Ltac not_api H :=
  repeat match goal with
  | |- context [if decide (path ?r = String.list_ascii_of_string ?l) then ?x else ?y] =>
      rewrite (decide_False (P := path r = String.list_ascii_of_string l))
        by (intros E; rewrite E in H; vm_compute in H; discriminate H)
  end.

(** C7: with a token configured, a request that carries it neither in its header nor as a
    parameter gets an answer that does not depend on the store, the statistics, the database
    or the clock: nothing about the network can be learned from it.  The API and the metrics
    answer with an error, and no WebSocket is opened. *)
Theorem unauthorized_learns_nothing request read_file sqlite1 sqlite2 at1 at2 handshake_sent :
  authorized config request = false ->
  let answer sqlite at_ := routeHttp config version read_file sqlite at_ request in
  answer sqlite1 at1 = answer sqlite2 at2 /\
  (starts_with "/api/" (path request) = true -> method request = "GET" -> answer sqlite1 at1 = sendUnauthorized) /\
  (path request = prometheus_path config -> rs_status (answer sqlite1 at1) <> 200) /\
  handleWebSocket config handshake_sent request = [SendData (sendResponse sendUnauthorized); CloseConnection].
Proof.
  intros Ha. cbv zeta. unfold routeHttp, handleWebSocket. rewrite Ha. cbn [negb]. rewrite !andb_true_r.
  destruct (bool_decide (method request = "GET")) eqn:Hm; cbn [negb]; b2p; [|done].
  destruct (starts_with "/api/" (path request)) eqn:Es; [done|].
  not_api Es. split; [done|]. split; [done|]. split; [|done].
  intros ->. rewrite decide_True by done. by destruct (prometheus_enabled config).
Qed.

(** ** The files *)

(** The files the server may open. *)
Definition served_files : list bytes :=
  dashboard_files ++ ((fun name => web_root config ++ "/"%char :: name) <$> ["index.html" : bytes; "app.js" : bytes; "style.css" : bytes]).

Lemma first_file_agree rf1 rf2 l : (forall f, f ∈ l -> rf1 f = rf2 f) -> first_file rf1 l = first_file rf2 l.
Proof.
  induction l as [|f l IH]; intros H; [done|]. cbn [first_file]. rewrite (H f) by set_solver.
  destruct (rf2 f); [done|]. apply IH. set_solver.
Qed.

Lemma readStaticFile_agree rf1 rf2 (p : bytes) :
  p ∈ static_paths -> (forall f, f ∈ served_files -> rf1 f = rf2 f) ->
  readStaticFile config rf1 (if decide (p = "/") then ("/index.html" : bytes) else p) =
  readStaticFile config rf2 (if decide (p = "/") then ("/index.html" : bytes) else p).
Proof.
  intros Hp H.
  assert (Hname : exists name, name ∈ ["index.html" : bytes; "app.js" : bytes; "style.css" : bytes] /\
    (if decide (p = "/") then ("/index.html" : bytes) else p) = "/"%char :: name).
  { unfold static_paths in Hp. rewrite !elem_of_cons, elem_of_nil in Hp.
    destruct Hp as [->|[->|[->|[->|[]]]]]; eexists; (split; [|vm_compute; reflexivity]); vm_compute; set_solver. }
  destruct Hname as (name & Hn & ->). unfold readStaticFile. destruct (contains _ _); [done|].
  cbn [head drop]. rewrite decide_True by done. rewrite H; [done|].
  apply elem_of_app. right. apply list_elem_of_fmap. exists name. by rewrite drop_0.
Qed.

(** whatever the request, its answer depends on at most six files: the three places of the
    dashboard description, and the page, script and style sheet in the web root. *)
Theorem only_served_files_are_read request rf1 rf2 sqlite_store at_ :
  (forall f, f ∈ served_files -> rf1 f = rf2 f) ->
  routeHttp config version rf1 sqlite_store at_ request = routeHttp config version rf2 sqlite_store at_ request.
Proof.
  intros H. unfold routeHttp.
  repeat lazymatch goal with |- (if ?b then _ else _) = (if ?b then _ else _) => destruct b end; try done.
  - unfold grafanaDashboardJson. rewrite (first_file_agree rf1 rf2); [done|]. intros f Hf. apply H. apply elem_of_app. by left.
  - by rewrite (readStaticFile_agree rf1 rf2).
Qed.

(** ** How much an answer holds *)

Lemma sql_limit_length {R} n (l : list R) : 0 <= n -> Z.of_nat (length (sql_limit n l)) <= n.
Proof. intros Hn. unfold sql_limit. destruct (n <? 0) eqn:E; b2p; [lia|]. rewrite length_take. lia. Qed.

Lemma newest_rows_length {R} (ts : R -> Z) n all rows : 0 <= n -> newest_rows ts n all rows -> Z.of_nat (length rows) <= n.
Proof. intros Hn (sorted & _ & _ & ->). by apply sql_limit_length. Qed.

Lemma rb_items_length {T} (rb : RingBuffer T) n : 0 < n -> Z.of_nat (length (rb_items rb n)) <= n.
Proof.
  intros Hn. unfold rb_items, size_z. rewrite length_drop.
  destruct ((n =? 0) || (Z.of_nat (length (items_ rb)) <? n)) eqn:E; [|lia].
  apply orb_true_iff in E as [E|E]; b2p; lia.
Qed.

Lemma limit_of_bounds request fallback cap :
  0 <= fallback < two64 -> 0 <= cap -> 0 <= limit_of request fallback cap <= cap.
Proof.
  intros Hf Hc. unfold limit_of. pose proof (parseUint64_range (queryParam request "limit") fallback Hf). lia.
Qed.

Lemma totals_of_rows_length limit rows : 0 < limit -> Z.of_nat (length (totals_of_rows limit rows)) <= limit.
Proof.
  intros Hl. unfold totals_of_rows. rewrite (proj2 (Z.ltb_lt 0 limit)) by done. cbn [andb].
  destruct (_ <? _) eqn:E; b2p; [rewrite length_take; lia|lia].
Qed.

Lemma history_of_rows_length limit rows : 0 <= limit -> Z.of_nat (length (history_of_rows limit rows)) <= history_wanted limit.
Proof.
  intros Hl. assert (0 <= history_wanted limit) by (unfold history_wanted; destruct (_ =? _); lia).
  unfold history_of_rows. destruct (_ <? _) eqn:E; b2p; [rewrite lastn_length; lia|lia].
Qed.

Section Limits.
Context {SPEC : SqliteSpec API} (sqlite_store : option SqliteStore) (at_ : nat -> Moment).

Lemma db_answer_length {R A} (q : Query R) (ts : R -> Z) n (f : R -> A) (read : conn -> list A) :
  0 <= n -> (forall t rows, answers q t rows -> exists all, newest_rows ts n all rows) ->
  (forall c, read c = f <$> query_rows q c) ->
  Z.of_nat (length (reading read (sqlite_db sqlite_store))) <= n.
Proof using SPEC.
  intros Hn Hq Hread. unfold reading. destruct (sqlite_db sqlite_store) as [c|]; [|simpl; lia].
  change (default [] (read <$> Some c)) with (read c). rewrite Hread, length_fmap.
  destruct (Hq _ _ (query_rows_answers q c)) as [all Hall]. by eapply newest_rows_length.
Qed.

(** C39: an answer holds at most as many items as asked for, and never more than the cap of its
    call, when the limit asked for is not zero; the history never holds more than 720 points. *)
Theorem api_item_limits request :
  let bounded {A} (l : list A) limit := 0 < limit -> Z.of_nat (length l) <= limit in
  let n1 := limit_of request 1000 5000 in let n2 := limit_of request 100 1000 in
  let n3 := limit_of request 180 720 in let n4 := limit_of request 50 500 in
  (n1 <= 5000 /\ n2 <= 1000 /\ n3 <= 720 /\ n4 <= 500) /\
  bounded (devices_for config sqlite_store at_ request n1) n1 /\
  bounded (events_for sqlite_store at_ request n2) n2 /\
  bounded (attacks_for sqlite_store at_ request n2) n2 /\
  bounded (totals_for sqlite_store at_ n4) n4 /\
  Z.of_nat (length (history_for sqlite_store request n3)) <= history_wanted n3 <= 720.
Proof using SPEC.
  cbv zeta. pose proof (limit_of_bounds request 1000 5000 ltac:(words) ltac:(lia)) as H1.
  pose proof (limit_of_bounds request 100 1000 ltac:(words) ltac:(lia)) as H2.
  pose proof (limit_of_bounds request 180 720 ltac:(words) ltac:(lia)) as H3.
  pose proof (limit_of_bounds request 50 500 ltac:(words) ltac:(lia)) as H4.
  split; [lia|].
  split; [|split; [|split; [|split]]]; [intros Hn..|].
  - remember (limit_of request 1000 5000) as n eqn:En. clear En. unfold devices_for, store_devices.
    destruct (useSqliteSource _ _); cbn [negb andb].
    + apply (db_answer_length (SelectDevices n) dr_last_seen n deviceFromStatement); [lia|by eexists|].
      intros c. unfold db_devices. rewrite (proj2 (Z.eqb_neq _ _)) by lia. by rewrite i64_small by words.
    + rewrite (proj2 (Z.ltb_lt 0 n)) by done. cbn [andb]. destruct (n <? _) eqn:E; b2p; [rewrite length_take; lia|lia].
  - remember (limit_of request 100 1000) as n eqn:En. clear En. unfold events_for, store_recentEvents.
    destruct (useSqliteSource _ _); [|by rewrite length_reverse; apply rb_items_length].
    apply (db_answer_length (SelectEvents n) er_ts n eventFromStatement); [lia|by eexists|].
    intros c. unfold db_recentEvents. rewrite (proj2 (Z.eqb_neq _ _)) by lia. by rewrite i64_small by words.
  - remember (limit_of request 100 1000) as n eqn:En. clear En. unfold attacks_for, store_recentWANAttacks.
    destruct (useSqliteSource _ _); [|by rewrite length_reverse; apply rb_items_length].
    apply (db_answer_length (SelectAttacks n) ar_ts n wanAttackFromStatement); [lia|by eexists|].
    intros c. unfold db_recentWANAttacks. rewrite (proj2 (Z.eqb_neq _ _)) by lia. by rewrite i64_small by words.
  - unfold totals_for, store_deviceTrafficTotals, reading. destruct (sqlite_available _); [|simpl; lia].
    destruct (sqlite_db _) as [c|]; [|simpl; lia]. by apply totals_of_rows_length.
  - assert (Hw : 0 <= history_wanted (limit_of request 180 720) <= 720) by (unfold history_wanted; destruct (_ =? _); lia).
    split; [|lia]. unfold history_for, store_trafficHistory, reading. destruct (useSqliteSource _ _); [|simpl; lia].
    destruct (sqlite_db _) as [c|]; [|simpl; lia]. apply history_of_rows_length. lia.
Qed.

(** a limit of zero lifts the cap: the live source answers with every device and every event
    of its buffers, and the totals with every device of the last day. *)
Theorem limit_zero_lifts_the_cap request :
  queryParam request "limit" = "0" -> useSqliteSource sqlite_store request = false ->
  devices_for config sqlite_store at_ request (limit_of request 1000 5000) =
    devices config (m_now (at_ 0%nat)) (m_state (at_ 0%nat)) /\
  events_for sqlite_store at_ request (limit_of request 100 1000) = reverse (items_ (events_ (m_state (at_ 0%nat)))) /\
  attacks_for sqlite_store at_ request (limit_of request 100 1000) = reverse (items_ (wan_attacks_ (m_state (at_ 0%nat)))).
Proof.
  intros Hl Hs. unfold limit_of. rewrite Hl. change (parseUint64 "0" ?f) with 0.
  unfold devices_for, events_for, attacks_for. rewrite Hs. cbn [negb andb Z.ltb Z.compare Z.min].
  unfold recentEvents, recentWANAttacks, rb_items. cbn [Z.eqb orb]. by rewrite !Z.sub_diag, !drop_0.
Qed.

End Limits.

(** ** From the bytes of a request to the data its client reads *)

(** C11: a client that asks for the events with the token, in any chunks of bytes, gets one
    response it can split, with a JSON body that it reads back as the newest events of the
    buffer, the newest first, up to the limit it asked for. *)
Theorem events_request_end_to_end params hs chunks handshake_sent read_file sqlite_store at_ :
  let tok := dashboard_token config in
  let limit := Z.min (parseUint64 (first_value params "limit") 100) 1000 in
  let events := reverse (recentEvents (m_state (at_ 0%nat)) limit) in
  Forall param_ok params -> Forall header_ok hs ->
  first_value params "token" = tok -> lower (first_value params "source") <> "sqlite" ->
  Forall (fun c => c <> []) chunks -> concat chunks = request_text "GET" "/api/events" params hs ->
  Z.of_nat (length (concat chunks)) <= 16384 ->
  Z.of_nat (length (items_json "live" (eventJson <$> events))) < two64 ->
  exists text body, handleClient config version read_file sqlite_store at_ chunks handshake_sent = [SendData text; CloseConnection] /\
    read_response text = Some (200, json_type, body) /\
    parse_json body = Some (items_value "live" (event_value <$> events)).
Proof.
  intros tok limit events Hparams Hhs Htok Hsource Hc Econcat Hlen Hbody.
  destruct (request_text_ends "GET" "/api/events" params hs) as [head Ehead]. rewrite Econcat, Ehead in *.
  destruct (handleClient_reads config version read_file sqlite_store at_ head [] chunks handshake_sent Hc) as [_ ->];
    [by rewrite app_nil_r|done|].
  rewrite <- Ehead, parseRequest_text; [|..]; try done;
    [|split; [done|absent]|split; [done|absent]|absent].
  set (r := mkRequest _ _ _ _ _).
  assert (Hq : forall key, queryParam r key = first_value params key) by (intros key; by apply queryParam_text).
  assert (Hauth : authorized config r = true) by (apply authorized_only_by_token; right; right; by rewrite Hq).
  assert (Hsq : useSqliteSource sqlite_store r = false).
  { unfold useSqliteSource. rewrite Hq. by rewrite bool_decide_false. }
  assert (Hroute : routeHttp config version read_file sqlite_store at_ r = sendJson (items_json "live" (eventJson <$> events))).
  { unfold routeHttp. rewrite Hauth. cbn [method path r]. rewrite bool_decide_true by done. cbn [negb].
    rewrite andb_false_r. rewrite !(decide_False (P := ("/api/events" : bytes) = _)) by (by vm_compute).
    rewrite decide_True by done. unfold eventsJson, sourceName, events_for, limit_of. rewrite Hsq, Hq. done. }
  rewrite decide_False by (by vm_compute). rewrite Hroute. do 2 eexists. split; [reflexivity|].
  split; [apply read_response_text; [apply sendJson_ok|exact Hbody]|].
  cbn [rs_body sendJson]. apply items_parse; [apply eventJson_value|]. apply Forall_true, event_value_ok.
Qed.

End Server.

(** ** Concrete inputs *)

Definition guarded_config : Config := default_Config <| dashboard_token := "secret" |>.

Lemma unauthorized_learns_nothing_witness :
  @routeHttp guarded_config canonical_order memory_api "0.1.0" (fun _ => None) None (fun _ => demo_moment)
    (demo_request "/api/devices" "token=guess") = sendUnauthorized.
Proof.
  apply (@unauthorized_learns_nothing guarded_config canonical_order memory_api "0.1.0"
           (demo_request "/api/devices" "token=guess") (fun _ => None) None None (fun _ => demo_moment)
           (fun _ => demo_moment) true); by vm_compute.
Defined.

Lemma only_served_files_are_read_witness :
  @routeHttp default_Config canonical_order memory_api "0.1.0"
    (fun f => if decide (f = "/etc/passwd") then Some ("secret" : bytes) else None) None (fun _ => demo_moment)
    (demo_request "/../../etc/passwd" []) =
  @routeHttp default_Config canonical_order memory_api "0.1.0" (fun _ => None) None (fun _ => demo_moment)
    (demo_request "/../../etc/passwd" []).
Proof.
  apply (@only_served_files_are_read default_Config canonical_order memory_api "0.1.0"
    (demo_request "/../../etc/passwd" [])). intros f Hf. rewrite decide_False; [done|]. intros ->.
  revert Hf. apply (bool_decide_unpack _). by vm_compute.
Defined.

Lemma api_item_limits_witness :
  Z.of_nat (length (@devices_for default_Config canonical_order memory_api None (fun _ => demo_moment)
    (demo_request "/api/devices" "limit=1") 1)) <= 1.
Proof.
  destruct (@api_item_limits default_Config canonical_order memory_api memory_spec None (fun _ => demo_moment)
              (demo_request "/api/devices" "limit=1")) as (_ & H & _).
  exact (H eq_refl).
Defined.

Lemma limit_zero_lifts_the_cap_witness :
  @devices_for default_Config canonical_order memory_api None (fun _ => demo_moment)
    (demo_request "/api/devices" "limit=0") (limit_of (demo_request "/api/devices" "limit=0") 1000 5000) = demo_devices.
Proof.
  destruct (@limit_zero_lifts_the_cap default_Config canonical_order memory_api None (fun _ => demo_moment)
    (demo_request "/api/devices" "limit=0")) as (H & _); [by vm_compute..|]. rewrite H. by vm_compute.
Defined.

Definition demo_log_moment : Moment :=
  mkMoment (1700000000 * ns_per_s) 60
    (addEvent (fun _ => 1700000000 * ns_per_s) (new_StateStore default_Config)
       (mkEvent "evt-7" (1700000000 * ns_per_s) "device" Info "192.168.1.1" "Device snapshot" ∅))
    new_RuntimeStats.

Lemma events_request_end_to_end_witness :
  exists text body,
    @handleClient guarded_config canonical_order memory_api "0.1.0" (fun _ => None) None (fun _ => demo_log_moment)
      [take 7 (request_text "GET" "/api/events" [("token" : bytes, "secret" : bytes)] []);
       drop 7 (request_text "GET" "/api/events" [("token" : bytes, "secret" : bytes)] [])] true = [SendData text; CloseConnection] /\
    read_response text = Some (200, json_type, body) /\
    parse_json body = Some (items_value "live" [event_value
      (mkEvent "evt-7" (1700000000 * ns_per_s) "device" Info "192.168.1.1" "Device snapshot" ∅)]).
Proof.
  apply (@events_request_end_to_end guarded_config canonical_order memory_api "0.1.0" [("token" : bytes, "secret" : bytes)] []
    _ true (fun _ => None) None (fun _ => demo_log_moment)).
  - unfold param_ok. repeat constructor; absent.
  - constructor.
  - by vm_compute.
  - by vm_compute.
  - absent.
  - by vm_compute.
  - by vm_compute.
  - by vm_compute.
Defined.
