(* ===== verification/WebClients.v ===== *)
(** * The WebSocket clients of src/src/web_server.cpp

    The descriptors of the process, the set [ws_clients_] and the handler threads, as a step
    relation: connections are accepted and upgraded, messages are broadcast, handlers end, the
    server is stopped, in any order.  The mutex makes each access to the set one step. *)

From S2P Require Import Prelude WebServer.

(** A handler thread in [handleWebSocket] after the handshake: its descriptor, and the
    connection it was started for. *)
Record Sockets := mkSockets {
  open_fds : gmap Z nat;         (* descriptor to connection *)
  ws_clients_ : gset Z;
  handlers : list (Z * nat);
  accepted : nat                 (* connections so far, to name the next one *)
}.

#[export] Instance Sockets_eta : Eta Sockets := fun s =>
  mkSockets (open_fds s) (ws_clients_ s) (handlers s) (accepted s).

Definition no_sockets : Sockets := mkSockets ∅ ∅ [] 0.

(** [accept] gives a descriptor that is not open. *)
Definition accept (fd : Z) (s : Sockets) : Sockets :=
  s <| open_fds := <[fd := accepted s]> (open_fds s) |> <| accepted := S (accepted s) |>.

Definition addWebSocketClient (fd : Z) (s : Sockets) : Sockets := s <| ws_clients_ := {[fd]} ∪ ws_clients_ s |>.
Definition removeWebSocketClient (fd : Z) (s : Sockets) : Sockets := s <| ws_clients_ := ws_clients_ s ∖ {[fd]} |>.
Definition close (fd : Z) (s : Sockets) : Sockets := s <| open_fds := delete fd (open_fds s) |>.

(** A handler after its handshake went out. *)
Definition upgrade (fd : Z) (id : nat) (s : Sockets) : Sockets :=
  addWebSocketClient fd s <| handlers := (fd, id) :: handlers s |>.

(** [broadcast]: the descriptors for which sending failed are closed and erased. *)
Definition broadcast_step (send_ok : Z -> bool) (s : Sockets) : Sockets :=
  s <| open_fds := filter (fun entry => entry.1 ∉ ws_clients_ s \/ send_ok entry.1 = true) (open_fds s) |>
    <| ws_clients_ := broadcast send_ok (ws_clients_ s) |>.

(** The end of [handleWebSocket]. *)
Definition finish (fd : Z) (s : Sockets) : Sockets := close fd (removeWebSocketClient fd s).

Inductive socket_step : Sockets -> Sockets -> Prop :=
  | step_accept fd s : open_fds s !! fd = None -> socket_step s (accept fd s)
  | step_upgrade fd id s :
      open_fds s !! fd = Some id -> id ∉ (handlers s).*2 -> socket_step s (upgrade fd id s)
  | step_http fd id s :  (* a connection that is answered and closed *)
      open_fds s !! fd = Some id -> id ∉ (handlers s).*2 -> fd ∉ ws_clients_ s -> socket_step s (close fd s)
  | step_broadcast send_ok s : socket_step s (broadcast_step send_ok s)
  | step_finish fd id l1 l2 s :
      handlers s = l1 ++ (fd, id) :: l2 -> socket_step s (finish fd s <| handlers := l1 ++ l2 |>).

(** The end of [stop]: every descriptor in [ws_clients_] is closed, and the set cleared. *)
Definition close_clients (c : Sockets) : Sockets :=
  c <| open_fds := filter (fun entry => entry.1 ∉ ws_clients_ c) (open_fds c) |> <| ws_clients_ := ∅ |>.

(** All that happens to the connections; [stop] does not wait for the handlers. *)
Inductive client_step : Sockets -> Sockets -> Prop :=
  | one_client s s' : socket_step s s' -> client_step s s'
  | all_clients s : client_step s (close_clients s).

(** The steps in which every broadcast reaches every client and no client is left for [stop]. *)
Inductive healthy_step : Sockets -> Sockets -> Prop :=
  | healthy s s' :
      client_step s s' -> (forall send_ok, s' = broadcast_step send_ok s -> s' = s) -> (s' = close_clients s -> s' = s) ->
      healthy_step s s'.

Lemma close_clients_fds s fd :
  open_fds (close_clients s) !! fd = if decide (fd ∈ ws_clients_ s) then None else open_fds s !! fd.
Proof.
  simpl. case_decide as Hfd.
  - apply map_lookup_filter_None. right. intros id _. simpl. tauto.
  - destruct (open_fds s !! fd) as [id|] eqn:E; [by apply map_lookup_filter_Some|]. apply map_lookup_filter_None. by left.
Qed.

Lemma broadcast_step_fds send_ok s :
  open_fds (broadcast_step send_ok s) = filter (fun entry => entry.1 ∉ ws_clients_ s \/ send_ok entry.1 = true) (open_fds s).
Proof. done. Qed.

(** *** Clients are open connections *)

Definition clients_open (s : Sockets) : Prop := forall fd, fd ∈ ws_clients_ s -> is_Some (open_fds s !! fd).

Lemma clients_open_step s s' : client_step s s' -> clients_open s -> clients_open s'.
Proof.
  intros Hclient H. destruct Hclient as [s s' Hstep|s]; [|by intros x Hx%not_elem_of_empty]. destruct Hstep as [fd s Hfree|fd id s Hopen _|fd id s _ _ Hno|send_ok s|fd id l1 l2 s _];
    intros x Hx; simpl in *.
  - destruct (decide (x = fd)) as [->|]; [by rewrite lookup_insert_eq; eauto|]. rewrite lookup_insert_ne by done. by apply H.
  - rewrite elem_of_union, elem_of_singleton in Hx. destruct Hx as [->|Hx]; [by eauto|by apply H].
  - destruct (decide (x = fd)) as [->|]; [done|]. rewrite lookup_delete_ne by done. by apply H.
  - unfold broadcast in Hx. apply elem_of_filter in Hx as [Hok Hx]. destruct (H x Hx) as [id Hid]. exists id.
    apply map_lookup_filter_Some. split; [done|by right].
  - apply elem_of_difference in Hx as [Hx Hne]. rewrite elem_of_singleton in Hne.
    rewrite lookup_delete_ne by done. by apply H.
Qed.

(** in every interleaving of connections, broadcasts and handlers that end, the clients a
    broadcast sends to are open descriptors; after a broadcast exactly those remain to which
    sending succeeded, and no descriptor of another kind was closed. *)
Theorem broadcast_reaches_open_clients s send_ok :
  rtc client_step no_sockets s ->
  clients_open s /\
  ws_clients_ (broadcast_step send_ok s) = filter (fun fd => send_ok fd = true) (ws_clients_ s) /\
  (forall fd, open_fds (broadcast_step send_ok s) !! fd =
     if decide (fd ∈ ws_clients_ s /\ send_ok fd <> true) then None else open_fds s !! fd).
Proof.
  intros Hr. split; [|split; [done|]].
  - assert (H0 : clients_open no_sockets) by (intros fd; set_solver).
    revert H0. clear send_ok. induction Hr as [s|s s' s'' Hs _ IH]; [done|]. intros H0. apply IH. by eapply clients_open_step.
  - intros fd. rewrite broadcast_step_fds. case_decide as Hd.
    + apply map_lookup_filter_None. right. intros id _. simpl. tauto.
    + destruct (open_fds s !! fd) as [id|] eqn:E.
      * apply map_lookup_filter_Some. split; [done|]. simpl. destruct (decide (fd ∈ ws_clients_ s)); [|by left].
        right. destruct (send_ok fd) eqn:Eok; [done|]. exfalso. apply Hd. by split.
      * apply map_lookup_filter_None. by left.
Qed.

(** *** Who closes what *)

(** Every handler's descriptor is still its own connection, and a client. *)
Definition own_descriptors (s : Sockets) : Prop :=
  NoDup (handlers s).*2 /\
  (forall fd id, (fd, id) ∈ handlers s -> open_fds s !! fd = Some id /\ fd ∈ ws_clients_ s) /\
  (forall fd id, open_fds s !! fd = Some id -> (id < accepted s)%nat) /\
  (forall fd1 fd2 id, open_fds s !! fd1 = Some id -> open_fds s !! fd2 = Some id -> fd1 = fd2).

Lemma own_descriptors_step s s' : healthy_step s s' -> own_descriptors s -> own_descriptors s'.
Proof.
  intros [s1 s2 Hclient Hb Hst] (Hnd & Hown & Hlt & Hinj). clear s s'.
  destruct Hclient as [s1 s2 Hstep|s]; [|by rewrite Hst].
  destruct Hstep as [fd s Hfree|fd id s Hopen Hnew|fd id s Hopen Hnew Hno|send_ok s|fd id l1 l2 s E].
  - split; [done|]. simpl. split; [|split].
    + intros x i [Hx Hc]%Hown. split; [|done]. rewrite lookup_insert_ne; [done|]. intros ->. congruence.
    + intros x i. rewrite lookup_insert_Some. intros [[-> <-]|[_ Hx]]; [lia|]. apply Hlt in Hx. lia.
    + intros x y i. rewrite !lookup_insert_Some. intros [[? Hi]|[_ Hx]] [[? Hj]|[_ Hy]]; subst; try done.
      * apply Hlt in Hy. lia.
      * apply Hlt in Hx. lia.
      * by eapply Hinj.
  - split; [by apply NoDup_cons|]. split; [|done]. intros x i. simpl. rewrite elem_of_cons.
    intros [[= -> ->]|Hx]; [set_solver|]. destruct (Hown _ _ Hx). set_solver.
  - split; [done|]. split; [|split].
    + intros x i Hx. destruct (Hown _ _ Hx). simpl. rewrite lookup_delete_ne; [done|]. by intros ->.
    + intros x i. simpl. rewrite lookup_delete_Some. intros [_ Hx]. by eapply Hlt.
    + intros x y i. simpl. rewrite !lookup_delete_Some. intros [_ Hx] [_ Hy]. by eapply Hinj.
  - by rewrite (Hb send_ok eq_refl).
  - rewrite E in Hnd, Hown. rewrite fmap_app, fmap_cons in Hnd. simpl in Hnd.
    apply NoDup_app in Hnd as (Hn1 & Hdisj & Hn2). apply NoDup_cons in Hn2 as [Hni Hn2].
    assert (Hfd : open_fds s !! fd = Some id) by (apply Hown; set_solver).
    split; [|split; [|split]]; simpl.
    + rewrite fmap_app. apply NoDup_app. split; [done|]. split; [|done]. intros x Hx Hx2. apply (Hdisj x Hx). set_solver.
    + intros x i Hx. destruct (Hown x i) as [Hxi Hxc]; [set_solver|].
      assert (Hne : x <> fd); [|rewrite lookup_delete_ne by done; set_solver].
      intros ->. rewrite Hfd in Hxi. injection Hxi as ->. rewrite elem_of_app in Hx. destruct Hx as [Hx|Hx].
      * apply (Hdisj i); [by apply (list_elem_of_fmap_2 snd _ (fd, i))|set_solver].
      * apply Hni. by apply (list_elem_of_fmap_2 snd _ (fd, i)).
    + intros x i. rewrite lookup_delete_Some. intros [_ Hx]. by eapply Hlt.
    + intros x y i. rewrite !lookup_delete_Some. intros [_ Hx] [_ Hy]. by eapply Hinj.
Qed.

Lemma healthy_own s : rtc healthy_step no_sockets s -> own_descriptors s.
Proof.
  intros Hr. assert (H0 : own_descriptors no_sockets).
  { split; [constructor|]. split; [intros ? ? Hx; by apply not_elem_of_nil in Hx|]. split; intros ? *; simpl; rewrite lookup_empty; done. }
  induction Hr as [s|s s' s'' Hs _ IH]; [done|]. apply IH. by eapply own_descriptors_step.
Qed.

(** C28: as long as no broadcast fails and [stop] finds no client, a handler that ends closes
    its own connection and no other.  Both of the other steps break this.  [stop] closes the
    descriptor of every handler that still runs.  So does a failed broadcast; the next
    connection can get the same descriptor, and the handler that ends then closes that
    connection and removes it from the clients. *)
Theorem handlers_close_their_own_until_a_send_fails :
  (forall s fd id, rtc healthy_step no_sockets s -> (fd, id) ∈ handlers s ->
     open_fds s !! fd = Some id /\
     (forall fd' id', id' <> id -> open_fds s !! fd' = Some id' -> open_fds (finish fd s) !! fd' = Some id') /\
     (fd, id) ∈ handlers (close_clients s) /\ open_fds (close_clients s) !! fd = None) /\
  exists s fd id id', rtc client_step no_sockets s /\ (fd, id) ∈ handlers s /\ (fd, id') ∈ handlers s /\ id <> id' /\
    open_fds s !! fd = Some id' /\ fd ∈ ws_clients_ s /\
    open_fds (finish fd s) !! fd = None /\ fd ∉ ws_clients_ (finish fd s).
Proof.
  split.
  - intros s fd id Hr Hin. destruct (healthy_own s Hr) as (_ & Hown & _). destruct (Hown _ _ Hin) as [Hfd Hc].
    split_and!; [done| |done|rewrite close_clients_fds; by case_decide]. intros fd' id' Hne Hfd'. simpl.
    rewrite lookup_delete_ne; [done|]. intros ->. congruence.
  - set (s1 := upgrade 5 0 (accept 5 no_sockets)). set (s2 := broadcast_step (fun _ => false) s1).
    set (s3 := upgrade 5 1 (accept 5 s2)). exists s3, 5, 0%nat, 1%nat.
    split; [|split_and!; [apply (bool_decide_unpack _); by vm_compute..|by vm_compute| | |]];
      [|apply (bool_decide_unpack _); by vm_compute|by vm_compute|apply (bool_decide_unpack _); by vm_compute].
    eapply rtc_l; [apply one_client; by apply (step_accept 5)|].
    eapply rtc_l; [apply one_client, (step_upgrade 5 0); [by vm_compute|apply (bool_decide_unpack _); by vm_compute]|].
    eapply rtc_l; [apply one_client, (step_broadcast (fun _ => false))|].
    eapply rtc_l; [apply one_client; by apply (step_accept 5); vm_compute|].
    eapply rtc_l; [apply one_client, (step_upgrade 5 1); [by vm_compute|apply (bool_decide_unpack _); by vm_compute]|]. done.
Qed.

Lemma broadcast_reaches_open_clients_witness :
  open_fds (broadcast_step (fun fd => bool_decide (fd = 6)) (upgrade 6 1 (accept 6 (upgrade 5 0 (accept 5 no_sockets))))) !! 5 = None.
Proof.
  destruct (broadcast_reaches_open_clients (upgrade 6 1 (accept 6 (upgrade 5 0 (accept 5 no_sockets))))
              (fun fd => bool_decide (fd = 6))) as (_ & _ & H).
  - eapply rtc_l; [apply one_client; by apply (step_accept 5)|].
    eapply rtc_l; [apply one_client, (step_upgrade 5 0); [by vm_compute|apply (bool_decide_unpack _); by vm_compute]|].
    eapply rtc_l; [apply one_client; by apply (step_accept 6); vm_compute|].
    eapply rtc_l; [apply one_client, (step_upgrade 6 1); [by vm_compute|apply (bool_decide_unpack _); by vm_compute]|]. done.
  - rewrite H. by vm_compute.
Defined.
