(* ===== verification/WebThreads.v ===== *)
(** * src/src/web_server.cpp: [start], [stop] and [run]

    The listening thread of the web server over the descriptors of [WebClients], as a step
    relation: the thread, the thread that starts and stops the server, and the detached
    threads of the connections take steps in any order.  What is open when [stop] returns and
    that connections can outlive it ([web_stop_does_not_wait_for_connections]).  The table of
    listening sockets holds the server's own: who else is given a number that [closeIfOpen]
    closed is said of the receiver, whose [closeIfOpen] is the same, in [SyslogStop]. *)

From S2P Require Import Prelude Utils NetUtils Config Listeners WebServer WebClients.

Inductive WebMainPc : Type := WNew | WUp | WClose (k : Closing) | WJoin | WClients | WStopped.

Record WebThreads := mkWebThreads {
  web_running_ : bool;
  web_main_pc : WebMainPc;
  web_stops : nat;                (* calls of [stop] that returned *)
  listen_ : Listener;
  listening : gmap Z ();          (* listening sockets that are open: the server's own *)
  connections : Sockets
}.

#[export] Instance WebThreads_eta : Eta WebThreads := fun s =>
  mkWebThreads (web_running_ s) (web_main_pc s) (web_stops s) (listen_ s) (listening s) (connections s).

Definition new_WebThreads : WebThreads := mkWebThreads false WNew 0 new_Listener ∅ no_sockets.

Definition on_listen (f : gmap Z () -> Listener -> gmap Z () * Listener) (s : WebThreads) : WebThreads :=
  let '(t, l) := f (listening s) (listen_ s) in s <| listening := t |> <| listen_ := l |>.

Section WebThreads.
Context (config : Config) (inet_pton : bytes -> option Z).

(** *** [start] and [stop] *)

Definition web_start (s : WebThreads) : WebThreads :=
  (on_listen (fun t l => (t, l <| l_pc := PStart |>)) (s <| web_running_ := true |>)) <| web_main_pc := WUp |>.

Definition web_stop_begin (s : WebThreads) : WebThreads := s <| web_running_ := false |> <| web_main_pc := WClose CTest |>.

(** One step of [closeIfOpen(listen_fd_)]. *)
Definition web_stop_close (k : Closing) (s : WebThreads) : WebThreads :=
  (on_listen (fun t l => (closeIfOpen k t l).2) s)
    <| web_main_pc := match (closeIfOpen k (listening s) (listen_ s)).1 with Some k => WClose k | None => WJoin end |>.

Definition web_stop_join (s : WebThreads) : WebThreads :=
  (on_listen (fun t l => (t, l <| l_pc := PNone |>)) s) <| web_main_pc := WClients |>.

(** The clients are closed. *)
Definition web_stop_clients (s : WebThreads) : WebThreads :=
  s <| connections := close_clients (connections s) |> <| web_main_pc := WStopped |> <| web_stops := S (web_stops s) |>.

(** *** [run] *)

Definition web_socket (fd : Z) : WebThreads -> WebThreads := on_listen (open_socket () (http_addr config) fd).
Definition web_bind (parsed : Address) (ok : bool) : WebThreads -> WebThreads :=
  on_listen (bind_socket inet_pton parsed PListen ok).
Definition web_listen (ok : bool) : WebThreads -> WebThreads := on_listen (listen_socket ok).
(** One step of [closeIfOpen] after [bind] or [listen] has failed. *)
Definition web_fail (k : Closing) : WebThreads -> WebThreads := on_listen (fail_step k).
Definition web_check (s : WebThreads) : WebThreads := on_listen (fun t l => (t, check_running (web_running_ s) l)) s.
Definition web_wait : WebThreads -> WebThreads := on_listen (fun t l => (t, enter_select l)).

(** [select] came back: [break] when the server no longer runs, [continue] when nothing is ready. *)
Definition web_select (ready : bool) (s : WebThreads) : WebThreads :=
  on_listen (fun t l => (t, l <| l_pc := if negb (web_running_ s) then PExit else if ready then PIo else PCheck |>)) s.

(** [accept]: nothing, or a connection, for which a detached thread is started. *)
Definition web_accept (connection : option Z) (s : WebThreads) : WebThreads :=
  let s := match connection with None => s | Some client_fd => s <| connections := accept client_fd (connections s) |> end in
  on_listen (fun t l => (t, l <| l_pc := PCheck |>)) s.

Definition web_fresh (fd : Z) (s : WebThreads) : Prop := fresh fd (listening s) /\ open_fds (connections s) !! fd = None.

(** Who takes a step: the thread that owns the server, the listening thread, or a connection. *)
Inductive WebActor : Type := WMain | WThread | WConnection.

#[export] Instance WebActor_eq_dec : EqDecision WebActor.
Proof. solve_decision. Defined.

Inductive web_move : WebActor -> WebThreads -> WebThreads -> Prop :=
  | wstep_start s : web_main_pc s = WNew -> web_move WMain s (web_start s)
  | wstep_stop s : web_main_pc s = WNew \/ web_main_pc s = WUp \/ web_main_pc s = WStopped -> web_move WMain s (web_stop_begin s)
  | wstep_close k s : web_main_pc s = WClose k -> web_move WMain s (web_stop_close k s)
  | wstep_join s :
      web_main_pc s = WJoin -> l_pc (listen_ s) = PNone \/ l_pc (listen_ s) = PExit -> web_move WMain s (web_stop_join s)
  | wstep_clients s : web_main_pc s = WClients -> web_move WMain s (web_stop_clients s)
  | wstep_socket fd s : l_pc (listen_ s) = PStart -> fd = -1 \/ web_fresh fd s -> web_move WThread s (web_socket fd s)
  | wstep_bind parsed ok s :
      l_pc (listen_ s) = PBind parsed -> (ok = true -> is_Some (listening s !! l_fd (listen_ s))) ->
      web_move WThread s (web_bind parsed ok s)
  | wstep_listen ok s :
      l_pc (listen_ s) = PListen -> (ok = true -> is_Some (listening s !! l_fd (listen_ s))) -> web_move WThread s (web_listen ok s)
  | wstep_fail k s : l_pc (listen_ s) = PFail k -> web_move WThread s (web_fail k s)
  | wstep_check s : l_pc (listen_ s) = PCheck -> web_move WThread s (web_check s)
  | wstep_wait s : l_pc (listen_ s) = PWait -> web_move WThread s (web_wait s)
  | wstep_select fd ready s : l_pc (listen_ s) = PSelect fd -> web_move WThread s (web_select ready s)
  | wstep_accept connection s :
      l_pc (listen_ s) = PIo ->
      (forall fd, connection = Some fd -> is_Some (listening s !! l_fd (listen_ s)) /\ web_fresh fd s) ->
      web_move WThread s (web_accept connection s)
  | wstep_connection c s :  (* a connection's thread, or a broadcast *)
      socket_step (connections s) c -> accepted c = accepted (connections s) -> web_move WConnection s (s <| connections := c |>).

Definition web_step (s s' : WebThreads) : Prop := exists a, web_move a s s'.

(** ** What the steps keep *)

(** Only the socket of the field is open. *)
Definition table_ok (t : gmap Z ()) (l : Listener) : Prop := forall fd, is_Some (t !! fd) -> fd = l_fd l /\ 0 <= fd.

(** What a thread in [closeIfOpen] can rely on when the other one has been there. *)
Definition close_ok (k : Closing) (t : gmap Z ()) (l : Listener) : Prop :=
  match k with CTest => True | CClose fd => fd = l_fd l \/ t = ∅ | CAssign => t = ∅ end.

Lemma closing_table k t l :
  table_ok t l -> close_ok k t l ->
  table_ok (closeIfOpen k t l).2.1 (closeIfOpen k t l).2.2 /\
  (forall k', (closeIfOpen k t l).1 = Some k' -> close_ok k' (closeIfOpen k t l).2.1 (closeIfOpen k t l).2.2) /\
  (forall k', close_ok k' t l -> close_ok k' (closeIfOpen k t l).2.1 (closeIfOpen k t l).2.2).
Proof.
  intros Ht Hk. destruct k as [|fd|]; simpl in *.
  - split; [done|]. split; [|done]. intros k'. destruct (0 <=? l_fd l); [intros [= <-]; by left|done].
  - assert (E : delete fd t = ∅).
    { apply map_empty. intros x. destruct Hk as [->| ->]; [|by rewrite delete_empty, lookup_empty].
      destruct (delete (l_fd l) t !! x) eqn:E; [|done]. apply lookup_delete_Some in E as [Hne Hx].
      destruct (Ht x) as [-> _]; [by eexists|done]. }
    rewrite E. split; [by intros x [y Hy]|]. split; [by intros k' [= <-]|]. intros []; simpl; auto.
  - subst t. split; [by intros x [y Hy]|]. split; [done|]. intros []; simpl; auto.
Qed.

Record web_ok (s : WebThreads) : Prop := {
  w_running : web_running_ s = true <-> web_main_pc s = WUp;
  w_new : web_main_pc s = WNew -> listen_ s = new_Listener /\ web_stops s = 0%nat;
  w_stopped : web_main_pc s = WStopped -> (1 <= web_stops s)%nat;
  w_start : l_pc (listen_ s) = PStart -> l_fd (listen_ s) = -1;
  w_range : -1 <= l_fd (listen_ s);
  w_joined : (1 <= web_stops s)%nat \/ web_main_pc s = WClients -> l_pc (listen_ s) = PNone;
  w_closed : (2 <= web_stops s)%nat \/ (1 <= web_stops s)%nat /\ (web_main_pc s = WJoin \/ web_main_pc s = WClients) ->
             l_fd (listen_ s) = -1;
  w_table : table_ok (listening s) (listen_ s);
  w_close : forall k, web_main_pc s = WClose k \/ l_pc (listen_ s) = PFail k -> close_ok k (listening s) (listen_ s);
  w_tested : forall k, web_main_pc s = WClose k -> k <> CTest -> l_pc (listen_ s) <> PStart
}.

Lemma new_web_ok : web_ok new_WebThreads.
Proof.
  split; simpl; try done; try lia.
  - intros fd [x Hx]. by rewrite lookup_empty in Hx.
  - by intros k [?|?].
Qed.

Lemma fd_move_table t l t' l' : fd_move () t l (t', l') -> table_ok t l -> table_ok t' l'.
Proof.
  intros Hm Ht fd Hfd. inversion Hm as [l1 Hl|l1 Hold [H0 Hf]]; subst; [by rewrite Hl; apply Ht|].
  destruct Hfd as [x [[<- _]|[Hne Hx]]%lookup_insert_Some]; [done|]. destruct (Ht fd) as [-> ?]; [by eexists|]. lia.
Qed.

(** What becomes of the parts of the invariant that a step of the listening thread leaves alone. *)
Lemma web_ok_thread f s :
  l_pc (listen_ s) <> PNone -> moves (f (listening s) (listen_ s)).2 ->
  table_ok (f (listening s) (listen_ s)).1 (f (listening s) (listen_ s)).2 ->
  (forall k, web_main_pc s = WClose k -> close_ok k (f (listening s) (listen_ s)).1 (f (listening s) (listen_ s)).2) ->
  (forall k, l_pc (f (listening s) (listen_ s)).2 = PFail k -> close_ok k (f (listening s) (listen_ s)).1 (f (listening s) (listen_ s)).2) ->
  web_ok s -> web_ok (on_listen f s).
Proof.
  intros Hpc [Hnew Hfd] Ht Hmain Hown []. unfold on_listen. destruct (f (listening s) (listen_ s)) as [t l]. simpl in *.
  assert (Hj : ~ ((1 <= web_stops s)%nat \/ web_main_pc s = WClients)) by auto.
  split; simpl; try done; try tauto.
  - intros H. destruct (w_new0 H) as [E _]. by rewrite E in Hpc.
  - intros [?|[? _]]; exfalso; apply Hj; left; lia.
  - intros k [?|?]; auto.
Qed.

(** A step outside of [closeIfOpen]. *)
Lemma web_ok_listen f s :
  l_pc (listen_ s) <> PNone -> moves (f (listening s) (listen_ s)).2 ->
  fd_move () (listening s) (listen_ s) (f (listening s) (listen_ s)) ->
  (forall k, l_pc (f (listening s) (listen_ s)).2 = PFail k -> k = CTest) ->
  l_pc (listen_ s) = PStart \/ ((f (listening s) (listen_ s)).1 = listening s /\ l_fd (f (listening s) (listen_ s)).2 = l_fd (listen_ s)) ->
  web_ok s -> web_ok (on_listen f s).
Proof.
  intros Hpc Hmv Hm Hk Hsame Ho. apply web_ok_thread; [done|done| | | |done].
  - destruct (f _ _). eapply fd_move_table; [exact Hm|apply (w_table _ Ho)].
  - intros k Hmain. destruct Hsame as [Hstart|[-> Hl]].
    + destruct (decide (k = CTest)) as [->|Hne]; [done|]. by destruct (w_tested _ Ho k Hmain Hne).
    + pose proof (w_close _ Ho k (or_introl Hmain)) as H. destruct k; simpl in *; [done|by rewrite Hl|done].
  - intros k ->%Hk. done.
Qed.

Lemma web_ok_fail k s : l_pc (listen_ s) = PFail k -> web_ok s -> web_ok (web_fail k s).
Proof.
  intros Hpc Ho. pose proof (w_close _ Ho) as Hc. destruct (closing_table k _ _ (w_table _ Ho)) as (H1 & H2 & H3); [auto|].
  apply web_ok_thread; [by rewrite Hpc|apply fail_step_moves, (w_range _ Ho)|..|done]; unfold fail_step;
    destruct (closeIfOpen k (listening s) (listen_ s)) as [next [t l]]; simpl in *.
  - done.
  - intros k' Hm. destruct k'; simpl; [done|apply (H3 (CClose _)); auto|apply (H3 CAssign); auto].
  - intros k'. destruct next; intros [= ->]. specialize (H2 k' eq_refl). by destruct k'.
Qed.

Lemma web_ok_stop_close k s : web_main_pc s = WClose k -> web_ok s -> web_ok (web_stop_close k s).
Proof.
  intros Hm Ho. pose proof (w_close _ Ho) as Hc. destruct (closing_table k _ _ (w_table _ Ho)) as (H1 & H2 & H3); [auto|].
  pose proof (closeIfOpen_pc k (listening s) (listen_ s)) as Hpc. pose proof (closeIfOpen_range k (listening s) (listen_ s) (w_range _ Ho)) as Hr.
  assert (Hnext : (closeIfOpen k (listening s) (listen_ s)).1 = None -> l_fd (closeIfOpen k (listening s) (listen_ s)).2.2 = -1).
  { pose proof (w_range _ Ho). destruct k; simpl; try done. destruct (0 <=? _) eqn:E; [done|]. b2p. lia. }
  assert (Hfd : l_fd (closeIfOpen k (listening s) (listen_ s)).2.2 = l_fd (listen_ s) \/ l_fd (closeIfOpen k (listening s) (listen_ s)).2.2 = -1).
  { destruct k; simpl; auto. }
  assert (Htest : forall k', (closeIfOpen k (listening s) (listen_ s)).1 = Some k' -> l_pc (listen_ s) <> PStart).
  { intros k' Hk'. destruct (decide (k = CTest)) as [->|]; [|by eapply (w_tested _ Ho)]. intros E. simpl in Hk'. by rewrite (w_start _ Ho E) in Hk'. }
  destruct Ho. unfold web_stop_close, on_listen. destruct (closeIfOpen k (listening s) (listen_ s)) as [next [t l]]. simpl in *.
  split; simpl; try done.
  - rewrite w_running0, Hm. by destruct next.
  - by destruct next.
  - by destruct next.
  - rewrite Hpc. intros E. destruct Hfd as [->| ->]; auto.
  - rewrite Hpc. intros [?|?]; [auto|]. by destruct next.
  - intros [Hs|[Hs Hn]]; [destruct Hfd as [->| ->]; auto|]. destruct next; [by destruct Hn|auto].
  - intros k' [Hk'|Hk']; [destruct next; [injection Hk' as ->; auto|done]|]. rewrite Hpc in Hk'. auto.
  - intros k' Hk' _. rewrite Hpc. destruct next; [eauto|done].
Qed.

Lemma web_ok_connections s c : web_ok s -> web_ok (s <| connections := c |>).
Proof. by intros []. Qed.

Lemma web_move_ok a s s' : web_move a s s' -> web_ok s -> web_ok s'.
Proof.
  intros Hstep Ho. pose proof (w_range _ Ho) as Hrange. pose proof (w_start _ Ho) as Hstart.
  destruct Hstep as [s Hm|s Hm|k s Hm|s Hm _|s Hm|fd s Hpc Hfd|parsed ok s Hpc _|ok s Hpc _|k s Hpc|s Hpc|s Hpc|fd ready s Hpc
    |connection s Hpc _|c s _ _].
  - destruct Ho. destruct (w_new0 Hm) as [Hl Hs]. unfold web_start, on_listen. split; simpl; try done; try lia.
    + intros _. by rewrite Hl.
    + intros [?|?]; [lia|done].
    + by intros k [?|?].
  - destruct Ho. split; simpl; try done.
    + intros [?|?]; [auto|done].
    + intros [?|[_ [?|?]]]; [auto|done|done].
    + intros k [[= <-]|Hk]; [done|auto].
    + by intros k [= <-].
  - by apply web_ok_stop_close.
  - destruct Ho. unfold web_stop_join, on_listen. split; simpl; try done.
    + rewrite w_running0, Hm. done.
    + intros [?|[? _]]; apply w_closed0; [by left|right; auto].
    + by intros k [?|?].
  - destruct Ho. unfold web_stop_clients. split; simpl; try done; try lia.
    + rewrite w_running0, Hm. done.
    + intros _. apply w_joined0. by right.
    + intros [?|[_ [?|?]]]; [|done|done]. apply w_closed0. right. split; [lia|by right].
    + intros k [?|?]; [done|auto].
  - assert (Hf : fd = -1 \/ fresh fd (listening s)) by (destruct Hfd as [?|[? _]]; auto).
    apply web_ok_listen; [by rewrite Hpc|apply open_socket_moves; [destruct Hf as [->|[? _]]; lia|done]|apply open_socket_fd; auto| |by left|done].
    intros k. unfold open_socket. destruct (parseAddress _); [|done]. by destruct (fd <? 0).
  - apply web_ok_listen; [by rewrite Hpc|by apply bind_socket_moves|by destruct ok; apply fd_same| |by right; destruct ok|done].
    intros k. destruct ok; simpl; by intros [= <-].
  - apply web_ok_listen; [by rewrite Hpc|by apply listen_socket_moves|by destruct ok; apply fd_same| |by right; destruct ok|done].
    intros k. destruct ok; simpl; by intros [= <-].
  - by apply web_ok_fail.
  - apply web_ok_listen; [by rewrite Hpc|split; [simpl; by destruct (web_running_ s)|done]|by apply fd_same| |by right|done].
    intros k. simpl. by destruct (web_running_ s).
  - apply web_ok_listen; [by rewrite Hpc|by split|by apply fd_same|done|by right|done].
  - apply web_ok_listen; [by rewrite Hpc|split; [simpl; by destruct (web_running_ s), ready|done]|by apply fd_same| |by right|done].
    intros k. simpl. by destruct (web_running_ s), ready.
  - unfold web_accept. apply web_ok_listen; [|by destruct connection|destruct connection; by apply fd_same|done|by right; destruct connection
      |destruct connection; [by apply web_ok_connections|done]].
    destruct connection; simpl; by rewrite Hpc.
  - by apply web_ok_connections.
Qed.

(** What the steps do to the connections is what [WebClients] says of them. *)
Lemma web_move_clients a s s' :
  web_move a s s' -> connections s' = connections s \/ client_step (connections s) (connections s').
Proof.
  intros Hstep. assert (Hl : forall f x, connections (on_listen f x) = connections x) by (intros f x; unfold on_listen; by destruct (f _ _)).
  destruct Hstep as [s Hm|s Hm|k s Hm|s Hm _|s Hm|fd s Hpc Hfd|parsed ok s Hpc _|ok s Hpc _|k s Hpc|s Hpc|s Hpc|fd ready s Hpc
    |connection s Hpc Hc|c s Hs _]; try (left; apply Hl); try by left.
  - right. apply all_clients.
  - unfold web_accept. rewrite Hl. destruct connection as [fd|]; [right|by left]. apply one_client, step_accept.
    destruct (Hc fd eq_refl) as [_ [_ Hf]]. done.
  - right. by apply one_client.
Qed.

Lemma web_reachable_ok s : rtc web_step new_WebThreads s -> web_ok s.
Proof.
  intros Hr. remember new_WebThreads as s0 eqn:E. assert (H0 : web_ok s0) by (subst; apply new_web_ok). clear E.
  induction Hr as [|s s' s'' [a Hs] _ IH]; [done|]. by apply IH, (web_move_ok a s).
Qed.

(** The clients a broadcast sends to are open connections, also while the server stops. *)
Lemma web_clients_open s : rtc web_step new_WebThreads s -> clients_open (connections s).
Proof.
  intros Hr. remember new_WebThreads as s0 eqn:E. assert (H0 : clients_open (connections s0)) by (subst; intros fd; set_solver). clear E.
  induction Hr as [|s s' s'' [a Hs] _ IH]; [done|]. apply IH.
  destruct (web_move_clients a s s' Hs) as [->|Hc]; [done|by eapply clients_open_step].
Qed.

(** ** [stop] comes to its end *)

(** Between the moment [stop] cleared the flag and its end. *)
Definition web_stopping (s : WebThreads) : Prop := match web_main_pc s with WClose _ | WJoin | WClients => True | _ => False end.

(** How many steps [stop] and the listening thread can still take when the flag is cleared. *)
Definition web_rank (s : WebThreads) : nat :=
  match web_main_pc s with WClose k => 2 + closing_rank k | WJoin => 2 | WClients => 1 | _ => 0 end + pc_rank 1 (l_pc (listen_ s)).

Lemma web_rank_bound s : (web_rank s <= 11)%nat.
Proof.
  unfold web_rank. assert (forall k, (closing_rank k <= 3)%nat) as H by (intros []; simpl; lia).
  destruct (web_main_pc s) as [| |k| | |], (l_pc (listen_ s)) as [| | | | | | | |k'|]; simpl; try pose proof (H k); try pose proof (H k'); lia.
Qed.

Lemma web_rank_listen f s :
  (web_rank (on_listen f s) + pc_rank 1 (l_pc (listen_ s)) =
   web_rank s + pc_rank 1 (l_pc (f (listening s) (listen_ s)).2))%nat.
Proof. unfold on_listen, web_rank. destruct (f _ _) as [t l]. simpl. lia. Qed.

Lemma on_listen_main f s : web_main_pc (on_listen f s) = web_main_pc s /\ web_running_ (on_listen f s) = web_running_ s.
Proof. unfold on_listen. by destruct (f _ _). Qed.

(** A step brings the end nearer, unless it is one of a connection. *)
Lemma web_step_rank a s s' :
  web_move a s s' -> web_ok s -> web_running_ s = false -> a <> WConnection ->
  (a = WMain -> web_stopping s) -> (web_rank s' < web_rank s)%nat.
Proof.
  intros Hstep Ho Hrun Ha Hmain. unfold web_stopping in Hmain.
  destruct Hstep as [s Hm|s Hm|k s Hm|s Hm _|s Hm|fd s Hpc Hfd|parsed ok s Hpc _|ok s Hpc _|k s Hpc|s Hpc|s Hpc|fd ready s Hpc
    |connection s Hpc _|c s _ _]; try done.
  - specialize (Hmain eq_refl). by rewrite Hm in Hmain.
  - specialize (Hmain eq_refl). destruct Hm as [Hm|[Hm|Hm]]; by rewrite Hm in Hmain.
  - pose proof (closeIfOpen_rank k (listening s) (listen_ s)) as Hk. pose proof (closeIfOpen_pc k (listening s) (listen_ s)) as Hpc.
    unfold web_rank, web_stop_close, on_listen. destruct (closeIfOpen k (listening s) (listen_ s)) as [next [t l]].
    simpl in *. rewrite Hm, Hpc. destruct next; lia.
  - unfold web_rank, web_stop_join, on_listen. simpl. rewrite Hm. lia.
  - unfold web_rank, web_stop_clients. simpl. rewrite Hm. lia.
  - pose proof (web_rank_listen (open_socket () (http_addr config) fd) s) as H. rewrite Hpc in H.
    pose proof (open_socket_rank 1 () (http_addr config) fd (listening s) (listen_ s)). unfold web_socket. simpl in H. lia.
  - pose proof (web_rank_listen (bind_socket inet_pton parsed PListen ok) s) as H. rewrite Hpc in H.
    pose proof (bind_socket_rank 1 inet_pton parsed PListen ok (listening s) (listen_ s) ltac:(simpl; lia)). unfold web_bind. cbn [pc_rank] in H. lia.
  - pose proof (web_rank_listen (listen_socket ok) s) as H. rewrite Hpc in H.
    pose proof (listen_socket_rank 1 ok (listening s) (listen_ s)). unfold web_listen. cbn [pc_rank] in H. lia.
  - pose proof (web_rank_listen (fail_step k) s) as H. rewrite Hpc in H.
    pose proof (fail_step_rank 1 k (listening s) (listen_ s)). unfold web_fail. cbn [pc_rank] in H. lia.
  - unfold web_check. rewrite Hrun. pose proof (web_rank_listen (fun t l => (t, check_running false l)) s) as H. rewrite Hpc in H. simpl in H. lia.
  - unfold web_wait. pose proof (web_rank_listen (fun t l => (t, enter_select l)) s) as H. rewrite Hpc in H. simpl in H. lia.
  - unfold web_select. rewrite Hrun. pose proof (web_rank_listen (fun t l => (t, l <| l_pc := PExit |>)) s) as H. rewrite Hpc in H. simpl in H. simpl. lia.
  - unfold web_accept. cbv zeta.
    assert (E : forall y, l_pc (listen_ y) = PIo -> (web_rank (on_listen (fun t l => (t, l <| l_pc := PCheck |>)) y) < web_rank y)%nat).
    { intros y Hy. unfold web_rank, on_listen. simpl. rewrite Hy. simpl. lia. }
    destruct connection as [fd|]; [|by apply E].
    change (web_rank s) with (web_rank (s <| connections := accept fd (connections s) |>)). by apply E.
Qed.

(** The other steps leave the flag and [stop] alone. *)
Lemma web_move_main a s s' : web_move a s s' -> a <> WMain -> web_main_pc s' = web_main_pc s /\ web_running_ s' = web_running_ s.
Proof.
  intros Hstep Ha. destruct Hstep as [s Hm|s Hm|k s Hm|s Hm _|s Hm|fd s Hpc Hfd|parsed ok s Hpc _|ok s Hpc _|k s Hpc|s Hpc|s Hpc|fd ready s Hpc
    |connection s Hpc _|c s _ _]; try done; try apply on_listen_main.
  unfold web_accept. by destruct connection.
Qed.

Lemma web_connection_rank s s' : web_move WConnection s s' -> web_rank s' = web_rank s.
Proof. intros H. inversion H; subst. done. Qed.

(** A listening thread that has not come to its end can go on. *)
Lemma web_thread_progress s :
  l_pc (listen_ s) <> PNone -> l_pc (listen_ s) <> PExit -> exists s', web_move WThread s s'.
Proof.
  intros Hn He. destruct (l_pc (listen_ s)) as [| |parsed| | | |fd| |k|] eqn:E; try done; eexists.
  - apply (wstep_socket (-1)); [done|by left].
  - by apply (wstep_bind parsed false).
  - by apply (wstep_listen false).
  - by apply wstep_check.
  - by apply wstep_wait.
  - by apply (wstep_select fd false).
  - by apply (wstep_accept None).
  - by apply wstep_fail.
Qed.

End WebThreads.

(** ** A course of events *)

Definition demo_web_pton (_ : bytes) : option Z := Some 0.
Definition demo_web_address : Address := default (mkAddress [] 0) (parseAddress (http_addr default_Config)).

(** A client has connected and become a WebSocket client. *)
Definition demo_web_up : WebThreads :=
  let s := web_accept (Some 5) (web_select true (web_wait (web_check (web_listen true (web_bind demo_web_pton demo_web_address true
             (web_socket default_Config 3 (web_start new_WebThreads))))))) in
  s <| connections := upgrade 5 0 (connections s) |>.

(** [stop], and the call of it in the destructor. *)
Definition demo_web_stop (s : WebThreads) : WebThreads :=
  web_stop_clients (web_stop_join (web_stop_close CTest (web_stop_begin s))).

Definition demo_web_down : WebThreads :=
  demo_web_stop (web_stop_clients (web_stop_join (web_check (web_stop_close CAssign (web_stop_close (CClose 3)
    (web_stop_close CTest (web_stop_begin demo_web_up))))))).

Abbreviation demo_web_reachable := (rtc (web_step default_Config demo_web_pton) new_WebThreads).

Lemma demo_web_up_reachable : demo_web_reachable demo_web_up.
Proof.
  unfold demo_web_up.
  eapply rtc_l; [eexists; by apply wstep_start|].
  eapply rtc_l; [eexists; apply (wstep_socket _ _ 3); [by vm_compute|right; split; [split; [done|by vm_compute]|by vm_compute]]|].
  eapply rtc_l; [eexists; apply (wstep_bind _ _ demo_web_address true); [by vm_compute|intros _; vm_compute; eauto]|].
  eapply rtc_l; [eexists; apply (wstep_listen _ _ true); [by vm_compute|intros _; vm_compute; eauto]|].
  eapply rtc_l; [eexists; apply wstep_check; by vm_compute|].
  eapply rtc_l; [eexists; apply wstep_wait; by vm_compute|].
  eapply rtc_l; [eexists; apply (wstep_select _ _ 3 true); by vm_compute|].
  eapply rtc_l; [eexists; apply (wstep_accept _ _ (Some 5)); [by vm_compute|]|].
  { intros fd [= <-]. split; [vm_compute; eauto|]. split; [split; [done|by vm_compute]|by vm_compute]. }
  eapply rtc_l; [|done]. eexists. apply (wstep_connection _ _ (upgrade 5 0 _)); [|by vm_compute].
  apply (step_upgrade 5 0); [by vm_compute|apply (bool_decide_unpack _); by vm_compute].
Qed.

Lemma demo_web_down_reachable : demo_web_reachable demo_web_down.
Proof.
  etransitivity; [apply demo_web_up_reachable|]. unfold demo_web_down, demo_web_stop.
  eapply rtc_l; [eexists; apply wstep_stop; right; left; by vm_compute|].
  do 3 (eapply rtc_l; [eexists; apply wstep_close; by vm_compute|]).
  eapply rtc_l; [eexists; apply wstep_check; by vm_compute|].
  eapply rtc_l; [eexists; apply wstep_join; [by vm_compute|right; by vm_compute]|].
  eapply rtc_l; [eexists; apply wstep_clients; by vm_compute|].
  eapply rtc_l; [eexists; apply wstep_stop; right; right; by vm_compute|].
  eapply rtc_l; [eexists; apply wstep_close; by vm_compute|].
  eapply rtc_l; [eexists; apply wstep_join; [by vm_compute|left; by vm_compute]|].
  eapply rtc_l; [eexists; apply wstep_clients; by vm_compute|]. done.
Qed.

(** C37: when [stop] of the web server has returned, no listening thread is left and the only
    listening socket that can be open is the one in its field; after the second call, which
    the destructor makes, there is none; [stop] closes every WebSocket client.  But it does not
    wait for the threads of the connections: after the destructor's call one can still run on
    the server, and will close its descriptor again. *)
Theorem web_stop_does_not_wait_for_connections :
  (forall config pton s, rtc (web_step config pton) new_WebThreads s -> web_main_pc s = WStopped ->
     web_running_ s = false /\ l_pc (listen_ s) = PNone /\
     (forall fd, is_Some (listening s !! fd) -> fd = l_fd (listen_ s)) /\
     ((2 <= web_stops s)%nat -> listening s = ∅)) /\
  (forall s, let s' := web_stop_clients s in
     ws_clients_ (connections s') = ∅ /\
     forall fd, open_fds (connections s') !! fd =
       if decide (fd ∈ ws_clients_ (connections s)) then None else open_fds (connections s) !! fd) /\
  exists s fd id, demo_web_reachable s /\ web_main_pc s = WStopped /\ web_stops s = 2%nat /\
    (fd, id) ∈ handlers (connections s) /\ open_fds (connections s) !! fd = None.
Proof.
  split; [|split].
  - intros config pton s Hr Hm. pose proof (web_reachable_ok config pton s Hr) as []. split_and!.
    + apply not_true_is_false. intros E. apply w_running0 in E. congruence.
    + apply w_joined0. left. auto.
    + intros fd Hfd. by apply w_table0.
    + intros Hs. apply map_empty. intros fd. destruct (listening s !! fd) eqn:E; [|done]. exfalso.
      destruct (w_table0 fd) as [-> H0]; [by eexists|]. rewrite w_closed0 in H0 by (by left). lia.
  - intros s. split; [done|]. intros fd. apply close_clients_fds.
  - exists demo_web_down, 5, 0%nat. split; [apply demo_web_down_reachable|].
    split_and!; [by vm_compute..| |by vm_compute]. apply (bool_decide_unpack _). by vm_compute.
Qed.
