(* ===== verification/Lifecycle.v ===== *)
(** * src/src/app.cpp and src/src/main.cpp: the life of the process

    What the main thread does from the constructor of [App] to the end of its destructor
    ([program]), over the threads of the two servers ([SyslogThreads], [WebThreads]), the
    cleanup thread, a thread in [App::wait] and the world outside, which sends signals and
    reads from its connections or not.  A step relation ([proc_step]) in which any of them may
    take the next step.  A call of the handler returns unless it sends to a WebSocket client
    that does not read: [broadcast] has no timeout. *)

From S2P Require Import Prelude Utils NetUtils Types Config LogParser StateStore App SyslogServer Listeners SyslogThreads.
From S2P Require Import WebClients WebThreads.

(** ** The main thread *)

Inductive Instr : Type :=
  | IServers        (* [start] up to the construction of the servers *)
  | IWebStart | ISyslogStart | ICleanupStart
  | ISignal         (* [while (!stop_requested)] of [main] *)
  | IClear          (* [running_.exchange(false)] *)
  | ISyslogStop | IWebStop
  | IJoin           (* of the cleanup thread *)
  | INotify.

#[export] Instance Instr_eq_dec : EqDecision Instr.
Proof. solve_decision. Defined.

Definition app_start : list Instr := [IServers; IWebStart; ISyslogStart; ICleanupStart].
Definition app_stop : list Instr := [IClear; ISyslogStop; IWebStop; IJoin; INotify].

(** [~App] calls [stop], and then the members are destroyed, in the reverse order of their
    declaration: the destructors of the servers call their [stop] once more. *)
Definition app_destroy : list Instr := app_stop ++ [IWebStop; ISyslogStop].

Definition program : list Instr := app_start ++ [ISignal] ++ app_stop ++ app_destroy.

(** Where the program continues when [start] has thrown: at the destructor. *)
Definition at_destroy : nat := length (app_start ++ [ISignal] ++ app_stop).

(** ** The other threads *)

(** [runCleanupLoop]: the condition of [while] and of [for], the sleep, the [break], the round
    up to its broadcast, and in the broadcast, with [ws_mutex_] held. *)
Inductive CleanupPc : Type := KNone | KLoop | KFor (i : nat) | KSleep (i : nat) | KBreak | KRound | KSend | KEnd.

#[export] Instance CleanupPc_eq_dec : EqDecision CleanupPc.
Proof. solve_decision. Defined.

(** [App::wait]: not called, before the test of the predicate, before it blocks, blocked, returned. *)
Inductive WaiterPc : Type := TOut | TTest | TWait | TBlocked | TDone.

Record Process := mkProcess {
  stop_requested : bool;
  main_at : nat;                  (* the next instruction of [program] *)
  inside : bool;                  (* a server's [stop] was called and has not returned *)
  exit_code : Z;
  app_running : bool;
  syslog_server_ : option Threads;
  web_server_ : option WebThreads;
  cleanup_thread_ : CleanupPc;
  waiter : WaiterPc;
  stalled : gset Z                (* descriptors whose peers do not read *)
}.

#[export] Instance Process_eta : Eta Process := fun p =>
  mkProcess (stop_requested p) (main_at p) (inside p) (exit_code p) (app_running p) (syslog_server_ p)
    (web_server_ p) (cleanup_thread_ p) (waiter p) (stalled p).

Definition new_Process : Process := mkProcess false 0 false 0 false None None KNone TOut ∅.

Definition instr (p : Process) : option Instr := program !! main_at p.

Definition next (p : Process) : Process := p <| main_at := S (main_at p) |> <| inside := false |>.

(** ** Broadcasts *)

(** Does the handler of this line call [publishUpdate]? *)
Definition broadcasts (line : bytes) : bool :=
  let result := parse line in
  negb (matched result && bool_decide (pr_type result = "netiface")
        && negb (has_field result "rx_bytes" && has_field result "tx_bytes")).

(** All calls of the handler so far, by the threads that are gone, the clients and the UDP thread. *)
Definition calls_made (s : Threads) : list call :=
  udp_calls s ++ ((joined s ++ client_threads_ s) ≫= fun c => calls (ct_conn c)).

(** A client of the set to which [broadcast] sends does not read. *)
Definition blocked (p : Process) : Prop :=
  match web_server_ p with Some w => stalled p ∩ ws_clients_ (connections w) <> ∅ | None => False end.

#[export] Instance blocked_dec p : Decision (blocked p).
Proof. unfold blocked. destruct (web_server_ p); apply _. Defined.

(** Does this call of the handler return? *)
Definition call_returns (p : Process) (c : call) : Prop := ~ blocked p \/ broadcasts c.1 = false.

(** ** Steps *)

(** Who takes a step. *)
Inductive ProcActor : Type :=
  | PMain | PSyslog (a : Actor) | PWeb (a : WebActor) | PCleanup | PWaiter | POutside.

#[export] Instance ProcActor_eq_dec : EqDecision ProcActor.
Proof. solve_decision. Defined.

Section Lifecycle.
Context (config : Config) (inet_pton : bytes -> option Z) (inet_ntop : Z -> option bytes).

Definition storage_known : Prop := lower (storage_mode config) = "memory" \/ lower (storage_mode config) = "sqlite".

(** [start] up to the construction of the servers, among the other descriptors of the process. *)
Definition make_servers (others : gmap Z Owner) (p : Process) : Process :=
  next (p <| app_running := true |> <| web_server_ := Some new_WebThreads |>
          <| syslog_server_ := Some (new_Threads others) |>).

(** The exception of [start] reaches the handler of [main] through the destructor of [app]. *)
Definition start_throws (p : Process) : Process := p <| main_at := at_destroy |> <| exit_code := 2 |>.

Definition set_syslog (s : Threads) (p : Process) : Process := p <| syslog_server_ := Some s |>.
Definition set_web (w : WebThreads) (p : Process) : Process := p <| web_server_ := Some w |>.

(** One step of the cleanup thread. *)
Definition cleanup_next (running : bool) (pc : CleanupPc) : CleanupPc :=
  match pc with
  | KLoop => if running then KFor 0 else KEnd
  | KFor i => if (i <? 60)%nat && running then KSleep i else KBreak
  | KSleep i => KFor (S i)
  | KBreak => if running then KRound else KEnd
  | KRound => KSend
  | KSend => KLoop
  | KNone | KEnd => pc
  end.

Inductive proc_step : ProcActor -> Process -> Process -> Prop :=
  (* the main thread *)
  | proc_servers others p :
      instr p = Some IServers -> storage_known -> map_Forall (fun fd o => 0 <= fd /\ o = OForeign) others ->
      proc_step PMain p (make_servers others p)
  | proc_throw p :
      instr p = Some IServers -> lower (storage_mode config) <> "memory" -> proc_step PMain p (start_throws p)
  | proc_web_start w p :
      instr p = Some IWebStart -> web_server_ p = Some w -> proc_step PMain p (next (set_web (web_start w) p))
  | proc_syslog_start s p :
      instr p = Some ISyslogStart -> syslog_server_ p = Some s ->
      proc_step PMain p (next (set_syslog (syslog_start config s) p))
  | proc_cleanup_start p :
      instr p = Some ICleanupStart -> proc_step PMain p (next (p <| cleanup_thread_ := KLoop |>))
  | proc_poll p : instr p = Some ISignal -> proc_step PMain p (if stop_requested p then next p else p)
  | proc_clear p : instr p = Some IClear -> proc_step PMain p (next (p <| app_running := false |>))
  | proc_no_syslog p : instr p = Some ISyslogStop -> syslog_server_ p = None -> proc_step PMain p (next p)
  | proc_syslog_stop s p :
      instr p = Some ISyslogStop -> inside p = false -> syslog_server_ p = Some s ->
      proc_step PMain p (set_syslog (stop_begin s) p <| inside := true |>)
  | proc_in_syslog_stop s s' p :
      instr p = Some ISyslogStop -> inside p = true -> syslog_server_ p = Some s -> main_pc s <> MStopped ->
      step config inet_pton inet_ntop (call_returns p) AMain s s' -> proc_step PMain p (set_syslog s' p)
  | proc_syslog_stopped s p :
      instr p = Some ISyslogStop -> inside p = true -> syslog_server_ p = Some s -> main_pc s = MStopped ->
      proc_step PMain p (next p)
  | proc_no_web p : instr p = Some IWebStop -> web_server_ p = None -> proc_step PMain p (next p)
  | proc_web_stop w p :
      instr p = Some IWebStop -> inside p = false -> web_server_ p = Some w ->
      proc_step PMain p (set_web (web_stop_begin w) p <| inside := true |>)
  | proc_in_web_stop w w' p :  (* [ws_mutex_] is needed to close the clients *)
      instr p = Some IWebStop -> inside p = true -> web_server_ p = Some w -> web_main_pc w <> WStopped ->
      (web_main_pc w = WClients -> cleanup_thread_ p <> KSend) ->
      web_move config inet_pton WMain w w' -> proc_step PMain p (set_web w' p)
  | proc_web_stopped w p :
      instr p = Some IWebStop -> inside p = true -> web_server_ p = Some w -> web_main_pc w = WStopped ->
      proc_step PMain p (next p)
  | proc_join p :
      instr p = Some IJoin -> cleanup_thread_ p = KNone \/ cleanup_thread_ p = KEnd ->
      proc_step PMain p (next (p <| cleanup_thread_ := KNone |>))
  | proc_notify p :
      instr p = Some INotify ->
      proc_step PMain p (next (p <| waiter := match waiter p with TBlocked => TTest | t => t end |>))
  (* the threads of the servers: a call of the handler that broadcasts returns when no client stalls *)
  | proc_syslog a s s' p :
      syslog_server_ p = Some s -> a <> AMain -> step config inet_pton inet_ntop (call_returns p) a s s' ->
      proc_step (PSyslog a) p (set_syslog s' p)
  | proc_web a w w' p :
      web_server_ p = Some w -> a <> WMain -> web_move config inet_pton a w w' -> proc_step (PWeb a) p (set_web w' p)
  (* the cleanup thread *)
  | proc_cleanup p :
      cleanup_thread_ p <> KNone -> cleanup_thread_ p <> KEnd -> (cleanup_thread_ p = KSend -> ~ blocked p) ->
      proc_step PCleanup p (p <| cleanup_thread_ := cleanup_next (app_running p) (cleanup_thread_ p) |>)
  (* a thread in [wait] *)
  | proc_wait_call p : waiter p = TOut -> proc_step PWaiter p (p <| waiter := TTest |>)
  | proc_wait_test p :
      waiter p = TTest -> proc_step PWaiter p (p <| waiter := if app_running p then TWait else TDone |>)
  | proc_wait_block p : waiter p = TWait -> proc_step PWaiter p (p <| waiter := TBlocked |>)
  (* the world *)
  | proc_wake p : waiter p = TBlocked -> proc_step POutside p (p <| waiter := TTest |>)  (* spurious *)
  | proc_signal p : proc_step POutside p (p <| stop_requested := true |>)
  | proc_stall fds p : proc_step POutside p (p <| stalled := fds |>).

Definition proc_any_step (p p' : Process) : Prop := exists a, proc_step a p p'.

Definition proc_reachable (p : Process) : Prop := rtc proc_any_step new_Process p.

End Lifecycle.
