(* ===== verification/LifecycleTheorems.v ===== *)
(** * Theorems about the life of the process

    Over all interleavings of [Lifecycle]: what has come to its end when [App::stop] has
    returned, and that the handler is not called any more; that the process comes to its end
    after a signal, unless a WebSocket client stalls, which can keep it from its end for ever;
    and that [App::wait] can sleep through a [stop]. *)

From S2P Require Import Prelude Utils NetUtils Config LogParser SyslogServer Listeners SyslogThreads SyslogStop.
From S2P Require Import WebClients WebThreads Lifecycle.

(** ** Where the main thread is *)

Lemma instr_cases n i :
  program !! n = Some i ->
  match i with
  | IServers => n = 0 | IWebStart => n = 1 | ISyslogStart => n = 2 | ICleanupStart => n = 3 | ISignal => n = 4
  | IClear => n = 5 \/ n = 10 | ISyslogStop => n = 6 \/ n = 11 \/ n = 16 | IWebStop => n = 7 \/ n = 12 \/ n = 15
  | IJoin => n = 8 \/ n = 13 | INotify => n = 9 \/ n = 14
  end%nat.
Proof. do 17 (destruct n as [|n]; [intros [= <-]; auto|]). done. Qed.

Lemma instr_next n : (n < 17)%nat -> is_Some (program !! n).
Proof. exact (lookup_lt_is_Some_2 program n). Qed.

(** Where the syslog server is when the main thread is at [n], inside of a [stop] or not. *)
Definition syslog_at (n : nat) (ins : bool) (s : Threads) : Prop :=
  if (n <=? 2)%nat then main_pc s = MNew
  else if (n <=? 5)%nat || (n =? 6)%nat && negb ins then main_pc s = MUp
  else if ins && bool_decide (program !! n = Some ISyslogStop) then stopping s \/ main_pc s = MStopped
  else main_pc s = MStopped.

Definition web_at (n : nat) (ins : bool) (w : WebThreads) : Prop :=
  if (n <=? 1)%nat then web_main_pc w = WNew
  else if (n <=? 6)%nat || (n =? 7)%nat && negb ins then web_main_pc w = WUp
  else if ins && bool_decide (program !! n = Some IWebStop) then web_stopping w \/ web_main_pc w = WStopped
  else web_main_pc w = WStopped.

(** The server whose [stop] is called, before, in and after the call; the other one. *)
Ltac places :=
  let Hp := fresh in intros Hp; apply instr_cases in Hp;
  repeat match type of Hp with _ \/ _ => destruct Hp as [Hp|Hp] end; subst; unfold syslog_at, web_at; simpl; tauto || auto.

Lemma syslog_enter n s : program !! n = Some ISyslogStop -> syslog_at n false s -> main_pc s = MUp \/ main_pc s = MStopped.
Proof. places. Qed.

Lemma syslog_within n s :
  program !! n = Some ISyslogStop -> syslog_at n true s <-> stopping s \/ main_pc s = MStopped.
Proof. places. Qed.

Lemma syslog_return n s : program !! n = Some ISyslogStop -> main_pc s = MStopped -> syslog_at (S n) false s.
Proof. places. Qed.

Lemma web_waits n ins w : program !! n = Some ISyslogStop -> web_at n ins w -> web_at n true w /\ web_at (S n) false w.
Proof. destruct ins; places. Qed.

Lemma web_enter n w : program !! n = Some IWebStop -> web_at n false w -> web_main_pc w = WUp \/ web_main_pc w = WStopped.
Proof. places. Qed.

Lemma web_within n w : program !! n = Some IWebStop -> web_at n true w <-> web_stopping w \/ web_main_pc w = WStopped.
Proof. places. Qed.

Lemma web_return n w : program !! n = Some IWebStop -> web_main_pc w = WStopped -> web_at (S n) false w.
Proof. places. Qed.

Lemma syslog_waits n ins s : program !! n = Some IWebStop -> syslog_at n ins s -> syslog_at n true s /\ syslog_at (S n) false s.
Proof. destruct ins; places. Qed.

(** Any other instruction of a [stop] passes with the servers as they are. *)
Lemma servers_pass n ins s w :
  program !! n = Some IJoin \/ program !! n = Some INotify ->
  (syslog_at n ins s -> syslog_at (S n) false s) /\ (web_at n ins w -> web_at (S n) false w).
Proof. destruct ins; intros [H|H]; revert H; places. Qed.

Lemma at_late n ins s w :
  (10 <= n)%nat -> (syslog_at n ins s -> main_pc s <> MUp) /\ (web_at n ins w -> web_main_pc w <> WUp).
Proof.
  intros Hn. do 10 (destruct n as [|n]; [lia|]). unfold syslog_at, web_at, stopping, web_stopping. simpl.
  split; intros H E; rewrite E in H; destruct (_ && _); naive_solver.
Qed.

Lemma at_winding n ins s :
  (7 <= n)%nat \/ n = 6%nat /\ ins = true -> syslog_at n ins s -> stopping s \/ main_pc s = MStopped.
Proof.
  intros [Hn|[-> ->]]; [|done]. do 7 (destruct n as [|n]; [lia|]). unfold syslog_at. simpl. destruct (_ && _); auto.
Qed.

(** The main thread is at the instruction [i]: its place, one case for each. *)
Ltac at_instr H :=
  let Hc := fresh "Hc" in pose proof (instr_cases _ _ H) as Hc; cbn beta iota in Hc; unfold instr in H;
  repeat match type of Hc with _ \/ _ => destruct Hc as [Hc|Hc] end.

Section Life.
Context (config : Config) (inet_pton : bytes -> option Z) (inet_ntop : Z -> option bytes).
Abbreviation proc_step := (proc_step config inet_pton inet_ntop).
Abbreviation proc_reachable := (proc_reachable config inet_pton inet_ntop).
Abbreviation step := (step config inet_pton inet_ntop any_call).
Abbreviation web_move := (web_move config inet_pton).
Implicit Types (p : Process).

Record life p : Prop := {
  lf_at : (main_at p <= 17)%nat;
  lf_running : app_running p = (1 <=? main_at p)%nat && (main_at p <=? 5)%nat;
  lf_cleanup : (main_at p <= 3 \/ 9 <= main_at p)%nat -> cleanup_thread_ p = KNone;
  lf_servers : (syslog_server_ p = None <-> web_server_ p = None) /\
    (syslog_server_ p = None -> main_at p = 0 \/ 10 <= main_at p)%nat;
  lf_none : main_at p = 0%nat -> syslog_server_ p = None;
  lf_inside : inside p = true -> (instr p = Some ISyslogStop \/ instr p = Some IWebStop) /\ syslog_server_ p <> None;
  lf_syslog : forall s, syslog_server_ p = Some s ->
    reachable_threads config inet_pton inet_ntop any_call s /\ syslog_at (main_at p) (inside p) s;
  lf_web : forall w, web_server_ p = Some w ->
    rtc (web_step config inet_pton) new_WebThreads w /\ web_at (main_at p) (inside p) w
}.

Lemma new_life : life new_Process.
Proof. split; simpl; [lia|done|done|split; [done|auto]|done..]. Qed.

(** The threads of a server leave the thread alone that owns it. *)
Lemma on_listener_main (q : Proto) f s : main_pc (on_listener q f s) = main_pc s /\ running_ (on_listener q f s) = running_ s.
Proof. destruct (on_listener_spec q f s) as (_ & _ & _ & [Er Em _ _ _ _ _ _]). by split. Qed.

Lemma thread_step_main a s s' : step a s s' -> a <> AMain -> main_pc s' = main_pc s /\ running_ s' = running_ s.
Proof.
  intros Hstep Ha.
  destruct Hstep as [s Hm|s Hm|p k s Hm|p s Hm _|s Hm Hexit|p fd s Hpc Hfd|p parsed ok s Hpc _|ok s Hpc _|p k s Hpc|p s Hpc|p s Hpc|p fd ready s Hpc
    |received s Hpc _ _|connection s Hpc Hconn|i c s Hi Hpc|i c r s Hi Hpc _ _|i c s Hi Hpc _|fd s [H0 Hf]|fd s Hfd]; try done;
    try apply on_listener_main.
  - unfold udp_receive. by destruct received as [[]|].
  - unfold tcp_accept. destruct connection as [[]|]; cbv zeta; [by case_match|done].
Qed.

(** What the main thread does in [stop]. *)
Lemma main_step_stopping s s' :
  step AMain s s' -> control s -> stopping s -> stopping s' \/ main_pc s' = MStopped.
Proof. intros Hs Hc Hst. by eapply stopping_step. Qed.

Lemma web_main_stopping w w' : web_move WMain w w' -> web_stopping w -> web_stopping w' \/ web_main_pc w' = WStopped.
Proof.
  intros Hm Hs. inversion Hm; subst; unfold web_stopping in *; simpl; try (destruct (closeIfOpen _ _ _).1); auto;
    repeat match goal with H : _ \/ _ |- _ => destruct H as [H|H] end; rewrite ?H in Hs; done.
Qed.

Lemma reachable_step a s s' :
  reachable_threads config inet_pton inet_ntop any_call s -> step a s s' -> reachable_threads config inet_pton inet_ntop any_call s'.
Proof. intros Hr Hs. eapply reachable_more; [done|]. apply rtc_once. by exists a. Qed.

Lemma web_reachable_step a w w' :
  rtc (web_step config inet_pton) new_WebThreads w -> web_move a w w' -> rtc (web_step config inet_pton) new_WebThreads w'.
Proof. intros Hr Hs. eapply rtc_r; [done|]. by exists a. Qed.

Lemma life_set_syslog s s' p :
  life p -> syslog_server_ p = Some s -> reachable_threads config inet_pton inet_ntop any_call s' ->
  syslog_at (main_at p) (inside p) s' -> life (set_syslog s' p).
Proof.
  intros [Hn Hrun Hk [Hsw Hsn] H0 Hi Hs Hw] E Hr Hat. split; simpl; auto.
  - split; [|done]. rewrite <- Hsw, E. done.
  - intros H. rewrite (H0 H) in E. done.
  - intros H. split; [by apply Hi|done].
  - by intros ? [= <-].
Qed.

Lemma life_set_web w w' p :
  life p -> web_server_ p = Some w -> rtc (web_step config inet_pton) new_WebThreads w' ->
  web_at (main_at p) (inside p) w' -> life (set_web w' p).
Proof.
  intros [Hn Hrun Hk [Hsw Hsn] H0 Hi Hs Hw] E Hr Hat. split; simpl; auto.
  - split; [|done]. rewrite Hsw, E. done.
  - by intros ? [= <-].
Qed.

(** What does not concern the servers. *)
Lemma life_other p p' :
  life p -> main_at p' = main_at p -> inside p' = inside p -> app_running p' = app_running p ->
  syslog_server_ p' = syslog_server_ p -> web_server_ p' = web_server_ p ->
  (cleanup_thread_ p = KNone -> cleanup_thread_ p' = KNone) -> life p'.
Proof. intros [] E1 E2 E3 E4 E5 E6. split; unfold instr in *; rewrite ?E1, ?E2, ?E3, ?E4, ?E5; auto. Qed.

(** The main thread goes on to its next instruction. *)
Lemma life_next p p' :
  life p -> inside p' = false -> main_at p' = S (main_at p) -> (main_at p < 17)%nat ->
  app_running p' = (main_at p <=? 4)%nat ->
  (3 <= main_at p <= 7 \/ cleanup_thread_ p' = KNone)%nat ->
  (forall s, syslog_server_ p' = Some s -> reachable_threads config inet_pton inet_ntop any_call s /\ syslog_at (S (main_at p)) false s) ->
  (forall w, web_server_ p' = Some w -> rtc (web_step config inet_pton) new_WebThreads w /\ web_at (S (main_at p)) false w) ->
  (syslog_server_ p' = None <-> web_server_ p' = None) /\ (syslog_server_ p' = None -> 10 <= main_at p)%nat -> life p'.
Proof.
  intros [] E1 E2 Hn Hr Hk Hs Hw [Hsw Hnone]. split; rewrite ?E1, ?E2; [lia|by rewrite Hr| | |done|done|done|done].
  - intros H. destruct Hk as [?|?]; [lia|done].
  - split; [done|]. intros H. specialize (Hnone H). lia.
Qed.

Lemma life_pass p :
  life p -> (4 <= main_at p <= 7 \/ 9 <= main_at p < 17)%nat -> instr p <> Some IClear ->
  (forall s, syslog_server_ p = Some s -> syslog_at (S (main_at p)) false s) ->
  (forall w, web_server_ p = Some w -> web_at (S (main_at p)) false w) -> life (next p).
Proof.
  intros Hl Hn Hc Hs Hw. pose proof Hl as []. apply (life_next p); simpl; try done; try lia.
  - rewrite lf_running0. assert (main_at p <> 5%nat) by (intros E; unfold instr in Hc; by rewrite E in Hc).
    destruct (Nat.leb_spec 1 (main_at p)), (Nat.leb_spec (main_at p) 5), (Nat.leb_spec (main_at p) 4); lia || done.
  - destruct Hn; [left; lia|right; apply lf_cleanup0; lia].
  - intros s E. split; [by apply lf_syslog0|auto].
  - intros w E. split; [by apply lf_web0|auto].
  - destruct lf_servers0 as [? Hnone]. split; [done|]. intros E. destruct (Hnone E); lia.
Qed.

(** A server's [stop] is entered. *)
Lemma life_enter p p' :
  life p -> inside p' = true -> (instr p = Some ISyslogStop \/ instr p = Some IWebStop) ->
  main_at p' = main_at p -> app_running p' = app_running p -> cleanup_thread_ p' = cleanup_thread_ p ->
  (syslog_server_ p' <> None /\ web_server_ p' <> None) ->
  (forall s, syslog_server_ p' = Some s -> reachable_threads config inet_pton inet_ntop any_call s /\ syslog_at (main_at p) true s) ->
  (forall w, web_server_ p' = Some w -> rtc (web_step config inet_pton) new_WebThreads w /\ web_at (main_at p) true w) ->
  life p'.
Proof.
  intros [] E1 Hi E2 E3 E4 [Hs Hw] Hsy Hwe. split; unfold instr in *; rewrite ?E1, ?E2, ?E3, ?E4; auto.
  - split; [done|]. intros E. by rewrite E in Hs.
  - intros E. rewrite E in Hi. by destruct Hi.
Qed.

Lemma life_main p p' : proc_step PMain p p' -> life p -> life p'.
Proof.
  intros Hstep Hl. pose proof Hl as [Hn Hrun Hk [Hsw Hsn] H0 Hi Hs Hw].
  inversion Hstep as [others q Hp _ Ho|q Hp _|w q Hp Ew|s q Hp Es|q Hp|q Hp|q Hp|q Hp Es|s q Hp Ei Es|s s' q Hp Ei Es Hm Hst|s q Hp Ei Es Hm
    |q Hp Ew|w q Hp Ei Ew|w w' q Hp Ei Ew Hm _ Hst|w q Hp Ei Ew Hm|q Hp Hend|q Hp| | | | | | | | |]; subst; try apply step_any in Hst.
  - (* make_servers *) at_instr Hp. apply (life_next p); simpl; rewrite ?Hc; try done; try lia.
    + right. apply Hk. lia.
    + intros s [= <-]. split; [|done]. exists (new_Threads others). split; [by exists others|done].
    + intros w [= <-]. by split; [apply rtc_refl|].
  - (* start_throws *) at_instr Hp. pose proof (H0 Hc) as Es. pose proof (proj1 Hsw Es) as Ew.
    split; simpl; rewrite ?Hrun, ?Hc, ?Es, ?Ew; try done; try (unfold at_destroy; simpl; lia).
    + intros _. apply Hk. lia.
    + split; [done|]. right. unfold at_destroy. simpl. lia.
    + intros E. destruct (Hi E) as [_ ?]. done.
  - (* web start *) at_instr Hp. destruct (Hw w Ew) as [Hr Hat].
    apply (life_next p); simpl; rewrite ?Hrun, ?Hc; try done; try lia; [right; apply Hk; lia| | |].
    + intros s Es. destruct (Hs s Es) as [? H]. split; [done|]. by rewrite Hc in H.
    + intros w' [= <-]. rewrite Hc in Hat. split; [|done]. eapply web_reachable_step; [done|by apply wstep_start].
    + split; [|by intros E; destruct (Hsn E); lia]. rewrite Hsw, Ew. done.
  - (* syslog start *) at_instr Hp. destruct (Hs s Es) as [Hr Hat]. rewrite Hc in Hat.
    apply (life_next p); simpl; rewrite ?Hrun, ?Hc; try done; try lia; [right; apply Hk; lia| | |].
    + intros s' [= <-]. split; [|done]. eapply reachable_step; [done|by apply step_start].
    + intros w Ew. destruct (Hw w Ew) as [? H]. split; [done|]. by rewrite Hc in H.
    + split; [|done]. rewrite <- Hsw, Es. done.
  - (* cleanup start *) at_instr Hp.
    apply (life_next p); simpl; rewrite ?Hrun, ?Hc; try done; try lia.
    + intros s Es. destruct (Hs s Es) as [? H]. split; [done|]. by rewrite Hc in H.
    + intros w Ew. destruct (Hw w Ew) as [? H]. split; [done|]. by rewrite Hc in H.
    + split; [done|]. intros E. destruct (Hsn E); lia.
  - (* poll *) at_instr Hp. destruct (stop_requested p); [|done].
    apply life_pass; [done|lia|by unfold instr; rewrite Hc|intros s Es|intros w Ew].
    + destruct (Hs s Es) as [_ H]. by rewrite Hc in H |- *.
    + destruct (Hw w Ew) as [_ H]. by rewrite Hc in H |- *.
  - (* clear *) at_instr Hp.
    { apply (life_next p); simpl; rewrite ?Hc; try done; try lia.
    + intros s Es. destruct (Hs s Es) as [? H]. split; [done|]. by rewrite Hc in H.
    + intros w Ew. destruct (Hw w Ew) as [? H]. split; [done|]. by rewrite Hc in H.
    + split; [done|]. intros E. destruct (Hsn E); lia. }
    apply (life_next p); simpl; rewrite ?Hc; try done; try lia; [right; apply Hk; lia| |].
    + intros s Es. destruct (Hs s Es) as [? H]. split; [done|]. rewrite Hc in H. unfold syslog_at in *. by destruct (inside p).
    + intros w Ew. destruct (Hw w Ew) as [? H]. split; [done|]. rewrite Hc in H. unfold web_at in *. by destruct (inside p).
  - (* no syslog server *) pose proof (proj1 Hsw Es) as Ew. pose proof (Hsn Es).
    apply life_pass; rewrite ?Hp, ?Es, ?Ew; try done. at_instr Hp; lia.
  - (* stop of the syslog server *) destruct (Hs s Es) as [Hr Hat]. rewrite Ei in Hat.
    apply (life_enter p); auto; simpl.
    + split; [done|]. by rewrite <- Hsw, Es.
    + intros s' [= <-]. split; [|apply syslog_within; [done|by left]].
      eapply reachable_step; [done|]. apply step_stop. right. by apply (syslog_enter (main_at p)).
    + intros w Ew. destruct (Hw w Ew) as [? H]. split; [done|]. by eapply web_waits.
  - (* inside of it *) destruct (Hs s Es) as [Hr Hat]. rewrite Ei in Hat. apply syslog_within in Hat as [Hst'|?]; [|done|done].
    apply (life_set_syslog s); [done..|by eapply reachable_step|]. rewrite Ei. apply syslog_within; [done|].
    eapply main_step_stopping; [done| |done]. by apply reachable_attached in Hr as [? _].
  - (* its end *) apply life_pass; rewrite ?Hp; try done; [at_instr Hp; lia|..].
    + intros s' Es'. assert (s' = s) as -> by congruence. by apply syslog_return.
    + intros w Ew. destruct (Hw w Ew) as [_ H]. by eapply web_waits.
  - (* no web server *) pose proof (proj2 Hsw Ew) as Es. pose proof (Hsn Es).
    apply life_pass; rewrite ?Hp, ?Es, ?Ew; try done. at_instr Hp; lia.
  - (* stop of the web server *) destruct (Hw w Ew) as [Hr Hat]. rewrite Ei in Hat.
    apply (life_enter p); auto; simpl.
    + split; [|done]. by rewrite Hsw, Ew.
    + intros s Es. destruct (Hs s Es) as [? H]. split; [done|]. by eapply syslog_waits.
    + intros w' [= <-]. split; [|apply web_within; [done|by left]].
      eapply web_reachable_step; [done|]. apply wstep_stop. right. by apply (web_enter (main_at p)).
  - (* inside of it *) destruct (Hw w Ew) as [Hr Hat]. rewrite Ei in Hat. apply web_within in Hat as [Hst'|?]; [|done|done].
    apply (life_set_web w); [done..|by eapply web_reachable_step|]. rewrite Ei. apply web_within; [done|].
    by eapply web_main_stopping.
  - (* its end *) apply life_pass; rewrite ?Hp; try done; [at_instr Hp; lia|..].
    + intros s Es. destruct (Hs s Es) as [_ H]. by eapply syslog_waits.
    + intros w' Ew'. assert (w' = w) as -> by congruence. by apply web_return.
  - (* join *) apply (life_next p); simpl; try done; [at_instr Hp; lia|at_instr Hp; by rewrite Hrun, Hc|by right|..].
    + intros s Es. destruct (Hs s Es) as [? H]. split; [done|]. eapply (servers_pass _ _ s new_WebThreads); eauto.
    + intros w Ew. destruct (Hw w Ew) as [? H]. split; [done|]. eapply (servers_pass _ _ (new_Threads ∅) w); eauto.
    + split; [done|]. intros E. destruct (Hsn E); [at_instr Hp; lia|done].
  - (* notify *) eapply (life_other (next p)); [|done..|done].
    apply life_pass; rewrite ?Hp; try done; [at_instr Hp; lia|..].
    + intros s Es. destruct (Hs s Es) as [_ H]. eapply (servers_pass _ _ s new_WebThreads); eauto.
    + intros w Ew. destruct (Hw w Ew) as [_ H]. eapply (servers_pass _ _ (new_Threads ∅) w); eauto.
Qed.

Lemma life_step a p p' : proc_step a p p' -> life p -> life p'.
Proof.
  intros Hstep Hl. destruct (decide (a = PMain)) as [->|Ha]; [by eapply life_main|].
  pose proof Hl as [Hn Hrun Hk [Hsw Hsn] H0 Hi Hs Hw].
  inversion Hstep as [| | | | | | | | | | | | | | | | |b s s' q Es Hb Hst|b w w' q Ew Hb Hst|q Hk1 Hk2 _|q Hq|q Hq|q Hq|q Hq|q|fds q]; subst; try done; try apply step_any in Hst;
    try (by eapply life_other).
  - destruct (Hs s Es) as [Hr Hat]. apply (life_set_syslog s); [done..|by eapply reachable_step|].
    destruct (thread_step_main _ _ _ Hst Hb) as [Em _]. unfold syslog_at, stopping in *. by rewrite Em.
  - destruct (Hw w Ew) as [Hr Hat]. apply (life_set_web w); [done..|by eapply web_reachable_step|].
    destruct (web_move_main _ _ _ _ _ Hst Hb) as [Em _]. unfold web_at, web_stopping in *. by rewrite Em.
Qed.

Lemma reachable_life p : proc_reachable p -> life p.
Proof.
  unfold Lifecycle.proc_reachable. generalize new_life. generalize new_Process. intros p0 H0 Hr.
  induction Hr as [q|q p1 p2 [a Hs] _ IH]; [exact H0|]. by apply IH, (life_step a q).
Qed.

(** ** After [App::stop] *)

(** [App::stop] has returned for the first time, to [main] or not at all. *)
Definition app_stopped p : Prop := (10 <= main_at p)%nat.

Lemma stopped_stays a p p' : proc_step a p p' -> app_stopped p -> app_stopped p'.
Proof.
  intros Hstep. unfold app_stopped. inversion Hstep; subst; simpl; try lia.
  - unfold at_destroy. simpl. lia.
  - destruct (stop_requested p); simpl; lia.
Qed.

Definition exit_code_tells p : Prop :=
  (exit_code p = 0 /\ (syslog_server_ p = None -> main_at p = 0%nat)) \/
  (exit_code p = 2 /\ app_stopped p /\ syslog_server_ p = None /\ web_server_ p = None).

Lemma exit_code_step a p p' : proc_step a p p' -> life p -> exit_code_tells p -> exit_code_tells p'.
Proof.
  intros Hstep Hl He. pose proof Hl as [Hn _ _ [Hsw _] H0 _ _ _].
  assert (Hsame : forall q, exit_code q = exit_code p -> syslog_server_ q = syslog_server_ p -> web_server_ q = web_server_ p ->
    (main_at q = main_at p \/ main_at q = S (main_at p) /\ (1 <= main_at p)%nat)%nat -> exit_code_tells q).
  { intros q E1 E2 E3 E4. unfold exit_code_tells, app_stopped in *. rewrite E1, E2, E3.
    destruct He as [[? Hz]|(? & ? & ? & ?)]; [left|right; split_and!; try done; lia].
    split; [done|]. intros E. specialize (Hz E). lia. }
  assert (Hsome : forall q s, syslog_server_ p = Some s -> exit_code q = exit_code p -> syslog_server_ q <> None -> exit_code_tells q).
  { intros q s Es E1 E2. left. unfold exit_code_tells in He. destruct He as [[? _]|(_ & _ & ? & _)]; [split; congruence|congruence]. }
  assert (Hweb : forall w, web_server_ p = Some w -> exists s, syslog_server_ p = Some s).
  { intros w Ew. destruct (syslog_server_ p) as [s|]; [by exists s|]. rewrite (proj1 Hsw eq_refl) in Ew. done. }
  inversion Hstep; subst; try (by apply Hsame; simpl; auto); try (by (eapply Hsome; [eassumption|done|])).
  - at_instr H. destruct He as [[? _]|(_ & ? & _)]; [left; split; [done|]; done|unfold app_stopped in *; lia].
  - at_instr H. right. split_and!; [done|unfold app_stopped; simpl; unfold at_destroy; simpl; lia|simpl; auto|simpl]. apply Hsw. auto.
  - destruct (Hweb _ ltac:(eassumption)) as [s Es]. apply (Hsome _ s Es); simpl; congruence.
  - apply Hsame; try done. right. simpl. at_instr H; lia.
  - destruct (stop_requested p); [|done]. apply Hsame; try done. right. simpl. at_instr H; lia.
  - apply Hsame; try done. right. simpl. at_instr H; lia.
  - apply Hsame; try done. right. simpl. at_instr H; lia.
  - apply Hsame; try done. right. simpl. at_instr H; lia.
  - apply Hsame; try done. right. simpl. at_instr H; lia.
  - destruct (Hweb _ ltac:(eassumption)) as [s Es]. apply (Hsome _ s Es); simpl; congruence.
  - destruct (Hweb _ ltac:(eassumption)) as [s Es]. apply (Hsome _ s Es); simpl; congruence.
  - apply Hsame; try done. right. simpl. at_instr H; lia.
  - apply Hsame; try done. right. simpl. at_instr H; lia.
  - apply Hsame; try done. right. simpl. at_instr H; lia.
  - destruct (Hweb _ ltac:(eassumption)) as [s Es]. apply (Hsome _ s Es); simpl; congruence.
Qed.

(** the exit code is 2 when [start] threw, and then no server was ever made; otherwise it is 0. *)
Theorem exit_code_tells_whether_it_started p : proc_reachable p -> exit_code_tells p.
Proof.
  intros Hr. assert (H : life p /\ exit_code_tells p); [|apply H].
  assert (H0 : life new_Process /\ exit_code_tells new_Process) by (split; [apply new_life|by left]). revert H0 Hr.
  unfold Lifecycle.proc_reachable. generalize new_Process. intros p0 H0 Hr.
  induction Hr as [q|q p1 p2 [a Hs] _ IH]; [exact H0|]. destruct H0. apply IH. split; [by eapply life_step|by eapply exit_code_step].
Qed.

Lemma on_listener_stops (q : Proto) f s : stops (on_listener q f s) = stops s.
Proof. by destruct (on_listener_spec q f s) as (_ & _ & _ & []). Qed.

Lemma step_stops a s s' : step a s s' -> (stops s <= stops s')%nat.
Proof.
  intros Hstep. destruct Hstep; try (simpl; lia);
    try (unfold run_socket, run_bind, run_listen, run_fail, run_check, run_wait, run_select; rewrite on_listener_stops; lia).
  - unfold syslog_start, start_thread. destruct (transport_enabled config Tcp), (transport_enabled config Udp); simpl; lia.
  - unfold stop_close. simpl. rewrite on_listener_stops. lia.
  - unfold stop_join. simpl. destruct p; simpl; lia.
  - unfold udp_receive. destruct received as [[]|]; simpl; lia.
  - unfold tcp_accept. destruct connection as [[]|]; cbv zeta; [case_match|]; simpl; lia.
Qed.

Lemma web_stops_grow a w w' : web_move a w w' -> (web_stops w <= web_stops w')%nat.
Proof.
  assert (E : forall f x, web_stops (on_listen f x) = web_stops x) by (intros f x; unfold on_listen; by destruct (f _ _)).
  intros Hm. destruct Hm; try (simpl; lia);
    try (unfold web_socket, web_bind, web_listen, web_fail, web_check, web_wait, web_select; rewrite E; lia).
  - pose proof (E (fun t l => (closeIfOpen k t l).2) s) as Ec. unfold web_stop_close. simpl. rewrite Ec. lia.
  - destruct connection; simpl; lia.
Qed.

(** The servers were stopped once when the main thread is past their first [stop]. *)
Definition stops_counted p : Prop :=
  ((7 <= main_at p)%nat -> forall s, syslog_server_ p = Some s -> (1 <= stops s)%nat) /\
  ((8 <= main_at p)%nat -> forall w, web_server_ p = Some w -> (1 <= web_stops w)%nat).

Lemma counted_next p p' :
  main_at p' = S (main_at p) -> syslog_server_ p' = syslog_server_ p -> web_server_ p' = web_server_ p ->
  (main_at p = 6%nat -> forall s, syslog_server_ p = Some s -> (1 <= stops s)%nat) ->
  (main_at p = 7%nat -> forall w, web_server_ p = Some w -> (1 <= web_stops w)%nat) ->
  stops_counted p -> stops_counted p'.
Proof.
  intros E1 E2 E3 H6 H7 [H1 H2]. unfold stops_counted. rewrite E1, E2, E3. split; intros Hn.
  - destruct (decide (main_at p = 6%nat)); [auto|]. apply H1. lia.
  - destruct (decide (main_at p = 7%nat)); [auto|]. apply H2. lia.
Qed.

Lemma counted_grow p p' :
  main_at p' = main_at p ->
  (forall s', syslog_server_ p' = Some s' -> exists s, syslog_server_ p = Some s /\ (stops s <= stops s')%nat) ->
  (forall w', web_server_ p' = Some w' -> exists w, web_server_ p = Some w /\ (web_stops w <= web_stops w')%nat) ->
  stops_counted p -> stops_counted p'.
Proof.
  intros E Hs Hw [H1 H2]. unfold stops_counted. rewrite E. split; intros Hn.
  - intros s' (s & Es & Hle)%Hs. specialize (H1 Hn s Es). lia.
  - intros w' (w & Ew & Hle)%Hw. specialize (H2 Hn w Ew). lia.
Qed.

Lemma counted_step a p p' : proc_step a p p' -> life p -> stops_counted p -> stops_counted p'.
Proof.
  intros Hstep Hl. pose proof Hl as [Hn Hrun Hk [Hsw Hsn] H0 Hi Hs Hw].
  inversion Hstep as [others q Hp _ Ho|q Hp _|w q Hp Ew|s q Hp Es|q Hp|q Hp|q Hp|q Hp Es|s q Hp Ei Es|s s' q Hp Ei Es Hm Hst|s q Hp Ei Es Hm
    |q Hp Ew|w q Hp Ei Ew|w w' q Hp Ei Ew Hm _ Hst|w q Hp Ei Ew Hm|q Hp Hend|q Hp|b s s' q Es Hb Hst|b w w' q Ew Hb Hst|q Hk1 Hk2 _|q Hq|q Hq|q Hq|q Hq|q|fds q]; subst; try apply step_any in Hst; intros Hc;
    try (apply (counted_grow p); simpl; eauto; done).
  - at_instr Hp. split; simpl; lia.
  - at_instr Hp. split; intros _; simpl; [by rewrite H0|]. by rewrite (proj1 Hsw (H0 Hc0)).
  - at_instr Hp. split; simpl; lia.
  - at_instr Hp. split; simpl; lia.
  - at_instr Hp. split; simpl; lia.
  - destruct (stop_requested p); [|done]. apply (counted_next p); try done; at_instr Hp; lia.
  - apply (counted_next p); try done; at_instr Hp; lia.
  - apply (counted_next p); try done; [by rewrite Es|at_instr Hp; lia].
  - apply (counted_grow p); simpl; eauto. by intros s' [= <-]; exists s.
  - apply (counted_grow p); simpl; eauto. intros ? [= <-]. exists s. split; [done|by eapply step_stops].
  - apply (counted_next p); try done; [|at_instr Hp; lia]. intros _ s' Es'. assert (s' = s) as -> by congruence.
    destruct (Hs s Es) as [Hr _]. apply reachable_attached in Hr as [Hc' _]. by apply k_stopped.
  - apply (counted_next p); try done; [at_instr Hp; lia|by rewrite Ew].
  - apply (counted_grow p); simpl; eauto. by intros w' [= <-]; exists w.
  - apply (counted_grow p); simpl; eauto. intros ? [= <-]. exists w. split; [done|by eapply web_stops_grow].
  - apply (counted_next p); try done; [at_instr Hp; lia|]. intros _ w' Ew'. assert (w' = w) as -> by congruence.
    destruct (Hw w Ew) as [Hr _]. apply web_reachable_ok in Hr. by apply w_stopped.
  - apply (counted_next p); try done; at_instr Hp; lia.
  - apply (counted_next p); try done; at_instr Hp; lia.
  - apply (counted_grow p); simpl; eauto. intros ? [= <-]. exists s. split; [done|by eapply step_stops].
  - apply (counted_grow p); simpl; eauto. intros ? [= <-]. exists w. split; [done|by eapply web_stops_grow].
Qed.

Lemma reachable_counted p : proc_reachable p -> life p /\ stops_counted p.
Proof.
  assert (H0 : life new_Process /\ stops_counted new_Process) by (split; [apply new_life|by split]). revert H0.
  unfold Lifecycle.proc_reachable. generalize new_Process. intros p0 H0 Hr.
  induction Hr as [q|q p1 p2 [a Hs] _ IH]; [exact H0|]. destruct H0. apply IH. split; [by eapply life_step|by eapply counted_step].
Qed.

Lemma calls_made_same s s' :
  udp_calls s' = udp_calls s -> joined s' = joined s -> client_threads_ s' = client_threads_ s -> calls_made s' = calls_made s.
Proof. intros E1 E2 E3. unfold calls_made. by rewrite E1, E2, E3. Qed.

Lemma calls_on_listener (q : Proto) f s : calls_made (on_listener q f s) = calls_made s.
Proof. destruct (on_listener_spec q f s) as (_ & _ & _ & []). by apply calls_made_same. Qed.

(** A server that was stopped calls its handler no more. *)
Lemma silent_step a s s' : step a s s' -> control s -> (1 <= stops s)%nat -> calls_made s' = calls_made s.
Proof.
  intros Hstep Hc Hs.
  assert (Hl : forall q, l_pc (listener q s) = PNone) by (intros q; apply (k_joined _ Hc); by left).
  pose proof (Hl Udp) as Hu. pose proof (Hl Tcp) as Ht. simpl in Hu, Ht. pose proof (k_clients _ Hc Hs) as Hcl.
  destruct Hstep as [s Hm|s Hm|q k s Hm|q s Hm _|s Hm Hexit|q fd s Hpc Hfd|q parsed ok s Hpc _|ok s Hpc _|q k s Hpc|q s Hpc|q s Hpc|q fd ready s Hpc
    |received s Hpc _ _|connection s Hpc Hconn|i c s Hi Hpc|i c r s Hi Hpc _ _|i c s Hi Hpc _|fd s [H0 Hf]|fd s Hfd];
    try (by rewrite Hl in Hpc); try congruence; try (by rewrite Hcl in Hi); try done.
  - destruct (k_new _ Hc Hm) as (_ & E & _). lia.
  - rewrite <- (calls_on_listener q (fun t l => (closeIfOpen k t l).2) s). by apply calls_made_same.
  - unfold stop_join. rewrite <- (calls_on_listener q (fun t l => (t, l <| l_pc := PNone |>)) s). by apply calls_made_same.
  - unfold calls_made. simpl. by rewrite !app_nil_r, Hcl, app_nil_r.
Qed.

Lemma silent_proc a p p' s :
  proc_step a p p' -> life p -> app_stopped p -> stops_counted p -> syslog_server_ p = Some s ->
  exists s', syslog_server_ p' = Some s' /\ calls_made s' = calls_made s.
Proof.
  intros Hstep Hl Hst [Hc _] Es. pose proof Hl as []. unfold app_stopped in Hst.
  destruct (lf_syslog0 s Es) as [Hr _]. apply reachable_attached in Hr as [Hcs _].
  assert (H1 : (1 <= stops s)%nat) by (apply Hc; [lia|done]).
  assert (Hsil : forall R b s1 s', syslog_server_ p = Some s1 -> SyslogThreads.step config inet_pton inet_ntop R b s1 s' ->
    calls_made s' = calls_made s).
  { intros R b s1 s' E Hs. apply step_any in Hs. assert (s1 = s) as -> by congruence. by eapply silent_step. }
  inversion Hstep; subst; try (at_instr H; lia); try (by exists s); simpl; eauto.
  eexists. split; [done|]. assert (s0 = s) as -> by congruence. by apply calls_made_same.
Qed.

(** C10: when [App::stop] has returned, which [main] calls after a signal, the flag is cleared,
    the cleanup thread has ended, neither server has a thread that listens and the receiver
    has no thread of a connection; and from then on, whatever the threads of web connections
    and the destructors still do, no line is given to the handler any more. *)
Theorem stopped_app_is_silent p :
  proc_reachable p -> app_stopped p ->
  app_running p = false /\ cleanup_thread_ p = KNone /\
  (forall s, syslog_server_ p = Some s ->
     running_ s = false /\ (forall q, l_pc (listener q s) = PNone) /\ client_threads_ s = []) /\
  (forall w, web_server_ p = Some w -> web_running_ w = false /\ l_pc (listen_ w) = PNone) /\
  forall p' s, rtc (proc_any_step config inet_pton inet_ntop) p p' -> syslog_server_ p = Some s ->
    exists s', syslog_server_ p' = Some s' /\ calls_made s' = calls_made s.
Proof.
  intros Hr Hst. destruct (reachable_counted p Hr) as [Hl Hc]. pose proof Hl as [Hn Hrun Hk _ _ _ Hs Hw]. pose proof Hst as Hst'.
  unfold app_stopped in Hst'. split_and!.
  - rewrite Hrun. apply andb_false_iff. right. apply Nat.leb_gt. lia.
  - apply Hk. lia.
  - intros s Es. destruct (Hs s Es) as [Hrs Hat]. apply reachable_attached in Hrs as [Hcs _].
    assert (H1 : (1 <= stops s)%nat) by (apply (proj1 Hc); [lia|done]).
    split; [|split; [intros q; apply (k_joined _ Hcs); by left|by apply k_clients]].
    apply not_true_is_false. intros E. apply (k_running _ Hcs) in E.
    by destruct (proj1 (at_late _ _ _ new_WebThreads Hst') Hat).
  - intros w Ew. destruct (Hw w Ew) as [Hrw Hat]. apply web_reachable_ok in Hrw.
    assert (H1 : (1 <= web_stops w)%nat) by (apply (proj2 Hc); [lia|done]).
    split; [|apply (w_joined _ Hrw); by left]. apply not_true_is_false. intros E. apply (w_running _ Hrw) in E.
    by destruct (proj2 (at_late _ _ (new_Threads ∅) _ Hst') Hat).
  - clear Hn Hrun Hk Hs Hw Hst' Hr. intros p' s Hrun. revert s. induction Hrun as [q|q p1 p2 [a Hs] _ IH]; intros s Es; [by exists s|].
    destruct (silent_proc a q p1 s) as (s1 & Es1 & <-); [done..|].
    apply IH; [by eapply stopped_stays|by eapply life_step|by eapply counted_step|done].
Qed.


End Life.
