(* ===== verification/LifecycleStop.v ===== *)
(** * The end of the process

    After a signal the threads come to their end in a bounded number of steps, and none of
    them waits for another for ever, unless a WebSocket client does not read: then a broadcast
    does not return, and with it the thread that made it, and [App::stop].  And [App::wait]
    can sleep through a [stop]. *)

From S2P Require Import Prelude Utils NetUtils Config LogParser SyslogServer Listeners SyslogThreads SyslogStop.
From S2P Require Import WebClients WebThreads Lifecycle LifecycleTheorems.

Section Ending.
Context (config : Config) (inet_pton : bytes -> option Z) (inet_ntop : Z -> option bytes).
Abbreviation proc_step := (proc_step config inet_pton inet_ntop).
Abbreviation proc_any_step := (proc_any_step config inet_pton inet_ntop).
Abbreviation proc_reachable := (proc_reachable config inet_pton inet_ntop).
Abbreviation step := (step config inet_pton inet_ntop any_call).
Abbreviation web_move := (web_move config inet_pton).
Abbreviation life := (life config inet_pton inet_ntop).
Implicit Types (p : Process).

(** From the moment the first [App::stop] has cleared the flag of the receiver. *)
Definition winding_down p : Prop := (7 <= main_at p)%nat \/ main_at p = 6%nat /\ inside p = true.

(** Whose steps count: the main thread, the cleanup thread, the threads of the receiver and,
    once its flag is cleared, the listening thread of the web server. *)
Definition own p (a : ProcActor) : Prop :=
  match a with
  | PMain | PCleanup => True
  | PSyslog a => a <> AWorld
  | PWeb WThread => match web_server_ p with Some w => web_running_ w = false | None => False end
  | PWeb _ | PWaiter | POutside => False
  end.

#[export] Instance own_dec p a : Decision (own p a).
Proof. unfold own. destruct a as [|a|[]| | |]; try apply _. destruct (web_server_ p); apply _. Defined.

Definition cleanup_rank (pc : CleanupPc) : nat :=
  match pc with KNone | KEnd => 0 | KLoop | KBreak => 1 | KFor _ | KSend => 2 | KSleep _ | KRound => 3 end.

Definition main_weight p : nat := 20 * (17 - main_at p) - if inside p then 12 else 0.

Definition syslog_rank p : nat := match syslog_server_ p with Some s => rank s | None => 0 end.

Definition web_part p : nat :=
  match web_server_ p with Some w => if web_running_ w then 0 else web_rank w | None => 0 end.

Definition proc_rank p : nat := main_weight p + syslog_rank p + web_part p + cleanup_rank (cleanup_thread_ p).

(** ** What the servers do meanwhile *)

(** A server that was stopped has no threads. *)
Lemma stopped_threads a s s' : step a s s' -> control s -> main_pc s = MStopped -> a = AMain \/ a = AWorld.
Proof.
  intros Hstep Hc Hm0. pose proof (k_stopped _ Hc Hm0) as Hs.
  assert (Hl : forall q, l_pc (listener q s) = PNone) by (intros q; apply (k_joined _ Hc); by left).
  pose proof (Hl Udp) as Hu. pose proof (Hl Tcp) as Ht. simpl in Hu, Ht. pose proof (k_clients _ Hc Hs) as Hcl.
  destruct Hstep as [s Hm|s Hm|q k s Hm|q s Hm _|s Hm Hexit|q fd s Hpc Hfd|q parsed ok s Hpc _|ok s Hpc _|q k s Hpc|q s Hpc|q s Hpc|q fd ready s Hpc
    |received s Hpc _ _|connection s Hpc Hconn|i c s Hi Hpc|i c r s Hi Hpc _ _|i c s Hi Hpc _|fd s [H0 Hf]|fd s Hfd]; auto;
    try (by rewrite Hl in Hpc); try congruence; by rewrite Hcl in Hi.
Qed.

Lemma late_syslog p s :
  life p -> winding_down p -> syslog_server_ p = Some s -> control s /\ attached config inet_pton s /\ (stopping s \/ main_pc s = MStopped).
Proof.
  intros Hl Hw Es. destruct (lf_syslog _ _ _ _ Hl s Es) as [Hr Hat]. apply reachable_attached in Hr as [Hc Ha].
  split_and!; [done|done|]. by eapply at_winding.
Qed.

Lemma stop_begin_rank s : (rank (stop_begin s) <= rank s + 9)%nat.
Proof. unfold rank. simpl. lia. Qed.

Lemma stopping_not_running s : control s -> stopping s \/ main_pc s = MStopped -> running_ s = false.
Proof.
  intros Hc Hs. apply not_true_is_false. intros E. apply (k_running _ Hc) in E. unfold stopping in Hs. rewrite E in Hs. naive_solver.
Qed.

Lemma web_not_running w : web_ok w -> web_stopping w \/ web_main_pc w = WStopped -> web_running_ w = false.
Proof.
  intros Hc Hs. apply not_true_is_false. intros E. apply (w_running _ Hc) in E. unfold web_stopping in Hs. rewrite E in Hs. naive_solver.
Qed.

(** *** Ranks *)

Lemma weight_next p : (main_at p < 17)%nat -> (main_weight (next p) + 8 <= main_weight p)%nat.
Proof. intros Hn. unfold main_weight. simpl. destruct (inside p); lia. Qed.

Lemma rank_next p p' :
  (main_at p < 17)%nat -> main_at p' = S (main_at p) -> inside p' = false ->
  syslog_server_ p' = syslog_server_ p -> web_server_ p' = web_server_ p ->
  (cleanup_rank (cleanup_thread_ p') <= cleanup_rank (cleanup_thread_ p))%nat -> (proc_rank p' < proc_rank p)%nat.
Proof.
  intros Hn E1 E2 E3 E4 E5. unfold proc_rank, syslog_rank, web_part, main_weight. rewrite E1, E2, E3, E4. destruct (inside p); lia.
Qed.

Lemma rank_main p p' :
  proc_step PMain p p' -> life p -> winding_down p -> (proc_rank p' < proc_rank p)%nat.
Proof.
  intros Hstep Hl Hwd. pose proof Hl as [Hn Hrun Hk [Hsw Hsn] H0 Hi Hs Hw].
  assert (H6 : (6 <= main_at p)%nat) by (unfold winding_down in Hwd; lia).
  inversion Hstep as [others q Hp _ Ho|q Hp _|w q Hp Ew|s q Hp Es|q Hp|q Hp|q Hp|q Hp Es|s q Hp Ei Es|s s' q Hp Ei Es Hm Hst|s q Hp Ei Es Hm
    |q Hp Ew|w q Hp Ei Ew|w w' q Hp Ei Ew Hm _ Hst|w q Hp Ei Ew Hm|q Hp Hend|q Hp| | | | | | | | |]; subst; try apply step_any in Hst;
    try (at_instr Hp; lia); try (apply rank_next; [at_instr Hp; lia|done..]).
  - (* stop of the receiver *) pose proof (stop_begin_rank s). unfold proc_rank, syslog_rank, web_part, main_weight. simpl. rewrite Ei, Es. at_instr Hp; lia.
  - (* inside of it *) destruct (late_syslog p s) as (Hc & _ & [Hst'|?]); [done..| |done].
    pose proof (step_rank config inet_pton inet_ntop any_call AMain s s' Hst Hc Hst' ltac:(done)).
    unfold proc_rank, syslog_rank, web_part, main_weight. simpl. rewrite Es. lia.
  - (* stop of the web server *) pose proof (web_rank_bound (web_stop_begin w)).
    unfold proc_rank, syslog_rank, web_part, main_weight. simpl. rewrite Ei, Ew. destruct (web_running_ w); at_instr Hp; lia.
  - (* inside of it *) destruct (Hw w Ew) as [Hr Hat]. rewrite Ei in Hat. apply web_within in Hat as [Hst'|?]; [|done|done].
    pose proof (web_reachable_ok _ _ _ Hr) as Hok.
    pose proof (web_not_running _ Hok (or_introl Hst')) as Hf. pose proof (web_step_rank _ _ _ _ _ Hst Hok Hf ltac:(done) ltac:(done)).
    assert (Hf' : web_running_ w' = false).
    { apply web_not_running; [by eapply web_move_ok|by eapply web_main_stopping]. }
    unfold proc_rank, syslog_rank, web_part, main_weight. simpl. rewrite Ew, Hf, Hf'. lia.
  - (* join *) apply rank_next; [at_instr Hp; lia|done..|simpl; lia].
Qed.

Lemma winding_step a p p' : proc_step a p p' -> winding_down p -> winding_down p'.
Proof.
  unfold winding_down. intros Hstep Hwd. inversion Hstep as [others q Hp _ Ho|q Hp _|w q Hp Ew|s q Hp Es|q Hp|q Hp|q Hp|q Hp Es|s q Hp Ei Es|s s' q Hp Ei Es Hm Hst|s q Hp Ei Es Hm
    |q Hp Ew|w q Hp Ei Ew|w w' q Hp Ei Ew Hm _ Hst|w q Hp Ei Ew Hm|q Hp Hend|q Hp| | | | | | | | |]; subst; try apply step_any in Hst; simpl; try done; try (at_instr Hp; lia).
Qed.

(** A step that counts brings the end nearer, and no other step puts it off. *)
Lemma rank_step a p p' :
  proc_step a p p' -> life p -> winding_down p ->
  (proc_rank p' <= proc_rank p)%nat /\ (own p a -> proc_rank p' < proc_rank p)%nat.
Proof.
  intros Hstep Hl Hwd. destruct (decide (a = PMain)) as [->|Ha]; [pose proof (rank_main p p' Hstep Hl Hwd); split; [lia|done]|].
  pose proof Hl as [Hn Hrun Hk [Hsw Hsn] H0 Hi Hs Hw].
  inversion Hstep as [| | | | | | | | | | | | | | | | |b s s' q Es Hb Hst|b w w' q Ew Hb Hst|q Hk1 Hk2 _|q Hq|q Hq|q Hq|q Hq|q|fds q]; subst; try done; try apply step_any in Hst.
  - destruct (late_syslog p s) as (Hc & _ & Hst'); [done..|]. unfold proc_rank, syslog_rank, web_part, main_weight. simpl. rewrite Es.
    destruct (decide (b = AWorld)) as [->|Hb'].
    + destruct (rank_world _ _ _ _ _ _ Hst) as [-> _]. by split; [lia|].
    + destruct Hst' as [Hst'|Hm]; [|by destruct (stopped_threads b s s')].
      pose proof (step_rank _ _ _ _ _ _ _ Hst Hc Hst' Hb'). split; lia.
  - destruct (Hw w Ew) as [Hr _]. apply web_reachable_ok in Hr. destruct (web_move_main _ _ _ _ _ Hst Hb) as [_ Er].
    unfold proc_rank, syslog_rank, web_part, main_weight, own. simpl. rewrite Ew, Er. destruct b; [done| |].
    + destruct (web_running_ w) eqn:E; [split; [lia|done]|].
      pose proof (web_step_rank _ _ _ _ _ Hst Hr E ltac:(done) ltac:(done)). split; lia.
    + rewrite (web_connection_rank _ _ _ _ Hst). split; [lia|done].
  - assert (Hf : app_running p = false).
    { rewrite Hrun. apply andb_false_iff. right. apply Nat.leb_gt. unfold winding_down in Hwd. lia. }
    assert (Hlt : (cleanup_rank (cleanup_next (app_running p) (cleanup_thread_ p)) < cleanup_rank (cleanup_thread_ p))%nat).
    { rewrite Hf. destruct (cleanup_thread_ p) as [| |i|i| | | |]; simpl; try lia; try done. rewrite andb_false_r. simpl. lia. }
    unfold proc_rank, syslog_rank, web_part, main_weight. simpl. split; lia.
Qed.

Lemma rank_start p : life p -> winding_down p ->
  (proc_rank p <= 243 + 3 * match syslog_server_ p with Some s => length (client_threads_ s) | None => 0 end)%nat.
Proof.
  intros Hl Hwd. unfold proc_rank.
  assert (main_weight p <= 208)%nat by (unfold main_weight, winding_down in *; destruct (inside p); destruct Hwd as [?|[? ?]]; lia || congruence).
  assert (web_part p <= 11)%nat.
  { unfold web_part. destruct (web_server_ p) as [w|]; [|lia]. pose proof (web_rank_bound w). destruct (web_running_ w); lia. }
  assert (cleanup_rank (cleanup_thread_ p) <= 3)%nat by (destruct (cleanup_thread_ p); simpl; lia).
  unfold syslog_rank. destruct (syslog_server_ p) as [s|]; [|lia]. pose proof (rank_bound s). lia.
Qed.

(** *** Nobody waits for ever *)

Lemma proc_progress p :
  life p -> winding_down p -> (main_at p < 17)%nat -> ~ blocked p -> exists a p', own p a /\ proc_step a p p'.
Proof.
  intros Hl Hwd Hn Hb. pose proof Hl as [_ Hrun Hk _ _ Hi Hs Hw].
  assert (Hmain : forall q, proc_step PMain p q -> exists a p', own p a /\ proc_step a p p') by (intros q Hq; by exists PMain, q).
  destruct (instr_next (main_at p) Hn) as [i Hp]. fold (instr p) in Hp.
  destruct i; try (at_instr Hp; unfold winding_down in Hwd; lia).
  - eapply Hmain. by apply proc_clear.
  - destruct (syslog_server_ p) as [s|] eqn:Es; [|eapply Hmain; by apply proc_no_syslog].
    destruct (inside p) eqn:Ei; [|eapply Hmain; by apply proc_syslog_stop].
    destruct (late_syslog p s) as (Hc & Ha & [Hst|Hm]); [done..| |eapply Hmain; by eapply proc_syslog_stopped].
    assert (Hm : main_pc s <> MStopped) by (intros E; unfold stopping in Hst; by rewrite E in Hst).
    destruct (stopping_progress config inet_pton inet_ntop (call_returns p) s ltac:(by left) Ha Hst) as (a & s' & Hna & Hs').
    destruct (decide (a = AMain)) as [->|Ham]; [eapply Hmain; by eapply proc_in_syslog_stop|].
    exists (PSyslog a), (set_syslog s' p). split; [done|]. eapply proc_syslog; eauto.
  - destruct (web_server_ p) as [w|] eqn:Ew; [|eapply Hmain; by apply proc_no_web].
    destruct (inside p) eqn:Ei; [|eapply Hmain; by apply proc_web_stop].
    destruct (Hw w eq_refl) as [Hr Hat]. apply web_within in Hat as [Hst|Hm]; [|by eapply Hmain, proc_web_stopped|done].
    assert (Hm : web_main_pc w <> WStopped) by (intros E; unfold web_stopping in Hst; by rewrite E in Hst).
    unfold web_stopping in Hst. destruct (web_main_pc w) eqn:Em; try done.
    + eapply Hmain, proc_in_web_stop; eauto; [by rewrite Em|by rewrite Em|by apply wstep_close].
    + destruct (decide (l_pc (listen_ w) = PNone \/ l_pc (listen_ w) = PExit)) as [Hj|Hj].
      * eapply Hmain, proc_in_web_stop; eauto; [by rewrite Em|by rewrite Em|by apply wstep_join].
      * destruct (web_thread_progress config inet_pton w) as [w' Hmv]; [tauto..|].
        exists (PWeb WThread), (set_web w' p). split; [|by eapply proc_web].
        unfold own. rewrite Ew. apply web_not_running; [by eapply web_reachable_ok|]. left. unfold web_stopping. by rewrite Em.
    + destruct (decide (cleanup_thread_ p = KSend)) as [Hc|Hc].
      * exists PCleanup. eexists. split; [done|]. apply proc_cleanup; [by rewrite Hc|by rewrite Hc|done].
      * eapply Hmain, proc_in_web_stop; eauto; [by rewrite Em|by apply wstep_clients].
  - destruct (decide (cleanup_thread_ p = KNone \/ cleanup_thread_ p = KEnd)) as [Hc|Hc]; [eapply Hmain; by apply proc_join|].
    exists PCleanup. eexists. split; [done|]. apply proc_cleanup; tauto.
  - eapply Hmain. by apply proc_notify.
Qed.

(** No step that counts makes a client stall or adds one. *)
Lemma server_adds_no_client a w w' :
  web_move a w w' -> a <> WConnection -> ws_clients_ (connections w') ⊆ ws_clients_ (connections w).
Proof.
  assert (E : forall f x, connections (on_listen f x) = connections x) by (intros f x; unfold on_listen; by destruct (f _ _)).
  intros Hm Ha. destruct Hm; try done;
    unfold web_socket, web_bind, web_listen, web_fail, web_check, web_wait, web_select; rewrite ?E; try done.
  - change (connections (web_stop_close k s)) with (connections (on_listen (fun t l => (closeIfOpen k t l).2) s)). by rewrite E.
  - by destruct connection.
Qed.

Lemma thread_keeps_clients w w' : web_move WThread w w' -> ws_clients_ (connections w') = ws_clients_ (connections w).
Proof.
  assert (E : forall f x, connections (on_listen f x) = connections x) by (intros f x; unfold on_listen; by destruct (f _ _)).
  intros Hm. inversion Hm; subst;
    unfold web_socket, web_bind, web_listen, web_fail, web_check, web_wait, web_select; rewrite ?E; try done. by destruct connection.
Qed.

Lemma own_not_blocked a p p' : proc_step a p p' -> own p a -> ~ blocked p -> ~ blocked p'.
Proof.
  assert (Hmono : forall w w', ws_clients_ (connections w') ⊆ ws_clients_ (connections w) ->
    stalled p ∩ ws_clients_ (connections w') <> ∅ -> stalled p ∩ ws_clients_ (connections w) <> ∅).
  { clear. intros w w' Hsub Hx Ey. apply Hx. set_solver. }
  intros Hstep Ha Hb. unfold blocked in *. inversion Hstep; subst; simpl in *; try done; try (by destruct (web_server_ p)).
  - rewrite intersection_empty_r_L. tauto.
  - by rewrite H0 in Hb.
  - by destruct (stop_requested p).
  - by rewrite H1 in Hb.
  - rewrite H1 in Hb. intros Hx. apply Hb. eapply Hmono; [|exact Hx]. by eapply server_adds_no_client.
  - rewrite H in Hb. intros Hx. apply Hb. eapply Hmono; [|exact Hx]. eapply server_adds_no_client; [done|]. by intros ->.
Qed.

(** The steps that count, until the process has come to its end. *)
Inductive proc_run : nat -> Process -> Process -> Prop :=
  | proc_run_nil p : proc_run 0 p p
  | proc_run_own a n p p1 p2 :
      own p a -> (main_at p < 17)%nat -> proc_step a p p1 -> proc_run n p1 p2 -> proc_run (S n) p p2
  | proc_run_free a n p p1 p2 : ~ own p a -> proc_step a p p1 -> proc_run n p1 p2 -> proc_run n p p2.

Lemma proc_run_bounded n p p' : proc_run n p p' -> life p -> winding_down p -> (n + proc_rank p' <= proc_rank p)%nat.
Proof.
  induction 1 as [p|a n p p1 p2 Ha _ Hs _ IH|a n p p1 p2 _ Hs _ IH]; intros Hl Hwd; [simpl; lia|..];
    destruct (rank_step _ _ _ Hs Hl Hwd) as [Hle Hlt];
    specialize (IH ltac:(by eapply life_step) ltac:(by eapply winding_step)); [specialize (Hlt Ha)|]; lia.
Qed.

Definition own_step p p' : Prop := exists a, own p a /\ proc_step a p p'.

Lemma own_steps_any p p' : rtc own_step p p' -> rtc proc_any_step p p'.
Proof. intros Hr. induction Hr as [|p p1 p2 (a & _ & Hs) _ IH]; [done|]. eapply rtc_l; [by exists a|done]. Qed.

Lemma main_at_step a p p' : proc_step a p p' -> winding_down p -> (main_at p' <= S (main_at p))%nat.
Proof.
  unfold winding_down. intros Hstep Hwd. inversion Hstep; subst; simpl; try lia.
  - at_instr H. lia.
  - destruct (stop_requested p); simpl; lia.
Qed.

(** The steps that count can lead to any later place of the main thread. *)
Lemma proc_run_to m n p :
  (proc_rank p <= n)%nat -> life p -> winding_down p -> ~ blocked p -> (main_at p <= m <= 17)%nat ->
  exists p', rtc own_step p p' /\ main_at p' = m.
Proof.
  revert p. induction n as [|n IH]; intros p Hn Hl Hwd Hb Hm;
    (destruct (decide (main_at p = m)); [by exists p|]);
    destruct (proc_progress p) as (a & p1 & Ha & Hs); try done; try lia;
    destruct (rank_step _ _ _ Hs Hl Hwd) as [_ Hlt]; specialize (Hlt Ha); [lia|].
  pose proof (main_at_step _ _ _ Hs Hwd).
  destruct (IH p1) as (p' & Hr & He); [lia|by eapply life_step|by eapply winding_step|by eapply own_not_blocked|lia|].
  exists p'. split; [|done]. eapply rtc_l; [by exists a|done].
Qed.

Lemma reachable_winding p p' : life p -> winding_down p -> rtc proc_any_step p p' -> life p' /\ winding_down p'.
Proof.
  intros Hl Hwd Hr. induction Hr as [p|p p1 p2 [a Hs] _ IH]; [done|]. apply IH; [by eapply life_step|by eapply winding_step].
Qed.

(** C9: once a signal was noticed and the first [App::stop] has begun, the process comes to
    its end, through both calls of [stop] and the destructors.  The main thread, the cleanup
    thread and the threads of the servers that are being stopped have a bounded number of
    steps left, three for each connection of the receiver, whatever web connections and the
    world do; and as long as no WebSocket client stalls one of them can take a step. *)
Theorem process_comes_to_its_end p :
  proc_reachable p -> winding_down p ->
  (forall n p', proc_run n p p' ->
     (n <= 243 + 3 * match syslog_server_ p with Some s => length (client_threads_ s) | None => 0 end)%nat) /\
  (forall p', rtc proc_any_step p p' -> (main_at p' < 17)%nat -> ~ blocked p' -> exists a p'', own p' a /\ proc_step a p' p'') /\
  (~ blocked p -> exists p', rtc proc_any_step p p' /\ main_at p' = 17%nat).
Proof.
  intros Hr Hwd. pose proof (reachable_life _ _ _ _ Hr) as Hl. split_and!.
  - intros n p' Hrun. pose proof (proc_run_bounded _ _ _ Hrun Hl Hwd). pose proof (rank_start p Hl Hwd). lia.
  - intros p' Hr' Hn Hb. destruct (reachable_winding p p' Hl Hwd Hr'). by apply proc_progress.
  - intros Hb. destruct (proc_run_to 17 (proc_rank p) p) as (p' & Hr' & He); try done; [pose proof (lf_at _ _ _ _ Hl); lia|].
    exists p'. split; [by apply own_steps_any|done].
Qed.

(** ** A client that stalls *)

(** A client thread of the receiver whose last line is not delivered yet, and whose handler
    will broadcast. *)
Definition undelivered (c : Client) : Prop :=
  ct_pc c = CFinish /\ exists line, line ∈ deliver config (pending (ct_conn c)) (ct_ip c) /\ broadcasts line.1 = true.

(** [main] is in [SyslogServer::stop], which waits for such a thread, and a WebSocket client
    does not read. *)
Definition jammed p : Prop :=
  main_at p = 6%nat /\ inside p = true /\ blocked p /\
  exists s i c, syslog_server_ p = Some s /\ stopping s /\ client_threads_ s !! i = Some c /\ undelivered c.

Lemma deliver_pending_nil ip : deliver config [] ip = [].
Proof. unfold deliver, boundedLine. by destruct (_ <? _). Qed.

(** The thread cannot deliver the line when calls that broadcast do not return. *)
Lemma flush_blocked (R : call -> Prop) c :
  undelivered c -> (forall x, R x -> broadcasts x.1 = false) -> ~ returning R (calls (ct_conn c)) (calls (ct_conn (client_flush config c))).
Proof.
  intros (_ & line & Hl & Hb) HR (made & E & Hm). revert E. simpl. rewrite decide_True.
  - simpl. intros E%app_inv_head. rewrite <- E in Hm. eapply Forall_forall in Hm; [|exact Hl]. apply HR in Hm. congruence.
  - intros E. rewrite E, deliver_pending_nil in Hl. by apply not_elem_of_nil in Hl.
Qed.

(** Any other step of the receiver leaves the thread where it is. *)
Lemma client_stays R a s s' i c :
  SyslogThreads.step config inet_pton inet_ntop R a s s' -> (forall x, R x -> broadcasts x.1 = false) ->
  stopping s -> client_threads_ s !! i = Some c -> undelivered c -> stopping s' /\ client_threads_ s' !! i = Some c.
Proof.
  intros Hstep HR Hst Hi Hu.
  assert (Hpc : ct_pc c = CFinish) by apply Hu.
  assert (Hother : forall j c0 c', client_threads_ s !! j = Some c0 -> ct_pc c0 <> CFinish -> <[j := c']> (client_threads_ s) !! i = Some c).
  { intros j c0 c' Hj Hc0. rewrite list_lookup_insert_ne; [done|]. intros ->. congruence. }
  destruct (decide (a = AMain)) as [->|Ha].
  - inversion Hstep as [q Hm|q Hm|q k y Hm|q y Hm _|q Hm Hexit| | | | | | | | | | | | | |]; subst; unfold stopping in *.
    + by rewrite Hm in Hst.
    + destruct Hm as [Hm|[Hm|Hm]]; by rewrite Hm in Hst.
    + destruct (on_listener_spec q (fun t l => (closeIfOpen k t l).2) s) as (_ & _ & _ & [_ _ _ E _ _ _ _]). unfold stop_close. simpl. rewrite E.
      destruct (closeIfOpen k (sockets s) (listener q s)).1; by destruct q.
    + by destruct q.
    + eapply Forall_lookup_1 in Hexit; [|exact Hi]. congruence.
  - split; [unfold stopping in *; by destruct (thread_step_main _ _ _ _ _ _ (step_any _ _ _ _ _ _ _ Hstep) Ha) as [-> _]|].
    destruct Hstep as [s Hm|s Hm|q k s Hm|q s Hm _|s Hm Hexit|q fd s Hpc'|q parsed ok s Hpc' _|ok s Hpc' _|q k s Hpc'|q s Hpc'|q s Hpc'|q fd ready s Hpc'
      |received s Hpc' _ _|connection s Hpc' _|j c0 s Hj Hpc'|j c0 r s Hj Hpc' _ _|j c0 s Hj Hpc' Hret|fd s [H0 Hf]|fd s Hfd]; try done;
      try (unfold run_socket, run_bind, run_listen, run_fail, run_check, run_wait, run_select;
           match goal with |- context [on_listener ?q ?f ?y] => by destruct (on_listener_spec q f y) as (_ & _ & _ & [_ _ _ -> _ _ _ _]) end).
    + unfold udp_receive. by destruct received as [[]|].
    + unfold tcp_accept. destruct connection as [[]|]; cbv zeta; [case_match|]; simpl; auto. by apply lookup_app_l_Some.
    + eapply Hother; [done|congruence].
    + eapply Hother; [done|congruence].
    + destruct (decide (j = i)) as [->|Hj']; [|simpl; by rewrite list_lookup_insert_ne].
      assert (c0 = c) as -> by congruence. by destruct (flush_blocked R c).
Qed.

(** The steps that leave the stalled clients as they are and connected. *)
Definition jam_step p p' : Prop := exists a, a <> PWeb WConnection /\ stalled p' = stalled p /\ proc_step a p p'.

Lemma jammed_step p p' : jam_step p p' -> jammed p -> jammed p'.
Proof.
  intros (a & Ha & Est & Hstep) (Hn & Hin & Hb & s & i & c & Es & Hst & Hi & Hu).
  assert (Hkeep : forall p1, main_at p1 = main_at p -> inside p1 = inside p -> syslog_server_ p1 = syslog_server_ p ->
    web_server_ p1 = web_server_ p -> stalled p1 = stalled p -> jammed p1).
  { intros p1 E1 E2 E3 E4 E5. unfold jammed, blocked in *. rewrite E1, E2, E3, E4, E5. split_and!; eauto 10. }
  assert (HR : forall x, call_returns p x -> broadcasts x.1 = false) by (by intros x [?|?]).
  inversion Hstep as [others q Hp _ Ho|q Hp _|w q Hp Ew|s0 q Hp Es0|q Hp|q Hp|q Hp|q Hp Es0|s0 q Hp Ei Es0|s0 s' q Hp Ei Es0 Hm Hs|s0 q Hp Ei Es0 Hm
    |q Hp Ew|w q Hp Ei Ew|w w' q Hp Ei Ew Hm _ Hs|w q Hp Ei Ew Hm|q Hp Hend|q Hp|b s0 s' q Es0 Hb0 Hs|b w w' q Ew Hb0 Hs|q Hk1 Hk2 _|q Hq|q Hq|q Hq|q Hq|q|fds q];
    subst; try (by apply Hkeep); try (at_instr Hp; lia); try congruence.
  - assert (s0 = s) as -> by congruence. destruct (client_stays _ AMain s s' i c Hs HR Hst Hi Hu) as [Hst' Hi'].
    split_and!; try done. by exists s', i, c.
  - assert (s0 = s) as -> by congruence. unfold stopping in Hst. by rewrite Hm in Hst.
  - assert (s0 = s) as -> by congruence. destruct (client_stays _ b s s' i c Hs HR Hst Hi Hu) as [Hst' Hi']. split_and!; try done. by exists s', i, c.
  - split_and!; try done; [|by exists s, i, c]. unfold blocked in *. simpl. rewrite Ew in Hb.
    assert (E : ws_clients_ (connections w') = ws_clients_ (connections w)); [|by rewrite E].
    destruct b; [done| |done]. by eapply thread_keeps_clients.
Qed.

(** *** [App::wait] *)

Lemma waiter_step a p p' :
  proc_step a p p' -> a <> POutside -> a <> PWaiter -> waiter p <> TBlocked -> waiter p' = waiter p.
Proof.
  intros Hstep Ho Hw Hb. inversion Hstep; subst; try done.
  - by destruct (stop_requested p).
  - simpl. by destruct (waiter p).
Qed.

(** A thread that is blocked after the notification. *)
Lemma blocked_waiter_step a p p' :
  proc_step a p p' -> a <> POutside -> (10 <= main_at p)%nat -> (main_at p' <= 14)%nat -> waiter p = TBlocked -> waiter p' = TBlocked.
Proof.
  intros Hstep Ho Hn Hn' Hw. inversion Hstep; subst; try done; simpl; try congruence.
  - by destruct (stop_requested p).
  - at_instr H; simpl in Hn'; lia.
Qed.

(** Courses without a spurious wakeup, up to the notification of the second [stop]. *)
Definition undisturbed p p' : Prop := (main_at p' <= 14)%nat /\ exists a, a <> POutside /\ proc_step a p p'.

Lemma blocked_waiter_run p p' : rtc undisturbed p p' -> (10 <= main_at p)%nat -> waiter p = TBlocked -> waiter p' = TBlocked.
Proof.
  intros Hr. induction Hr as [p|p p1 p2 (Hn & a & Ha & Hs) _ IH]; intros H10 Hb; [done|].
  apply IH; [exact (stopped_stays _ _ _ _ _ _ Hs H10)|by eapply blocked_waiter_step].
Qed.

Lemma syslog_server_stays a p p' : proc_step a p p' -> is_Some (syslog_server_ p) -> is_Some (syslog_server_ p').
Proof. intros Hstep Hs. inversion Hstep; subst; simpl; try done. by destruct (stop_requested p). Qed.

End Ending.

(** ** Concrete courses *)

Section Courses.
Context (config : Config) (inet_pton : bytes -> option Z) (inet_ntop : Z -> option bytes).
Abbreviation proc_any_step := (proc_any_step config inet_pton inet_ntop).

(** Steps of the threads of a server alone. *)
Lemma web_threads_run w w' p :
  rtc (fun w w' => exists a, a <> WMain /\ web_move config inet_pton a w w') w w' -> web_server_ p = Some w ->
  rtc proc_any_step p (set_web w' p).
Proof.
  intros Hr. revert p. induction Hr as [w|w w1 w2 (a & Ha & Hs) _ IH]; intros p Ew.
  - replace (set_web w p) with p; [done|]. destruct p. unfold set_web. simpl in *. by rewrite Ew.
  - eapply rtc_l; [exists (PWeb a); by eapply proc_web|]. exact (IH (set_web w1 p) eq_refl).
Qed.

Lemma syslog_threads_run s s' p :
  rtc (fun s s' => exists a, a <> AMain /\ step config inet_pton inet_ntop any_call a s s') s s' -> syslog_server_ p = Some s -> ~ blocked p ->
  rtc proc_any_step p (set_syslog s' p).
Proof.
  intros Hr. revert p. induction Hr as [s|s s1 s2 (a & Ha & Hs) _ IH]; intros p Es Hb.
  - replace (set_syslog s p) with p; [done|]. destruct p. unfold set_syslog. simpl in *. by rewrite Es.
  - eapply rtc_l; [exists (PSyslog a); apply (proc_syslog _ _ _ a s s1); [done..|]|by apply (IH (set_syslog s1 p))].
    eapply step_mono; [|exact Hs]. intros x _. by left.
Qed.

Lemma proc_reachable_more p p' :
  proc_reachable config inet_pton inet_ntop p -> rtc proc_any_step p p' -> proc_reachable config inet_pton inet_ntop p'.
Proof. unfold proc_reachable. intros Hr Hr'. by etransitivity. Qed.

End Courses.

Definition tcp_config : Config := default_Config <| enable_tcp := true |>.

Abbreviation demo_proc_step := (proc_any_step tcp_config demo_pton demo_ntop).

(** Everything was started. *)
Definition demo_up : Process :=
  let p := make_servers {[ 2 := OForeign ]} new_Process in
  let p := next (set_web (web_start new_WebThreads) p) in
  let p := next (set_syslog (syslog_start tcp_config demo_start) p) in
  next (p <| cleanup_thread_ := KLoop |>).

Lemma demo_up_reachable : proc_reachable tcp_config demo_pton demo_ntop demo_up.
Proof.
  unfold demo_up. eapply rtc_l; [exists PMain; apply (proc_servers _ _ _ {[ 2 := OForeign ]})|].
  { done. }
  { apply (bool_decide_unpack _). vm_compute. exact I. }
  { apply map_Forall_singleton. by split. }
  eapply rtc_l; [exists PMain; by eapply proc_web_start|].
  eapply rtc_l; [exists PMain; by eapply proc_syslog_start|].
  eapply rtc_l; [exists PMain; by eapply proc_cleanup_start|]. done.
Qed.

(** A WebSocket client is connected, and a router, whose line has no end yet. *)
Definition demo_web_busy : WebThreads :=
  let w := web_accept (Some 5) (web_select true (web_wait (web_check (web_listen true (web_bind demo_pton demo_web_address true
             (web_socket tcp_config 3 (web_start new_WebThreads))))))) in
  w <| connections := upgrade 5 0 (connections w) |>.

Definition demo_tcp_address : Address := default (mkAddress [] 0) (parseAddress (syslog_tcp_addr tcp_config)).

Definition demo_connected : Threads :=
  tcp_accept tcp_config demo_ntop (Some (6, 0)) (run_select Tcp true (run_wait Tcp (run_check Tcp (run_listen true
    (run_bind demo_pton Tcp demo_tcp_address true (run_socket tcp_config Tcp 4 (syslog_start tcp_config demo_start))))))).

Definition demo_first (s : Threads) : Client := default (mkClient 0 0 [] CExit [] (mkTcpClient [] [])) (head (client_threads_ s)).

Definition demo_checked : Threads := update_client 0 (client_check (running_ demo_connected) (demo_first demo_connected)) demo_connected.

Definition demo_waiting : Threads := update_client 0 (client_recv tcp_config (RecvData "reboot") (demo_first demo_checked)) demo_checked.

Abbreviation demo_thread_steps := (rtc (fun s s' => exists a, a <> AMain /\ step tcp_config demo_pton demo_ntop any_call a s s')).

Lemma demo_connected_run : demo_thread_steps (syslog_start tcp_config demo_start) demo_connected.
Proof.
  unfold demo_connected.
  eapply rtc_l; [exists (AListener Tcp); split; [done|]; apply (step_socket _ _ _ _ Tcp 4); [by vm_compute|right; split; [done|by vm_compute]]|].
  eapply rtc_l; [exists (AListener Tcp); split; [done|]; apply (step_bind _ _ _ _ Tcp demo_tcp_address true); [by vm_compute|intros _; vm_compute; eauto]|].
  eapply rtc_l; [exists (AListener Tcp); split; [done|]; apply (step_listen _ _ _ _ true); [by vm_compute|intros _; vm_compute; eauto]|].
  eapply rtc_l; [exists (AListener Tcp); split; [done|]; apply step_check; by vm_compute|].
  eapply rtc_l; [exists (AListener Tcp); split; [done|]; apply step_wait; by vm_compute|].
  eapply rtc_l; [exists (AListener Tcp); split; [done|]; apply (step_select _ _ _ _ Tcp 4 true); by vm_compute|].
  eapply rtc_l; [exists (AListener Tcp); split; [done|]; apply (SyslogThreads.step_accept _ _ _ _ (Some (6, 0))); [by vm_compute|]|done].
  intros fd remote [= <- <-]. split; [vm_compute; eauto|]. split; [done|by vm_compute].
Qed.

Lemma demo_waiting_run : demo_thread_steps demo_connected demo_waiting.
Proof.
  apply (rtc_l _ _ demo_checked).
  - eexists. split; [|apply (step_client_check _ _ _ _ 0); by vm_compute]. done.
  - apply rtc_once. eexists. split; [|apply (step_client_recv _ _ _ _ 0 (demo_first demo_checked))]; [done|by vm_compute|by vm_compute| |].
    + intros chunk [= <-]. split; [done|simpl; lia].
    + exists []. by vm_compute.
Qed.

Definition demo_busy : Process := set_syslog demo_waiting (set_web demo_web_busy demo_up).

Lemma demo_busy_reachable : proc_reachable tcp_config demo_pton demo_ntop demo_busy.
Proof.
  unfold demo_busy. eapply proc_reachable_more; [apply demo_up_reachable|]. etransitivity.
  - apply (web_threads_run tcp_config demo_pton demo_ntop (web_start new_WebThreads) demo_web_busy); [|done]. unfold demo_web_busy.
    eapply rtc_l; [exists WThread; split; [done|]; apply (wstep_socket _ _ 3); [by vm_compute|right; split; [split; [done|by vm_compute]|by vm_compute]]|].
    eapply rtc_l; [exists WThread; split; [done|]; apply (wstep_bind _ _ demo_web_address true); [by vm_compute|intros _; vm_compute; eauto]|].
    eapply rtc_l; [exists WThread; split; [done|]; apply (wstep_listen _ _ true); [by vm_compute|intros _; vm_compute; eauto]|].
    eapply rtc_l; [exists WThread; split; [done|]; apply wstep_check; by vm_compute|].
    eapply rtc_l; [exists WThread; split; [done|]; apply wstep_wait; by vm_compute|].
    eapply rtc_l; [exists WThread; split; [done|]; apply (wstep_select _ _ 3 true); by vm_compute|].
    eapply rtc_l; [exists WThread; split; [done|]; apply (wstep_accept _ _ (Some 5)); [by vm_compute|]|].
    { intros fd [= <-]. split; [vm_compute; eauto|]. split; [split; [done|by vm_compute]|by vm_compute]. }
    eapply rtc_l; [|done]. exists WConnection; split; [done|]. apply (wstep_connection _ _ (upgrade 5 0 _)); [|by vm_compute].
    apply (step_upgrade 5 0); [by vm_compute|apply (bool_decide_unpack _); by vm_compute].
  - apply (syslog_threads_run tcp_config demo_pton demo_ntop (syslog_start tcp_config demo_start) demo_waiting);
      [|done|by apply (bool_decide_unpack _); vm_compute].
    etransitivity; [apply demo_connected_run|apply demo_waiting_run].
Qed.

(** A signal arrives, [main] notices it and is in the [stop] of the receiver. *)
Definition to_stop (p : Process) : Process :=
  let p := next (p <| stop_requested := true |>) in
  let p := next (p <| app_running := false |>) in
  match syslog_server_ p with Some s => set_syslog (stop_begin s) p <| inside := true |> | None => p end.

Lemma to_stop_run p s :
  main_at p = 4%nat -> inside p = false -> syslog_server_ p = Some s -> rtc demo_proc_step p (to_stop p).
Proof.
  intros Hn Hi Es. unfold to_stop.
  eapply rtc_l; [exists POutside; apply proc_signal|].
  eapply rtc_l; [exists PMain; apply proc_poll; unfold instr; simpl; by rewrite Hn|].
  eapply rtc_l; [exists PMain; apply proc_clear; unfold instr; simpl; by rewrite Hn|].
  simpl. rewrite Es. apply rtc_once. exists PMain. apply (proc_syslog_stop _ _ _ s); [unfold instr; simpl; by rewrite Hn|done|done].
Qed.

Definition demo_stopping : Process := to_stop demo_busy.

Lemma demo_stopping_reachable : proc_reachable tcp_config demo_pton demo_ntop demo_stopping.
Proof. eapply proc_reachable_more; [apply demo_busy_reachable|]. by eapply to_stop_run. Qed.

(** The WebSocket client stalls, and the thread of the router's connection sees the cleared flag. *)
Definition demo_stalling : Process := demo_busy <| stalled := {[ 5 ]} |>.

Definition demo_last : Threads :=
  let s := stop_begin demo_waiting in update_client 0 (client_check (running_ s) (demo_first s)) s.

Definition demo_jammed : Process := set_syslog demo_last (to_stop demo_stalling).

Lemma demo_jammed_reachable : proc_reachable tcp_config demo_pton demo_ntop demo_jammed.
Proof.
  eapply proc_reachable_more; [apply demo_busy_reachable|].
  eapply rtc_l; [exists POutside; apply (proc_stall _ _ _ {[ 5 ]})|].
  etransitivity; [apply (to_stop_run demo_stalling demo_waiting); done|].
  apply rtc_once. eexists. eapply (proc_syslog _ _ _ _ (stop_begin demo_waiting) demo_last); [done| |].
  2: { apply (step_client_check _ _ _ _ 0); by vm_compute. }
  done.
Qed.

(** C29: a WebSocket client that does not read keeps the process from its end.  [broadcast] sends
    without a timeout; when a thread of the receiver has a line left to deliver and the handler
    will broadcast, [SyslogServer::stop] waits for that thread, and [App::stop] does not return
    in any course of events, as long as the client neither reads nor is disconnected.  Such
    states are reached: one WebSocket client and one line without an end are enough. *)
Theorem stalled_client_blocks_stop :
  (forall config pton ntop p p', jammed config p -> rtc (jam_step config pton ntop) p p' ->
     main_at p' = 6%nat /\ inside p' = true) /\
  exists p, proc_reachable tcp_config demo_pton demo_ntop p /\ jammed tcp_config p.
Proof.
  split.
  - intros config pton ntop p p' Hj Hr. assert (H : jammed config p'); [|by destruct H as (? & ? & _)].
    induction Hr as [p|p p1 p2 Hs _ IH]; [done|]. apply IH. by eapply jammed_step.
  - exists demo_jammed. split; [apply demo_jammed_reachable|]. split; [done|]. split; [done|].
    split; [by apply (bool_decide_unpack _); vm_compute|].
    exists demo_last, 0%nat, (demo_first demo_last). split; [done|]. split; [done|]. split; [by vm_compute|].
    split; [by vm_compute|]. exists ("reboot" : bytes, "192.168.1.1" : bytes). split; [|by vm_compute].
    apply (bool_decide_unpack _). by vm_compute.
Qed.

(** A thread is in [wait]: it has tested the predicate and is about to block. *)
Definition demo_wait : Process := demo_busy <| waiter := TWait |>.

Lemma own_steps_waiter config pton ntop p p' : rtc (own_step config pton ntop) p p' -> waiter p <> TBlocked -> waiter p' = waiter p.
Proof.
  intros Hr. induction Hr as [p|p p1 p2 (a & Ha & Hs) _ IH]; intros Hw; [done|].
  assert (E : waiter p1 = waiter p) by (eapply waiter_step; [done|by intros ->|by intros ->|done]). rewrite <- E. apply IH. congruence.
Qed.

(** [App::wait] can sleep through a [stop].  [stop] clears the flag and notifies without
    [wait_mutex_]: when both happen between a waiting thread's test of the flag and the moment it
    blocks, the notification is lost; [stop] has returned, the flag is cleared, and nothing
    but a spurious wakeup or the destructor of [App] wakes the thread. *)
Theorem wait_can_sleep_through_stop :
  exists p, proc_reachable tcp_config demo_pton demo_ntop p /\ main_at p = 10%nat /\ app_running p = false /\ waiter p = TBlocked /\
    forall p', rtc (undisturbed tcp_config demo_pton demo_ntop) p p' -> waiter p' = TBlocked.
Proof.
  set (p0 := to_stop demo_wait).
  assert (Hr0 : proc_reachable tcp_config demo_pton demo_ntop p0).
  { eapply proc_reachable_more; [apply demo_busy_reachable|].
    eapply rtc_l; [exists PWaiter; by apply proc_wait_call|]. eapply rtc_l; [exists PWaiter; by apply proc_wait_test|].
    apply (to_stop_run demo_wait demo_waiting); done. }
  pose proof (reachable_life _ _ _ _ Hr0) as Hl.
  destruct (proc_run_to tcp_config demo_pton demo_ntop 10 (proc_rank p0) p0) as (p1 & Hr1 & Hn1); [done|done|by right|by apply (bool_decide_unpack _); vm_compute|simpl; lia|].
  assert (Hw1 : waiter p1 = TWait) by (by rewrite (own_steps_waiter _ _ _ _ _ Hr1)).
  pose proof (proc_reachable_more _ _ _ _ _ Hr0 (own_steps_any _ _ _ _ _ Hr1)) as Hreach.
  exists (p1 <| waiter := TBlocked |>). split_and!; [|done| |done|].
  - eapply proc_reachable_more; [exact Hreach|]. apply rtc_once. exists PWaiter. by apply proc_wait_block.
  - simpl. rewrite (lf_running _ _ _ _ (reachable_life _ _ _ _ Hreach)), Hn1. done.
  - intros p' Hr. eapply blocked_waiter_run; [exact Hr|simpl; lia|done].
Qed.

(** The process of [demo_busy] after its first [stop]. *)
Lemma stopped_app_is_silent_witness :
  exists p s, proc_reachable tcp_config demo_pton demo_ntop p /\ main_at p = 10%nat /\ syslog_server_ p = Some s /\
    cleanup_thread_ p = KNone /\ client_threads_ s = [].
Proof.
  pose proof (reachable_life _ _ _ _ demo_stopping_reachable) as Hl.
  destruct (proc_run_to tcp_config demo_pton demo_ntop 10 (proc_rank demo_stopping) demo_stopping) as (p & Hr & Hn);
    [done|done|by right|by apply (bool_decide_unpack _); vm_compute|simpl; lia|].
  pose proof (proc_reachable_more _ _ _ _ _ demo_stopping_reachable (own_steps_any _ _ _ _ _ Hr)) as Hreach.
  destruct (stopped_app_is_silent tcp_config demo_pton demo_ntop p Hreach) as (_ & Hk & Hs & _ & _); [unfold app_stopped; lia|].
  assert (Hsome : exists s, syslog_server_ p = Some s).
  { clear -Hr. assert (Hx : is_Some (syslog_server_ demo_stopping)) by (by eexists). revert Hx.
    induction Hr as [q|q q1 q2 (a & _ & Hs) _ IH]; intros Hx; [exact Hx|]. apply IH. by eapply syslog_server_stays. }
  destruct Hsome as [s Es]. exists p, s. split_and!; try done. by apply Hs.
Defined.

Lemma process_comes_to_its_end_witness :
  exists p', rtc demo_proc_step demo_stopping p' /\ main_at p' = 17%nat.
Proof.
  apply (process_comes_to_its_end tcp_config demo_pton demo_ntop demo_stopping demo_stopping_reachable); [by right|].
  by apply (bool_decide_unpack _); vm_compute.
Defined.
