(* ===== verification/Main.v ===== *)
(** * src/src/main.cpp: the command line

    The loop over the arguments and the exit code.  What runs between start and stop is an
    argument: whether it ends without an exception. *)

From S2P Require Import Prelude.

Inductive CommandLine : Type :=
  | RunWith (config_path : bytes)
  | PrintUsage
  | UnknownArgument (arg : bytes).

Definition default_config_path : bytes := "./config.example.yaml".

(** The loop over [argv[1]], [argv[2]], ...: the arguments left, and [config_path]. *)
Fixpoint parse_arguments (args : list bytes) (config_path : bytes) : CommandLine :=
  match args with
  | [] => RunWith config_path
  | arg :: rest =>
      if decide (arg = "--help" \/ arg = "-h") then PrintUsage
      else if decide (arg = "--config") then
        match rest with
        | path :: rest => parse_arguments rest path
        | [] => UnknownArgument arg
        end
      else UnknownArgument arg
  end.

(** The exit code of [main]. *)
Definition main (run : bytes -> bool) (args : list bytes) : Z :=
  match parse_arguments args default_config_path with
  | RunWith config_path => if run config_path then 0 else 2
  | PrintUsage => 0
  | UnknownArgument _ => 2
  end.

Definition config_arguments (paths : list bytes) : list bytes := paths ≫= (fun p => ["--config" : bytes; p]).

Lemma parse_arguments_configs paths rest path :
  parse_arguments (config_arguments paths ++ rest) path = parse_arguments rest (default path (last paths)).
Proof.
  revert path. induction paths as [|p paths IH]; intros path; [done|].
  change (config_arguments (p :: paths)) with (("--config" : bytes) :: p :: config_arguments paths).
  cbn [app parse_arguments]. rewrite decide_False by (by intros [?|?]). rewrite decide_True, IH by done.
  f_equal. destruct paths as [|q paths]; [done|]. change (last (p :: q :: paths)) with (last (q :: paths)).
  by destruct (last (q :: paths)) eqn:E; [|apply last_None in E].
Qed.

(** the program runs with the last configuration file named, and with the example file when
    none is; asking for help after any number of files exits with success and runs nothing;
    any other argument, and a [--config] without a file, exits with 2 and runs nothing. *)
Theorem command_line_decides run paths :
  main run (config_arguments paths) = (if run (default default_config_path (last paths)) then 0 else 2) /\
  (forall rest, main run (config_arguments paths ++ ("--help" : bytes) :: rest) = 0) /\
  (forall (arg : bytes) rest, arg <> "--help" -> arg <> "-h" -> arg <> "--config" \/ rest = [] ->
     main run (config_arguments paths ++ arg :: rest) = 2).
Proof.
  unfold main. rewrite <- (app_nil_r (config_arguments paths)) at 1. rewrite parse_arguments_configs.
  split; [done|]. split; [intros rest; by rewrite parse_arguments_configs|].
  intros arg rest H1 H2 H3. rewrite parse_arguments_configs. cbn [parse_arguments].
  rewrite decide_False by tauto. case_decide as Hc; [|done]. by destruct H3 as [?| ->].
Qed.
